(* ===== verification/_CoqProject ===== *)
-Q . S2P
Prelude.v
Vaddr.v
Bitmap.v
CString.v
Random.v
Arc4.v
Cksum.v
StringLib.v
Arith64.v
Ctype.v
CStdlib.v
Stdio.v
StdioSpec.v
Interfaces.v
Ports.v
IntrTable.v
Palloc.v
KList.v
KLists.v
KListSort.v
Hash.v
HashSpec.v
Malloc.v
MallocSpec.v
Kernel.v
KernelInv.v
KernelStep.v
KernelSched.v
KernelLock.v
PallocSpec.v
HeapSpec.v
Paging.v
KernelSwitch.v
KernelSafe.v
KernelBoot.v
KernelFair.v
KernelSpec.v
Rtc.v
Pit.v
Timer.v
Vga.v
Kbd.v
Cmdline.v
Block.v
Partition.v
PartitionSpec.v
BlockSpec.v
Ide.v
IdeInit.v
IdeSpec.v
IdeBoot.v
Intq.v
CharIo.v
CharIoSpec.v
