(* ===== verification/Prelude.v ===== *)
(** * Pintos: a verification library for the kernel

    The repository is the Pintos teaching kernel for the 80x86 with a page allocator that
    can switch between placement policies.  This library models its C code as Rocq
    functions and proves what the components promise to each other.

    ** How C code is modelled

    A pure C function is a Rocq function on [Z] with the wrap-around of its type written
    out ([u8], [u16], [u32], [u64], [i32], [i64] below; [size_t] and pointers have 32
    bits).  A C function that can stop the kernel returns in the error monad [res]: [Err]
    is a failed [ASSERT], a [PANIC], an access outside the objects the model knows, an
    access to a list in the middle of another thread's change ([DataRace]), a call that
    would have to sleep where the model has no scheduler, or a loop cut off by the model.  [returns m Q] says that [m] is [Ok] with a result in [Q], so every theorem of
    that form includes the absence of panics and termination.  Loops are [loop fuel] or
    [while], which runs at most 2^33 rounds: more than any loop over a 32-bit counter or
    address can make.  The rules [returns_loop] and [returns_while] ask for a measure
    below the fuel, so lack of fuel is excluded wherever [returns] is proved.  State is
    passed explicitly, as records named after the C structures.

    ** The parts and their files

    Foundations of the C code:
    - [Prelude]: the monad, loops, machine integers, tactics, the hint base [pintos];
    - [Vaddr]: threads/vaddr.h, threads/pte.h, lib/round.h;
    - [CString], [StringLib]: lib/string.c on byte-addressed memory;
    - [Arith64]: lib/arithmetic.c, 64-bit division from the DIVL instruction;
    - [Ctype], [CStdlib]: lib/ctype.h and lib/stdlib.c ([atoi], heap sort, binary search);
    - [Stdio], [StdioSpec]: lib/stdio.c, the formatter over any output function;
    - [Random]: lib/random.c;
    - [Arc4], [Cksum]: the cipher and the checksum of the tests (tests/arc4.c,
      tests/cksum.c).

    Data structures and memory:
    - [Bitmap]: lib/kernel/bitmap.c on words, an instance of [BitArray];
    - [KList], [KLists], [KListSort]: lib/kernel/list.c on a heap of link cells;
    - [Hash], [HashSpec]: lib/kernel/hash.c on the lists, its bucket array in a block of
      any allocator that meets [BlockOps];
    - [Interfaces]: the classes [LockOps] (what threads/synch.c promises to the
      allocators) and [BlockOps] (what threads/malloc.c promises to hash tables);
    - [Palloc], [PallocSpec]: threads/palloc.c over any [BitArray] and [LockOps];
    - [Malloc], [MallocSpec], [HeapSpec]: threads/malloc.c over the page allocator and the
      lists, an instance of [BlockOps];
    - [Paging]: [paging_init] of threads/init.c, the page tables in pages of the allocator.

    Threads:
    - [Kernel]: threads/thread.c, threads/synch.c, the interrupt level and the dispatch of
      interrupts of threads/interrupt.c, the tick and [timer_sleep] of devices/timer.c.
      The state is one record, a thread has the list of points it still has to execute,
      and a step is the next point of the running thread, a call by its function, or an
      interrupt.  A point is a stretch of code with interrupts off, or one whose effects no
      other thread can see in between; the push of a new thread on [all_list], which
      [init_thread] does with interrupts on, is therefore two points.
    - [KernelInv], [KernelStep], [KernelSched], [KernelSwitch], [KernelBoot], [KernelSafe],
      [KernelFair]: the invariant of this machine and its preservation;
    - [KernelSpec]: the theorems on reachable states;
    - [KernelLock]: the locks of the machine as an instance of [LockOps].

    Devices and the start of the kernel:
    - [Ports]: the port instructions of threads/io.h, which extend a trace of accesses; the
      devices are a [Device], a function from traces to what a port answers;
    - [IntrTable]: the descriptor table, the registration of handlers and the interrupt
      controllers of threads/interrupt.c;
    - [Rtc], [Pit]: devices/rtc.c and devices/pit.c;
    - [Timer]: the delays and the calibration of devices/timer.c; [Pausing] says what
      happens while a thread sleeps;
    - [Vga]: devices/vga.c and devices/speaker.c, with a terminal as specification;
    - [Kbd], [Intq], [CharIo], [CharIoSpec]: devices/kbd.c, intq.c, serial.c and input.c on
      the thread machine, with threads that sleep in the queues;
    - [Cmdline]: the command line of threads/init.c and the table of tests;
    - [Block], [BlockSpec]: devices/block.c over any allocator ([BlockOps]) and any disk
      driver ([Driver]: reading and writing a sector);
    - [Partition], [PartitionSpec]: devices/partition.c on the block layer;
    - [Ide], [IdeInit]: devices/ide.c, the transfers and the detection of disks, on port
      traces; the requests of the controllers are an [Irq], and the interrupt handler runs
      where an interrupt can arrive;
    - [IdeSpec], [IdeBoot]: channels of ATA disks as automata over the accesses to their
      ports, and the driver on them, an instance of [Driver].

    ** What the theorems show

    - Threads ([KernelSpec]): from boot on no assertion of thread.c and synch.c fails, as
      long as callers keep the written contracts, up to two hazards that callers cannot
      avoid: a creation or an exit while another thread was interrupted inside its push on
      [all_list] ([race]), and an exit while another thread was preempted inside the page
      pool ([exit_busy]), which is shown to panic the kernel when that thread is next to
      run.  Every thread is where its status says; a lock has at most one owner at every
      moment; no wakeup of a semaphore is lost; waiting threads are woken in order, and a
      ready thread runs after as many switches as threads were in front of it; a page is
      never in two places and never lost.
    - Pages ([PallocSpec]): the blocks in use are disjoint and cover exactly the used
      pages, whatever sequence of calls and mode switches; each mode finds the block its
      policy asks for; failure, panic and misuse are characterised; the tests of the
      allocator pass.  buddy_system_free is shown to free its neighbours' pages.
    - Blocks ([HeapSpec]): the same for [malloc], [calloc], [realloc] and [free], for all
      sizes up to 2^32 - 12; larger ones are shown to wrap.  A hash table on this heap
      behaves as a set through all rehashing.
    - Page tables ([Paging]): the CPU's walk through what [paging_init] builds is the 1:1
      kernel map, read-only for the kernel text.
    - Library ([CStdlib], [StdioSpec], [StringLib], [Arith64], [Bitmap], [KListSort]):
      functional correctness, bounds of buffers, round trips, and the inputs on which the
      code does not do what its comments say.
    - Character devices ([CharIoSpec], [Vga]): what is written to the serial port leaves it
      in order, what arrives is read in order, each with the flow control of the port; the
      display shows what a terminal shows.  An example run has two readers of one queue
      panic.
    - Disks ([PartitionSpec], [BlockSpec], [IdeSpec], [IdeBoot]): a device is a window of a
      disk, the registry stays well formed, the scan of a partition table ends exactly on
      tables that do not lead back into themselves; on ATA channels the driver transfers
      sectors through registers, commands and interrupts, and its initialisation registers
      exactly the disks below 1 GB and what the scans of their tables find.  These are the
      partitions of a table without extended entries; where a table has one, the scan takes
      the primary partitions for logical ones.  Through [Driver] the theorems on block
      devices hold for this driver.
    - Start and interrupts ([Cmdline], [IntrTable], [Timer], [Rtc]): the options and actions
      of a command line run in order, every vector has a gate to its own stub, the
      calibration ends within bounds, and the clock is shown to be a month late (for dates
      up to 2037, after which its arithmetic overflows).
    - Tests' helpers ([Cksum], [Arc4]): the checksum is a polynomial remainder, the cipher
      decrypts what it encrypted.

    Theorems about a property of the system carry a number in their comment, with a
    witness behind them that applies them to a concrete input.

    ** Assumptions and parameters

    Comparison and hash functions of callers are parameters, with the laws the comments of
    the C code ask for (a weak order; equal elements hash alike).  The choice of a free
    page in [Kernel] is any [PageChoice]: the thread layer does not depend on the policy
    of the allocator.  The physical memory size and the addresses of the kernel image are
    arguments.  Devices, interrupt requests, latencies of commands and the contents of disks
    are parameters too; the theorems on disks assume that the channels follow the ATA protocol ([obeys]) and
    answer within the time the driver waits ([prompt]).  Witnesses instantiate all of these
    by concrete functions.  Recursion over devices and partition tables has a depth: the
    length of the list of devices, which bounds how they are stacked, and 3 for partition
    tables, which [PartitionSpec] shows to be enough whenever the C code returns.

    ** Not modelled

    Assembly (loader.S, start.S, intr-stubs.S, switch.S apart from the change of the
    current thread) and the linker script: they set up and switch the machine with privileged
    instructions.  devices/shutdown.c, which ends the run.  Console output, panic messages and
    backtraces (lib/kernel/console.c, lib/debug.c): output is a list of messages where a
    component has any, with sizes as numbers, not as text.  lib/ustar.c, which no other C
    code of the repository calls.  User programs, which need system calls and a file system
    that this kernel does not have; the test harness and the host-side tools. *)

From stdpp Require Import base list gmap numbers.
From Stdlib Require Import ZArith Lia.

#[export] Set Default Goal Selector "!".
Local Open Scope Z_scope.

(** ** Outcomes of C code

    A C function returns a value, or the kernel stops: an [ASSERT] fails, a
    [PANIC] or [NOT_REACHED] is reached, or memory that the object does not own is
    accessed.  [WouldBlock] marks a call that gives the CPU away (a contended
    lock); [NoFuel] marks a loop of the model cut off before it ends; [MachineOff] is
    the end of a run by a reset or power off; [DataRace] is an access to a shared list that
    another thread was interrupted in the middle of changing. *)
Inductive fault :=
| AssertFail
| KernelPanic
| BadAccess
| WouldBlock
| NoFuel
| MachineOff
| DataRace.

#[export] Instance fault_eq_dec : EqDecision fault.
Proof. solve_decision. Defined.

Inductive res (A : Type) :=
| Ok (a : A)
| Err (e : fault).
Arguments Ok {A} a.
Arguments Err {A} e.

#[export] Instance res_ret : MRet res := fun A a => Ok a.
#[export] Instance res_bind : MBind res := fun A B f m =>
  match m with Ok a => f a | Err e => Err e end.
#[export] Instance res_fmap : FMap res := fun A B f m =>
  match m with Ok a => Ok (f a) | Err e => Err e end.
#[export] Instance res_eq_dec {A} `{!EqDecision A} : EqDecision (res A).
Proof. solve_decision. Defined.

(** [ASSERT (CONDITION)] of lib/debug.h. *)
Definition ASSERT (b : bool) : res unit :=
  if b then Ok tt else Err AssertFail.

(** ** Total correctness of a computation

    [returns m Q]: [m] returns normally (no failed assertion, no panic, no bad
    access, no lack of fuel) and its result satisfies [Q]. *)
Definition returns {A} (m : res A) (Q : A -> Prop) : Prop :=
  match m with Ok a => Q a | Err _ => False end.

Section Returns.
Context {A B : Type}.
Implicit Types (m : res A) (Q : A -> Prop).

Lemma returns_ok (a : A) Q : Q a -> returns (Ok a) Q.
Proof. done. Qed.

Lemma returns_bind m (f : A -> res B) (Q : B -> Prop) :
  returns m (fun a => returns (f a) Q) -> returns (m ≫= f) Q.
Proof. by destruct m. Qed.

Lemma returns_mono m Q Q' :
  returns m Q -> (forall a, Q a -> Q' a) -> returns m Q'.
Proof. destruct m; simpl; auto. Qed.

Lemma returns_eq m a : returns m (fun x => x = a) <-> m = Ok a.
Proof. destruct m; simpl; split; intros; by simplify_eq. Qed.

Lemma returns_inv m Q : returns m Q -> exists a, m = Ok a /\ Q a.
Proof. destruct m; simpl; [eauto | done]. Qed.

Lemma returns_of_eq m a Q : m = Ok a -> Q a -> returns m Q.
Proof. by intros ->. Qed.

Lemma bind_ok (a : A) (f : A -> res B) : Ok a ≫= f = f a.
Proof. done. Qed.

Lemma bind_ok_inv m (f : A -> res B) b :
  m ≫= f = Ok b -> exists a, m = Ok a /\ f a = Ok b.
Proof. destruct m; simpl; [eauto | done]. Qed.
End Returns.

Lemma returns_assert (b : bool) (Q : unit -> Prop) :
  b = true -> Q tt -> returns (ASSERT b) Q.
Proof. by intros ->. Qed.

Lemma assert_bind {A} (b : bool) (f : unit -> res A) : b = true -> (ASSERT b ≫= f) = f tt.
Proof. by intros ->. Qed.

Lemma assert_ok_inv b u : ASSERT b = Ok u -> b = true.
Proof. by destruct b. Qed.

(** ** Loops

    [loop fuel body s] iterates [body] from the loop state [s]: [inl s'] goes
    round again, [inr r] leaves the loop with [r].  The rule [returns_loop] is the
    total-correctness rule: an invariant and a decreasing measure below the fuel. *)
Fixpoint loop {S R : Type} (fuel : nat) (body : S -> res (S + R)) (s : S) : res R :=
  match fuel with
  | O => Err NoFuel
  | Datatypes.S n =>
      r ← body s;
      match r with
      | inl s' => loop n body s'
      | inr out => Ok out
      end
  end.

Lemma returns_loop {S R} (Inv : S -> Prop) (measure : S -> nat) (Q : R -> Prop)
    (body : S -> res (S + R)) :
  (forall s, Inv s ->
     returns (body s) (fun r =>
       match r with
       | inl s' => Inv s' /\ (measure s' < measure s)%nat
       | inr out => Q out
       end)) ->
  forall fuel s, Inv s -> (measure s < fuel)%nat -> returns (loop fuel body s) Q.
Proof.
  intros Hbody fuel. induction fuel as [|n IH]; intros s Hs Hm; [lia|].
  simpl. apply returns_bind.
  eapply returns_mono; [exact (Hbody s Hs)|].
  intros [s'|out]; simpl; [|done]. intros [Hs' Hlt]. apply IH; [done|lia].
Qed.

(** The same rule with the number of rounds left as an index of the invariant. *)
Lemma returns_loop_ix {S R} (Inv : nat -> S -> Prop) (Q : R -> Prop) (body : S -> res (S + R)) :
  (forall n s, Inv n s ->
     returns (body s) (fun r =>
       match r with
       | inl s' => exists n', (n' < n)%nat /\ Inv n' s'
       | inr out => Q out
       end)) ->
  forall fuel n s, Inv n s -> (n < fuel)%nat -> returns (loop fuel body s) Q.
Proof.
  intros Hbody fuel. induction fuel as [|k IH]; intros n s Hs Hm; [lia|].
  simpl. apply returns_bind.
  eapply returns_mono; [exact (Hbody n s Hs)|].
  intros [s'|out]; simpl; [|done]. intros (n' & Hlt & Hs'). apply (IH n'); [done|lia].
Qed.

(** Every run of the loop that ends satisfies what the body guarantees. *)
Lemma loop_more_fuel {S R} (body : S -> res (S + R)) fuel fuel' s r :
  loop fuel body s = Ok r -> (fuel <= fuel')%nat -> loop fuel' body s = Ok r.
Proof.
  revert fuel' s. induction fuel as [|n IH]; intros [|n'] s H Hle; simpl in *; try done; [lia|].
  destruct (body s) as [[s'|out]|]; simpl in *; try done. apply IH; [done|lia].
Qed.

(** ** Two computations with related results

    They both return, related values, or they both stop with the same fault. *)
Definition res_rel {A B} (R : A -> B -> Prop) (m1 : res A) (m2 : res B) : Prop :=
  match m1, m2 with Ok a, Ok b => R a b | Err e, Err e' => e = e' | _, _ => False end.

Definition sum_rel {A B C D} (R : A -> B -> Prop) (Q : C -> D -> Prop) (x : A + C) (y : B + D) : Prop :=
  match x, y with inl a, inl b => R a b | inr c, inr d => Q c d | _, _ => False end.

Lemma res_rel_bind {A B C D} (R : A -> B -> Prop) (Q : C -> D -> Prop) m1 m2 f1 f2 :
  res_rel R m1 m2 -> (forall a b, R a b -> res_rel Q (f1 a) (f2 b)) -> res_rel Q (m1 ≫= f1) (m2 ≫= f2).
Proof. destruct m1, m2; simpl; try done; auto. Qed.

Lemma res_rel_same {A B C} (Q : B -> C -> Prop) (m : res A) f1 f2 :
  (forall a, res_rel Q (f1 a) (f2 a)) -> res_rel Q (m ≫= f1) (m ≫= f2).
Proof. destruct m; simpl; auto. Qed.

Lemma res_rel_mono {A B} (R R' : A -> B -> Prop) m1 m2 :
  res_rel R m1 m2 -> (forall a b, R a b -> R' a b) -> res_rel R' m1 m2.
Proof. destruct m1, m2; simpl; auto. Qed.

Lemma res_rel_loop {S1 S2 R1 R2} (Rs : S1 -> S2 -> Prop) (Q : R1 -> R2 -> Prop) body1 body2 :
  (forall s1 s2, Rs s1 s2 -> res_rel (sum_rel Rs Q) (body1 s1) (body2 s2)) ->
  forall fuel s1 s2, Rs s1 s2 -> res_rel Q (loop fuel body1 s1) (loop fuel body2 s2).
Proof.
  intros Hb fuel. induction fuel as [|n IH]; intros s1 s2 Hs; simpl; [done|].
  eapply res_rel_bind; [by apply Hb|]. intros [a|a] [b|b] Hab; simpl in *; try done. by apply IH.
Qed.

(** Loops with no bound at hand, such as a walk over a string: [while] runs its body for
    at most 2^33 rounds, by doubling, so that the fuel costs nothing to evaluate.  No
    pointer walk over a 32-bit address space takes as many. *)
Fixpoint rounds {S R : Type} (n : nat) (body : S -> res (S + R)) (s : S) : res (S + R) :=
  match n with
  | O => body s
  | Datatypes.S n =>
      r ← rounds n body s;
      match r with
      | inl s' => rounds n body s'
      | inr out => Ok (inr out)
      end
  end.

Definition while {S R : Type} (body : S -> res (S + R)) (s : S) : res R :=
  r ← rounds 33 body s;
  match r with inl _ => Err NoFuel | inr out => Ok out end.

(** The total-correctness rule for [while]; [Inv n s]: at most [n] more rounds. *)
Section While.
Context {S R : Type} (Inv : Z -> S -> Prop) (Q : R -> Prop) (body : S -> res (S + R)).
Hypothesis Hbody : forall n s, Inv n s -> 0 <= n /\
  returns (body s) (fun r =>
    match r with inl s' => exists n', n' < n /\ Inv n' s' | inr out => Q out end).

Lemma returns_rounds k n s : Inv n s -> returns (rounds k body s) (fun r =>
  match r with inl s' => exists n', n' + 2 ^ Z.of_nat k <= n /\ Inv n' s' | inr out => Q out end).
Proof.
  revert n s. induction k as [|k IH]; intros n s Hs; simpl rounds.
  - eapply returns_mono; [apply (Hbody n s Hs)|]. intros [s'|out]; [|done]. simpl.
    intros (n' & ? & ?). exists n'. split; [lia|done].
  - apply returns_bind. eapply returns_mono; [apply (IH n s Hs)|]. intros [s'|out]; [|done].
    intros (n' & Hle & Hs'). eapply returns_mono; [apply (IH n' s' Hs')|]. intros [s2|out]; [|done].
    intros (n2 & Hle2 & Hs2). exists n2. split; [|done]. rewrite Nat2Z.inj_succ, Z.pow_succ_r by lia. lia.
Qed.

Lemma returns_while_ix n s : Inv n s -> n < 2 ^ 33 -> returns (while body s) Q.
Proof.
  intros Hs Hm. unfold while. apply returns_bind. eapply returns_mono; [apply (returns_rounds 33 n s Hs)|].
  intros [s'|out]; [|done]. intros (n' & Hle & Hs'). destruct (Hbody n' s' Hs') as [H0 _].
  change (Z.of_nat 33) with 33 in Hle. lia.
Qed.
End While.

(** What holds after a loop that ends, whether or not it always does. *)
Lemma while_inv {S R} (Inv : S -> Prop) (Q : R -> Prop) (body : S -> res (S + R)) s r :
  (forall s x, Inv s -> body s = Ok x -> match x with inl s' => Inv s' | inr out => Q out end) ->
  Inv s -> while body s = Ok r -> Q r.
Proof.
  intros Hb Hs Hw. assert (Hr : forall n s x, Inv s -> rounds n body s = Ok x -> match x with inl s' => Inv s' | inr out => Q out end).
  { intros n. induction n as [|n IH]; intros t x Ht Hx; simpl in Hx; [by eapply Hb|].
    destruct (rounds n body t) as [[t'|out]|] eqn:E; simpl in Hx; [|by simplify_eq; apply (IH t _ Ht E)|done].
    apply (IH t'); [by apply (IH t _ Ht E)|done]. }
  revert Hw. unfold while. generalize 33%nat as n. intros n Hw. apply bind_ok_inv in Hw as (x & Hx & Hw). apply (Hr _ s x Hs) in Hx.
  destruct x as [s'|out]; [discriminate Hw|]. injection Hw as <-. exact Hx.
Qed.

(** A loop whose body leaves it at once. *)
Lemma while_stop {S R} (body : S -> res (S + R)) s r : body s = Ok (inr r) -> while body s = Ok r.
Proof.
  intros E. unfold while. assert (H : forall n, rounds n body s = Ok (inr r)).
  { intros n. induction n as [|n IH]; simpl; [done|]. by rewrite IH. }
  by rewrite H.
Qed.

Lemma res_rel_while {S1 S2 R1 R2} (Rs : S1 -> S2 -> Prop) (Q : R1 -> R2 -> Prop) body1 body2 s1 s2 :
  (forall s1 s2, Rs s1 s2 -> res_rel (sum_rel Rs Q) (body1 s1) (body2 s2)) ->
  Rs s1 s2 -> res_rel Q (while body1 s1) (while body2 s2).
Proof.
  intros Hb Hs. assert (Hr : forall n s1 s2, Rs s1 s2 -> res_rel (sum_rel Rs Q) (rounds n body1 s1) (rounds n body2 s2)).
  { intros n. induction n as [|n IH]; intros t1 t2 Ht; simpl; [by apply Hb|].
    eapply res_rel_bind; [by apply IH|]. intros [a|a] [b|b] Hab; simpl in *; try done. by apply IH. }
  unfold while. eapply res_rel_bind; [by apply Hr|]. by intros [a|a] [b|b] Hab.
Qed.

Lemma returns_while {S R} (Inv : S -> Prop) (measure : S -> Z) (Q : R -> Prop) (body : S -> res (S + R)) s :
  (forall s, Inv s -> 0 <= measure s /\
     returns (body s) (fun r =>
       match r with inl s' => Inv s' /\ measure s' < measure s | inr out => Q out end)) ->
  Inv s -> measure s < 2 ^ 33 -> returns (while body s) Q.
Proof.
  intros Hbody Hs Hm. apply (returns_while_ix (fun n s => Inv s /\ n = measure s) Q body) with (measure s); [|done..].
  intros n s1 [Hs1 ->]. destruct (Hbody s1 Hs1) as [H0 Hr]. split; [done|].
  eapply returns_mono; [exact Hr|]. intros [s'|out]; [|done]. intros [Hs' Hlt]. eauto.
Qed.

Arguments while : simpl never.
#[global] Opaque while.
Arguments loop : simpl never.
Arguments returns {A} !m Q /.

(** ** Arrays

    [rd] and [wr] read and write an array at a [Z] index; an index outside the
    array is an access outside the object. *)
Definition rd {A} (l : list A) (i : Z) : res A :=
  if i <? 0 then Err BadAccess
  else match l !! Z.to_nat i with Some x => Ok x | None => Err BadAccess end.

Definition wr {A} (l : list A) (i : Z) (x : A) : res (list A) :=
  if (i <? 0) || (Z.of_nat (length l) <=? i) then Err BadAccess
  else Ok (<[Z.to_nat i := x]> l).

(** ** Machine integers *)
Definition u8 (z : Z) : Z := z mod 2 ^ 8.
Definition u16 (z : Z) : Z := z mod 2 ^ 16.
Definition u32 (z : Z) : Z := z mod 2 ^ 32.
Definition u64 (z : Z) : Z := z mod 2 ^ 64.
Definition i32 (z : Z) : Z := (z + 2 ^ 31) mod 2 ^ 32 - 2 ^ 31.
Definition i64 (z : Z) : Z := (z + 2 ^ 63) mod 2 ^ 64 - 2 ^ 63.

Definition UINT32_MAX : Z := 2 ^ 32 - 1.
(** size_t is a 32-bit type on the i386 target. *)
Definition SIZE_MAX : Z := UINT32_MAX.

Definition in_u32 (z : Z) : Prop := 0 <= z < 2 ^ 32.
Definition in_u64 (z : Z) : Prop := 0 <= z < 2 ^ 64.

Section Arrays.
Context {A : Type}.
Implicit Types (l : list A) (i j : Z) (x : A).

Lemma rd_ok l i x : rd l i = Ok x <-> 0 <= i /\ l !! Z.to_nat i = Some x.
Proof.
  unfold rd. destruct (Z.ltb_spec i 0); [split; [done|lia]|].
  destruct (l !! Z.to_nat i); naive_solver.
Qed.

Lemma rd_inr l i : 0 <= i < Z.of_nat (length l) -> exists x, rd l i = Ok x.
Proof.
  intros Hi. destruct (lookup_lt_is_Some_2 l (Z.to_nat i)) as [x Hx]; [lia|].
  exists x. apply rd_ok. split; [lia|done].
Qed.

Lemma rd_bound l i x : rd l i = Ok x -> 0 <= i < Z.of_nat (length l).
Proof. intros [? H%lookup_lt_Some]%rd_ok. lia. Qed.

Lemma rd_default l i (d : A) :
  0 <= i < Z.of_nat (length l) -> rd l i = Ok (nth (Z.to_nat i) l d).
Proof.
  intros Hi. apply rd_ok. split; [lia|].
  destruct (nth_lookup_or_length l (Z.to_nat i) d); [done|lia].
Qed.

Lemma wr_ok l i x :
  0 <= i < Z.of_nat (length l) -> wr l i x = Ok (<[Z.to_nat i := x]> l).
Proof.
  intros Hi. unfold wr.
  destruct (Z.ltb_spec i 0), (Z.leb_spec (Z.of_nat (length l)) i); simpl; done || lia.
Qed.

Lemma wr_ok_inv l i x l' :
  wr l i x = Ok l' -> 0 <= i < Z.of_nat (length l) /\ l' = <[Z.to_nat i := x]> l.
Proof.
  unfold wr. destruct (Z.ltb_spec i 0), (Z.leb_spec (Z.of_nat (length l)) i); simpl;
    intros; simplify_eq; split; done || lia.
Qed.
End Arrays.

(** ** Reflection and rewriting automation

    [zcases] turns the comparisons the code branches on into hypotheses;
    [zbool] decides a boolean guard by arithmetic. *)
Ltac zcase_one :=
  match goal with
  | |- context [Z.ltb ?a ?b] => destruct (Z.ltb_spec a b)
  | |- context [Z.leb ?a ?b] => destruct (Z.leb_spec a b)
  | |- context [Z.eqb ?a ?b] => destruct (Z.eqb_spec a b)
  | H : context [Z.ltb ?a ?b] |- _ => destruct (Z.ltb_spec a b)
  | H : context [Z.leb ?a ?b] |- _ => destruct (Z.leb_spec a b)
  | H : context [Z.eqb ?a ?b] |- _ => destruct (Z.eqb_spec a b)
  end.
Ltac zcases := repeat (zcase_one; simpl in *; try done; try lia).
Ltac zbool := zcases; simpl in *; try done; try lia.

(** [run_assert] discharges the leading [ASSERT] of a computation whose
    condition arithmetic decides. *)
Ltac run_assert :=
  match goal with
  | |- returns (ASSERT ?b ≫= _) _ =>
      let E := fresh "E" in
      assert (E : b = true) by zbool; rewrite E; clear E; simpl
  | |- context [ASSERT ?b ≫= _] =>
      let E := fresh "E" in
      assert (E : b = true) by zbool; rewrite E; clear E; simpl
  end.

(** [inv_res] inverts hypotheses that a monadic computation succeeded. *)
Ltac inv_res :=
  repeat match goal with
  | H : _ ≫= _ = Ok _ |- _ =>
      let a := fresh "a" in let Ha := fresh "Ha" in
      apply bind_ok_inv in H as (a & Ha & H)
  | H : ASSERT _ = Ok _ |- _ => apply assert_ok_inv in H
  | H : Ok _ = Ok _ |- _ => injection H as H
  | H : Err _ = Ok _ |- _ => discriminate H
  | u : unit |- _ => destruct u
  end.

Lemma u32_small z : 0 <= z < 2 ^ 32 -> u32 z = z.
Proof. apply Z.mod_small. Qed.
Lemma u64_small z : 0 <= z < 2 ^ 64 -> u64 z = z.
Proof. apply Z.mod_small. Qed.
Lemma u8_small z : 0 <= z < 2 ^ 8 -> u8 z = z.
Proof. apply Z.mod_small. Qed.
Lemma u32_range z : 0 <= u32 z < 2 ^ 32.
Proof. apply Z.mod_pos_bound. lia. Qed.
Lemma u64_range z : 0 <= u64 z < 2 ^ 64.
Proof. apply Z.mod_pos_bound. lia. Qed.
Lemma u8_range z : 0 <= u8 z < 2 ^ 8.
Proof. apply Z.mod_pos_bound. lia. Qed.
Lemma i32_small z : - 2 ^ 31 <= z < 2 ^ 31 -> i32 z = z.
Proof. intros. unfold i32. rewrite Z.mod_small; lia. Qed.
Lemma i32_range z : - 2 ^ 31 <= i32 z < 2 ^ 31.
Proof. unfold i32. pose proof (Z.mod_pos_bound (z + 2 ^ 31) (2 ^ 32)). lia. Qed.
Lemma i32_u32 z : - 2 ^ 31 <= z < 2 ^ 31 -> i32 (u32 z) = z.
Proof.
  intros Hz. unfold i32, u32. rewrite Z.add_mod_idemp_l, Z.mod_small by lia. lia.
Qed.
Lemma i64_small z : - 2 ^ 63 <= z < 2 ^ 63 -> i64 z = z.
Proof. intros. unfold i64. rewrite Z.mod_small; lia. Qed.

Create HintDb pintos.
Create Rewrite HintDb pintos.
#[export] Hint Rewrite u32_small u64_small u8_small using lia : pintos.
#[export] Hint Resolve u32_range u64_range u8_range : pintos.

(** ** Bits *)

Lemma testbit_small a k n : 0 <= a < 2 ^ k -> 0 <= k -> k <= n -> Z.testbit a n = false.
Proof.
  intros Ha Hk Hn. rewrite <- (Z.mod_small a (2 ^ k)) by lia. apply Z.mod_pow2_bits_high. lia.
Qed.

(** Disjoint bit fields. *)
Lemma lor_low a b k : 0 <= k -> 0 <= a < 2 ^ k -> Z.lor a (b * 2 ^ k) = a + b * 2 ^ k.
Proof.
  intros Hk Ha. assert (Z.land a (b * 2 ^ k) = 0) as H0.
  { apply Z.bits_inj'. intros n Hn. rewrite Z.land_spec, Z.bits_0. destruct (Z.lt_ge_cases n k).
    - rewrite <- Z.shiftl_mul_pow2, Z.shiftl_spec_low by lia. apply andb_false_r.
    - by rewrite (testbit_small a k). }
  pose proof (Z.add_lor_land a (b * 2 ^ k)). lia.
Qed.
