(* ===== verification/Vaddr.v ===== *)
(** * Virtual addresses and page-table entries

    threads/vaddr.h (page number, page offset, rounding, the 1:1 physical map),
    threads/pte.h (page-directory and page-table entries) and the rounding macros
    of lib/round.h.  An address is a 32-bit unsigned integer held in [Z]. *)

From stdpp Require Import base list numbers.
From Stdlib Require Import ZArith Lia.
From S2P Require Import Prelude.

Local Open Scope Z_scope.

(** ** lib/round.h, at the width of size_t *)
Module Round.
Definition ROUND_UP (x step : Z) : Z := u32 (u32 (x + step - 1) / step * step).
Definition DIV_ROUND_UP (x step : Z) : Z := u32 (x + step - 1) / step.
Definition ROUND_DOWN (x step : Z) : Z := u32 (x / step * step).

Lemma DIV_ROUND_UP_spec x step :
  0 <= x -> 0 < step -> x + step - 1 < 2 ^ 32 ->
  x <= DIV_ROUND_UP x step * step < x + step.
Proof.
  intros. unfold DIV_ROUND_UP. rewrite u32_small by lia.
  pose proof (Z.div_mod (x + step - 1) step ltac:(lia)).
  pose proof (Z.mod_pos_bound (x + step - 1) step ltac:(lia)). nia.
Qed.

Lemma DIV_ROUND_UP_mono x y step :
  0 <= x <= y -> 0 < step -> y + step - 1 < 2 ^ 32 ->
  DIV_ROUND_UP x step <= DIV_ROUND_UP y step.
Proof.
  intros. unfold DIV_ROUND_UP. rewrite !u32_small by lia.
  apply Z.div_le_mono; lia.
Qed.
End Round.

(** ** threads/vaddr.h *)
Module Vaddr.
Definition BITMASK (shift cnt : Z) : Z := u32 (Z.shiftl (u32 (Z.shiftl 1 cnt - 1)) shift).
Definition PGSHIFT : Z := 0.
Definition PGBITS : Z := 12.
Definition PGSIZE : Z := Z.shiftl 1 PGBITS.
Definition PGMASK : Z := BITMASK PGSHIFT PGBITS.
Definition PHYS_BASE : Z := 0xc0000000.

Definition pg_ofs (va : Z) : Z := Z.land va PGMASK.
Definition pg_no (va : Z) : Z := Z.shiftr va PGBITS.
Definition pg_round_up (va : Z) : Z := Z.land (u32 (va + PGSIZE - 1)) (u32 (Z.lnot PGMASK)).
Definition pg_round_down (va : Z) : Z := Z.land va (u32 (Z.lnot PGMASK)).
Definition is_user_vaddr (vaddr : Z) : bool := vaddr <? PHYS_BASE.
Definition is_kernel_vaddr (vaddr : Z) : bool := PHYS_BASE <=? vaddr.
Definition ptov (paddr : Z) : res Z :=
  ASSERT (paddr <? PHYS_BASE);; Ok (u32 (paddr + PHYS_BASE)).
Definition vtop (vaddr : Z) : res Z :=
  ASSERT (is_kernel_vaddr vaddr);; Ok (u32 (vaddr - PHYS_BASE)).

(** The bit operations of the header are division and remainder by the page size. *)
Lemma pg_ofs_mod va : pg_ofs va = va mod PGSIZE.
Proof. unfold pg_ofs. change PGMASK with (Z.ones 12). by rewrite Z.land_ones. Qed.

Lemma pg_no_div va : pg_no va = va / PGSIZE.
Proof. unfold pg_no. by rewrite Z.shiftr_div_pow2. Qed.

Lemma land_not_mask va : in_u32 va -> Z.land va (u32 (Z.lnot PGMASK)) = va / PGSIZE * PGSIZE.
Proof.
  intros Hva. change (u32 (Z.lnot PGMASK)) with (Z.shiftl (Z.ones 20) 12).
  change PGSIZE with (2 ^ 12).
  rewrite <- Z.shiftr_div_pow2, <- Z.shiftl_mul_pow2 by lia.
  rewrite <- (Z.land_ones_low (Z.shiftr va 12) 20); cycle 1.
  - apply Z.shiftr_nonneg. unfold in_u32 in Hva; lia.
  - unfold in_u32 in Hva. rewrite Z.shiftr_div_pow2 by lia.
    destruct (decide (va / 2 ^ 12 = 0)) as [->|Hne]; [reflexivity|].
    apply Z.log2_lt_pow2; [|apply Z.div_lt_upper_bound; lia].
    assert (0 <= va / 2 ^ 12) by (apply Z.div_pos; lia). lia.
  - apply Z.bits_inj'. intros i Hi. rewrite Z.land_spec.
    rewrite !Z.shiftl_spec by lia.
    destruct (decide (i < 12)).
    + rewrite (Z.testbit_neg_r _ (i - 12)), (Z.testbit_neg_r (Z.land _ _)) by lia. by rewrite andb_false_r.
    + rewrite Z.land_spec, Z.shiftr_spec by lia. by replace (i - 12 + 12) with i by lia.
Qed.

Lemma pg_round_down_div va : in_u32 va -> pg_round_down va = va / PGSIZE * PGSIZE.
Proof. apply land_not_mask. Qed.

Lemma pg_round_up_div va :
  in_u32 va -> va + PGSIZE - 1 < 2 ^ 32 ->
  pg_round_up va = (va + PGSIZE - 1) / PGSIZE * PGSIZE.
Proof.
  unfold in_u32. change PGSIZE with 4096. intros. unfold pg_round_up.
  change PGSIZE with 4096. rewrite u32_small by lia.
  apply land_not_mask. unfold in_u32; lia.
Qed.

(** An address is its page number and its offset. *)
Lemma pg_split va : va = pg_no va * PGSIZE + pg_ofs va.
Proof.
  rewrite pg_no_div, pg_ofs_mod. pose proof (Z.div_mod va PGSIZE ltac:(done)). lia.
Qed.

Lemma pg_ofs_range va : 0 <= pg_ofs va < PGSIZE.
Proof. rewrite pg_ofs_mod. apply Z.mod_pos_bound. done. Qed.

Lemma pg_ofs_aligned n k : pg_ofs k = 0 -> pg_ofs (k + PGSIZE * n) = 0.
Proof.
  rewrite !pg_ofs_mod. intros. rewrite Z.mul_comm, Z.mod_add by done. done.
Qed.

Lemma pg_no_aligned n k : pg_no (k + PGSIZE * n) = pg_no k + n.
Proof. rewrite !pg_no_div, Z.mul_comm. by apply Z.div_add. Qed.
End Vaddr.

(** ** threads/pte.h *)
Module Pte.
Import Vaddr.

Definition PTSHIFT : Z := PGBITS.
Definition PTBITS : Z := 10.
Definition PTSPAN : Z := Z.shiftl (Z.shiftl 1 PTBITS) PGBITS.
Definition PTMASK : Z := BITMASK PTSHIFT PTBITS.
Definition PDSHIFT : Z := PTSHIFT + PTBITS.
Definition PDBITS : Z := 10.
Definition PDMASK : Z := BITMASK PDSHIFT PDBITS.

Definition pt_no (va : Z) : Z := Z.shiftr (Z.land va PTMASK) PTSHIFT.
Definition pd_no (va : Z) : Z := Z.shiftr va PDSHIFT.

Definition PTE_FLAGS : Z := 0x00000fff.
Definition PTE_ADDR : Z := 0xfffff000.
Definition PTE_AVL : Z := 0x00000e00.
Definition PTE_P : Z := 0x1.
Definition PTE_W : Z := 0x2.
Definition PTE_U : Z := 0x4.
Definition PTE_A : Z := 0x20.
Definition PTE_D : Z := 0x40.

Definition pde_create (pt : Z) : res Z :=
  ASSERT (pg_ofs pt =? 0);;
  p ← vtop pt;
  Ok (Z.lor (Z.lor (Z.lor p PTE_U) PTE_P) PTE_W).

Definition pde_get_pt (pde : Z) : res Z :=
  ASSERT (negb (Z.land pde PTE_P =? 0));;
  ptov (Z.land pde PTE_ADDR).

Definition pte_create_kernel (page : Z) (writable : bool) : res Z :=
  ASSERT (pg_ofs page =? 0);;
  p ← vtop page;
  Ok (Z.lor (Z.lor p PTE_P) (if writable then PTE_W else 0)).

Definition pte_create_user (page : Z) (writable : bool) : res Z :=
  p ← pte_create_kernel page writable;
  Ok (Z.lor p PTE_U).

Definition pte_get_page (pte : Z) : res Z :=
  ptov (Z.land pte PTE_ADDR).

(** Flag bits do not disturb a page-aligned physical address, and vice versa. *)
Lemma lor_flags_addr p f :
  in_u32 p -> pg_ofs p = 0 -> 0 <= f < PGSIZE ->
  Z.land (Z.lor p f) PTE_ADDR = p /\ Z.land (Z.lor p f) PTE_FLAGS = f.
Proof.
  unfold in_u32. change PGSIZE with (2 ^ 12). intros Hp Hofs Hf.
  assert (Hp' : p = Z.shiftl (Z.shiftr p 12) 12).
  { rewrite Z.shiftl_mul_pow2, Z.shiftr_div_pow2 by lia.
    rewrite pg_ofs_mod in Hofs. change PGSIZE with (2 ^ 12) in Hofs.
    pose proof (Z.div_mod p (2 ^ 12) ltac:(lia)). lia. }
  assert (Hlow : forall i, i < 12 -> Z.testbit p i = false).
  { intros i Hi. rewrite Hp'. destruct (decide (i < 0)); [by apply Z.testbit_neg_r|].
    rewrite Z.shiftl_spec by lia. apply Z.testbit_neg_r; lia. }
  assert (Hhigh : forall i, 12 <= i -> Z.testbit f i = false).
  { intros i Hi. rewrite <- (Z.mod_small f (2 ^ 12)) by lia. by apply Z.mod_pow2_bits_high. }
  assert (Htop : forall i, 32 <= i -> Z.testbit p i = false).
  { intros i Hi. rewrite <- (Z.mod_small p (2 ^ 32)) by lia. by apply Z.mod_pow2_bits_high. }
  change PTE_ADDR with (Z.shiftl (Z.ones 20) 12). change PTE_FLAGS with (Z.ones 12).
  split; apply Z.bits_inj'; intros i Hi; rewrite Z.land_spec, Z.lor_spec.
  - rewrite Z.shiftl_spec, Z.testbit_ones by lia.
    destruct (decide (i < 12)); [rewrite Hlow by lia; zbool; auto using andb_false_r|].
    rewrite Hhigh by lia. destruct (decide (i < 32)); zbool;
      rewrite ?(Htop i) by lia; rewrite ?orb_false_r, ?andb_true_r; done.
  - rewrite Z.testbit_ones by lia.
    destruct (decide (i < 12)); [rewrite Hlow by lia; zbool; auto using andb_true_r|].
    rewrite Hhigh by lia. zbool; auto using andb_false_r.
Qed.

Lemma vtop_ptov va : in_u32 va -> is_kernel_vaddr va = true ->
  exists pa, vtop va = Ok pa /\ pa = va - PHYS_BASE /\ in_u32 pa.
Proof.
  unfold in_u32, vtop. intros Hva Hk. rewrite Hk. simpl.
  unfold is_kernel_vaddr in Hk. apply Z.leb_le in Hk. exists (va - PHYS_BASE).
  unfold PHYS_BASE in *. rewrite u32_small by lia. split_and!; done || lia.
Qed.

Lemma ptov_vtop va : in_u32 va -> is_kernel_vaddr va = true ->
  (pa ← vtop va; ptov pa) = Ok va.
Proof.
  intros Hva Hk. destruct (vtop_ptov va Hva Hk) as (pa & -> & -> & _). simpl.
  unfold ptov, in_u32, is_kernel_vaddr, PHYS_BASE in *. run_assert.
  rewrite u32_small; [f_equal|]; lia.
Qed.

Lemma pg_ofs_vtop va : pg_ofs (va - PHYS_BASE) = pg_ofs va.
Proof.
  rewrite !pg_ofs_mod. change PHYS_BASE with (786432 * PGSIZE).
  by rewrite <- Zminus_mod_idemp_r, Z.mod_mul, Z.sub_0_r by done.
Qed.

(** What a page-table entry made for a page holds: the page's frame in the address
    bits, exactly the requested flags in the others. *)
Lemma pte_create_shape pa f :
  in_u32 pa -> pg_ofs pa = 0 -> 0 <= f < PGSIZE -> pa < 2 ^ 30 ->
  pte_get_page (Z.lor pa f) = Ok (pa + PHYS_BASE) /\ Z.land (Z.lor pa f) PTE_FLAGS = f.
Proof.
  intros Hpa Hofs Hf Hlt. destruct (lor_flags_addr pa f Hpa Hofs Hf) as [Ha Hfl].
  split; [|done]. unfold pte_get_page. rewrite Ha.
  unfold ptov, in_u32, PHYS_BASE in *. run_assert. rewrite u32_small; [done|lia].
Qed.

(** The entry of a kernel page: [pte_get_page] gives the page back, the entry is present, not
    accessible to user code, and writable exactly as asked. *)
Theorem pte_kernel_roundtrip page w :
  in_u32 page -> is_kernel_vaddr page = true -> pg_ofs page = 0 ->
  exists pte, pte_create_kernel page w = Ok pte /\ pte_get_page pte = Ok page /\
    Z.land pte PTE_FLAGS = (if w then Z.lor PTE_P PTE_W else PTE_P).
Proof.
  intros Hp Hk Hofs. destruct (vtop_ptov page Hp Hk) as (pa & Hv & -> & Hpa).
  assert (Hlt : page - PHYS_BASE < 2 ^ 30) by (unfold in_u32, PHYS_BASE in *; lia).
  unfold pte_create_kernel. rewrite Hofs, Hv. simpl. eexists; split; [done|].
  rewrite <- Z.lor_assoc.
  destruct (pte_create_shape (page - PHYS_BASE) (Z.lor PTE_P (if w then PTE_W else 0)))
    as [-> ->]; [done|by rewrite pg_ofs_vtop|by destruct w|done|].
  split; [f_equal; lia|by destruct w].
Qed.

Theorem pte_user_roundtrip page w :
  in_u32 page -> is_kernel_vaddr page = true -> pg_ofs page = 0 ->
  exists pte, pte_create_user page w = Ok pte /\ pte_get_page pte = Ok page /\
    Z.land pte PTE_FLAGS = Z.lor (if w then Z.lor PTE_P PTE_W else PTE_P) PTE_U.
Proof.
  intros Hp Hk Hofs. destruct (vtop_ptov page Hp Hk) as (pa & Hv & -> & Hpa).
  assert (Hlt : page - PHYS_BASE < 2 ^ 30) by (unfold in_u32, PHYS_BASE in *; lia).
  unfold pte_create_user, pte_create_kernel. rewrite Hofs, Hv. simpl. eexists; split; [done|].
  rewrite <- !Z.lor_assoc.
  destruct (pte_create_shape (page - PHYS_BASE)
    (Z.lor PTE_P (Z.lor (if w then PTE_W else 0) PTE_U)))
    as [-> ->]; [done|by rewrite pg_ofs_vtop|by destruct w|done|].
  split; [f_equal; lia|by destruct w].
Qed.

Theorem pde_roundtrip pt :
  in_u32 pt -> is_kernel_vaddr pt = true -> pg_ofs pt = 0 ->
  exists pde, pde_create pt = Ok pde /\ pde_get_pt pde = Ok pt.
Proof.
  intros Hp Hk Hofs. destruct (vtop_ptov pt Hp Hk) as (pa & Hv & -> & Hpa).
  assert (Hlt : pt - PHYS_BASE < 2 ^ 30) by (unfold in_u32, PHYS_BASE in *; lia).
  unfold pde_create. rewrite Hofs, Hv. simpl. eexists; split; [done|].
  rewrite <- !Z.lor_assoc.
  destruct (pte_create_shape (pt - PHYS_BASE) (Z.lor PTE_U (Z.lor PTE_P PTE_W)))
    as [Hg Hf]; [done|by rewrite pg_ofs_vtop|done|done|].
  unfold pde_get_pt, pte_get_page in *. rewrite Hg.
  replace (Z.land _ PTE_P =? 0) with false; [simpl; f_equal; lia|].
  symmetry. apply Z.eqb_neq. intros H0.
  assert (HP : Z.land (Z.land (Z.lor (pt - PHYS_BASE) (Z.lor PTE_U (Z.lor PTE_P PTE_W))) PTE_FLAGS) PTE_P = PTE_P)
    by (by rewrite Hf).
  rewrite <- Z.land_assoc in HP. change (Z.land PTE_FLAGS PTE_P) with PTE_P in HP.
  rewrite H0 in HP. done.
Qed.

(** A virtual address is its directory index, table index and page offset. *)
Theorem va_decompose va :
  in_u32 va ->
  va = Z.shiftl (pd_no va) PDSHIFT + Z.shiftl (pt_no va) PTSHIFT + pg_ofs va /\
  0 <= pd_no va < 1024 /\ 0 <= pt_no va < 1024.
Proof.
  unfold in_u32, pd_no, pt_no. intros Hva.
  assert (Hpt : Z.shiftr (Z.land va PTMASK) PTSHIFT = va / 2 ^ 12 mod 2 ^ 10).
  { rewrite Z.shiftr_land. change (Z.shiftr PTMASK PTSHIFT) with (Z.ones 10).
    by rewrite Z.land_ones, Z.shiftr_div_pow2. }
  rewrite Hpt, pg_ofs_mod. change PDSHIFT with 22. change PTSHIFT with 12. change PGSIZE with (2 ^ 12).
  rewrite !Z.shiftl_mul_pow2, Z.shiftr_div_pow2 by lia.
  pose proof (Z.div_mod va (2 ^ 12) ltac:(lia)).
  pose proof (Z.div_mod (va / 2 ^ 12) (2 ^ 10) ltac:(lia)) as H2.
  rewrite Z.div_div in H2 by lia. change (2 ^ 12 * 2 ^ 10) with (2 ^ 22) in H2.
  pose proof (Z.mod_pos_bound (va / 2 ^ 12) (2 ^ 10) ltac:(lia)).
  split; [|split; [|lia]]; [|split; [apply Z.div_pos|apply Z.div_lt_upper_bound]]; lia.
Qed.
End Pte.
