(* ===== verification/Bitmap.v ===== *)
(** * Bitmaps (lib/kernel/bitmap.c)

    The bitmap as the code stores it: a bit count and an array of 32-bit elements,
    every operation by masks on one element.  [bit] is the array of bits it stands
    for, [wf] the invariant, and the last section proves the interface [BitArray]
    that the page allocator is verified against. *)

From stdpp Require Import base list numbers.
From Stdlib Require Import ZArith Lia.
From S2P Require Import Prelude Vaddr.
Import Round.

Local Open Scope Z_scope.

(** ** Representation *)

(** sizeof(elem_type) and ELEM_BITS for unsigned long on i386. *)
Definition ELEM_SIZE : Z := 4.
Definition ELEM_BITS : Z := ELEM_SIZE * 8.

Record bitmap := mk_bitmap {
  bit_cnt : Z;       (* number of bits *)
  bits : list Z      (* elements that represent bits *)
}.

#[export] Instance bitmap_eq_dec : EqDecision bitmap.
Proof. solve_decision. Defined.

Definition BITMAP_ERROR : Z := SIZE_MAX.

Definition elem_idx (bit_idx : Z) : Z := bit_idx / ELEM_BITS.
Definition bit_mask (bit_idx : Z) : Z := u32 (Z.shiftl 1 (bit_idx mod ELEM_BITS)).
Definition elem_cnt (bit_cnt : Z) : Z := DIV_ROUND_UP bit_cnt ELEM_BITS.
Definition byte_cnt (bit_cnt : Z) : Z := u32 (ELEM_SIZE * elem_cnt bit_cnt).
(** sizeof(struct bitmap): two 4-byte members. *)
Definition SIZEOF_BITMAP : Z := 8.
Definition bitmap_buf_size (bit_cnt : Z) : Z := u32 (SIZEOF_BITMAP + byte_cnt bit_cnt).

Definition bitmap_size (b : bitmap) : Z := bit_cnt b.

(** ** Single bits *)

(** The atomic read-modify-write of one element that the three asm statements do. *)
Definition update_elem (b : bitmap) (idx : Z) (f : Z -> Z) : res bitmap :=
  e ← rd (bits b) idx;
  bs ← wr (bits b) idx (f e);
  Ok (mk_bitmap (bit_cnt b) bs).

Definition bitmap_mark (b : bitmap) (bit_idx : Z) : res bitmap :=
  let idx := elem_idx bit_idx in
  let mask := bit_mask bit_idx in
  update_elem b idx (fun e => Z.lor e mask).

Definition bitmap_reset (b : bitmap) (bit_idx : Z) : res bitmap :=
  let idx := elem_idx bit_idx in
  let mask := bit_mask bit_idx in
  update_elem b idx (fun e => Z.land e (u32 (Z.lnot mask))).

Definition bitmap_flip (b : bitmap) (bit_idx : Z) : res bitmap :=
  let idx := elem_idx bit_idx in
  let mask := bit_mask bit_idx in
  update_elem b idx (fun e => Z.lxor e mask).

Definition bitmap_set (b : bitmap) (idx : Z) (value : bool) : res bitmap :=
  ASSERT (idx <? bit_cnt b);;
  if value then bitmap_mark b idx else bitmap_reset b idx.

Definition bitmap_test (b : bitmap) (idx : Z) : res bool :=
  ASSERT (idx <? bit_cnt b);;
  e ← rd (bits b) (elem_idx idx);
  Ok (negb (Z.land e (bit_mask idx) =? 0)).

(** ** Multiple bits *)

(** [ASSERT(start <= b->bit_cnt); ASSERT(start + cnt <= b->bit_cnt)] *)
Definition assert_range (b : bitmap) (start cnt : Z) : res unit :=
  ASSERT (start <=? bit_cnt b);;
  ASSERT (u32 (start + cnt) <=? bit_cnt b).

Definition bitmap_set_multiple (b : bitmap) (start cnt : Z) (value : bool) : res bitmap :=
  assert_range b start cnt;;
  loop (S (Z.to_nat cnt)) (fun '(i, b) =>
    if i <? cnt then
      b ← bitmap_set b (u32 (start + i)) value;
      Ok (inl (u32 (i + 1), b))
    else Ok (inr b)) (0, b).

Definition bitmap_set_all (b : bitmap) (value : bool) : res bitmap :=
  bitmap_set_multiple b 0 (bitmap_size b) value.

Definition bitmap_count (b : bitmap) (start cnt : Z) (value : bool) : res Z :=
  assert_range b start cnt;;
  loop (S (Z.to_nat cnt)) (fun '(i, value_cnt) =>
    if i <? cnt then
      t ← bitmap_test b (u32 (start + i));
      Ok (inl (u32 (i + 1), if Bool.eqb t value then u32 (value_cnt + 1) else value_cnt))
    else Ok (inr value_cnt)) (0, 0).

Definition bitmap_contains (b : bitmap) (start cnt : Z) (value : bool) : res bool :=
  assert_range b start cnt;;
  loop (S (Z.to_nat cnt)) (fun i =>
    if i <? cnt then
      t ← bitmap_test b (u32 (start + i));
      if Bool.eqb t value then Ok (inr true) else Ok (inl (u32 (i + 1)))
    else Ok (inr false)) 0.

Definition bitmap_any (b : bitmap) (start cnt : Z) : res bool :=
  bitmap_contains b start cnt true.

Definition bitmap_none (b : bitmap) (start cnt : Z) : res bool :=
  c ← bitmap_contains b start cnt true; Ok (negb c).

Definition bitmap_all (b : bitmap) (start cnt : Z) : res bool :=
  c ← bitmap_contains b start cnt false; Ok (negb c).

Definition bitmap_scan (b : bitmap) (start cnt : Z) (value : bool) : res Z :=
  ASSERT (start <=? bit_cnt b);;
  if cnt <=? bit_cnt b then
    let last := bit_cnt b - cnt in
    loop (S (S (Z.to_nat last))) (fun i =>
      if i <=? last then
        c ← bitmap_contains b i cnt (negb value);
        if negb c then Ok (inr i) else Ok (inl (u32 (i + 1)))
      else Ok (inr BITMAP_ERROR)) start
  else Ok BITMAP_ERROR.

Definition bitmap_scan_and_flip (b : bitmap) (start cnt : Z) (value : bool) : res (Z * bitmap) :=
  idx ← bitmap_scan b start cnt value;
  if negb (idx =? BITMAP_ERROR) then
    b ← bitmap_set_multiple b idx cnt (negb value);
    Ok (idx, b)
  else Ok (idx, b).

(** Creation in preallocated storage: [words] is what the storage behind the
    header holds, of which nothing is known. *)
Definition bitmap_create_in_buf (bit_cnt : Z) (words : list Z) (block_size : Z) : res bitmap :=
  ASSERT (bitmap_buf_size bit_cnt <=? block_size);;
  bitmap_set_all (mk_bitmap bit_cnt words) false.

(** ** The array of bits, and the invariant *)

Definition bit (b : bitmap) (i : Z) : bool :=
  Z.testbit (nth (Z.to_nat (elem_idx i)) (bits b) 0) (i mod ELEM_BITS).

(** The bit count leaves room for [elem_cnt] to be computed without overflow, the
    array has at least that many elements, and each is a 32-bit value. *)
Definition wf (b : bitmap) : Prop :=
  0 <= bit_cnt b <= 2 ^ 32 - ELEM_BITS /\
  elem_cnt (bit_cnt b) <= Z.of_nat (length (bits b)) /\
  Forall in_u32 (bits b).

(** [b'] is [b] with the bits of [p] replaced by [v]. *)
Definition updated (b b' : bitmap) (p : Z -> bool) (v : Z -> bool) : Prop :=
  wf b' /\ bit_cnt b' = bit_cnt b /\
  forall j, 0 <= j -> bit b' j = if p j then v j else bit b j.

Definition run_at (f : Z -> bool) (i cnt : Z) (v : bool) : Prop :=
  forall j, i <= j < i + cnt -> f j = v.

Section Elements.

Lemma elem_idx_range b i : wf b -> 0 <= i < bit_cnt b ->
  0 <= elem_idx i < Z.of_nat (length (bits b)).
Proof.
  intros (Hc & Hl & _) Hi. unfold elem_idx, elem_cnt in *.
  pose proof (DIV_ROUND_UP_spec (bit_cnt b) ELEM_BITS ltac:(lia) ltac:(done)
    ltac:(unfold ELEM_BITS, ELEM_SIZE in *; lia)) as Hd.
  split; [apply Z.div_pos; unfold ELEM_BITS, ELEM_SIZE in *; lia|].
  apply Z.div_lt_upper_bound; [done|]. unfold ELEM_BITS, ELEM_SIZE in *. lia.
Qed.

Lemma bit_mask_pow i : bit_mask i = 2 ^ (i mod ELEM_BITS).
Proof.
  unfold bit_mask. pose proof (Z.mod_pos_bound i ELEM_BITS ltac:(done)) as Hm.
  change ELEM_BITS with 32 in *. rewrite Z.shiftl_1_l. apply u32_small.
  split; [apply Z.pow_nonneg; lia|]. apply Z.pow_lt_mono_r; lia.
Qed.

Lemma bit_mask_spec i k : 0 <= k -> Z.testbit (bit_mask i) k = (k =? i mod ELEM_BITS).
Proof.
  intros Hk. rewrite bit_mask_pow, Z.pow2_bits_eqb by (apply Z.mod_pos_bound; done).
  apply Z.eqb_sym.
Qed.

(** Masked with [~mask] at the element width, a bit inside the element is kept
    unless it is the masked one. *)
Lemma not_mask_spec i k : 0 <= k < ELEM_BITS ->
  Z.testbit (u32 (Z.lnot (bit_mask i))) k = negb (k =? i mod ELEM_BITS).
Proof.
  intros Hk. unfold u32. rewrite Z.mod_pow2_bits_low by (change ELEM_BITS with 32 in Hk; lia).
  rewrite Z.lnot_spec, bit_mask_spec by lia. done.
Qed.

Lemma same_bit i j : 0 <= i -> 0 <= j ->
  (elem_idx i = elem_idx j /\ i mod ELEM_BITS = j mod ELEM_BITS) <-> i = j.
Proof.
  intros. unfold elem_idx. split; [|by intros ->]. intros [E1 E2].
  rewrite (Z.div_mod i ELEM_BITS), (Z.div_mod j ELEM_BITS) by done. congruence.
Qed.

Lemma in_u32_bits e : in_u32 e <-> 0 <= e /\ forall k, 32 <= k -> Z.testbit e k = false.
Proof.
  unfold in_u32. split.
  - intros He. split; [lia|]. intros k Hk.
    rewrite <- (Z.mod_small e (2 ^ 32)) by lia. by apply Z.mod_pow2_bits_high.
  - intros [He Hb]. split; [lia|].
    enough (e = e mod 2 ^ 32) as -> by (apply Z.mod_pos_bound; lia).
    apply Z.bits_inj'. intros k Hk.
    destruct (decide (k < 32)); [by rewrite Z.mod_pow2_bits_low|].
    rewrite Z.mod_pow2_bits_high by lia. apply Hb; lia.
Qed.

(** One element is rewritten so that bit [i] becomes [g] of itself and no other
    bit changes. *)
Lemma update_elem_spec b i f (g : bool -> bool) :
  wf b -> 0 <= i < bit_cnt b ->
  (forall e, in_u32 e -> in_u32 (f e)) ->
  (forall e k, in_u32 e -> 0 <= k < ELEM_BITS ->
    Z.testbit (f e) k = if k =? i mod ELEM_BITS then g (Z.testbit e k) else Z.testbit e k) ->
  returns (update_elem b (elem_idx i) f) (fun b' =>
    updated b b' (fun j => j =? i) (fun j => g (bit b j))).
Proof.
  intros Hwf Hi Hrange Hbits. pose proof (elem_idx_range b i Hwf Hi) as Hidx.
  destruct Hwf as (Hc & Hl & Hu). unfold update_elem.
  rewrite (rd_default _ _ 0) by done. simpl. rewrite wr_ok by done. simpl.
  set (n := Z.to_nat (elem_idx i)).
  assert (He : in_u32 (nth n (bits b) 0)).
  { eapply Forall_nth; [done|]. unfold n. lia. }
  split; [|split; [done|]].
  - split; [done|split; simpl; [by rewrite length_insert|]].
    apply Forall_insert; auto.
  - intros j Hj. unfold bit. simpl.
    pose proof (Z.mod_pos_bound j ELEM_BITS ltac:(done)) as Hm.
    destruct (decide (elem_idx j = elem_idx i)) as [E|E].
    + rewrite E. fold n. rewrite nth_lookup, list_lookup_insert_eq by (unfold n; lia). simpl.
      rewrite Hbits by done. destruct (Z.eqb_spec j i) as [->|Hne].
      * by rewrite Z.eqb_refl.
      * destruct (Z.eqb_spec (j mod ELEM_BITS) (i mod ELEM_BITS)) as [E'|]; [|done].
        exfalso. apply Hne, same_bit; [lia|lia|by split].
    + rewrite nth_lookup, list_lookup_insert_ne, <- nth_lookup; cycle 1.
      { unfold n. assert (0 <= elem_idx j) by (apply Z.div_pos; done || lia). lia. }
      destruct (Z.eqb_spec j i) as [->|]; done.
Qed.
End Elements.

(** ** What the operations do *)
Section Operations.

Lemma updated_refl b : wf b -> updated b b (fun _ => false) (fun _ => false).
Proof. done. Qed.

Lemma bitmap_mark_spec b i : wf b -> 0 <= i < bit_cnt b ->
  returns (bitmap_mark b i) (fun b' => updated b b' (fun j => j =? i) (fun _ => true)).
Proof.
  intros Hwf Hi. apply (update_elem_spec b i _ (fun _ => true)); [done|done| |].
  - intros e [He Hb]%in_u32_bits. apply in_u32_bits. split.
    + apply Z.lor_nonneg. rewrite bit_mask_pow. split; [done|apply Z.pow_nonneg; lia].
    + intros k Hk. rewrite Z.lor_spec, Hb, bit_mask_spec by lia.
      pose proof (Z.mod_pos_bound i ELEM_BITS ltac:(done)). change ELEM_BITS with 32 in *. zbool.
  - intros e k He Hk. rewrite Z.lor_spec, bit_mask_spec by lia.
    destruct (k =? _); [apply orb_true_r|apply orb_false_r].
Qed.

Lemma bitmap_reset_spec b i : wf b -> 0 <= i < bit_cnt b ->
  returns (bitmap_reset b i) (fun b' => updated b b' (fun j => j =? i) (fun _ => false)).
Proof.
  intros Hwf Hi. apply (update_elem_spec b i _ (fun _ => false)); [done|done| |].
  - intros e [He Hb]%in_u32_bits. apply in_u32_bits. split.
    + apply Z.land_nonneg. by left.
    + intros k Hk. by rewrite Z.land_spec, Hb.
  - intros e k He Hk. rewrite Z.land_spec, not_mask_spec by lia.
    destruct (k =? _); [apply andb_false_r|apply andb_true_r].
Qed.

Lemma bitmap_flip_spec b i : wf b -> 0 <= i < bit_cnt b ->
  returns (bitmap_flip b i) (fun b' => updated b b' (fun j => j =? i) (fun j => negb (bit b j))).
Proof.
  intros Hwf Hi. apply (update_elem_spec b i _ negb); [done|done| |].
  - intros e [He Hb]%in_u32_bits. apply in_u32_bits. split.
    + apply Z.lxor_nonneg. rewrite bit_mask_pow. split; [|done]. intros _; apply Z.pow_nonneg; lia.
    + intros k Hk. rewrite Z.lxor_spec, Hb, bit_mask_spec by lia.
      pose proof (Z.mod_pos_bound i ELEM_BITS ltac:(done)). change ELEM_BITS with 32 in *. zbool.
  - intros e k He Hk. rewrite Z.lxor_spec, bit_mask_spec by lia.
    destruct (k =? _); [apply xorb_true_r|apply xorb_false_r].
Qed.

Lemma bitmap_set_spec b i v : wf b -> 0 <= i < bit_cnt b ->
  returns (bitmap_set b i v) (fun b' => updated b b' (fun j => j =? i) (fun _ => v)).
Proof.
  intros Hwf Hi. unfold bitmap_set. run_assert.
  destruct v; [by apply bitmap_mark_spec|by apply bitmap_reset_spec].
Qed.

Lemma bitmap_test_spec b i : wf b -> 0 <= i < bit_cnt b ->
  bitmap_test b i = Ok (bit b i).
Proof.
  intros Hwf Hi. unfold bitmap_test. run_assert.
  rewrite (rd_default _ _ 0) by (by apply elem_idx_range). simpl. f_equal.
  unfold bit. set (e := nth _ _ _). rewrite bit_mask_pow.
  destruct (Z.testbit e (i mod ELEM_BITS)) eqn:T.
  - apply negb_true_iff, Z.eqb_neq. intros H0.
    assert (Z.testbit (Z.land e (2 ^ (i mod ELEM_BITS))) (i mod ELEM_BITS) = true) as H1.
    { rewrite Z.land_spec, T, Z.pow2_bits_true; [done|]. by apply Z.mod_pos_bound. }
    rewrite H0, Z.bits_0 in H1. done.
  - apply negb_false_iff, Z.eqb_eq, Z.bits_inj'. intros k Hk.
    rewrite Z.land_spec, Z.bits_0, Z.pow2_bits_eqb by (by apply Z.mod_pos_bound).
    destruct (Z.eqb_spec (i mod ELEM_BITS) k) as [<-|]; [by rewrite T|apply andb_false_r].
Qed.

Lemma assert_range_ok b start cnt : wf b -> 0 <= start -> 0 <= cnt -> start + cnt <= bit_cnt b ->
  assert_range b start cnt = Ok tt.
Proof.
  intros (Hc & _) ???. change ELEM_BITS with 32 in Hc. unfold assert_range. run_assert.
  rewrite u32_small by lia. destruct (Z.leb_spec (start + cnt) (bit_cnt b)); [done|lia].
Qed.

Lemma bitmap_set_multiple_spec b start cnt v :
  wf b -> 0 <= start -> 0 <= cnt -> start + cnt <= bit_cnt b ->
  returns (bitmap_set_multiple b start cnt v) (fun b' =>
    updated b b' (fun j => (start <=? j) && (j <? start + cnt)) (fun _ => v)).
Proof.
  intros Hwf Hs Hcnt Hr. pose proof Hwf as (Hc & _). change ELEM_BITS with 32 in Hc.
  unfold bitmap_set_multiple. rewrite assert_range_ok by done. simpl.
  apply (returns_loop
    (fun '(i, b1) => 0 <= i <= cnt /\
       updated b b1 (fun j => (start <=? j) && (j <? start + i)) (fun _ => v))
    (fun '(i, _) => Z.to_nat (cnt - i))).
  - intros [i b1] (Hi & Hwf1 & Hcnt1 & Hbits). destruct (Z.ltb_spec i cnt); simpl.
    + apply returns_bind. rewrite (u32_small (start + i)) by lia.
      eapply returns_mono; [apply bitmap_set_spec; [done|lia]|]. simpl.
      intros b2 (Hwf2 & Hcnt2 & Hbits2). rewrite u32_small by lia.
      split; [|lia]. split; [lia|]. split; [done|]. split; [congruence|].
      intros j Hj. rewrite Hbits2, Hbits by done. zbool.
    + split; [done|]. split; [done|]. intros j Hj. rewrite Hbits by done. zbool.
  - split; [lia|]. split; [done|]. split; [done|]. intros j Hj. zbool.
  - simpl. lia.
Qed.

Lemma bitmap_set_all_spec b v : wf b ->
  returns (bitmap_set_all b v) (fun b' =>
    wf b' /\ bit_cnt b' = bit_cnt b /\ run_at (bit b') 0 (bit_cnt b) v).
Proof.
  intros Hwf. pose proof Hwf as (Hc & _). change ELEM_BITS with 32 in Hc.
  eapply returns_mono; [apply bitmap_set_multiple_spec; unfold bitmap_size; done || lia|].
  intros b' (Hwf' & Hcnt & Hbits). split; [done|]. split; [done|].
  intros j Hj. rewrite Hbits by lia. unfold bitmap_size. zbool.
Qed.

Lemma bitmap_contains_spec b start cnt v :
  wf b -> 0 <= start -> 0 <= cnt -> start + cnt <= bit_cnt b ->
  returns (bitmap_contains b start cnt v) (fun r =>
    r = false <-> run_at (bit b) start cnt (negb v)).
Proof.
  intros Hwf Hs Hcnt Hr. pose proof Hwf as (Hc & _). change ELEM_BITS with 32 in Hc.
  unfold bitmap_contains. rewrite assert_range_ok by done. simpl.
  apply (returns_loop (fun i => 0 <= i <= cnt /\ run_at (bit b) start i (negb v))
    (fun i => Z.to_nat (cnt - i))).
  - intros i (Hi & Hrun). destruct (Z.ltb_spec i cnt); simpl.
    + rewrite (u32_small (start + i)), bitmap_test_spec by (done || lia). simpl.
      destruct (Bool.eqb_spec (bit b (start + i)) v) as [E|E]; simpl.
      * split; [done|]. intros Hall. rewrite (Hall (start + i)) in E by lia. by destruct v.
      * rewrite u32_small by lia. split; [|lia]. split; [lia|]. intros j Hj.
        destruct (decide (j = start + i)) as [->|]; [by destruct (bit b _), v|].
        apply Hrun. lia.
    + split; [|done]. intros _ j Hj. apply Hrun. lia.
  - split; [lia|]. intros j Hj. lia.
  - lia.
Qed.

Lemma bitmap_all_spec b start cnt :
  wf b -> 0 <= start -> 0 <= cnt -> start + cnt <= bit_cnt b ->
  returns (bitmap_all b start cnt) (fun r => r = true <-> run_at (bit b) start cnt true).
Proof.
  intros. unfold bitmap_all. apply returns_bind.
  eapply returns_mono; [by apply bitmap_contains_spec|]. simpl. intros r ->%symmetry.
  by destruct r.
Qed.

Lemma bitmap_none_spec b start cnt :
  wf b -> 0 <= start -> 0 <= cnt -> start + cnt <= bit_cnt b ->
  returns (bitmap_none b start cnt) (fun r => r = true <-> run_at (bit b) start cnt false).
Proof.
  intros. unfold bitmap_none. apply returns_bind.
  eapply returns_mono; [by apply bitmap_contains_spec|]. simpl. intros r ->%symmetry.
  by destruct r.
Qed.

Lemma bitmap_any_spec b start cnt :
  wf b -> 0 <= start -> 0 <= cnt -> start + cnt <= bit_cnt b ->
  returns (bitmap_any b start cnt) (fun r =>
    r = true <-> exists j, start <= j < start + cnt /\ bit b j = true).
Proof.
  intros. eapply returns_mono; [by apply bitmap_contains_spec|]. simpl. intros r Hr. split.
  - intros ->. destruct (decide (Exists (fun j => bit b j = true) (seqZ start cnt))) as [He|Hn].
    + apply Exists_exists in He as (j & Hj%list_elem_of_In%elem_of_seqZ & Hb). eauto with lia.
    + enough (true = false) by done. apply Hr. intros j Hj.
      apply not_true_is_false. intros Hb. apply Hn, Exists_exists. exists j. split; [|done].
      apply list_elem_of_In, elem_of_seqZ. lia.
  - intros (j & Hj & Hb). apply not_false_is_true. intros Hf.
    apply Hr in Hf. rewrite (Hf j) in Hb by lia. done.
Qed.

Lemma bitmap_count_spec b start cnt v :
  wf b -> 0 <= start -> 0 <= cnt -> start + cnt <= bit_cnt b ->
  bitmap_count b start cnt v =
    Ok (Z.of_nat (length (filter (fun j => bit b j = v) (seqZ start cnt)))).
Proof.
  intros Hwf Hs Hcnt Hr. pose proof Hwf as (Hc & _). change ELEM_BITS with 32 in Hc.
  unfold bitmap_count. rewrite assert_range_ok by done. simpl. apply returns_eq.
  set (cntto := fun i => Z.of_nat (length (filter (fun j => bit b j = v) (seqZ start i)))).
  assert (Hstep : forall i, 0 <= i ->
    cntto (i + 1) = if Bool.eqb (bit b (start + i)) v then cntto i + 1 else cntto i).
  { intros i Hi. unfold cntto. rewrite seqZ_app by lia. rewrite list.filter_app, length_app.
    rewrite (seqZ_cons _ 1) by lia. rewrite filter_cons.
    destruct (Bool.eqb_spec (bit b (start + i)) v); case_decide; try done; simpl; lia. }
  assert (Hbound : forall i, 0 <= i -> 0 <= cntto i <= i).
  { intros i Hi. unfold cntto. pose proof (length_filter (fun j => bit b j = v) (seqZ start i)) as Hl.
    rewrite length_seqZ in Hl. lia. }
  apply (returns_loop (fun '(i, c) => 0 <= i <= cnt /\ c = cntto i)
    (fun '(i, _) => Z.to_nat (cnt - i))).
  - intros [i c] (Hi & ->). destruct (Z.ltb_spec i cnt); simpl.
    + rewrite (u32_small (start + i)), bitmap_test_spec by (done || lia). simpl.
      specialize (Hbound i ltac:(lia)). rewrite !(u32_small (i + 1)), (u32_small (cntto i + 1)) by lia.
      split; [|lia]. split; [lia|]. by rewrite Hstep by lia.
    + by assert (i = cnt) as -> by lia.
  - split; [lia|]. done.
  - simpl. lia.
Qed.

(** The scan finds the first group, or reports that there is none. *)
Definition scan_result (f : Z -> bool) (size start cnt : Z) (v : bool) (r : Z) : Prop :=
  (start <= r /\ r + cnt <= size /\ run_at f r cnt v /\
     forall i, start <= i < r -> ~ run_at f i cnt v) \/
  (r = BITMAP_ERROR /\ forall i, start <= i -> i + cnt <= size -> ~ run_at f i cnt v).

Lemma bitmap_scan_spec b start cnt v :
  wf b -> 0 <= start <= bit_cnt b -> 0 <= cnt ->
  returns (bitmap_scan b start cnt v) (scan_result (bit b) (bit_cnt b) start cnt v).
Proof.
  intros Hwf Hs Hcnt. pose proof Hwf as (Hc & _). change ELEM_BITS with 32 in Hc.
  unfold bitmap_scan. run_assert. destruct (Z.leb_spec cnt (bit_cnt b)); simpl.
  2: { right. split; [done|]. intros; lia. }
  apply (returns_loop (fun i => start <= i <= bit_cnt b + 1 /\
      forall i', start <= i' < i -> ~ run_at (bit b) i' cnt v)
    (fun i => Z.to_nat (bit_cnt b - cnt + 1 - i))); [|split; [lia|intros; lia]|lia].
  intros i (Hi & Hno). destruct (Z.leb_spec i (bit_cnt b - cnt)); simpl.
  - apply returns_bind. eapply returns_mono; [apply bitmap_contains_spec; done || lia|].
    rewrite negb_involutive. intros [|] Hr; simpl.
    + rewrite u32_small by lia. split; [|lia]. split; [lia|].
      intros i' Hi'. destruct (decide (i' = i)) as [->|]; [|apply Hno; lia].
      intros Hrun. by apply Hr in Hrun.
    + left. split; [lia|]. split; [lia|]. split; [by apply Hr|]. intros; apply Hno; lia.
  - right. split; [done|]. intros i' Hi' Hle. apply Hno; lia.
Qed.

Lemma bitmap_create_in_buf_spec n words block_size :
  0 <= n <= 2 ^ 32 - ELEM_BITS -> bitmap_buf_size n <= block_size ->
  elem_cnt n <= Z.of_nat (length words) -> Forall in_u32 words ->
  returns (bitmap_create_in_buf n words block_size) (fun b =>
    wf b /\ bit_cnt b = n /\ run_at (bit b) 0 n false).
Proof.
  intros Hn Hsz Hl Hw. unfold bitmap_create_in_buf. run_assert.
  by apply (bitmap_set_all_spec (mk_bitmap n words) false).
Qed.
End Operations.

(** ** The interface the page allocator relies on *)

(** [ba_run f i cnt v] of the laws is [run_at]: bits [i] to [i + cnt - 1] are all [v]. *)
Class BitArray (B : Type) := {
  ba_size : B -> Z;
  ba_test : B -> Z -> res bool;
  ba_set_multiple : B -> Z -> Z -> bool -> res B;
  ba_all : B -> Z -> Z -> res bool;
  ba_scan : B -> Z -> Z -> bool -> res Z;
  ba_scan_and_flip : B -> Z -> Z -> bool -> res (Z * B);
  ba_create_in_buf : Z -> list Z -> Z -> res B;
  ba_wf : B -> Prop;
  ba_bit : B -> Z -> bool;
  ba_size_range : forall b, ba_wf b -> 0 <= ba_size b <= 2 ^ 32 - ELEM_BITS;
  ba_test_law : forall b i, ba_wf b -> 0 <= i < ba_size b -> ba_test b i = Ok (ba_bit b i);
  ba_set_multiple_law : forall b start cnt v,
    ba_wf b -> 0 <= start -> 0 <= cnt -> start + cnt <= ba_size b ->
    returns (ba_set_multiple b start cnt v) (fun b' =>
      ba_wf b' /\ ba_size b' = ba_size b /\
      forall j, 0 <= j -> ba_bit b' j =
        if (start <=? j) && (j <? start + cnt) then v else ba_bit b j);
  ba_all_law : forall b start cnt,
    ba_wf b -> 0 <= start -> 0 <= cnt -> start + cnt <= ba_size b ->
    returns (ba_all b start cnt) (fun r => r = true <-> run_at (ba_bit b) start cnt true);
  ba_scan_law : forall b start cnt v,
    ba_wf b -> 0 <= start <= ba_size b -> 0 <= cnt ->
    returns (ba_scan b start cnt v) (scan_result (ba_bit b) (ba_size b) start cnt v);
  ba_scan_and_flip_law : forall b start cnt v,
    ba_scan_and_flip b start cnt v =
      (idx ← ba_scan b start cnt v;
       if negb (idx =? BITMAP_ERROR) then
         b ← ba_set_multiple b idx cnt (negb v); Ok (idx, b)
       else Ok (idx, b));
  ba_create_law : forall n words block_size,
    0 <= n <= 2 ^ 32 - ELEM_BITS -> bitmap_buf_size n <= block_size ->
    elem_cnt n <= Z.of_nat (length words) -> Forall in_u32 words ->
    returns (ba_create_in_buf n words block_size) (fun b =>
      ba_wf b /\ ba_size b = n /\ run_at (ba_bit b) 0 n false)
}.

#[export] Program Instance bitmap_array : BitArray bitmap := {|
  ba_size := bitmap_size;
  ba_test := bitmap_test;
  ba_set_multiple := bitmap_set_multiple;
  ba_all := bitmap_all;
  ba_scan := bitmap_scan;
  ba_scan_and_flip := bitmap_scan_and_flip;
  ba_create_in_buf := bitmap_create_in_buf;
  ba_wf := wf;
  ba_bit := bit;
|}.
Next Obligation. by intros b (? & _). Qed.
Next Obligation. exact bitmap_test_spec. Qed.
Next Obligation. exact bitmap_set_multiple_spec. Qed.
Next Obligation. exact bitmap_all_spec. Qed.
Next Obligation. exact bitmap_scan_spec. Qed.
Next Obligation. done. Qed.
Next Obligation. exact bitmap_create_in_buf_spec. Qed.
