(* ===== verification/CString.v ===== *)
(** * Memory and the block routines of lib/string.c

    Byte-addressed memory is a total function from addresses to bytes; pointers are
    32-bit.  [memcpy], [memmove], [memset] and [memcmp] are the loops of the source,
    with the pointer increments at their width. *)

From stdpp Require Import base list numbers.
From Stdlib Require Import ZArith Lia.
From S2P Require Import Prelude.

Local Open Scope Z_scope.

Definition mem : Type := Z -> Z.

Definition store (m : mem) (a v : Z) : mem := fun x => if x =? a then v else m x.

Definition NULL : Z := 0.

(** [ASSERT(p != NULL || size == 0)] *)
Definition assert_block (p size : Z) : res unit := ASSERT (negb (p =? NULL) || (size =? 0)).

Definition memcpy (m : mem) (dst src size : Z) : res mem :=
  assert_block dst size;;
  assert_block src size;;
  loop (S (Z.to_nat size)) (fun '(m, dst, src, size) =>
    if 0 <? size then
      Ok (inl (store m dst (m src), u32 (dst + 1), u32 (src + 1), size - 1))
    else Ok (inr m)) (m, dst, src, size).

(** The pointer [memmove] returns is its working pointer [dst], not [dst_]. *)
Definition memmove (m : mem) (dst src size : Z) : res (Z * mem) :=
  assert_block dst size;;
  assert_block src size;;
  if dst <? src then
    loop (S (Z.to_nat size)) (fun '(m, dst, src, size) =>
      if 0 <? size then
        Ok (inl (store m dst (m src), u32 (dst + 1), u32 (src + 1), size - 1))
      else Ok (inr (dst, m))) (m, dst, src, size)
  else
    loop (S (Z.to_nat size)) (fun '(m, dst, src, size) =>
      if 0 <? size then
        let dst := u32 (dst - 1) in
        let src := u32 (src - 1) in
        Ok (inl (store m dst (m src), dst, src, size - 1))
      else Ok (inr (dst, m))) (m, u32 (dst + size), u32 (src + size), size).

Definition memset (m : mem) (dst value size : Z) : res mem :=
  assert_block dst size;;
  loop (S (Z.to_nat size)) (fun '(m, dst, size) =>
    if 0 <? size then
      Ok (inl (store m dst (u8 value), u32 (dst + 1), size - 1))
    else Ok (inr m)) (m, dst, size).

Definition memcmp (m : mem) (a b size : Z) : res Z :=
  assert_block a size;;
  assert_block b size;;
  loop (S (Z.to_nat size)) (fun '(a, b, size) =>
    if 0 <? size then
      if negb (m a =? m b) then Ok (inr (if m b <? m a then 1 else -1))
      else Ok (inl (u32 (a + 1), u32 (b + 1), size - 1))
    else Ok (inr 0)) (a, b, size).

(** ** Specifications *)

(** The block of [size] bytes at [p] is not null and does not wrap around. *)
Definition block_ok (p size : Z) : Prop :=
  0 <= p < 2 ^ 32 /\ 0 <= size /\ p + size <= 2 ^ 32 /\ (p <> NULL \/ size = 0).

Lemma assert_block_ok p size : block_ok p size -> assert_block p size = Ok tt.
Proof.
  intros (? & ? & ? & [Hn | ->]); unfold assert_block, NULL in *.
  - destruct (Z.eqb_spec p 0); [done|]. done.
  - by rewrite orb_true_r.
Qed.

(** A pointer that has just been advanced past the end of the address space is not
    dereferenced again, so its wrapped value does not matter. *)
Lemma memset_spec m dst v size :
  block_ok dst size ->
  returns (memset m dst v size) (fun m' =>
    forall a, m' a = if (dst <=? a) && (a <? dst + size) then u8 v else m a).
Proof.
  intros Hb. pose proof Hb as (Hd & Hs & Hw & _). unfold memset.
  rewrite assert_block_ok by done. simpl.
  apply (returns_loop (fun '(m1, d, n) => 0 <= n <= size /\ (0 < n -> d = dst + size - n) /\
      forall a, m1 a = if (dst <=? a) && (a <? dst + size - n) then u8 v else m a)
    (fun '(_, _, n) => Z.to_nat n)).
  - intros [[m1 d] n] (Hn & Hdn & Hm). destruct (Z.ltb_spec 0 n); simpl.
    + split; [|lia]. split; [lia|]. rewrite Hdn by lia. split.
      * intros. rewrite u32_small; lia.
      * intros a. unfold store. rewrite Hm. zbool.
    + intros a. rewrite Hm. zbool.
  - split; [lia|]. split; [lia|]. intros a. zbool.
  - lia.
Qed.

Lemma memcpy_spec m dst src size :
  block_ok dst size -> block_ok src size ->
  dst + size <= src \/ src + size <= dst ->
  returns (memcpy m dst src size) (fun m' =>
    forall a, m' a = if (dst <=? a) && (a <? dst + size) then m (src + (a - dst)) else m a).
Proof.
  intros Hb Hb' Hdis. pose proof Hb as (Hd & Hs & Hw & _). pose proof Hb' as (Hd' & _ & Hw' & _).
  unfold memcpy. rewrite !assert_block_ok by done. simpl.
  apply (returns_loop (fun '(m1, d, s, n) => 0 <= n <= size /\
      (0 < n -> d = dst + size - n /\ s = src + size - n) /\
      forall a, m1 a = if (dst <=? a) && (a <? dst + size - n) then m (src + (a - dst)) else m a)
    (fun '(_, _, _, n) => Z.to_nat n)).
  - intros [[[m1 d] s] n] (Hn & Hdn & Hm). destruct (Z.ltb_spec 0 n); simpl.
    + split; [|lia]. split; [lia|]. destruct Hdn as [-> ->]; [lia|]. split.
      * intros. rewrite !u32_small; lia.
      * intros a. unfold store. rewrite !Hm. zbool; f_equal; lia.
    + intros a. rewrite Hm. zbool.
  - split; [lia|]. split; [lia|]. intros a. zbool.
  - lia.
Qed.

(** Overlapping blocks are copied as if through a buffer, in both directions.  The
    returned pointer is the destination only when the copy runs backwards. *)
Lemma memmove_spec m dst src size :
  block_ok dst size -> block_ok src size ->
  returns (memmove m dst src size) (fun '(p, m') =>
    (forall a, m' a = if (dst <=? a) && (a <? dst + size) then m (src + (a - dst)) else m a) /\
    p = if dst <? src then u32 (dst + size) else dst).
Proof.
  intros Hb Hb'. pose proof Hb as (Hd & Hs & Hw & _). pose proof Hb' as (Hd' & _ & Hw' & _).
  unfold memmove. rewrite !assert_block_ok by done. simpl.
  destruct (Z.ltb_spec dst src) as [Hlt|Hge].
  - apply (returns_loop (fun '(m1, d, s, n) => 0 <= n <= size /\
        d = u32 (dst + size - n) /\ s = u32 (src + size - n) /\
        forall a, m1 a = if (dst <=? a) && (a <? dst + size - n) then m (src + (a - dst)) else m a)
      (fun '(_, _, _, n) => Z.to_nat n)).
    + intros [[[m1 d] s] n] (Hn & -> & -> & Hm). destruct (Z.ltb_spec 0 n); simpl.
      * rewrite (u32_small (dst + size - n)), (u32_small (src + size - n)) by lia.
        split; [|lia]. split; [lia|]. split; [f_equal; lia|]. split; [f_equal; lia|].
        intros a. unfold store. rewrite !Hm. zbool; f_equal; lia.
      * replace n with 0 in * by lia. rewrite Z.sub_0_r in *. split; [done|by f_equal].
    + split; [lia|]. split; [rewrite u32_small; lia|]. split; [rewrite u32_small; lia|].
      intros a. zbool.
    + lia.
  - apply (returns_loop (fun '(m1, d, s, n) => 0 <= n <= size /\
        d = u32 (dst + n) /\ s = u32 (src + n) /\
        forall a, m1 a = if (dst + n <=? a) && (a <? dst + size) then m (src + (a - dst)) else m a)
      (fun '(_, _, _, n) => Z.to_nat n)).
    + assert (Hpred : forall p n, 0 <= p -> 0 < n -> p + n <= 2 ^ 32 -> u32 (u32 (p + n) - 1) = p + (n - 1)).
      { intros p n Hp Hn' Hle. unfold u32. rewrite Zminus_mod_idemp_l, Z.mod_small; lia. }
      intros [[[m1 d] s] n] (Hn & -> & -> & Hm). destruct (Z.ltb_spec 0 n); simpl.
      * rewrite !Hpred by lia. split; [|lia]. split; [lia|].
        split; [rewrite u32_small; lia|]. split; [rewrite u32_small; lia|].
        intros a. unfold store. rewrite !Hm. zbool; f_equal; lia.
      * replace n with 0 in * by lia. rewrite Z.add_0_r in *. split; [done|].
        destruct (decide (size = 0)); apply u32_small; lia.
    + split; [lia|]. split; [done|]. split; [done|]. intros a. zbool.
    + lia.
Qed.

Lemma memcmp_spec m a b size :
  block_ok a size -> block_ok b size ->
  returns (memcmp m a b size) (fun r =>
    (r = 0 /\ forall i, 0 <= i < size -> m (a + i) = m (b + i)) \/
    exists k, 0 <= k < size /\ (forall i, 0 <= i < k -> m (a + i) = m (b + i)) /\
      ((r = 1 /\ m (b + k) < m (a + k)) \/ (r = -1 /\ m (a + k) < m (b + k)))).
Proof.
  intros Hb Hb'. pose proof Hb as (Hd & Hs & Hw & _). pose proof Hb' as (Hd' & _ & Hw' & _).
  unfold memcmp. rewrite !assert_block_ok by done. simpl.
  apply (returns_loop (fun '(p, q, n) => 0 <= n <= size /\
      (0 < n -> p = a + (size - n) /\ q = b + (size - n)) /\
      forall i, 0 <= i < size - n -> m (a + i) = m (b + i)) (fun '(_, _, n) => Z.to_nat n)).
  - intros [[p q] n] (Hn & Hpq & Heq). destruct (Z.ltb_spec 0 n); simpl.
    + destruct Hpq as [-> ->]; [lia|].
      destruct (Z.eqb_spec (m (a + (size - n))) (m (b + (size - n)))) as [E|E]; simpl.
      * split; [|lia]. split; [lia|]. split; [intros; rewrite !u32_small; lia|].
        intros i Hi. destruct (decide (i = size - n)) as [->|]; [done|apply Heq; lia].
      * right. exists (size - n). split; [lia|]. split; [done|].
        destruct (Z.ltb_spec (m (b + (size - n))) (m (a + (size - n)))); [by left|].
        right. split; [done|lia].
    + left. split; [done|]. intros; apply Heq; lia.
  - split; [lia|]. split; [lia|]. intros; lia.
  - lia.
Qed.
