(* ===== verification/Random.v ===== *)
(** * The pseudo-random generator

    lib/random.c: the RC4 state, its key schedule and its output loop.  The state is
    the file's static variables; [seedp] reads the bytes of the seed in memory order. *)

From stdpp Require Import base list numbers.
From Stdlib Require Import ZArith Lia.
From S2P Require Import Prelude.
From S2P Require Import CString.

Local Open Scope Z_scope.

Record rc4 := mk_rc4 { s : list Z; s_i : Z; s_j : Z; inited : bool }.

(** The static variables before any call. *)
Definition rc4_static : rc4 := mk_rc4 (replicate 256 0) 0 0 false.

Definition swap_byte (s : list Z) (a b : Z) : res (list Z) :=
  t ← rd s a;
  v ← rd s b;
  s ← wr s a v;
  wr s b t.

(** [seedp[k]], the k-th byte of the little-endian seed. *)
Definition seed_byte (seed k : Z) : Z := u8 (Z.shiftr seed (8 * k)).

Definition random_init (st : rc4) (seed : Z) : res rc4 :=
  t ← loop 257 (fun '(i, t) =>
    if i <? 256 then t ← wr t i (u8 i); Ok (inl (i + 1, t)) else Ok (inr t)) (0, s st);
  t ← loop 257 (fun '(i, j, t) =>
    if i <? 256 then
      v ← rd t i;
      let j := u8 (j + (v + seed_byte seed (i mod 4))) in
      t ← swap_byte t i j;
      Ok (inl (i + 1, j, t))
    else Ok (inr t)) (0, 0, t);
  Ok (mk_rc4 t 0 0 true).

(** One round of the loop of [random_bytes]. *)
Definition random_byte (m : mem) (st : rc4) (buf : Z) : res (mem * rc4) :=
  let i := u8 (s_i st + 1) in
  v ← rd (s st) i;
  let j := u8 (s_j st + v) in
  t ← swap_byte (s st) i j;
  a ← rd t i;
  b ← rd t j;
  let s_k := u8 (a + b) in
  r ← rd t s_k;
  Ok (store m buf r, mk_rc4 t i j (inited st)).

Definition random_bytes (m : mem) (st : rc4) (buf size : Z) : res (mem * rc4) :=
  st ← if inited st then Ok st else random_init st 0;
  loop (S (Z.to_nat size)) (fun '(m, st, buf, size) =>
    if 0 <? size then
      '(m, st) ← random_byte m st buf;
      Ok (inl (m, st, u32 (buf + 1), size - 1))
    else Ok (inr (m, st))) (m, st, buf, size).

(** The bytes of [ul] are on the stack, at an address of the caller's. *)
Definition random_ulong (m : mem) (st : rc4) (ul : Z) : res (Z * rc4) :=
  '(m, st) ← random_bytes m st ul 4;
  Ok (m ul + 2 ^ 8 * m (u32 (ul + 1)) + 2 ^ 16 * m (u32 (ul + 2)) + 2 ^ 24 * m (u32 (ul + 3)), st).

(** ** The state is a permutation of the bytes *)

Definition perm_bytes (t : list Z) : Prop := t ≡ₚ seqZ 0 256.

Definition rc4_ok (st : rc4) : Prop :=
  length (s st) = 256%nat /\
  (inited st = true -> perm_bytes (s st) /\ 0 <= s_i st < 2 ^ 8 /\ 0 <= s_j st < 2 ^ 8).

Lemma perm_bytes_length t : perm_bytes t -> length t = 256%nat.
Proof. intros Ht. rewrite (Permutation_length Ht). by rewrite length_seqZ. Qed.

Lemma perm_bytes_range t i v : perm_bytes t -> rd t i = Ok v -> 0 <= v < 2 ^ 8.
Proof.
  intros Ht [_ Hv%list_elem_of_lookup_2]%rd_ok. apply (elem_of_Permutation_proper v _ _ Ht), elem_of_seqZ in Hv. lia.
Qed.

Lemma perm_bytes_rd t i : perm_bytes t -> 0 <= i < 2 ^ 8 -> exists v, rd t i = Ok v /\ 0 <= v < 2 ^ 8.
Proof.
  intros Ht Hi. destruct (rd_inr t i) as [v Hv]; [rewrite (perm_bytes_length t Ht); lia|].
  exists v. eauto using perm_bytes_range.
Qed.

(** The list after [swap_byte]. *)
Definition swapped (t : list Z) (a b : Z) : list Z :=
  let x := t !!! Z.to_nat a in let y := t !!! Z.to_nat b in <[Z.to_nat b := x]> (<[Z.to_nat a := y]> t).

Lemma swap_byte_spec t a b : 0 <= a < Z.of_nat (length t) -> 0 <= b < Z.of_nat (length t) ->
  swap_byte t a b = Ok (swapped t a b).
Proof.
  intros Ha Hb. destruct (rd_inr t a Ha) as [x Hx], (rd_inr t b Hb) as [y Hy].
  unfold swap_byte, swapped. rewrite Hx, bind_ok, Hy, bind_ok, wr_ok, bind_ok, wr_ok by (rewrite ?length_insert; lia).
  apply rd_ok in Hx as [_ Hx], Hy as [_ Hy]. by rewrite (list_lookup_total_correct _ _ _ Hx), (list_lookup_total_correct _ _ _ Hy).
Qed.

Lemma swapped_perm t a b : 0 <= a < Z.of_nat (length t) -> 0 <= b < Z.of_nat (length t) -> swapped t a b ≡ₚ t.
Proof.
  intros Ha Hb. unfold swapped. destruct (lookup_lt_is_Some_2 t (Z.to_nat a)) as [x Hx]; [lia|].
  destruct (lookup_lt_is_Some_2 t (Z.to_nat b)) as [y Hy]; [lia|].
  rewrite (list_lookup_total_correct _ _ _ Hx), (list_lookup_total_correct _ _ _ Hy).
  by apply Permutation_insert_swap.
Qed.

Lemma swapped_bytes t a b : perm_bytes t -> 0 <= a < 2 ^ 8 -> 0 <= b < 2 ^ 8 ->
  swap_byte t a b = Ok (swapped t a b) /\ perm_bytes (swapped t a b).
Proof.
  intros Ht Ha Hb. pose proof (perm_bytes_length t Ht) as Hl. split; [apply swap_byte_spec; lia|].
  unfold perm_bytes in *. etransitivity; [apply swapped_perm; lia|exact Ht].
Qed.

(** ** Initialisation *)

Lemma identity_pass t : length t = 256%nat ->
  returns (loop 257 (fun '(i, t) =>
    if i <? 256 then t ← wr t i (u8 i); Ok (inl (i + 1, t)) else Ok (inr t)) (0, t)) (fun t' => t' = seqZ 0 256).
Proof.
  intros Hl. apply (returns_loop
    (fun '(i, t) => 0 <= i <= 256 /\ length t = 256%nat /\ take (Z.to_nat i) t = seqZ 0 i)
    (fun '(i, _) => Z.to_nat (256 - i))).
  - intros [i u] (Hi & Hu & Ht). destruct (Z.ltb_spec i 256).
    + rewrite wr_ok, bind_ok by lia. apply returns_ok. split; [|lia]. split; [lia|]. rewrite length_insert. split; [done|].
      replace (Z.to_nat (i + 1)) with (S (Z.to_nat i)) by lia.
      rewrite (take_S_r _ _ (u8 i)) by (apply list_lookup_insert_eq; lia).
      rewrite take_insert_ge, Ht, seqZ_app by lia. f_equal. simpl. rewrite u8_small by lia. done.
    + apply returns_ok. replace i with 256 in * by lia. rewrite <- Ht. by rewrite take_ge by lia.
  - split; [lia|]. by rewrite take_0.
  - simpl. lia.
Qed.

Lemma key_pass t seed : perm_bytes t ->
  returns (loop 257 (fun '(i, j, t) =>
    if i <? 256 then
      v ← rd t i;
      let j := u8 (j + (v + seed_byte seed (i mod 4))) in
      t ← swap_byte t i j;
      Ok (inl (i + 1, j, t))
    else Ok (inr t)) (0, 0, t)) perm_bytes.
Proof.
  intros Ht. apply (returns_loop (fun '(i, j, t) => 0 <= i <= 256 /\ perm_bytes t) (fun '(i, _, _) => Z.to_nat (256 - i))).
  - intros [[i j] u] (Hi & Hu). destruct (Z.ltb_spec i 256); [|by apply returns_ok].
    destruct (perm_bytes_rd u i Hu) as (v & -> & _); [lia|]. rewrite bind_ok. cbv zeta.
    destruct (swapped_bytes u i (u8 (j + (v + seed_byte seed (i mod 4)))) Hu) as [-> Hs]; [lia|apply u8_range|].
    rewrite bind_ok. apply returns_ok. split; [split; [lia|done]|lia].
  - split; [lia|done].
  - simpl. lia.
Qed.

Lemma random_init_spec st seed : length (s st) = 256%nat ->
  returns (random_init st seed) (fun st' => rc4_ok st' /\ inited st' = true /\ s_i st' = 0 /\ s_j st' = 0).
Proof.
  intros Hl. unfold random_init. apply returns_bind. eapply returns_mono; [by apply identity_pass|].
  intros t ->. apply returns_bind. eapply returns_mono; [apply key_pass; unfold perm_bytes; reflexivity|].
  intros t Ht. apply returns_ok. split; [|done]. split; [by apply perm_bytes_length|]. intros _. simpl. split; [done|lia].
Qed.

(** The key schedule depends on the seed only: the tables left by earlier use do not matter. *)
Lemma random_init_fresh st st' seed : length (s st) = 256%nat -> length (s st') = 256%nat ->
  random_init st seed = random_init st' seed.
Proof.
  intros Hl Hl'. unfold random_init.
  destruct (returns_inv _ _ (identity_pass _ Hl)) as (t & Et & ->), (returns_inv _ _ (identity_pass _ Hl')) as (t' & Et' & ->).
  by rewrite Et, Et'.
Qed.

(** ** The key stream *)

(** One round of the output loop: the byte it yields and the state it leaves. *)
Definition rc4_next (st : rc4) : Z * rc4 :=
  let i := u8 (s_i st + 1) in
  let j := u8 (s_j st + s st !!! Z.to_nat i) in
  let t := swapped (s st) i j in
  (t !!! Z.to_nat (u8 (t !!! Z.to_nat i + t !!! Z.to_nat j)), mk_rc4 t i j (inited st)).

Fixpoint keystream (n : nat) (st : rc4) : list Z * rc4 :=
  match n with
  | O => ([], st)
  | S n => let '(b, st) := rc4_next st in let '(bs, st) := keystream n st in (b :: bs, st)
  end.

#[local] Opaque rc4_next.

Lemma keystream_app n k st : keystream (n + k) st =
  let '(bs, st) := keystream n st in let '(cs, st) := keystream k st in (bs ++ cs, st).
Proof.
  revert st. induction n as [|n IH]; intros st; simpl; [by destruct (keystream k st)|].
  destruct (rc4_next st) as [b st1]. rewrite IH. destruct (keystream n st1) as [bs st2].
  by destruct (keystream k st2).
Qed.

Lemma keystream_length n st : length (keystream n st).1 = n.
Proof.
  revert st. induction n as [|n IH]; intros st; simpl; [done|]. destruct (rc4_next st) as [b st1].
  specialize (IH st1). destruct (keystream n st1); simpl in *. congruence.
Qed.

Lemma rd_total (t : list Z) i : 0 <= i < Z.of_nat (length t) -> rd t i = Ok (t !!! Z.to_nat i).
Proof.
  intros Hi. apply rd_ok. split; [lia|]. apply list_lookup_lookup_total_lt. lia.
Qed.

Lemma perm_bytes_at t k : perm_bytes t -> 0 <= t !!! Z.to_nat (u8 k) < 2 ^ 8.
Proof.
  intros Ht. eapply perm_bytes_range; [exact Ht|]. apply rd_total. rewrite (perm_bytes_length t Ht).
  pose proof (u8_range k). lia.
Qed.

#[local] Transparent rc4_next.

Lemma rc4_next_ok st : rc4_ok st -> inited st = true ->
  rc4_ok (rc4_next st).2 /\ inited (rc4_next st).2 = true /\ 0 <= (rc4_next st).1 < 2 ^ 8.
Proof.
  intros [Hl Hok] Hi. destruct (Hok Hi) as (Ht & _). unfold rc4_next. simpl.
  edestruct (swapped_bytes (s st) (u8 (s_i st + 1))) as [_ Hs]; [done|apply u8_range|apply u8_range|].
  split; [split; [by apply perm_bytes_length|intros _; split_and!; (apply u8_range || done)]|]. split; [done|].
  by apply perm_bytes_at.
Qed.

(** ** Output *)

Lemma random_byte_spec m st buf : rc4_ok st -> inited st = true ->
  random_byte m st buf = Ok (store m buf (rc4_next st).1, (rc4_next st).2).
Proof.
  intros [Hl Hok] Hi. destruct (Hok Hi) as (Ht & _). unfold random_byte. cbv zeta. pose proof u8_range as Hr.
  assert (Hrd : forall t k, perm_bytes t -> rd t (u8 k) = Ok (t !!! Z.to_nat (u8 k))).
  { intros t k Hp. apply rd_total. rewrite (perm_bytes_length t Hp). specialize (Hr k). lia. }
  rewrite Hrd, bind_ok by done.
  edestruct (swapped_bytes (s st) (u8 (s_i st + 1))) as [-> Hs]; [done|apply Hr|apply Hr|].
  rewrite bind_ok, !Hrd, !bind_ok by done. by rewrite Hrd, bind_ok by done.
Qed.

(** [cs] is stored at [buf] and nothing else changes. *)
Definition stored (m : mem) (buf : Z) (cs : list Z) (m' : mem) : Prop :=
  forall a, m' a = if (buf <=? a) && (a <? buf + Z.of_nat (length cs)) then nth (Z.to_nat (a - buf)) cs 0 else m a.

Lemma stored_snoc m buf cs m1 c : stored m buf cs m1 ->
  stored m buf (cs ++ [c]) (store m1 (buf + Z.of_nat (length cs)) c).
Proof.
  intros H a. unfold store. rewrite length_app. simpl. rewrite H.
  destruct (Z.eqb_spec a (buf + Z.of_nat (length cs))) as [->|Hne].
  - replace (_ && _) with true by zbool. rewrite app_nth2 by lia.
    by replace (Z.to_nat _ - length cs)%nat with 0%nat by lia.
  - destruct (_ && _) eqn:E.
    + apply andb_true_iff in E as [?%Z.leb_le ?%Z.ltb_lt]. replace (_ && _) with true by zbool. by rewrite app_nth1 by lia.
    + by replace (_ && _) with false by zbool.
Qed.

#[local] Opaque rc4_next.

Lemma keystream_ok n st : rc4_ok st -> inited st = true -> rc4_ok (keystream n st).2 /\ inited (keystream n st).2 = true.
Proof.
  revert st. induction n as [|n IH]; intros st Hok Hi; simpl; [done|].
  destruct (rc4_next_ok st Hok Hi) as (Hok1 & Hi1 & _). destruct (rc4_next st) as [b st1].
  specialize (IH st1 Hok1 Hi1). by destruct (keystream n st1).
Qed.

Lemma keystream_snoc n st : keystream (S n) st =
  ((keystream n st).1 ++ [(rc4_next (keystream n st).2).1], (rc4_next (keystream n st).2).2).
Proof.
  replace (S n) with (n + 1)%nat by lia. rewrite keystream_app. destruct (keystream n st) as [bs st1]. simpl.
  by destruct (rc4_next st1).
Qed.

Lemma random_bytes_spec m st buf size : rc4_ok st -> inited st = true -> 0 <= buf -> 0 <= size -> buf + size <= 2 ^ 32 ->
  returns (random_bytes m st buf size) (fun '(m', st') =>
    st' = (keystream (Z.to_nat size) st).2 /\ stored m buf (keystream (Z.to_nat size) st).1 m').
Proof.
  intros Hok Hi Hb Hs He. unfold random_bytes. rewrite Hi, bind_ok.
  apply (returns_loop (fun '(m1, st1, p, n) => 0 <= n <= size /\ (0 < n -> p = buf + (size - n)) /\
      st1 = (keystream (Z.to_nat (size - n)) st).2 /\ stored m buf (keystream (Z.to_nat (size - n)) st).1 m1)
    (fun '(_, _, _, n) => Z.to_nat n)).
  - intros [[[m1 st1] p] n] (Hn & Hp & -> & Hm). destruct (Z.ltb_spec 0 n).
    + destruct (keystream_ok (Z.to_nat (size - n)) st Hok Hi) as [Hok1 Hi1].
      rewrite random_byte_spec, bind_ok by done. apply returns_ok. rewrite Hp in * by done.
      replace (Z.to_nat (size - (n - 1))) with (S (Z.to_nat (size - n))) by lia. rewrite keystream_snoc. simpl.
      split; [|lia]. split; [lia|]. split; [intros; rewrite u32_small; lia|]. split; [done|].
      replace (buf + (size - n)) with (buf + Z.of_nat (length (keystream (Z.to_nat (size - n)) st).1))
        by (rewrite keystream_length; lia). by apply stored_snoc.
    + apply returns_ok. replace (size - n) with size in * by lia. done.
  - split; [lia|]. replace (size - size) with 0 by lia. split; [lia|]. split; [done|]. intros a. simpl. zbool.
  - lia.
Qed.

(** The first use of an unseeded generator seeds it with 0. *)
Lemma random_bytes_seeded st : rc4_ok st -> exists st0, rc4_ok st0 /\ inited st0 = true /\
  forall m buf size, random_bytes m st buf size = random_bytes m st0 buf size.
Proof.
  intros Hok. destruct (inited st) eqn:Hi; [by exists st|].
  destruct (returns_inv _ _ (random_init_spec st 0 (proj1 Hok))) as (st0 & E & Hok0 & Hi0 & _).
  exists st0. split; [done|]. split; [done|]. intros. unfold random_bytes. by rewrite Hi, E, Hi0.
Qed.

Lemma keystream_range n st : rc4_ok st -> inited st = true -> Forall (fun b => 0 <= b < 2 ^ 8) (keystream n st).1.
Proof.
  revert st. induction n as [|n IH]; intros st Hok Hi; simpl; [constructor|].
  destruct (rc4_next_ok st Hok Hi) as (Hok1 & Hi1 & Hb). destruct (rc4_next st) as [b st1].
  specialize (IH st1 Hok1 Hi1). destruct (keystream n st1). by constructor.
Qed.

(** The generator is a stream: asking for [n] bytes and then for [k] more gives the bytes
    and the state that asking for [n + k] at once gives, whatever the state, seeded or not;
    the table stays a permutation of the 256 byte values. *)
Theorem random_bytes_stream m st buf n k : rc4_ok st -> 0 <= buf -> 0 <= n -> 0 <= k -> buf + n + k <= 2 ^ 32 ->
  returns (random_bytes m st buf (n + k)) (fun '(m1, st1) =>
    perm_bytes (s st1) /\
    returns ('(m', st') ← random_bytes m st buf n; random_bytes m' st' (buf + n) k) (fun '(m2, st2) =>
      st2 = st1 /\ forall a, m2 a = m1 a)).
Proof.
  intros Hok Hb Hn Hk He. destruct (random_bytes_seeded st Hok) as (st0 & Hok0 & Hi0 & E). rewrite !E. clear E.
  eapply returns_mono; [apply random_bytes_spec; done || lia|]. intros [m1 st1] [-> H1].
  rewrite Z2Nat.inj_add, keystream_app in H1 |- * by lia. pose proof (keystream_length (Z.to_nat n) st0) as Ln.
  destruct (keystream_ok (Z.to_nat n) st0 Hok0 Hi0) as [Hok2 Hi2].
  split.
  { destruct (keystream_ok (Z.to_nat n + Z.to_nat k) st0 Hok0 Hi0) as [[_ H] Hi]. specialize (H Hi).
    rewrite keystream_app in H. apply H. }
  apply returns_bind. eapply returns_mono; [apply random_bytes_spec; done || lia|]. intros [m' st'] [-> H2].
  destruct (keystream (Z.to_nat n) st0) as [bs st2]. simpl in *.
  eapply returns_mono; [apply random_bytes_spec; done || lia|]. intros [m2 st3] [-> H3].
  pose proof (keystream_length (Z.to_nat k) st2) as Lk. destruct (keystream (Z.to_nat k) st2) as [cs st3]. simpl in *.
  split; [done|]. intros a. rewrite H3, H2, H1, length_app, Ln, Lk.
  destruct (Z.leb_spec buf a), (Z.leb_spec (buf + n) a); simpl; try lia; zcases.
  - rewrite app_nth2 by lia. f_equal. lia.
  - by rewrite app_nth1 by lia.
Qed.
