(* ===== verification/Arc4.v ===== *)
(** * The RC4 cipher of the tests (tests/arc4.c)

    The cipher, and its relation to the generator of lib/random.c: keyed with the bytes of a
    seed, its key stream is what the generator outputs. *)

From Stdlib Require Import ZArith Lia.
From stdpp Require Import base list numbers.
From S2P Require Import Prelude CString Random.

Local Open Scope Z_scope.

Record arc4 := mk_arc4 { arc4_s : list Z; arc4_i : Z; arc4_j : Z }.

(** The loop of arc4_init that mixes the key in. *)
Definition mix_key (m : mem) (key size : Z) (x : Z * Z * Z * list Z) : res (Z * Z * Z * list Z + list Z) :=
  let '(key_idx, i, j, t) := x in
  if i <? 256 then
    v ← rd t i;
    let j := Z.land (j + v + u8 (m (u32 (key + key_idx)))) 255 in
    t ← swap_byte t i j;
    let key_idx := u32 (key_idx + 1) in
    Ok (inl (if size <=? key_idx then 0 else key_idx, i + 1, j, t))
  else Ok (inr t).

Definition arc4_init (m : mem) (a : arc4) (key size : Z) : res arc4 :=
  t ← loop 257 (fun '(i, t) =>
    if i <? 256 then t ← wr t i (u8 i); Ok (inl (i + 1, t)) else Ok (inr t)) (0, arc4_s a);
  t ← loop 257 (mix_key m key size) (0, 0, 0, t);
  Ok (mk_arc4 t 0 0).

(** One round of the loop of arc4_crypt. *)
Definition crypt_byte (m : mem) (a : arc4) (buf : Z) : res (mem * arc4) :=
  let i := u8 (arc4_i a + 1) in
  v ← rd (arc4_s a) i;
  let j := u8 (arc4_j a + v) in
  t ← swap_byte (arc4_s a) i j;
  x ← rd t i;
  y ← rd t j;
  k ← rd t (Z.land (x + y) 255);
  Ok (store m buf (Z.lxor (u8 (m buf)) k), mk_arc4 t i j).

Definition arc4_crypt (m : mem) (a : arc4) (buf size : Z) : res (mem * arc4) :=
  loop (S (Z.to_nat size)) (fun '(m, a, buf, size) =>
    if 0 <? size then
      '(m, a) ← crypt_byte m a buf;
      Ok (inl (m, a, u32 (buf + 1), size - 1))
    else Ok (inr (m, a))) (m, a, buf, size).

(** ** The cipher is the generator *)

(** The cipher's state as that of the generator. *)
Definition as_rc4 (a : arc4) : rc4 := mk_rc4 (arc4_s a) (arc4_i a) (arc4_j a) true.
Definition of_rc4 (st : rc4) : arc4 := mk_arc4 (s st) (s_i st) (s_j st).

Definition arc4_ok (a : arc4) : Prop := rc4_ok (as_rc4 a).

Lemma land_255 z : Z.land z 255 = u8 z.
Proof. change 255 with (Z.ones 8). rewrite Z.land_ones by lia. done. Qed.

Lemma crypt_byte_spec m a buf : arc4_ok a ->
  crypt_byte m a buf = Ok (store m buf (Z.lxor (u8 (m buf)) (rc4_next (as_rc4 a)).1), of_rc4 (rc4_next (as_rc4 a)).2).
Proof.
  intros [Hl Hok]. destruct (Hok eq_refl) as (Ht & _). simpl in Ht. unfold crypt_byte. cbv zeta. pose proof u8_range as Hr.
  assert (Hrd : forall t k, perm_bytes t -> rd t (u8 k) = Ok (t !!! Z.to_nat (u8 k))).
  { intros t k Hp. apply rd_total. rewrite (perm_bytes_length t Hp). specialize (Hr k). lia. }
  rewrite Hrd, bind_ok by done.
  edestruct (swapped_bytes (arc4_s a) (u8 (arc4_i a + 1))) as [-> Hs]; [done|apply Hr|apply Hr|].
  rewrite bind_ok, !Hrd, !bind_ok, land_255 by done. by rewrite Hrd, bind_ok by done.
Qed.

(** The cipher xors the key stream onto the buffer. *)
Definition xored (m : mem) (buf : Z) (ks : list Z) (m' : mem) : Prop := forall a,
  m' a = if (buf <=? a) && (a <? buf + Z.of_nat (length ks)) then Z.lxor (u8 (m a)) (nth (Z.to_nat (a - buf)) ks 0) else m a.

Lemma xored_snoc m buf ks m1 k : xored m buf ks m1 ->
  xored m buf (ks ++ [k]) (store m1 (buf + Z.of_nat (length ks)) (Z.lxor (u8 (m1 (buf + Z.of_nat (length ks)))) k)).
Proof.
  intros H a. unfold store. rewrite length_app. simpl.
  destruct (Z.eqb_spec a (buf + Z.of_nat (length ks))) as [->|Hne].
  - rewrite H. replace (_ && _) with false by zbool. replace (_ && _) with true by zbool. rewrite app_nth2 by lia.
    by replace (Z.to_nat _ - length ks)%nat with 0%nat by lia.
  - rewrite H. destruct (_ && _) eqn:E.
    + apply andb_true_iff in E as [?%Z.leb_le ?%Z.ltb_lt]. replace (_ && _) with true by zbool. by rewrite app_nth1 by lia.
    + by replace (_ && _) with false by zbool.
Qed.

Lemma as_of_rc4 st : inited st = true -> as_rc4 (of_rc4 st) = st.
Proof. destruct st. by intros [= ->]. Qed.

Lemma arc4_crypt_spec m a buf size : arc4_ok a -> 0 <= buf -> 0 <= size -> buf + size <= 2 ^ 32 ->
  returns (arc4_crypt m a buf size) (fun '(m', a') =>
    a' = of_rc4 (keystream (Z.to_nat size) (as_rc4 a)).2 /\ xored m buf (keystream (Z.to_nat size) (as_rc4 a)).1 m').
Proof.
  intros Hok Hb Hs He. unfold arc4_crypt.
  apply (returns_loop (fun '(m1, a1, p, n) => 0 <= n <= size /\ (0 < n -> p = buf + (size - n)) /\
      a1 = of_rc4 (keystream (Z.to_nat (size - n)) (as_rc4 a)).2 /\ xored m buf (keystream (Z.to_nat (size - n)) (as_rc4 a)).1 m1)
    (fun '(_, _, _, n) => Z.to_nat n)).
  - intros [[[m1 a1] p] n] (Hn & Hp & -> & Hm). destruct (Z.ltb_spec 0 n).
    + destruct (keystream_ok (Z.to_nat (size - n)) (as_rc4 a) Hok eq_refl) as [Hok1 Hi1].
      rewrite crypt_byte_spec, as_of_rc4, bind_ok by (done || (unfold arc4_ok; by rewrite as_of_rc4)). apply returns_ok. rewrite Hp in * by done.
      replace (Z.to_nat (size - (n - 1))) with (S (Z.to_nat (size - n))) by lia. rewrite keystream_snoc. cbn [fst snd].
      split; [|lia]. split; [lia|]. split; [intros; rewrite u32_small; lia|]. split; [done|].
      replace (buf + (size - n)) with (buf + Z.of_nat (length (keystream (Z.to_nat (size - n)) (as_rc4 a)).1))
        by (rewrite keystream_length; lia). by apply xored_snoc.
    + apply returns_ok. replace (size - n) with size in * by lia. done.
  - split; [lia|]. replace (size - size) with 0 by lia. split; [lia|]. split; [by destruct a|]. intros x. simpl. zbool.
  - lia.
Qed.

(** ** The key schedule *)

Lemma mix_key_perm m key size t : perm_bytes t -> returns (loop 257 (mix_key m key size) (0, 0, 0, t)) perm_bytes.
Proof.
  intros Ht. apply (returns_loop (fun '(_, i, j, t) => 0 <= i <= 256 /\ perm_bytes t) (fun '(_, i, _, _) => Z.to_nat (256 - i))).
  - intros [[[k i] j] u] (Hi & Hu). unfold mix_key. destruct (Z.ltb_spec i 256); [|by apply returns_ok].
    destruct (perm_bytes_rd u i Hu) as (v & -> & _); [lia|]. rewrite bind_ok. cbv zeta. rewrite land_255.
    destruct (swapped_bytes u i (u8 (j + v + u8 (m (u32 (key + k))))) Hu) as [-> Hs]; [lia|apply u8_range|].
    rewrite bind_ok. apply returns_ok. split; [split; [lia|done]|lia].
  - split; [lia|done].
  - simpl. lia.
Qed.

Lemma arc4_init_spec m a key size : length (arc4_s a) = 256%nat -> returns (arc4_init m a key size) arc4_ok.
Proof.
  intros Hl. unfold arc4_init. apply returns_bind. eapply returns_mono; [by apply identity_pass|]. intros t ->.
  apply returns_bind. eapply returns_mono; [apply mix_key_perm; unfold perm_bytes; reflexivity|].
  intros t Ht. apply returns_ok. split; [by apply perm_bytes_length|]. intros _. simpl. split; [done|lia].
Qed.

(** It depends on the key only. *)
Lemma arc4_init_same m m' a a' key size : length (arc4_s a) = 256%nat -> length (arc4_s a') = 256%nat -> 0 < size < 2 ^ 32 ->
  (forall k, 0 <= k < size -> m' (u32 (key + k)) = m (u32 (key + k))) -> arc4_init m' a' key size = arc4_init m a key size.
Proof.
  intros Hl Hl' Hs Hk. unfold arc4_init.
  destruct (returns_inv _ _ (identity_pass _ Hl)) as (t & -> & ->), (returns_inv _ _ (identity_pass _ Hl')) as (t' & -> & ->). rewrite !bind_ok.
  assert (H : res_rel eq (loop 257 (mix_key m' key size) (0, 0, 0, seqZ 0 256)) (loop 257 (mix_key m key size) (0, 0, 0, seqZ 0 256))).
  { apply (res_rel_loop (fun x y => x = y /\ 0 <= x.1.1.1 < size)); [|split; [done|simpl; lia]].
    intros [[[k i] j] t] y [<- Hx]. simpl in Hx. unfold mix_key. rewrite Hk by done. destruct (i <? 256); [|done].
    apply res_rel_same. intros v. apply res_rel_same. intros t'. split; [done|]. simpl.
    rewrite u32_small by lia. destruct (Z.leb_spec size (k + 1)); lia. }
  by destruct (loop 257 (mix_key m' key size) _), (loop 257 (mix_key m key size) _); simpl in H; subst.
Qed.

(** The cipher keyed with the four bytes of a seed is in the state of the seeded generator. *)
Lemma arc4_init_seed m a st key seed : length (arc4_s a) = 256%nat -> length (s st) = 256%nat ->
  (forall k, 0 <= k < 4 -> u8 (m (u32 (key + k))) = seed_byte seed k) ->
  res_rel (fun x y => x = of_rc4 y) (arc4_init m a key 4) (random_init st seed).
Proof.
  intros Hl Hl' Hk. unfold arc4_init, random_init.
  destruct (returns_inv _ _ (identity_pass _ Hl)) as (t & -> & ->), (returns_inv _ _ (identity_pass _ Hl')) as (t' & -> & ->). rewrite !bind_ok.
  eapply (res_rel_bind eq); [|by intros t ? <-].
  apply (res_rel_loop (fun '(k, i, j, t) '(i', j', t') => i' = i /\ j' = j /\ t' = t /\ k = i mod 4 /\ 0 <= i)); [|by split_and!].
  intros [[[k i] j] t] [[i' j'] t'] (-> & -> & -> & -> & Hi). unfold mix_key. destruct (i <? 256); [|done].
  apply res_rel_same. intros v. rewrite land_255, Hk by (apply Z.mod_pos_bound; lia). rewrite <- Z.add_assoc.
  apply res_rel_same. intros t'. simpl. split_and!; [done|done|done| |lia].
  pose proof (Z.mod_pos_bound i 4 ltac:(lia)). rewrite u32_small by lia. destruct (Z.leb_spec 4 (i mod 4 + 1)); Z.div_mod_to_equations; lia.
Qed.

(** ** Decryption *)

Lemma u8_lxor_twice x k : 0 <= k < 2 ^ 8 -> Z.lxor (u8 (Z.lxor (u8 x) k)) k = u8 x.
Proof.
  intros Hk. assert (Hx : 0 <= u8 x < 2 ^ 8) by apply u8_range. rewrite u8_small.
  - by rewrite Z.lxor_assoc, Z.lxor_nilpotent, Z.lxor_0_r.
  - assert (0 <= Z.lxor (u8 x) k) by (apply Z.lxor_nonneg; lia). split; [done|].
    destruct (Z.eq_dec (Z.lxor (u8 x) k) 0) as [->|]; [lia|]. apply Z.log2_lt_pow2; [lia|]. pose proof (Z.log2_lxor (u8 x) k ltac:(lia) ltac:(lia)).
    assert (forall z, 0 <= z < 2 ^ 8 -> Z.log2 z < 8).
    { intros z Hz. destruct (Z.eq_dec z 0) as [->|]; [done|]. apply Z.log2_lt_pow2; lia. }
    pose proof (H1 (u8 x) Hx). pose proof (H1 k Hk). lia.
Qed.

(** Encryption is undone by decryption: for every key and every buffer that does not
    overlap it, initialising with the key and crypting the buffer twice gives the buffer
    back and leaves the rest of memory alone. *)
Theorem arc4_decrypts m a a' key size buf n : length (arc4_s a) = 256%nat -> length (arc4_s a') = 256%nat ->
  0 < size < 2 ^ 32 -> 0 <= buf -> 0 <= n -> buf + n <= 2 ^ 32 ->
  (forall k, 0 <= k < size -> u32 (key + k) < buf \/ buf + n <= u32 (key + k)) ->
  returns (a ← arc4_init m a key size; '(m1, _) ← arc4_crypt m a buf n; a' ← arc4_init m1 a' key size; arc4_crypt m1 a' buf n)
    (fun '(m2, _) => forall x, m2 x = if (buf <=? x) && (x <? buf + n) then u8 (m x) else m x).
Proof.
  intros Hl Hl' Hs Hb Hn He Hsep. destruct (returns_inv _ _ (arc4_init_spec m a key size Hl)) as (a1 & E1 & Hok1). rewrite E1, bind_ok.
  apply returns_bind. eapply returns_mono; [apply (arc4_crypt_spec m a1 buf n); done|]. intros [m1 a2] [_ H1].
  pose proof (keystream_length (Z.to_nat n) (as_rc4 a1)) as Hlen.
  rewrite (arc4_init_same m m1 a a' key size Hl Hl' Hs), E1, bind_ok.
  - eapply returns_mono; [apply (arc4_crypt_spec m1 a1 buf n); done|]. intros [m2 a3] [_ H2] x. rewrite H2, !(H1 x), Hlen, Z2Nat.id by done.
    destruct ((buf <=? x) && (x <? buf + n)) eqn:Ex; [|done]. apply andb_true_iff in Ex as [?%Z.leb_le ?%Z.ltb_lt]. apply u8_lxor_twice.
    pose proof (keystream_range (Z.to_nat n) (as_rc4 a1) Hok1 eq_refl) as Hr. apply Forall_nth with (i := Z.to_nat (x - buf)) (d := 0) in Hr; [done|lia].
  - intros k Hk. rewrite H1, Hlen, Z2Nat.id by done. destruct (Hsep k Hk); zbool; lia.
Qed.

Definition blank_arc4 : arc4 := mk_arc4 (replicate 256 0) 0 0.

Lemma arc4_decrypts_witness : returns (a ← arc4_init (fun a => a mod 256) blank_arc4 0x500 3; '(m1, _) ← arc4_crypt (fun a => a mod 256) a 0x1000 100;
  a' ← arc4_init m1 blank_arc4 0x500 3; arc4_crypt m1 a' 0x1000 100) (fun '(m2, _) => m2 0x1007 = 7).
Proof.
  eapply returns_mono; [apply (arc4_decrypts (fun a => a mod 256) blank_arc4 blank_arc4 0x500 3 0x1000 100); try done|].
  - intros k Hk. rewrite u32_small by lia. lia.
  - intros [m2 a2] H. apply H.
Defined.

(** Keyed with the bytes of a seed, the cipher turns a buffer of zeros into the bytes that
    the seeded generator writes. *)
Theorem arc4_is_random m m' a st key seed buf n : length (arc4_s a) = 256%nat -> length (s st) = 256%nat ->
  (forall k, 0 <= k < 4 -> u8 (m (u32 (key + k))) = seed_byte seed k) ->
  0 <= buf -> 0 <= n -> buf + n <= 2 ^ 32 -> (forall x, buf <= x < buf + n -> m x = 0) ->
  returns (a ← arc4_init m a key 4; arc4_crypt m a buf n) (fun '(m1, _) =>
    returns (st ← random_init st seed; random_bytes m' st buf n) (fun '(m2, _) =>
      forall x, buf <= x < buf + n -> m1 x = m2 x)).
Proof.
  intros Hl Hl' Hk Hb Hn He H0. pose proof (arc4_init_seed m a st key seed Hl Hl' Hk) as Hseed.
  destruct (returns_inv _ _ (random_init_spec st seed Hl')) as (st1 & E1 & Hok1 & Hi1 & _). rewrite E1 in Hseed |- *.
  destruct (arc4_init m a key 4) as [a1|]; [|done]. simpl in Hseed. subst a1. rewrite !bind_ok.
  eapply returns_mono; [apply arc4_crypt_spec; try done; unfold arc4_ok; by rewrite as_of_rc4|]. rewrite as_of_rc4 by done. intros [m1 a2] [_ H1].
  eapply returns_mono; [by apply random_bytes_spec|]. intros [m2 st2] [_ H2] x Hx.
  rewrite H1, H2, keystream_length, Z2Nat.id, H0 by done. zbool.
Qed.
