(* ===== verification/Cksum.v ===== *)
(** * Checksums (tests/cksum.c)

    The checksum of the Posix cksum utility, with its table.  The specification is the
    remainder of a polynomial over the field with two elements: the bits of a number are the
    coefficients, addition is exclusive or. *)

From Stdlib Require Import ZArith Lia.
From stdpp Require Import base list numbers.
From S2P Require Import Prelude CString.

Local Open Scope Z_scope.

Definition crctab : list Z := [
  0x00000000; 0x04c11db7; 0x09823b6e; 0x0d4326d9; 0x130476dc; 0x17c56b6b; 0x1a864db2; 0x1e475005;
  0x2608edb8; 0x22c9f00f; 0x2f8ad6d6; 0x2b4bcb61; 0x350c9b64; 0x31cd86d3; 0x3c8ea00a; 0x384fbdbd;
  0x4c11db70; 0x48d0c6c7; 0x4593e01e; 0x4152fda9; 0x5f15adac; 0x5bd4b01b; 0x569796c2; 0x52568b75;
  0x6a1936c8; 0x6ed82b7f; 0x639b0da6; 0x675a1011; 0x791d4014; 0x7ddc5da3; 0x709f7b7a; 0x745e66cd;
  0x9823b6e0; 0x9ce2ab57; 0x91a18d8e; 0x95609039; 0x8b27c03c; 0x8fe6dd8b; 0x82a5fb52; 0x8664e6e5;
  0xbe2b5b58; 0xbaea46ef; 0xb7a96036; 0xb3687d81; 0xad2f2d84; 0xa9ee3033; 0xa4ad16ea; 0xa06c0b5d;
  0xd4326d90; 0xd0f37027; 0xddb056fe; 0xd9714b49; 0xc7361b4c; 0xc3f706fb; 0xceb42022; 0xca753d95;
  0xf23a8028; 0xf6fb9d9f; 0xfbb8bb46; 0xff79a6f1; 0xe13ef6f4; 0xe5ffeb43; 0xe8bccd9a; 0xec7dd02d;
  0x34867077; 0x30476dc0; 0x3d044b19; 0x39c556ae; 0x278206ab; 0x23431b1c; 0x2e003dc5; 0x2ac12072;
  0x128e9dcf; 0x164f8078; 0x1b0ca6a1; 0x1fcdbb16; 0x018aeb13; 0x054bf6a4; 0x0808d07d; 0x0cc9cdca;
  0x7897ab07; 0x7c56b6b0; 0x71159069; 0x75d48dde; 0x6b93dddb; 0x6f52c06c; 0x6211e6b5; 0x66d0fb02;
  0x5e9f46bf; 0x5a5e5b08; 0x571d7dd1; 0x53dc6066; 0x4d9b3063; 0x495a2dd4; 0x44190b0d; 0x40d816ba;
  0xaca5c697; 0xa864db20; 0xa527fdf9; 0xa1e6e04e; 0xbfa1b04b; 0xbb60adfc; 0xb6238b25; 0xb2e29692;
  0x8aad2b2f; 0x8e6c3698; 0x832f1041; 0x87ee0df6; 0x99a95df3; 0x9d684044; 0x902b669d; 0x94ea7b2a;
  0xe0b41de7; 0xe4750050; 0xe9362689; 0xedf73b3e; 0xf3b06b3b; 0xf771768c; 0xfa325055; 0xfef34de2;
  0xc6bcf05f; 0xc27dede8; 0xcf3ecb31; 0xcbffd686; 0xd5b88683; 0xd1799b34; 0xdc3abded; 0xd8fba05a;
  0x690ce0ee; 0x6dcdfd59; 0x608edb80; 0x644fc637; 0x7a089632; 0x7ec98b85; 0x738aad5c; 0x774bb0eb;
  0x4f040d56; 0x4bc510e1; 0x46863638; 0x42472b8f; 0x5c007b8a; 0x58c1663d; 0x558240e4; 0x51435d53;
  0x251d3b9e; 0x21dc2629; 0x2c9f00f0; 0x285e1d47; 0x36194d42; 0x32d850f5; 0x3f9b762c; 0x3b5a6b9b;
  0x0315d626; 0x07d4cb91; 0x0a97ed48; 0x0e56f0ff; 0x1011a0fa; 0x14d0bd4d; 0x19939b94; 0x1d528623;
  0xf12f560e; 0xf5ee4bb9; 0xf8ad6d60; 0xfc6c70d7; 0xe22b20d2; 0xe6ea3d65; 0xeba91bbc; 0xef68060b;
  0xd727bbb6; 0xd3e6a601; 0xdea580d8; 0xda649d6f; 0xc423cd6a; 0xc0e2d0dd; 0xcda1f604; 0xc960ebb3;
  0xbd3e8d7e; 0xb9ff90c9; 0xb4bcb610; 0xb07daba7; 0xae3afba2; 0xaafbe615; 0xa7b8c0cc; 0xa379dd7b;
  0x9b3660c6; 0x9ff77d71; 0x92b45ba8; 0x9675461f; 0x8832161a; 0x8cf30bad; 0x81b02d74; 0x857130c3;
  0x5d8a9099; 0x594b8d2e; 0x5408abf7; 0x50c9b640; 0x4e8ee645; 0x4a4ffbf2; 0x470cdd2b; 0x43cdc09c;
  0x7b827d21; 0x7f436096; 0x7200464f; 0x76c15bf8; 0x68860bfd; 0x6c47164a; 0x61043093; 0x65c52d24;
  0x119b4be9; 0x155a565e; 0x18197087; 0x1cd86d30; 0x029f3d35; 0x065e2082; 0x0b1d065b; 0x0fdc1bec;
  0x3793a651; 0x3352bbe6; 0x3e119d3f; 0x3ad08088; 0x2497d08d; 0x2056cd3a; 0x2d15ebe3; 0x29d4f654;
  0xc5a92679; 0xc1683bce; 0xcc2b1d17; 0xc8ea00a0; 0xd6ad50a5; 0xd26c4d12; 0xdf2f6bcb; 0xdbee767c;
  0xe3a1cbc1; 0xe760d676; 0xea23f0af; 0xeee2ed18; 0xf0a5bd1d; 0xf464a0aa; 0xf9278673; 0xfde69bc4;
  0x89b8fd09; 0x8d79e0be; 0x803ac667; 0x84fbdbd0; 0x9abc8bd5; 0x9e7d9662; 0x933eb0bb; 0x97ffad0c;
  0xafb010b1; 0xab710d06; 0xa6322bdf; 0xa2f33668; 0xbcb4666d; 0xb8757bda; 0xb5365d03; 0xb1f740b4].

(** One round: s = (s << 8) ^ crctab[(s >> 24) ^ c] *)
Definition crc_byte (s c : Z) : res Z :=
  t ← rd crctab (Z.lxor (Z.shiftr s 24) c);
  Ok (Z.lxor (u32 (Z.shiftl s 8)) t).

Definition cksum_bytes (m : mem) (s : Z * Z * Z) : res (Z * Z * Z + Z) :=
  let '(i, b, s) := s in
  if 0 <? i then
    s ← crc_byte s (u8 (m b));
    Ok (inl (i - 1, u32 (b + 1), s))
  else Ok (inr s).

Definition cksum_length (s : Z * Z) : res (Z * Z + Z) :=
  let '(n, s) := s in
  if negb (n =? 0) then
    s ← crc_byte s (u8 n);
    Ok (inl (Z.shiftr n 8, s))
  else Ok (inr s).

Definition cksum (m : mem) (b n : Z) : res Z :=
  s ← while (cksum_bytes m) (n, b, 0);
  s ← while cksum_length (n, s);
  Ok (u32 (Z.lnot s)).

(** ** Polynomials *)

(** Multiplication without carries. *)
Fixpoint pmul_pos (q : positive) (g : Z) : Z :=
  match q with
  | xH => g
  | xO q => 2 * pmul_pos q g
  | xI q => Z.lxor (2 * pmul_pos q g) g
  end.
Definition pmul (q g : Z) : Z := match q with Zpos q => pmul_pos q g | _ => 0 end.

(** [r] is the remainder of [p] by the generator [g] of degree 32. *)
Definition remainder (p g r : Z) : Prop := 0 <= r < 2 ^ 32 /\ exists q, 0 <= q /\ p = Z.lxor (pmul q g) r.

(** The generator polynomial of the standard. *)
Definition generator : Z := 0x104c11db7.

(** The octets of a number, least significant first, without leading zeros. *)
Fixpoint octets (k : nat) (n : Z) : list Z :=
  match k with
  | O => []
  | S k => if n =? 0 then [] else n mod 256 :: octets k (n / 256)
  end.

(** A message as a polynomial: its octets one after the other, the first one in front. *)
Definition append (p c : Z) : Z := p * 256 + c.
Definition message (l : list Z) : Z := fold_left append l 0.

(** ** The division, bit by bit *)

Definition poly : Z := 0x04c11db7.

Definition shift_out (s : Z) : Z := Z.lxor (u32 (2 * s)) (if Z.testbit s 31 then poly else 0).

Fixpoint shifts (k : nat) (s : Z) : Z := match k with O => s | S k => shifts k (shift_out s) end.

Definition byte_in (s c : Z) : Z := shifts 8 (Z.lxor s (Z.shiftl c 24)).
Arguments byte_in : simpl never.

Lemma u32_testbit z n : 0 <= n -> Z.testbit (u32 z) n = Z.testbit z n && (n <? 32).
Proof.
  intros Hn. unfold u32. destruct (Z.ltb_spec n 32).
  - by rewrite andb_true_r, Z.mod_pow2_bits_low.
  - by rewrite andb_false_r, Z.mod_pow2_bits_high.
Qed.

Lemma u32_lxor a b : u32 (Z.lxor a b) = Z.lxor (u32 a) (u32 b).
Proof.
  apply Z.bits_inj'. intros n Hn. rewrite Z.lxor_spec, !u32_testbit, Z.lxor_spec by done. by destruct (n <? 32), (Z.testbit a n), (Z.testbit b n).
Qed.

Lemma double_lxor a b : 2 * Z.lxor a b = Z.lxor (2 * a) (2 * b).
Proof.
  assert (H : forall z, 2 * z = Z.shiftl z 1) by (intros z; rewrite Z.shiftl_mul_pow2 by lia; lia). rewrite !H. apply Z.shiftl_lxor.
Qed.

(** Exclusive or, bit by bit. *)
Ltac xor_solve := apply Z.bits_inj'; intros n Hn; rewrite ?Z.lxor_spec, ?Z.bits_0; repeat match goal with |- context [Z.testbit ?a n] => destruct (Z.testbit a n) end; reflexivity.

Lemma shift_out_lxor a b : shift_out (Z.lxor a b) = Z.lxor (shift_out a) (shift_out b).
Proof.
  unfold shift_out. rewrite double_lxor, u32_lxor, Z.lxor_spec.
  destruct (Z.testbit a 31), (Z.testbit b 31); cbn [xorb]; rewrite ?Z.lxor_0_r; try done; xor_solve.
Qed.

Lemma shifts_lxor k a b : shifts k (Z.lxor a b) = Z.lxor (shifts k a) (shifts k b).
Proof. revert a b. induction k as [|k IH]; intros a b; simpl; [done|]. by rewrite shift_out_lxor, IH. Qed.

(** Low bits are shifted up only. *)
Lemma shifts_low k s : 0 <= s -> s * 2 ^ Z.of_nat k < 2 ^ 32 -> shifts k s = s * 2 ^ Z.of_nat k.
Proof.
  revert s. induction k as [|k IH]; intros s Hs Hk; simpl; [lia|]. rewrite Nat2Z.inj_succ, Z.pow_succ_r in Hk |- * by lia.
  assert (s < 2 ^ 31) by nia. unfold shift_out. rewrite (testbit_small s 31) by lia. rewrite Z.lxor_0_r, u32_small by lia.
  rewrite IH; nia.
Qed.

(** The table: eight rounds of the division for every octet. *)
Lemma crctab_rounds : forallb (fun i => match rd crctab i with Ok t => t =? shifts 8 (Z.shiftl i 24) | Err _ => false end) (seqZ 0 256) = true.
Proof. vm_compute. reflexivity. Qed.

Lemma crctab_entry i : 0 <= i < 256 -> rd crctab i = Ok (shifts 8 (Z.shiftl i 24)).
Proof.
  intros Hi. pose proof crctab_rounds as H. apply forallb_forall with (x := i) in H; [|apply list_elem_of_In, elem_of_seqZ; lia].
  destruct (rd crctab i); [|done]. apply Z.eqb_eq in H. by rewrite H.
Qed.

Lemma low_high k a b : 0 <= k -> 0 <= a < 2 ^ k -> Z.lxor a (b * 2 ^ k) = a + b * 2 ^ k.
Proof.
  intros Hk Ha. rewrite Z.lxor_lor; [by apply lor_low|]. apply Z.bits_inj'. intros n Hn. rewrite Z.land_spec, Z.bits_0.
  destruct (Z.lt_ge_cases n k); [rewrite Z.mul_pow2_bits_low by lia; apply andb_false_r|by rewrite (testbit_small a k)].
Qed.

Lemma high_low s : 0 <= s < 2 ^ 32 -> s = Z.lxor (Z.shiftl (Z.shiftr s 24) 24) (s mod 2 ^ 24).
Proof.
  intros Hs. rewrite Z.lxor_comm. rewrite Z.shiftl_mul_pow2, Z.shiftr_div_pow2 by lia.
  assert (H : 0 <= s mod 2 ^ 24 < 2 ^ 24) by (apply Z.mod_pos_bound; lia).
  rewrite low_high by lia. pose proof (Z.div_mod s (2 ^ 24) ltac:(lia)). lia.
Qed.

Lemma lxor_range k a b : 0 <= k -> 0 <= a < 2 ^ k -> 0 <= b < 2 ^ k -> 0 <= Z.lxor a b < 2 ^ k.
Proof.
  intros Hk Ha Hb. assert (0 <= Z.lxor a b) by (apply Z.lxor_nonneg; lia). split; [done|].
  destruct (Z.eq_dec (Z.lxor a b) 0) as [->|]; [lia|]. apply Z.log2_lt_pow2; [lia|].
  pose proof (Z.log2_lxor a b ltac:(lia) ltac:(lia)). destruct (Z.eq_dec a 0) as [->|], (Z.eq_dec b 0) as [->|].
  - done.
  - rewrite Z.lxor_0_l. apply Z.log2_lt_pow2; lia.
  - rewrite Z.lxor_0_r. apply Z.log2_lt_pow2; lia.
  - assert (Z.log2 a < k) by (apply Z.log2_lt_pow2; lia). assert (Z.log2 b < k) by (apply Z.log2_lt_pow2; lia). lia.
Qed.

Lemma crc_byte_spec s c : 0 <= s < 2 ^ 32 -> 0 <= c < 256 -> crc_byte s c = Ok (byte_in s c).
Proof.
  intros Hs Hc. unfold crc_byte, byte_in.
  assert (Hh : 0 <= Z.shiftr s 24 < 256) by (rewrite Z.shiftr_div_pow2 by lia; split; [apply Z.div_pos|apply Z.div_lt_upper_bound]; lia).
  assert (Hl : 0 <= s mod 2 ^ 24 < 2 ^ 24) by (apply Z.mod_pos_bound; lia).
  rewrite crctab_entry by (apply (lxor_range 8); lia). rewrite bind_ok. f_equal.
  rewrite (high_low s Hs) at 3. rewrite Z.lxor_comm.
  replace (Z.lxor (Z.lxor (Z.shiftl (Z.shiftr s 24) 24) (s mod 2 ^ 24)) (Z.shiftl c 24))
    with (Z.lxor (Z.shiftl (Z.lxor (Z.shiftr s 24) c) 24) (s mod 2 ^ 24)) by (rewrite Z.shiftl_lxor; xor_solve).
  rewrite shifts_lxor. f_equal. rewrite (shifts_low 8) by lia. change (2 ^ Z.of_nat 8) with (2 ^ 8). rewrite Z.shiftl_mul_pow2 by lia.
  unfold u32. change (2 ^ 32) with (2 ^ 24 * 2 ^ 8). by rewrite Z.mul_mod_distr_r.
Qed.

(** ** Remainders *)

Definition bit (b : bool) : Z := if b then 1 else 0.

Lemma pmul_bit q b g : 0 <= q -> pmul (2 * q + bit b) g = Z.lxor (2 * pmul q g) (if b then g else 0).
Proof. intros Hq. destruct q as [|q|q], b; simpl; rewrite ?Z.lxor_0_r; done || lia. Qed.

Lemma shift_out_remainder p s : remainder p generator s -> remainder (2 * p) generator (shift_out s).
Proof.
  intros [Hs (q & Hq & ->)]. split.
  - unfold shift_out. apply (lxor_range 32); [lia|unfold u32; apply Z.mod_pos_bound; lia|]. destruct (Z.testbit s 31); unfold poly; lia.
  - exists (2 * q + bit (Z.testbit s 31)). split; [unfold bit; case_match; lia|]. rewrite pmul_bit by done. rewrite double_lxor. unfold shift_out.
    assert (E : 2 * s = Z.lxor (u32 (2 * s)) (if Z.testbit s 31 then 2 ^ 32 else 0)).
    { apply Z.bits_inj'. intros n Hn. rewrite Z.lxor_spec, u32_testbit by done. replace (2 * s) with (s * 2 ^ 1) by lia.
      rewrite Z.mul_pow2_bits by lia. destruct (Z.ltb_spec n 32).
      - rewrite andb_true_r. destruct (Z.testbit s 31); [rewrite Z.pow2_bits_false by lia|rewrite Z.bits_0]; by rewrite xorb_false_r.
      - rewrite andb_false_r, xorb_false_l. destruct (Z.eq_dec n 32) as [->|].
        + change (32 - 1) with 31. by destruct (Z.testbit s 31).
        + rewrite (testbit_small s 32) by lia. destruct (Z.testbit s 31); [by rewrite Z.pow2_bits_false by lia|by rewrite Z.bits_0]. }
    rewrite E at 1. destruct (Z.testbit s 31); [|by rewrite !Z.lxor_0_r].
    generalize (2 * pmul q generator). intros z. change generator with (Z.lxor (2 ^ 32) poly). xor_solve.
Qed.

Lemma shifts_remainder k p s : remainder p generator s -> remainder (p * 2 ^ Z.of_nat k) generator (shifts k s).
Proof.
  revert p s. induction k as [|k IH]; intros p s H; [by rewrite Z.mul_1_r|]. rewrite Nat2Z.inj_succ, Z.pow_succ_r by lia.
  replace (p * (2 * 2 ^ Z.of_nat k)) with (2 * p * 2 ^ Z.of_nat k) by lia. cbn [shifts]. apply IH. by apply shift_out_remainder.
Qed.

(** An octet more. *)
Lemma byte_in_remainder p s c : 0 <= p -> 0 <= c < 256 -> remainder (p * 2 ^ 32) generator s ->
  remainder (append p c * 2 ^ 32) generator (byte_in s c).
Proof.
  intros Hp Hc [Hs (q & Hq & E)]. unfold byte_in, append.
  assert (Hc' : 0 <= Z.shiftl c 24 < 2 ^ 32) by (rewrite Z.shiftl_mul_pow2; lia).
  replace ((p * 256 + c) * 2 ^ 32) with (Z.lxor (p * 2 ^ 32) (Z.shiftl c 24) * 2 ^ Z.of_nat 8).
  - apply shifts_remainder. split; [by apply (lxor_range 32)|]. exists q. split; [done|]. rewrite E. xor_solve.
  - rewrite Z.lxor_comm, low_high by lia. rewrite Z.shiftl_mul_pow2 by lia. change (2 ^ Z.of_nat 8) with 256. lia.
Qed.

Lemma fold_left_cons {X Y} (f : X -> Y -> X) l x y : fold_left f (y :: l) x = fold_left f l (f x y).
Proof. reflexivity. Qed.

Lemma bytes_in_remainder l p s : 0 <= p -> Forall (fun c => 0 <= c < 256) l -> remainder (p * 2 ^ 32) generator s ->
  remainder (fold_left append l p * 2 ^ 32) generator (fold_left byte_in l s).
Proof.
  revert p s. induction l as [|c l IH]; intros p s Hp Hl H; [exact H|]. apply Forall_cons_1 in Hl as [Hc Hl]. rewrite !fold_left_cons.
  apply IH; [unfold append; lia|exact Hl|]. apply byte_in_remainder; assumption.
Qed.

(** ** The loops *)

Lemma byte_in_range s c : 0 <= s < 2 ^ 32 -> 0 <= c < 256 -> 0 <= byte_in s c < 2 ^ 32.
Proof.
  intros Hs Hc. unfold byte_in. assert (H : forall k s, 0 <= s < 2 ^ 32 -> 0 <= shifts k s < 2 ^ 32).
  { intros k. induction k as [|k IH]; intros s' Hs'; simpl; [done|]. apply IH. unfold shift_out.
    apply (lxor_range 32); [lia|unfold u32; apply Z.mod_pos_bound; lia|]. destruct (Z.testbit s' 31); unfold poly; lia. }
  apply H, (lxor_range 32); [lia|done|]. rewrite Z.shiftl_mul_pow2; lia.
Qed.

Lemma bytes_in_range l s : Forall (fun c => 0 <= c < 256) l -> 0 <= s < 2 ^ 32 -> 0 <= fold_left byte_in l s < 2 ^ 32.
Proof. revert s. induction l as [|c l IH]; intros s Hl Hs; [done|]. apply Forall_cons_1 in Hl as [Hc Hl]. rewrite fold_left_cons. by apply IH, byte_in_range. Qed.

(** The block of [n] bytes at [b]. *)
Definition block_bytes (m : mem) (b n : Z) : list Z := map (fun i => u8 (m (b + i))) (seqZ 0 n).

Lemma block_bytes_ok m b n : Forall (fun c => 0 <= c < 256) (block_bytes m b n).
Proof. apply Forall_map, Forall_forall. intros i _. apply Z.mod_pos_bound. lia. Qed.

Lemma block_bytes_snoc m b n : 0 <= n -> block_bytes m b (n + 1) = block_bytes m b n ++ [u8 (m (b + n))].
Proof.
  intros Hn. unfold block_bytes. rewrite seqZ_app by lia. by rewrite map_app.
Qed.

Lemma cksum_bytes_spec m b n : 0 <= b < 2 ^ 32 -> 0 <= n -> b + n <= 2 ^ 32 ->
  while (cksum_bytes m) (n, b, 0) = Ok (fold_left byte_in (block_bytes m b n) 0).
Proof.
  intros Hb Hn Hw. apply returns_eq.
  apply (returns_while (fun '(i, p, s) => 0 <= i <= n /\ p = u32 (b + (n - i)) /\ s = fold_left byte_in (block_bytes m b (n - i)) 0) (fun '(i, _, _) => i)); [| |lia].
  - intros [[i p] s] (Hi & -> & ->). split; [lia|]. unfold cksum_bytes. destruct (Z.ltb_spec 0 i).
    + rewrite (u32_small (b + (n - i))) by lia. rewrite crc_byte_spec; [|apply bytes_in_range; [apply block_bytes_ok|lia]|apply Z.mod_pos_bound; lia].
      simpl. split; [|lia]. split; [lia|]. split; [f_equal; lia|].
      replace (n - (i - 1)) with (n - i + 1) by lia. rewrite block_bytes_snoc by lia. rewrite fold_left_app. cbn [fold_left]. reflexivity.
    + simpl. by replace (n - i) with n by lia.
  - split; [lia|]. rewrite Z.sub_diag, Z.add_0_r, u32_small by lia. done.
Qed.

Lemma cksum_length_spec k n s : 0 <= n < 256 ^ Z.of_nat k -> (k <= 4)%nat -> 0 <= s < 2 ^ 32 ->
  while cksum_length (n, s) = Ok (fold_left byte_in (octets k n) s).
Proof.
  intros Hn Hk Hs. apply returns_eq.
  apply (returns_while_ix (fun j '(n', s') => exists k', j = Z.of_nat k' /\ 0 <= n' < 256 ^ Z.of_nat k' /\ 0 <= s' < 2 ^ 32 /\
    fold_left byte_in (octets k' n') s' = fold_left byte_in (octets k n) s)) with (n := Z.of_nat k); [|by exists k|lia].
  intros j [n' s'] (k' & -> & Hn' & Hs' & E). split; [lia|]. unfold cksum_length. destruct k' as [|k'].
  - assert (n' = 0) as -> by (simpl in Hn'; lia). simpl. by rewrite <- E.
  - cbn [octets] in E. destruct (Z.eqb_spec n' 0); cbn [negb]; [exact E|]. rewrite fold_left_cons in E.
    assert (Hb : 0 <= u8 n' < 256) by (apply Z.mod_pos_bound; lia). rewrite crc_byte_spec by done. rewrite bind_ok. cbn [returns].
    exists (Z.of_nat k'). split; [lia|]. exists k'. split; [done|]. rewrite Z.shiftr_div_pow2 by lia. change (2 ^ 8) with 256.
    rewrite Nat2Z.inj_succ, Z.pow_succ_r in Hn' by lia.
    split; [split; [apply Z.div_pos; lia|apply Z.div_lt_upper_bound; lia]|]. split; [by apply byte_in_range|exact E].
Qed.

Lemma octets_ok k n : Forall (fun c => 0 <= c < 256) (octets k n).
Proof. revert n. induction k as [|k IH]; intros n; simpl; [constructor|]. case_match; constructor; [apply Z.mod_pos_bound; lia|apply IH]. Qed.

(** ** The remainder is unique *)

Lemma pmul_lxor k q q' g : 0 <= q < 2 ^ Z.of_nat k -> 0 <= q' < 2 ^ Z.of_nat k -> pmul (Z.lxor q q') g = Z.lxor (pmul q g) (pmul q' g).
Proof.
  revert q q'. induction k as [|k IH]; intros q q' Hq Hq'; [by assert (q = 0 /\ q' = 0) as [-> ->] by (simpl in *; lia)|].
  rewrite Nat2Z.inj_succ, Z.pow_succ_r in Hq, Hq' by lia.
  assert (Hsplit : forall z, z = 2 * (z / 2) + bit (Z.odd z)).
  { intros z. pose proof (Z.div2_odd z) as E. rewrite Z.div2_div in E. unfold bit. destruct (Z.odd z); simpl in E; lia. }
  assert (Hr : forall z, 0 <= z < 2 * 2 ^ Z.of_nat k -> 0 <= z / 2 < 2 ^ Z.of_nat k) by (intros; split; [apply Z.div_pos; lia|apply Z.div_lt_upper_bound; lia]).
  assert (El : Z.lxor q q' = 2 * Z.lxor (q / 2) (q' / 2) + bit (xorb (Z.odd q) (Z.odd q'))).
  { rewrite (Hsplit (Z.lxor q q')). rewrite <- !Z.bit0_odd, Z.lxor_spec. f_equal. f_equal. rewrite <- !Z.div2_div.
    by rewrite !Z.div2_spec, Z.shiftr_lxor. }
  assert (Em : forall z, 0 <= z -> pmul z g = Z.lxor (2 * pmul (z / 2) g) (if Z.odd z then g else 0)).
  { intros z Hz. rewrite (Hsplit z) at 1. apply pmul_bit. apply Z.div_pos; lia. }
  rewrite El, pmul_bit, IH, (Em q), (Em q'), double_lxor by (auto || lia || (apply Z.lxor_nonneg; split; intros _; apply Z.div_pos; lia)).
  destruct (Z.odd q), (Z.odd q'); cbn [xorb]; xor_solve.
Qed.

Lemma pmul_high q : 0 < q -> 2 ^ 32 <= pmul q generator.
Proof.
  destruct q as [|q|q]; [lia| |lia]. intros _. unfold pmul. induction q as [q IH|q IH|]; cbn [pmul_pos]; [|lia|unfold generator; lia].
  revert IH. generalize (pmul_pos q generator). intros x Hx.
  assert (H : 0 < Z.shiftr (Z.lxor (2 * x) generator) 33).
  { rewrite Z.shiftr_lxor. change (Z.shiftr generator 33) with 0. rewrite Z.lxor_0_r, Z.shiftr_div_pow2 by lia.
    apply Z.div_str_pos. lia. }
  rewrite Z.shiftr_div_pow2 in H by lia. pose proof (Z.mul_div_le (Z.lxor (2 * x) generator) (2 ^ 33) ltac:(lia)). nia.
Qed.

(** So a number has one remainder only. *)
Lemma remainder_unique p r r' : remainder p generator r -> remainder p generator r' -> r = r'.
Proof.
  intros [Hr (q & Hq & E)] [Hr' (q' & Hq' & E')]. assert (Hx : pmul (Z.lxor q q') generator = Z.lxor r r').
  { rewrite (pmul_lxor (Z.to_nat (q + q' + 1))).
    - rewrite E in E'. apply Z.bits_inj'. intros n Hn. apply (f_equal (fun z => Z.testbit z n)) in E'. rewrite !Z.lxor_spec in *.
      by destruct (Z.testbit (pmul q generator) n), (Z.testbit (pmul q' generator) n), (Z.testbit r n), (Z.testbit r' n).
    - rewrite Z2Nat.id by lia. pose proof (Z.pow_gt_lin_r 2 (q + q' + 1)). lia.
    - rewrite Z2Nat.id by lia. pose proof (Z.pow_gt_lin_r 2 (q + q' + 1)). lia. }
  assert (Hz : Z.lxor q q' = 0).
  { assert (0 <= Z.lxor q q') by (apply Z.lxor_nonneg; lia). destruct (Z.eq_dec (Z.lxor q q') 0); [done|].
    pose proof (pmul_high (Z.lxor q q') ltac:(lia)). pose proof (lxor_range 32 r r'). lia. }
  rewrite Hz in Hx. simpl in Hx. by apply Z.lxor_eq.
Qed.

(** C35: The checksum of a block is the complement of the remainder of a polynomial over the
    two-element field: the octets of the block followed by the octets of its length, least
    significant first, times x^32, divided by the standard's generator.  The remainder is
    unique, so the checksum is determined by the contents and the length of the block; the
    table-driven code computes it for every block, in place of a division bit by bit. *)
Theorem cksum_is_crc m b n : 0 <= b < 2 ^ 32 -> 0 <= n -> b + n <= 2 ^ 32 -> n < 2 ^ 32 ->
  returns (cksum m b n) (fun r => forall s,
    remainder (message (block_bytes m b n ++ octets 4 n) * 2 ^ 32) generator s <-> r = 2 ^ 32 - 1 - s).
Proof.
  intros Hb Hn Hw Hn'. unfold cksum. rewrite cksum_bytes_spec by done. rewrite bind_ok.
  pose proof (bytes_in_range _ 0 (block_bytes_ok m b n) ltac:(lia)) as Hr.
  rewrite (cksum_length_spec 4) by (done || lia). rewrite bind_ok, <- fold_left_app. cbn [returns].
  assert (Hl : Forall (fun c => 0 <= c < 256) (block_bytes m b n ++ octets 4 n)) by (apply Forall_app; split; [apply block_bytes_ok|apply octets_ok]).
  assert (Hrem : remainder (message (block_bytes m b n ++ octets 4 n) * 2 ^ 32) generator (fold_left byte_in (block_bytes m b n ++ octets 4 n) 0)).
  { unfold message. apply bytes_in_remainder; [lia|done|]. split; [lia|]. by exists 0. }
  pose proof (bytes_in_range _ 0 Hl ltac:(lia)) as Hr'. revert Hrem Hr'. generalize (fold_left byte_in (block_bytes m b n ++ octets 4 n) 0). intros z Hrem Hr'.
  assert (E : u32 (Z.lnot z) = 2 ^ 32 - 1 - z).
  { unfold u32, Z.lnot. rewrite <- (Z_mod_plus_full _ 1), Z.mod_small; lia. }
  rewrite E. intros s. split; [intros Hs|intros Hs].
  - by rewrite (remainder_unique _ _ _ Hs Hrem).
  - by replace s with z by lia.
Qed.

Lemma cksum_is_crc_witness : returns (cksum (fun a => a mod 256) 0x1000 10) (fun r => forall s,
  remainder (message ([0; 1; 2; 3; 4; 5; 6; 7; 8; 9] ++ [10]) * 2 ^ 32) generator s <-> r = 2 ^ 32 - 1 - s).
Proof. apply (cksum_is_crc (fun a => a mod 256) 0x1000 10); lia. Defined.

(** The checksum of nine digits, as the utility prints it. *)
Example cksum_digits : cksum (fun a => 49 + a) 0 9 = Ok 930766865.
Proof. vm_compute. reflexivity. Qed.
