(* ===== verification/StringLib.v ===== *)
(** * Strings (the rest of lib/string.c)

    The string routines on byte-addressed memory, and what they compute in terms of the
    list of characters a C string stands for. *)

From stdpp Require Import base list numbers sets.
From Stdlib Require Import ZArith Lia.
From S2P Require Import Prelude CString.

Local Open Scope Z_scope.

(** ** The routines *)

(** [*p] as an unsigned char. *)
Definition strcmp (m : mem) (a b : Z) : res Z :=
  ASSERT (negb (a =? NULL));;
  ASSERT (negb (b =? NULL));;
  while (fun '(a, b) =>
    if negb (m a =? 0) && (m a =? m b) then Ok (inl (u32 (a + 1), u32 (b + 1)))
    else Ok (inr (if m a <? m b then -1 else if m b <? m a then 1 else 0))) (a, b).

Definition memchr (m : mem) (block ch size : Z) : res Z :=
  let ch := u8 ch in
  ASSERT (negb (block =? NULL) || (size =? 0));;
  loop (S (Z.to_nat size)) (fun '(block, size) =>
    if 0 <? size then
      if m block =? ch then Ok (inr block) else Ok (inl (u32 (block + 1), size - 1))
    else Ok (inr NULL)) (block, size).

Definition strchr (m : mem) (string c : Z) : res Z :=
  let c := u8 c in
  ASSERT (negb (string =? NULL));;
  while (fun string =>
    if m string =? c then Ok (inr string)
    else if m string =? 0 then Ok (inr NULL)
    else Ok (inl (u32 (string + 1)))) string.

Definition strcspn (m : mem) (string stop : Z) : res Z :=
  while (fun length =>
    if negb (m (u32 (string + length)) =? 0) then
      p ← strchr m stop (m (u32 (string + length)));
      if negb (p =? NULL) then Ok (inr length) else Ok (inl (u32 (length + 1)))
    else Ok (inr length)) 0.

Definition strpbrk (m : mem) (string stop : Z) : res Z :=
  while (fun string =>
    if negb (m string =? 0) then
      p ← strchr m stop (m string);
      if negb (p =? NULL) then Ok (inr string) else Ok (inl (u32 (string + 1)))
    else Ok (inr NULL)) string.

Definition strrchr (m : mem) (string c : Z) : res Z :=
  let c := u8 c in
  while (fun '(string, p) =>
    if negb (m string =? 0) then
      Ok (inl (u32 (string + 1), if m string =? c then string else p))
    else Ok (inr p)) (string, NULL).

Definition strspn (m : mem) (string skip : Z) : res Z :=
  while (fun length =>
    if negb (m (u32 (string + length)) =? 0) then
      p ← strchr m skip (m (u32 (string + length)));
      if p =? NULL then Ok (inr length) else Ok (inl (u32 (length + 1)))
    else Ok (inr length)) 0.

Definition strlen (m : mem) (string : Z) : res Z :=
  ASSERT (negb (string =? NULL));;
  while (fun p =>
    if negb (m p =? 0) then Ok (inl (u32 (p + 1))) else Ok (inr (u32 (p - string)))) string.

Definition strstr (m : mem) (haystack needle : Z) : res Z :=
  haystack_len ← strlen m haystack;
  needle_len ← strlen m needle;
  if needle_len <=? haystack_len then
    while (fun i =>
      if i <=? haystack_len - needle_len then
        r ← memcmp m (u32 (haystack + i)) needle needle_len;
        if r =? 0 then Ok (inr (u32 (haystack + i))) else Ok (inl (u32 (i + 1)))
      else Ok (inr NULL)) 0
  else Ok NULL.

(** The bodies of the two loops of [strtok_r]: the first ends at the end of the string
    ([inl]) or at a token ([inr]). *)
Definition skip_step (m : mem) (delimiters s : Z) : res (Z + (Z + Z)) :=
  p ← strchr m delimiters (m s);
  if negb (p =? NULL) then
    if m s =? 0 then Ok (inr (inl s)) else Ok (inl (u32 (s + 1)))
  else Ok (inr (inr s)).

Definition token_step (m : mem) (delimiters s : Z) : res (Z + Z) :=
  p ← strchr m delimiters (m s);
  if p =? NULL then Ok (inl (u32 (s + 1))) else Ok (inr s).

(** The saved position [*save_ptr] is an argument and part of the result: (token,
    saved position, memory).  [save_ptr] itself is not null. *)
Definition strtok_r (m : mem) (s delimiters save : Z) : res (Z * Z * mem) :=
  ASSERT (negb (delimiters =? NULL));;
  let s := if s =? NULL then save else s in
  ASSERT (negb (s =? NULL));;
  r ← while (skip_step m delimiters) s;
  match r with
  | inl s => Ok (NULL, s, m)
  | inr token =>
    s ← while (token_step m delimiters) token;
    if negb (m s =? 0) then Ok (token, u32 (s + 1), store m s 0)
    else Ok (token, s, m)
  end.

(** The character is read before the length is compared. *)
Definition strnlen (m : mem) (string maxlen : Z) : res Z :=
  while (fun length =>
    if negb (m (u32 (string + length)) =? 0) && (length <? maxlen) then Ok (inl (u32 (length + 1)))
    else Ok (inr length)) 0.

Definition strlcpy (m : mem) (dst src size : Z) : res (Z * mem) :=
  ASSERT (negb (dst =? NULL));;
  ASSERT (negb (src =? NULL));;
  src_len ← strlen m src;
  if 0 <? size then
    let dst_len := size - 1 in
    let dst_len := if src_len <? dst_len then src_len else dst_len in
    m ← memcpy m dst src dst_len;
    Ok (src_len, store m (u32 (dst + dst_len)) 0)
  else Ok (src_len, m).

Definition strlcat (m : mem) (dst src size : Z) : res (Z * mem) :=
  ASSERT (negb (dst =? NULL));;
  ASSERT (negb (src =? NULL));;
  src_len ← strlen m src;
  dst_len ← strlen m dst;
  if (0 <? size) && (dst_len <? size) then
    let copy_cnt := size - dst_len - 1 in
    let copy_cnt := if src_len <? copy_cnt then src_len else copy_cnt in
    m ← memcpy m (u32 (dst + dst_len)) src copy_cnt;
    Ok (u32 (src_len + dst_len), store m (u32 (dst + u32 (dst_len + copy_cnt))) 0)
  else Ok (u32 (src_len + dst_len), m).

(** ** C strings *)

(** Memory holds at [p] the characters [s], none of them null, and a null terminator; the
    string does not wrap around the end of the address space. *)
Record cstring (m : mem) (p : Z) (s : list Z) : Prop := {
  cs_ptr : 0 < p;
  cs_end : p + Z.of_nat (length s) < 2 ^ 32;
  cs_chars : Forall (fun c => 0 < c < 2 ^ 8) s;
  cs_at : forall i c, (s ++ [0]) !! i = Some c -> m (p + Z.of_nat i) = c
}.

(** The address after the characters [pre] of the string at [p]. *)
Definition past (p : Z) (pre : list Z) : Z := p + Z.of_nat (length pre).

Lemma past_snoc p pre c : past p (pre ++ [c]) = past p pre + 1.
Proof. unfold past. rewrite length_app. simpl. lia. Qed.

Lemma past_nil p : past p [] = p.
Proof. unfold past. simpl. lia. Qed.

Section Walks.
Context (m : mem) (p : Z) (s : list Z) (Hs : cstring m p s).

Lemma cstring_nonnull : (p =? NULL) = false.
Proof. destruct Hs as [H _ _ _]. apply Z.eqb_neq. unfold NULL. lia. Qed.

Lemma cstring_char pre c r : s = pre ++ c :: r -> m (past p pre) = c /\ 0 < c < 2 ^ 8.
Proof.
  intros E. destruct Hs as [_ _ Hc Ha]. split.
  - apply Ha. rewrite E, <- app_assoc. by apply list_lookup_middle.
  - rewrite E in Hc. apply Forall_app in Hc as [_ Hc]. by apply list.Forall_cons in Hc as [? _].
Qed.

Lemma cstring_null : m (past p s) = 0.
Proof. destruct Hs as [_ _ _ Ha]. apply Ha. by apply list_lookup_middle. Qed.

Lemma cstring_past pre c r : s = pre ++ c :: r -> 0 < past p pre /\ past p pre + 1 < 2 ^ 32.
Proof.
  intros E. destruct Hs as [H0 He _ _]. unfold past. rewrite E, length_app in He. simpl in He. lia.
Qed.

Lemma cstring_next pre c r : s = pre ++ c :: r -> u32 (past p pre + 1) = past p (pre ++ [c]).
Proof. intros E. destruct (cstring_past pre c r E). rewrite past_snoc, u32_small; lia. Qed.

Lemma cstring_suffix pre r : s = pre ++ r -> cstring m (past p pre) r.
Proof.
  intros E. destruct Hs as [H0 He Hc Ha]. rewrite E, length_app in He. split.
  - unfold past. lia.
  - unfold past. lia.
  - rewrite E in Hc. by apply Forall_app in Hc as [_ ?].
  - intros i c Hi. unfold past. rewrite <- Z.add_assoc, <- Nat2Z.inj_add. apply Ha.
    rewrite E, <- app_assoc, lookup_app_r by lia. by replace (length pre + i - length pre)%nat with i by lia.
Qed.
End Walks.

Lemma cstring_head m p s : cstring m p s -> m p = hd 0 s.
Proof.
  intros Hs. destruct s as [|c s].
  - rewrite <- (past_nil p). by apply cstring_null.
  - rewrite <- (past_nil p) at 1. by apply (cstring_char m p (c :: s) Hs [] c s).
Qed.

(** A loop that walks over the characters of a list: [pos] is its state after a prefix,
    [Inv] what is known of the prefix. *)
Lemma walk {S R} (s : list Z) (pos : list Z -> S) (Inv : list Z -> Prop) (Q : R -> Prop) (body : S -> res (S + R)) st0 :
  Z.of_nat (length s) < 2 ^ 32 -> st0 = pos [] -> Inv [] ->
  (forall pre c r, s = pre ++ c :: r -> Inv pre ->
     returns (body (pos pre)) (fun o =>
       match o with inl q => q = pos (pre ++ [c]) /\ Inv (pre ++ [c]) | inr o => Q o end)) ->
  (Inv s -> returns (body (pos s)) (fun o => match o with inl _ => False | inr o => Q o end)) ->
  returns (while body st0) Q.
Proof.
  intros Hl -> H0 Hstep Hend.
  apply (returns_while_ix (fun n st => exists pre r, s = pre ++ r /\ n = Z.of_nat (length r) /\ st = pos pre /\ Inv pre)
    Q body) with (Z.of_nat (length s)).
  - intros n st (pre & r & E & -> & -> & HI). split; [lia|]. destruct r as [|c r].
    + rewrite app_nil_r in E. subst pre. eapply returns_mono; [by apply Hend|]. by intros [|].
    + eapply returns_mono; [by apply (Hstep pre c r)|]. intros [q|o]; [|done]. intros [-> HI'].
      exists (Z.of_nat (length r)). split; [simpl; lia|]. exists (pre ++ [c]), r. by rewrite <- app_assoc.
  - exists [], s. done.
  - lia.
Qed.

Lemma cstring_length m p s : cstring m p s -> Z.of_nat (length s) < 2 ^ 32.
Proof. intros [? ? _ _]. lia. Qed.

(** ** Length and search *)

Lemma strlen_spec m p s : cstring m p s -> strlen m p = Ok (Z.of_nat (length s)).
Proof.
  intros Hs. unfold strlen. rewrite (cstring_nonnull m p s) by done. simpl. apply returns_eq.
  apply (walk s (past p) (fun _ => True)); [by eapply cstring_length|by rewrite past_nil|done|..].
  - intros pre c r E _. destruct (cstring_char m p s Hs pre c r E) as [-> Hc].
    replace (c =? 0) with false by zbool. simpl. split; [|done]. by eapply cstring_next.
  - intros _. rewrite (cstring_null m p s) by done. simpl. pose proof (cstring_length m p s Hs).
    unfold past. rewrite u32_small; lia.
Qed.

(** [strchr] also finds the terminator. *)
Lemma strchr_spec m p s c : cstring m p s ->
  returns (strchr m p c) (fun q =>
    (exists pre r, s ++ [0] = pre ++ u8 c :: r /\ (u8 c ∉ pre) /\ q = past p pre) \/
    ((u8 c ∉ s ++ [0]) /\ q = NULL)).
Proof.
  intros Hs. unfold strchr. rewrite (cstring_nonnull m p s) by done. simpl.
  apply (walk s (past p) (fun pre => u8 c ∉ pre)).
  - by eapply cstring_length.
  - by rewrite past_nil.
  - apply not_elem_of_nil.
  - intros pre x r E Hpre. destruct (cstring_char m p s Hs pre x r E) as [-> Hx].
    destruct (Z.eqb_spec x (u8 c)) as [->|Hne]; simpl.
    + left. exists pre, (r ++ [0]). split; [|done]. by rewrite E, <- app_assoc.
    + replace (x =? 0) with false by zbool. simpl. split; [by eapply cstring_next|].
      rewrite elem_of_app, list_elem_of_singleton. naive_solver.
  - intros Hpre. rewrite (cstring_null m p s) by done. destruct (Z.eqb_spec 0 (u8 c)) as [E|Hne]; simpl.
    + left. exists s, []. split; [by rewrite <- E|done].
    + right. rewrite elem_of_app, list_elem_of_singleton. naive_solver.
Qed.

(** What the callers of [strchr] use of it: whether the character occurs. *)
Lemma strchr_mem m p s c : cstring m p s -> 0 <= c < 2 ^ 8 ->
  returns (strchr m p c) (fun q => (q =? NULL) = bool_decide (c ∉ s ++ [0])).
Proof.
  intros Hs Hc. eapply returns_mono; [by apply strchr_spec|]. rewrite u8_small by done.
  intros q [(pre & r & E & _ & ->)|[Hn ->]].
  - rewrite bool_decide_false; [|rewrite E; set_solver]. apply Z.eqb_neq.
    destruct Hs as [? _ _ _]. unfold past, NULL. lia.
  - by rewrite bool_decide_true.
Qed.

(** The longest prefix of a list whose elements satisfy [f], and the rest. *)
Fixpoint span (f : Z -> bool) (s : list Z) : list Z * list Z :=
  match s with
  | [] => ([], [])
  | c :: r => if f c then let '(a, b) := span f r in (c :: a, b) else ([], s)
  end.

Lemma span_app f pre c r : Forall (fun x => f x = true) pre -> f c = false -> span f (pre ++ c :: r) = (pre, c :: r).
Proof. induction 1 as [|x pre Hx _ IH]; intros Hc; simpl; [by rewrite Hc|]. by rewrite Hx, IH. Qed.

Lemma span_prefix f pre r : Forall (fun x => f x = true) pre ->
  span f (pre ++ r) = let '(a, b) := span f r in (pre ++ a, b).
Proof.
  induction 1 as [|x pre Hx _ IH]; simpl; [by destruct (span f r)|]. rewrite Hx, IH. by destruct (span f r).
Qed.

Lemma span_all f s : Forall (fun x => f x = true) s -> span f s = (s, []).
Proof. induction 1 as [|x s Hx _ IH]; simpl; [done|]. by rewrite Hx, IH. Qed.

Lemma span_spec f s : let '(a, b) := span f s in
  s = a ++ b /\ Forall (fun x => f x = true) a /\ match b with [] => True | c :: _ => f c = false end.
Proof.
  induction s as [|c s IH]; simpl; [done|]. destruct (f c) eqn:E; [|done].
  destruct (span f s) as [a b]. destruct IH as (-> & Ha & Hb). auto.
Qed.

Definition is_in (d : list Z) (c : Z) : bool := bool_decide (c ∈ d).

(** A character of a string is in [d] or in [d] with its terminator alike. *)
Lemma in_terminated d c : 0 < c -> bool_decide (c ∉ d ++ [0]) = negb (is_in d c).
Proof.
  intros Hc. unfold is_in. destruct (bool_decide_reflect (c ∈ d)); simpl.
  - apply bool_decide_false. set_solver.
  - apply bool_decide_true. rewrite elem_of_app, list_elem_of_singleton. lia || (intros [?|?]; [done|lia]).
Qed.

Section Spans.
Context (m : mem) (p q : Z) (s d : list Z) (Hs : cstring m p s) (Hd : cstring m q d).

Lemma strchr_in pre c r : s = pre ++ c :: r ->
  returns (strchr m q c) (fun x => (x =? NULL) = negb (is_in d c)).
Proof.
  intros E. destruct (cstring_char m p s Hs pre c r E) as [_ Hc].
  eapply returns_mono; [apply (strchr_mem m q d); [done|lia]|]. intros x ->. apply in_terminated. lia.
Qed.

Lemma count_next pre c r : s = pre ++ c :: r ->
  u32 (p + Z.of_nat (length pre)) = past p pre /\
  u32 (Z.of_nat (length pre) + 1) = Z.of_nat (length (pre ++ [c])).
Proof.
  intros E. destruct (cstring_past m p s Hs pre c r E). pose proof (cstring_length m p s Hs) as Hl.
  rewrite E, !length_app in *. simpl in *. unfold past in *. rewrite !u32_small; lia.
Qed.

Lemma count_end : u32 (p + Z.of_nat (length s)) = past p s.
Proof. destruct Hs as [? ? _ _]. unfold past. rewrite u32_small; lia. Qed.

Lemma strspn_spec : strspn m p q = Ok (Z.of_nat (length (span (is_in d) s).1)).
Proof.
  apply returns_eq. unfold strspn.
  apply (walk s (fun pre => Z.of_nat (length pre)) (fun pre => Forall (fun x => is_in d x = true) pre)).
  - by eapply cstring_length.
  - done.
  - constructor.
  - intros pre c r E HI. destruct (count_next pre c r E) as [-> En].
    destruct (cstring_char m p s Hs pre c r E) as [-> Hc]. replace (c =? 0) with false by zbool. simpl.
    apply returns_bind. eapply returns_mono; [by apply (strchr_in pre c r)|]. intros x ->.
    destruct (is_in d c) eqn:Ec; simpl.
    + split; [done|]. apply Forall_app. auto.
    + by rewrite E, span_app.
  - intros HI. rewrite count_end, (cstring_null m p s) by done. simpl. by rewrite span_all.
Qed.

Lemma strcspn_spec : strcspn m p q = Ok (Z.of_nat (length (span (fun c => negb (is_in d c)) s).1)).
Proof.
  apply returns_eq. unfold strcspn.
  apply (walk s (fun pre => Z.of_nat (length pre)) (fun pre => Forall (fun x => negb (is_in d x) = true) pre)).
  - by eapply cstring_length.
  - done.
  - constructor.
  - intros pre c r E HI. destruct (count_next pre c r E) as [-> En].
    destruct (cstring_char m p s Hs pre c r E) as [-> Hc]. replace (c =? 0) with false by zbool. simpl.
    apply returns_bind. eapply returns_mono; [by apply (strchr_in pre c r)|]. intros x ->.
    destruct (is_in d c) eqn:Ec; simpl.
    + rewrite E, span_app; [done|done|by rewrite Ec].
    + split; [done|]. apply Forall_app. split; [done|]. constructor; [by rewrite Ec|constructor].
  - intros HI. rewrite count_end, (cstring_null m p s) by done. simpl. by rewrite span_all.
Qed.

Lemma strpbrk_spec : strpbrk m p q = Ok (match span (fun c => negb (is_in d c)) s with
  | (_, []) => NULL | (a, _) => past p a end).
Proof.
  apply returns_eq. unfold strpbrk.
  apply (walk s (past p) (fun pre => Forall (fun x => negb (is_in d x) = true) pre)).
  - by eapply cstring_length.
  - by rewrite past_nil.
  - constructor.
  - intros pre c r E HI. destruct (cstring_char m p s Hs pre c r E) as [-> Hc].
    replace (c =? 0) with false by zbool. simpl.
    apply returns_bind. eapply returns_mono; [by apply (strchr_in pre c r)|]. intros x ->.
    destruct (is_in d c) eqn:Ec; simpl.
    + rewrite E, span_app; [done|done|by rewrite Ec].
    + split; [by eapply cstring_next|]. apply Forall_app. split; [done|]. constructor; [by rewrite Ec|constructor].
  - intros HI. rewrite (cstring_null m p s) by done. simpl. by rewrite span_all.
Qed.

(** The last occurrence. *)
Lemma strrchr_spec c : returns (strrchr m p c) (fun x =>
  (exists pre r, s = pre ++ u8 c :: r /\ (u8 c ∉ r) /\ x = past p pre) \/ ((u8 c ∉ s) /\ x = NULL)).
Proof.
  unfold strrchr. set (last_at pre x := (exists a b, pre = a ++ u8 c :: b /\ (u8 c ∉ b) /\ x = past p a) \/
    ((u8 c ∉ pre) /\ x = NULL)).
  apply (returns_while_ix (fun n '(q', x) => exists pre r, s = pre ++ r /\ n = Z.of_nat (length r) /\
    q' = past p pre /\ last_at pre x)) with (Z.of_nat (length s)).
  - intros n [q' x] (pre & r & E & -> & -> & HI). split; [lia|]. destruct r as [|y r].
    + rewrite app_nil_r in E. subst pre. rewrite (cstring_null m p s) by done. simpl. done.
    + destruct (cstring_char m p s Hs pre y r E) as [-> Hc]. replace (y =? 0) with false by zbool. simpl.
      exists (Z.of_nat (length r)). split; [lia|]. exists (pre ++ [y]), r. rewrite <- app_assoc.
      split; [done|]. split; [done|]. split; [by eapply cstring_next|].
      destruct (Z.eqb_spec y (u8 c)) as [->|Hne].
      * left. exists pre, []. split; [done|]. split; [apply not_elem_of_nil|done].
      * destruct HI as [(a & b & -> & Hb & ->)|[Hn ->]]; [left|right].
        -- exists a, (b ++ [y]). rewrite <- app_assoc. split; [done|]. split; [set_solver|done].
        -- split; [set_solver|done].
  - exists [], s. rewrite past_nil. split; [done|]. split; [done|]. split; [done|]. right.
    split; [apply not_elem_of_nil|done].
  - pose proof (cstring_length m p s Hs). lia.
Qed.

Lemma strnlen_spec maxlen : 0 <= maxlen -> strnlen m p maxlen = Ok (Z.min (Z.of_nat (length s)) maxlen).
Proof.
  intros Hm. apply returns_eq. unfold strnlen.
  apply (walk s (fun pre => Z.of_nat (length pre)) (fun pre => Z.of_nat (length pre) <= maxlen)).
  - by eapply cstring_length.
  - done.
  - simpl. lia.
  - intros pre c r E HI. destruct (count_next pre c r E) as [-> En].
    destruct (cstring_char m p s Hs pre c r E) as [-> Hc]. replace (c =? 0) with false by zbool. simpl.
    rewrite E, !length_app in *. simpl in *. destruct (Z.ltb_spec (Z.of_nat (length pre)) maxlen); simpl; [|lia].
    split; [done|lia].
  - intros HI. rewrite count_end, (cstring_null m p s) by done. simpl. lia.
Qed.
End Spans.

(** ** Comparison *)

Fixpoint lex (s t : list Z) : Z :=
  match s, t with
  | [], [] => 0
  | [], _ :: _ => -1
  | _ :: _, [] => 1
  | a :: s, b :: t => if a =? b then lex s t else if a <? b then -1 else 1
  end.

Lemma lex_app pre s t : lex (pre ++ s) (pre ++ t) = lex s t.
Proof. induction pre as [|c pre IH]; simpl; [done|]. by rewrite Z.eqb_refl. Qed.

Lemma strcmp_spec m p q s t : cstring m p s -> cstring m q t -> strcmp m p q = Ok (lex s t).
Proof.
  intros Hs Ht. unfold strcmp. rewrite (cstring_nonnull m p s), (cstring_nonnull m q t) by done. simpl.
  apply returns_eq.
  apply (returns_while_ix (fun n '(a, b) => exists pre s1 t1, s = pre ++ s1 /\ t = pre ++ t1 /\
    n = Z.of_nat (length s1) /\ a = past p pre /\ b = past q pre)) with (Z.of_nat (length s)).
  - intros n [a b] (pre & s1 & t1 & Es & Et & -> & -> & ->). split; [lia|].
    rewrite Es, Et, lex_app. pose proof (cstring_suffix m p s Hs pre s1 Es) as Hs1.
    pose proof (cstring_suffix m q t Ht pre t1 Et) as Ht1.
    rewrite (cstring_head m _ s1), (cstring_head m _ t1) by done. pose proof (cs_chars _ _ _ Hs1) as Fs.
    pose proof (cs_chars _ _ _ Ht1) as Ft. destruct s1 as [|c s1], t1 as [|e t1]; simpl.
    + done.
    + apply list.Forall_cons in Ft as [He _]. by replace (0 <? e) with true by zbool.
    + apply list.Forall_cons in Fs as [Hc _]. replace (c =? 0) with false by zbool.
      replace (c <? 0) with false by zbool. by replace (0 <? c) with true by zbool.
    + apply list.Forall_cons in Fs as [Hc _]. apply list.Forall_cons in Ft as [He _].
      replace (c =? 0) with false by zbool. simpl. destruct (Z.eqb_spec c e) as [->|Hne]; simpl.
      * exists (Z.of_nat (length s1)). split; [lia|]. exists (pre ++ [e]), s1, t1. rewrite <- !app_assoc.
        split; [done|]. split; [done|]. split; [done|]. split; by eapply cstring_next.
      * destruct (Z.ltb_spec c e); [done|]. by replace (e <? c) with true by zbool.
  - exists [], s, t. by rewrite !past_nil.
  - pose proof (cstring_length m p s Hs). lia.
Qed.

(** ** Copying *)

Lemma cstring_lookup m p s i c : cstring m p s -> s !! i = Some c -> m (p + Z.of_nat i) = c.
Proof. intros Hs Hi. apply (cs_at _ _ _ Hs). by apply lookup_app_l_Some. Qed.

(** A string is what memory holds at its addresses. *)
Lemma cstring_intro m p s : 0 < p -> p + Z.of_nat (length s) < 2 ^ 32 -> Forall (fun c => 0 < c < 2 ^ 8) s ->
  (forall i c, s !! i = Some c -> m (p + Z.of_nat i) = c) -> m (past p s) = 0 -> cstring m p s.
Proof.
  intros H0 He Hc Ha Hn. split; try done. intros i c [Hi|[Hle Hi]]%lookup_app_Some; [by apply Ha|].
  apply list_lookup_singleton_Some in Hi as [Hi <-]. replace i with (length s) by lia. done.
Qed.

Lemma cstring_ext m m' p s : cstring m p s ->
  (forall a, p <= a <= p + Z.of_nat (length s) -> m' a = m a) -> cstring m' p s.
Proof.
  intros [H0 He Hc Ha] Hm. split; try done. intros i c Hi. rewrite Hm; [by apply Ha|].
  apply lookup_lt_Some in Hi. rewrite length_app in Hi. simpl in Hi. lia.
Qed.

Lemma take_clip (s : list Z) n k : (k = length s `min` n)%nat -> take n s = take k s.
Proof. intros ->. destruct (decide (n <= length s)%nat); [by rewrite Nat.min_r|]. by rewrite !take_ge by lia. Qed.

(** A prefix of the string at [src] copied to [dst] and terminated is a string. *)
Lemma copied_prefix m m' dst src s n : cstring m src s -> (n <= length s)%nat -> 0 < dst ->
  dst + Z.of_nat n < 2 ^ 32 -> (forall i, (i < n)%nat -> m' (dst + Z.of_nat i) = m (src + Z.of_nat i)) ->
  m' (dst + Z.of_nat n) = 0 -> cstring m' dst (take n s).
Proof.
  intros Hs Hn H0 He Hc Hz. pose proof (length_take_le s n Hn) as El.
  apply cstring_intro; [done|by rewrite El|apply Forall_take, Hs| |].
  - intros i c [Hi Hlt]%lookup_take_Some. rewrite Hc by done. by eapply cstring_lookup.
  - unfold past. by rewrite El.
Qed.

(** Two ranges of addresses that share none. *)
Definition separate (a n b k : Z) : Prop := a + n <= b \/ b + k <= a.

Lemma strlcpy_spec m dst src s size : cstring m src s -> 0 < dst -> 0 <= size -> dst + size <= 2 ^ 32 ->
  separate dst size src (Z.of_nat (length s) + 1) ->
  returns (strlcpy m dst src size) (fun '(r, m') =>
    r = Z.of_nat (length s) /\
    (0 < size -> cstring m' dst (take (Z.to_nat (size - 1)) s)) /\
    (forall a, ~ dst <= a < dst + size -> m' a = m a)).
Proof.
  intros Hs Hd H0 He Hsep. unfold strlcpy.
  replace (dst =? NULL) with false by (symmetry; apply Z.eqb_neq; unfold NULL; lia).
  rewrite (cstring_nonnull m src s), strlen_spec with (s := s) by done. cbn [negb ASSERT mbind res_bind].
  destruct (Z.ltb_spec 0 size); [|split; [done|]; split; [lia|done]].
  set (n := if Z.of_nat (length s) <? size - 1 then Z.of_nat (length s) else size - 1).
  assert (Hn : 0 <= n <= size - 1 /\ n <= Z.of_nat (length s) /\ n = Z.min (Z.of_nat (length s)) (size - 1)) by (unfold n; zbool).
  clearbody n. apply returns_bind. pose proof (cs_end _ _ _ Hs). pose proof (cs_ptr _ _ _ Hs).
  eapply returns_mono; [apply memcpy_spec; unfold block_ok, NULL, separate in *; lia|].
  intros m1 Hm1. rewrite u32_small by lia. split; [done|]. split.
  - intros _. rewrite (take_clip s _ (Z.to_nat n)) by lia.
    apply (copied_prefix m _ dst src s); [done|lia|done|lia|..]; rewrite ?Z2Nat.id by lia; unfold store.
    + intros i Hi. rewrite Hm1. zbool. f_equal. lia.
    + by rewrite Z.eqb_refl.
  - intros a Ha. unfold store. rewrite Hm1. zbool.
Qed.

Lemma strlcat_spec m dst src s t size : cstring m src s -> cstring m dst t ->
  0 <= size -> Z.of_nat (length s) + Z.of_nat (length t) < 2 ^ 32 -> dst + size <= 2 ^ 32 ->
  separate dst (Z.max size (Z.of_nat (length t) + 1)) src (Z.of_nat (length s) + 1) ->
  returns (strlcat m dst src size) (fun '(r, m') =>
    r = Z.of_nat (length s) + Z.of_nat (length t) /\
    cstring m' dst (t ++ take (Z.to_nat (size - Z.of_nat (length t) - 1)) s) /\
    (forall a, ~ dst <= a < dst + size -> m' a = m a)).
Proof.
  intros Hs Ht H0 Hlen He Hsep. unfold strlcat.
  rewrite (cstring_nonnull m dst t), (cstring_nonnull m src s), (strlen_spec m src s Hs),
    (strlen_spec m dst t Ht) by done. cbn [negb ASSERT mbind res_bind]. rewrite (u32_small (_ + _)) by lia.
  destruct (Z.ltb_spec 0 size); cbn [andb].
  2:{ split; [done|]. split; [|done]. replace (Z.to_nat _) with 0%nat by lia. by rewrite app_nil_r. }
  destruct (Z.ltb_spec (Z.of_nat (length t)) size).
  2:{ split; [done|]. split; [|done]. replace (Z.to_nat _) with 0%nat by lia. by rewrite app_nil_r. }
  set (k := size - Z.of_nat (length t) - 1).
  set (n := if Z.of_nat (length s) <? k then Z.of_nat (length s) else k).
  assert (Hn : 0 <= n <= k /\ n <= Z.of_nat (length s) /\ n = Z.min (Z.of_nat (length s)) k) by (unfold n, k; zbool).
  clearbody n. pose proof (cs_end _ _ _ Hs). pose proof (cs_ptr _ _ _ Hs). pose proof (cs_ptr _ _ _ Ht). pose proof (cs_end _ _ _ Ht).
  rewrite (u32_small (dst + Z.of_nat (length t))) by lia. apply returns_bind.
  eapply returns_mono; [apply memcpy_spec; unfold block_ok, NULL, separate, k in *; lia|].
  intros m1 Hm1. rewrite (u32_small (_ + n)), (u32_small (dst + _)) by lia. split; [done|]. split.
  - rewrite (take_clip s _ (Z.to_nat n)) by lia. pose proof (length_take_le s (Z.to_nat n) ltac:(lia)) as El.
    apply cstring_intro; [done|rewrite length_app, El; lia|..].
    + apply Forall_app. split; [apply Ht|apply Forall_take, Hs].
    + intros i c [Hi|[Hle Hi]]%lookup_app_Some.
      * pose proof (lookup_lt_Some _ _ _ Hi). unfold store. rewrite Hm1. zbool. by eapply cstring_lookup.
      * apply lookup_take_Some in Hi as [Hi Hlt]. pose proof (lookup_lt_Some _ _ _ Hi).
        rewrite <- (cstring_lookup m src s _ c Hs Hi). unfold store. rewrite Hm1. zbool. f_equal. lia.
    + unfold past, store. rewrite length_app, El. replace (dst + _ =? _) with true by zbool. done.
  - intros a Ha. unfold store. rewrite Hm1. unfold k in *. zbool.
Qed.

(** ** Searching for blocks *)

Lemma memchr_spec m p c size : block_ok p size -> returns (memchr m p c size) (fun q =>
  (exists k, 0 <= k < size /\ m (p + k) = u8 c /\ (forall i, 0 <= i < k -> m (p + i) <> u8 c) /\ q = p + k) \/
  ((forall i, 0 <= i < size -> m (p + i) <> u8 c) /\ q = NULL)).
Proof.
  intros Hb. pose proof Hb as (Hp & Hs & He & _). unfold memchr.
  pose proof (assert_block_ok p size Hb) as Ea. unfold assert_block in Ea. rewrite Ea. simpl.
  apply (returns_loop (fun '(q, n) => 0 <= n <= size /\ (0 < n -> q = p + (size - n)) /\
    forall i, 0 <= i < size - n -> m (p + i) <> u8 c) (fun '(_, n) => Z.to_nat n)).
  - intros [q n] (Hn & Hq & Hno). destruct (Z.ltb_spec 0 n); simpl.
    + rewrite Hq by lia. destruct (Z.eqb_spec (m (p + (size - n))) (u8 c)) as [E|Hne]; simpl.
      * left. exists (size - n). auto with lia.
      * split; [|lia]. split; [lia|]. split; [intros; rewrite u32_small; lia|].
        intros i Hi. destruct (decide (i = size - n)) as [->|]; [done|apply Hno; lia].
    + right. split; [|done]. intros i Hi. apply Hno. lia.
  - split; [lia|]. split; [lia|]. intros; lia.
  - lia.
Qed.

(** Comparing the bytes after a prefix of one string with another string. *)
Lemma memcmp_prefix m p q s t pre r : cstring m p s -> cstring m q t -> s = pre ++ r -> (length t <= length r)%nat ->
  returns (memcmp m (past p pre) q (Z.of_nat (length t))) (fun x => x = 0 <-> take (length t) r = t).
Proof.
  intros Hs Ht E Hl. pose proof (cstring_suffix m p s Hs pre r E) as Hr.
  eapply returns_mono; [apply memcmp_spec|].
  - destruct Hr as [? ? _ _]. unfold block_ok, NULL. lia.
  - destruct Ht as [? ? _ _]. unfold block_ok, NULL. lia.
  - assert (Hat : forall i, (i < length t)%nat -> exists a b, r !! i = Some a /\ t !! i = Some b /\
      m (past p pre + Z.of_nat i) = a /\ m (q + Z.of_nat i) = b).
    { intros i Hi. destruct (lookup_lt_is_Some_2 r i ltac:(lia)) as [a Ha]. destruct (lookup_lt_is_Some_2 t i Hi) as [b Hb].
      exists a, b. split; [done|]. split; [done|]. split; by eapply cstring_lookup. }
    intros x [[-> Heq]|(k & Hk & _ & Hne)].
    + split; [|done]. intros _. apply list_eq_same_length with (length t); [done|by rewrite length_take_le|].
      intros i a b Hi Ha Hb. apply lookup_take_Some in Ha as [Ha _]. destruct (Hat i Hi) as (a' & b' & Ha' & Hb' & Em & Em').
      specialize (Heq (Z.of_nat i) ltac:(lia)). congruence.
    + split; [lia|]. intros Et. exfalso. destruct (Hat (Z.to_nat k) ltac:(lia)) as (a & b & Ha & Hb & Em & Em').
      rewrite Z2Nat.id in * by lia. assert (a = b); [|lia].
      rewrite <- Et in Hb. apply lookup_take_Some in Hb as [Hb _]. congruence.
Qed.

Lemma strstr_spec m p q s t : cstring m p s -> cstring m q t -> returns (strstr m p q) (fun x =>
  (exists pre r, s = pre ++ t ++ r /\ x = past p pre /\
     (forall pre' r', s = pre' ++ t ++ r' -> (length pre <= length pre')%nat)) \/
  ((forall pre r, s <> pre ++ t ++ r) /\ x = NULL)).
Proof.
  intros Hs Ht. unfold strstr. rewrite (strlen_spec m p s Hs), (strlen_spec m q t Ht). cbn [mbind res_bind].
  assert (Hfit : forall pre r, s = pre ++ t ++ r -> (length pre + length t <= length s)%nat).
  { intros pre r ->. rewrite !length_app. lia. }
  destruct (Z.leb_spec (Z.of_nat (length t)) (Z.of_nat (length s))).
  2:{ right. split; [|done]. intros pre r E. apply Hfit in E. lia. }
  apply (returns_while (fun i => 0 <= i <= Z.of_nat (length s) - Z.of_nat (length t) + 1 /\
    forall pre r, s = pre ++ t ++ r -> i <= Z.of_nat (length pre))
    (fun i => Z.of_nat (length s) - Z.of_nat (length t) + 1 - i)).
  - intros i (Hi & Hno). split; [lia|]. destruct (Z.leb_spec i (Z.of_nat (length s) - Z.of_nat (length t))).
    + pose proof (cs_end _ _ _ Hs). pose proof (cs_ptr _ _ _ Hs). rewrite !(u32_small (p + i)), u32_small by lia.
      set (pre := take (Z.to_nat i) s). set (r := drop (Z.to_nat i) s).
      assert (E : s = pre ++ r) by (symmetry; apply take_drop).
      assert (Ep : length pre = Z.to_nat i) by (apply length_take_le; lia).
      assert (Er : (length r = length s - Z.to_nat i)%nat) by apply length_drop.
      replace (p + i) with (past p pre) by (unfold past; lia).
      apply returns_bind. eapply returns_mono; [apply (memcmp_prefix m p q s t pre r); [done|done|done|lia]|].
      intros x Hx. destruct (Z.eqb_spec x 0) as [->|Hne]; simpl.
      * left. exists pre, (drop (length t) r). rewrite <- (proj1 Hx eq_refl) at 1. rewrite take_drop.
        split; [done|]. split; [done|]. intros pre' r' E'. specialize (Hno pre' r' E'). lia.
      * split; [|lia]. split; [lia|]. intros pre' r' E'. specialize (Hno pre' r' E').
        destruct (decide (i = Z.of_nat (length pre'))) as [Ei|]; [|lia]. exfalso. apply Hne, Hx.
        rewrite E in E'. apply app_inj_1 in E' as [_ ->]; [by rewrite take_app_length|lia].
    + right. split; [|done]. intros pre r E. pose proof (Hno pre r E). apply Hfit in E. lia.
  - split; [lia|]. intros; lia.
  - pose proof (cstring_length m p s Hs). lia.
Qed.

(** ** Tokens *)

Section Skip.
Context (m : mem) (q dl : Z) (s d : list Z) (Hs : cstring m q s) (Hd : cstring m dl d).

(** The first loop of [strtok_r] skips delimiters, to the end or to a token. *)
Lemma skip_delimiters : returns (while (skip_step m dl) q) (fun o =>
  match span (is_in d) s with
  | (_, []) => o = inl (past q s)
  | (skip, _ :: _) => o = inr (past q skip)
  end).
Proof.
  apply (walk s (past q) (fun pre => Forall (fun x => is_in d x = true) pre)).
  - by eapply cstring_length.
  - by rewrite past_nil.
  - constructor.
  - intros pre c r E HI. unfold skip_step. destruct (cstring_char m q s Hs pre c r E) as [-> Hc]. apply returns_bind.
    eapply returns_mono; [by apply (strchr_in m q dl s d Hs Hd pre c r)|]. intros x ->.
    replace (c =? 0) with false by zbool. destruct (is_in d c) eqn:Ec; simpl.
    + split; [by eapply cstring_next|]. apply Forall_app. auto.
    + by rewrite E, span_app.
  - intros HI. unfold skip_step. rewrite (cstring_null m q s) by done. apply returns_bind.
    eapply returns_mono; [apply (strchr_mem m dl d 0 Hd); lia|]. intros x ->.
    rewrite bool_decide_false by set_solver. simpl. by rewrite span_all.
Qed.

(** The second loop goes to the end of the token. *)
Lemma skip_token : returns (while (token_step m dl) q) (fun o =>
  o = past q (span (fun c => negb (is_in d c)) s).1).
Proof.
  apply (walk s (past q) (fun pre => Forall (fun x => negb (is_in d x) = true) pre)).
  - by eapply cstring_length.
  - by rewrite past_nil.
  - constructor.
  - intros pre c r E HI. unfold token_step. destruct (cstring_char m q s Hs pre c r E) as [-> Hc]. apply returns_bind.
    eapply returns_mono; [by apply (strchr_in m q dl s d Hs Hd pre c r)|]. intros x ->.
    destruct (is_in d c) eqn:Ec; simpl.
    + rewrite E, span_app; [done|done|by rewrite Ec].
    + split; [by eapply cstring_next|]. apply Forall_app. split; [done|]. constructor; [by rewrite Ec|constructor].
  - intros HI. unfold token_step. rewrite (cstring_null m q s) by done. apply returns_bind.
    eapply returns_mono; [apply (strchr_mem m dl d 0 Hd); lia|]. intros x ->.
    rewrite bool_decide_false by set_solver. simpl. by rewrite span_all.
Qed.
End Skip.

Lemma past_app p a b : past p (a ++ b) = past (past p a) b.
Proof. unfold past. rewrite length_app. lia. Qed.

(** Cutting a string at one of its characters leaves two strings. *)
Lemma cstring_cut m p a c r : cstring m p (a ++ c :: r) ->
  cstring (store m (past p a) 0) p a /\ cstring (store m (past p a) 0) (past p a + 1) r.
Proof.
  intros Hs. pose proof (cs_end _ _ _ Hs) as He. pose proof (cs_ptr _ _ _ Hs). rewrite length_app in He. simpl in He.
  pose proof (cs_chars _ _ _ Hs) as Hc. apply Forall_app in Hc as [Hca Hcr]. split.
  - apply cstring_intro; [done|lia|done|..].
    + intros i x Hi. pose proof (lookup_lt_Some _ _ _ Hi). unfold store, past. zbool.
      eapply cstring_lookup; [done|]. by apply lookup_app_l_Some.
    + unfold store. by rewrite Z.eqb_refl.
  - apply (cstring_ext m).
    + rewrite <- (past_snoc p a c). apply (cstring_suffix m p _ Hs). by rewrite <- app_assoc.
    + intros x Hx. unfold store. zbool.
Qed.

(** The next token of [s], and what is left after its delimiter. *)
Definition next_token (d s : list Z) : option (list Z * list Z * list Z) :=
  match span (is_in d) s with
  | (_, []) => None
  | (skip, rest) => let '(w, r) := span (fun c => negb (is_in d c)) rest in Some (skip, w, r)
  end.

Lemma strtok_r_spec m s0 dl save q s d : (if s0 =? NULL then save else s0) = q ->
  cstring m q s -> cstring m dl d ->
  returns (strtok_r m s0 dl save) (fun '(tok, save', m') =>
    (forall a, ~ q <= a < past q s -> m' a = m a) /\
    match next_token d s with
    | None => tok = NULL /\ save' = past q s /\ m' = m
    | Some (skip, w, r) =>
        tok = past q skip /\ cstring m' tok w /\ cstring m' save' (tail r) /\
        past tok w <= save' /\ (past tok w < save' \/ tail r = []) /\ past save' (tail r) = past q s
    end).
Proof.
  intros Eq Hs Hd. unfold strtok_r, next_token. rewrite Eq.
  rewrite assert_bind by (by rewrite (cstring_nonnull m dl d)). rewrite assert_bind by (by rewrite (cstring_nonnull m q s)).
  apply returns_bind. eapply returns_mono; [by apply (skip_delimiters m q dl s d)|].
  pose proof (span_spec (is_in d) s) as Hsp. destruct (span (is_in d) s) as [skip rest]. destruct Hsp as (Es & _ & Hhd).
  intros o Ho. destruct rest as [|c rest]; subst o; [done|].
  pose proof (cstring_suffix m q s Hs skip (c :: rest) Es) as Hrest.
  apply returns_bind. eapply returns_mono; [by apply (skip_token m _ dl (c :: rest) d)|].
  pose proof (span_spec (fun c => negb (is_in d c)) (c :: rest)) as Hsp.
  destruct (span (fun c => negb (is_in d c)) (c :: rest)) as [w r]. destruct Hsp as (Er & _ & Hr).
  intros o ->. simpl fst. rewrite Er in Hrest. pose proof (cs_end _ _ _ Hs) as He. pose proof (cs_ptr _ _ _ Hs) as Hp.
  rewrite Es, Er, !length_app in He. destruct r as [|x r].
  - rewrite app_nil_r in Hrest. rewrite (cstring_null m (past q skip) w) by done. cbn [Z.eqb negb].
    split; [done|]. split; [done|]. split; [done|]. rewrite Es, Er, app_nil_r, past_app. split; [|split; [lia|split; [by right|by rewrite past_nil]]].
    simpl. apply (cstring_suffix m (past q skip) w Hrest w []). by rewrite app_nil_r.
  - destruct (cstring_char m (past q skip) (w ++ x :: r) Hrest w x r eq_refl) as [-> Hx].
    replace (x =? 0) with false by zbool. cbn [negb]. destruct (cstring_cut _ _ _ _ _ Hrest) as [Hw Htl].
    rewrite Es, Er. simpl in He. rewrite u32_small by (unfold past; lia). split.
    + intros a Ha. unfold store. unfold past in *. rewrite !length_app in Ha. simpl in Ha. zbool.
    + split; [done|]. split; [done|]. split; [done|]. simpl. split; [lia|]. split; [left; lia|].
      unfold past. rewrite !length_app. simpl. lia.
Qed.

(** The tokens of a string: its maximal runs of characters that are not delimiters. *)
Definition emit (cur : list Z) : list (list Z) := match cur with [] => [] | _ => [cur] end.

Fixpoint tokens_from (d cur s : list Z) : list (list Z) :=
  match s with
  | [] => emit cur
  | c :: r => if is_in d c then emit cur ++ tokens_from d [] r else tokens_from d (cur ++ [c]) r
  end.

Definition tokens (d s : list Z) : list (list Z) := tokens_from d [] s.

Lemma tokens_skip d a s : Forall (fun x => is_in d x = true) a -> tokens_from d [] (a ++ s) = tokens_from d [] s.
Proof. induction 1 as [|x a Hx _ IH]; simpl; [done|]. by rewrite Hx. Qed.

Lemma tokens_word d w cur s : Forall (fun x => negb (is_in d x) = true) w ->
  tokens_from d cur (w ++ s) = tokens_from d (cur ++ w) s.
Proof.
  intros Hw. revert cur. induction Hw as [|x w Hx _ IH]; intros cur; simpl; [by rewrite app_nil_r|].
  apply negb_true_iff in Hx. by rewrite Hx, IH, <- app_assoc.
Qed.

Lemma tokens_next d s : tokens d s =
  match next_token d s with None => [] | Some (_, w, r) => w :: tokens d (tail r) end.
Proof.
  unfold tokens, next_token. pose proof (span_spec (is_in d) s) as Hsp.
  destruct (span (is_in d) s) as [skip rest]. destruct Hsp as (-> & Hskip & Hhd). rewrite tokens_skip by done.
  destruct rest as [|c rest]; [done|]. pose proof (span_spec (fun c => negb (is_in d c)) (c :: rest)) as Hsp.
  simpl span in Hsp |- *. rewrite Hhd in *. simpl in Hsp |- *.
  destruct (span (fun c => negb (is_in d c)) rest) as [w r]. destruct Hsp as ([= ->] & Hw & Hr).
  apply list.Forall_cons in Hw as [_ Hw]. rewrite (tokens_word d w [c]), Hhd by done.
  destruct r as [|x r]; [done|]. simpl. apply negb_false_iff in Hr. by rewrite Hr.
Qed.

(** The usual loop over the tokens of a string: the token pointers it meets, in order,
    and the memory it leaves. *)
Definition tokenize (m : mem) (s dl : Z) : res (list Z * mem) :=
  while (fun '(s, save, toks, m) =>
    '(tok, save, m) ← strtok_r m s dl save;
    if tok =? NULL then Ok (inr (toks, m)) else Ok (inl (NULL, save, toks ++ [tok], m))) (s, NULL, [], m).

Lemma next_token_word d s skip w r : next_token d s = Some (skip, w, r) -> (0 < length w)%nat.
Proof.
  unfold next_token. pose proof (span_spec (is_in d) s) as Hsp. destruct (span (is_in d) s) as [a [|c b]]; [done|].
  destruct Hsp as (_ & _ & Hc). simpl span. rewrite Hc. simpl.
  destruct (span (fun c => negb (is_in d c)) b) as [w' r']. intros [= _ <- _]. simpl. lia.
Qed.

(** Between two calls: [r] is left to be read at [q], the tokens [ws] of what was read
    are at [toks]. *)
Record token_state (m : mem) (p : Z) (s d : list Z) (q : Z) (r : list Z) (ws : list (list Z)) (toks : list Z) (m1 : mem) : Prop := {
  ts_left : cstring m1 q r;
  ts_pos : p <= q;
  ts_end : past q r = past p s;
  ts_tokens : tokens d s = ws ++ tokens d r;
  ts_read : Forall2 (fun t w => cstring m1 t w /\ (past t w < q \/ r = [])) toks ws;
  ts_frame : forall a, ~ p <= a < past p s -> m1 a = m a
}.

Lemma token_state_step m p s d q r ws toks m1 skip w r' save' m2 :
  token_state m p s d q r ws toks m1 -> (forall a, ~ q <= a < past q r -> m2 a = m1 a) ->
  next_token d r = Some (skip, w, r') -> cstring m2 (past q skip) w -> cstring m2 save' (tail r') ->
  past (past q skip) w <= save' -> past (past q skip) w < save' \/ tail r' = [] -> past save' (tail r') = past q r ->
  token_state m p s d save' (tail r') (ws ++ [w]) (toks ++ [past q skip]) m2.
Proof.
  intros [Hl Hp He Ht Hrd Hf] Hm2 Hn Hw Hr' Hle Hlt Hend. split; [done| |congruence|..].
  - unfold past in *. lia.
  - by rewrite Ht, tokens_next, Hn, <- app_assoc.
  - apply Forall2_app; [|by constructor]. eapply Forall2_impl; [exact Hrd|]. intros t x [Hx Hq]. split.
    + apply (cstring_ext m1); [done|]. intros a Ha. apply Hm2. destruct Hq as [Hq | ->]; unfold past in *; simpl; lia.
    + destruct Hq as [Hq | ->]; [|by destruct (next_token d []) eqn:E].
      destruct Hlt as [?|?]; [left|by right]. unfold past in *. lia.
  - intros a Ha. rewrite Hm2; [by apply Hf|]. rewrite He. lia.
Qed.

(** C33: [strtok_r] splits a string into its tokens: called again and again until it
    returns a null pointer, it returns pointers to exactly the maximal runs of characters
    that are not delimiters, in order, each of them terminated in place, and writes to no
    other memory than the string. *)
Theorem strtok_r_tokens m p dl s d : cstring m p s -> cstring m dl d ->
  separate p (Z.of_nat (length s) + 1) dl (Z.of_nat (length d) + 1) ->
  returns (tokenize m p dl) (fun '(toks, m') =>
    Forall2 (cstring m') toks (tokens d s) /\ forall a, ~ p <= a < past p s -> m' a = m a).
Proof.
  intros Hs Hd Hsep. unfold tokenize.
  apply (returns_while_ix (fun n '(s0, save, toks, m1) => exists q r ws,
      (if s0 =? NULL then save else s0) = q /\ n = Z.of_nat (length r) /\
      token_state m p s d q r ws toks m1)) with (Z.of_nat (length s)).
  - intros n [[[s0 save] toks] m1] (q & r & ws & Eq & -> & HI). split; [lia|]. destruct HI as [Hr Hp He Ht Hrd Hf] eqn:EI.
    clear EI. apply returns_bind. eapply returns_mono; [apply (strtok_r_spec m1 s0 dl save q r d Eq Hr)|].
    { apply (cstring_ext m); [done|]. intros a Ha. apply Hf. unfold past, separate in *. lia. }
    intros [[tok save'] m2] [Hm2 Hres]. destruct (next_token d r) as [[[skip w] r']|] eqn:En.
    + destruct Hres as (-> & Hw & Hr' & Hle & Hlt & Hend). rewrite (cstring_nonnull m2 _ w) by done. simpl.
      exists (Z.of_nat (length (tail r'))). split.
      { apply next_token_word in En. unfold past in *. lia. }
      exists save', (tail r'), (ws ++ [w]). split; [done|]. split; [done|]. by eapply token_state_step.
    + destruct Hres as (-> & -> & ->). simpl. rewrite Ht, tokens_next, En, app_nil_r. split; [|done].
      eapply Forall2_impl; [exact Hrd|]. by intros t w [? _].
  - exists p, s, []. rewrite (cstring_nonnull m p s) by done. split; [done|]. split; [done|].
    split; [done|lia|done|done|constructor|done].
  - pose proof (cstring_length m p s Hs). lia.
Qed.

(** [strlcpy] always leaves a terminated string, the longest prefix of the source
    that fits, writes only inside the destination buffer, and returns the length of the
    source, from which the caller sees a truncation. *)
Theorem strlcpy_bounded m dst src s size : cstring m src s -> 0 < dst -> 0 <= size -> dst + size <= 2 ^ 32 ->
  separate dst size src (Z.of_nat (length s) + 1) ->
  returns (strlcpy m dst src size) (fun '(r, m') =>
    r = Z.of_nat (length s) /\
    (0 < size -> cstring m' dst (take (Z.to_nat (size - 1)) s)) /\
    (forall a, ~ dst <= a < dst + size -> m' a = m a)).
Proof. apply strlcpy_spec. Qed.

(** ** Concrete strings *)

(** Memory [m] with the string [s] at [p]. *)
Definition with_string (m : mem) (p : Z) (s : list Z) : mem := fun a =>
  match (s ++ [0]) !! Z.to_nat (a - p) with Some c => if p <=? a then c else m a | None => m a end.

Lemma with_string_ok m p s : 0 < p -> p + Z.of_nat (length s) < 2 ^ 32 -> Forall (fun c => 0 < c < 2 ^ 8) s ->
  cstring (with_string m p s) p s.
Proof.
  intros H0 He Hc. split; try done. intros i c Hi. unfold with_string.
  replace (Z.to_nat _) with i by lia. rewrite Hi. by replace (p <=? _) with true by zbool.
Qed.

(** " ab  c" and its delimiter, a space. *)
Definition sample : list Z := [32; 97; 98; 32; 32; 99].
Definition sample_mem : mem := with_string (with_string (fun _ => 0) 0x2000 [32]) 0x1000 sample.

Lemma sample_strings : cstring sample_mem 0x1000 sample /\ cstring sample_mem 0x2000 [32].
Proof.
  split.
  - apply with_string_ok; [lia|simpl; lia|]. repeat constructor; lia.
  - apply (cstring_ext (with_string (fun _ => 0) 0x2000 [32])).
    + apply with_string_ok; [lia|simpl; lia|]. repeat constructor; lia.
    + simpl. intros a Ha. unfold sample_mem, with_string at 1. rewrite lookup_ge_None_2; [done|]. simpl. lia.
Qed.

Lemma strtok_r_tokens_witness : returns (tokenize sample_mem 0x1000 0x2000) (fun '(toks, m') =>
  Forall2 (cstring m') toks [[97; 98]; [99]]).
Proof.
  eapply returns_mono; [apply (strtok_r_tokens sample_mem 0x1000 0x2000 sample [32])|].
  - apply sample_strings.
  - apply sample_strings.
  - left. simpl. lia.
  - intros [toks m'] [H _]. exact H.
Defined.

Lemma strlcpy_bounded_witness : returns (strlcpy sample_mem 0x3000 0x1000 4) (fun '(r, m') =>
  r = 6 /\ cstring m' 0x3000 [32; 97; 98]).
Proof.
  eapply returns_mono; [apply (strlcpy_bounded sample_mem 0x3000 0x1000 sample 4)|].
  - apply sample_strings.
  - lia.
  - lia.
  - lia.
  - right. simpl. lia.
  - intros [r m'] (-> & H & _). split; [reflexivity|]. apply H. lia.
Defined.
