(* ===== verification/Arith64.v ===== *)
(** * 64-bit division (lib/arithmetic.c)

    The routines behind 64-bit division and remainder on the 32-bit target, built from
    the DIVL instruction, and their equivalence with mathematical division. *)

From stdpp Require Import base numbers.
From Stdlib Require Import ZArith Lia.
From S2P Require Import Prelude.

Local Open Scope Z_scope.

(** The DIVL instruction raises a divide error when the quotient does not fit in 32
    bits; the kernel has no handler for it and panics. *)
Definition divl (n d : Z) : res Z :=
  if (d =? 0) || (2 ^ 32 <=? n / d) then Err KernelPanic else Ok (n / d).

(** One halving step of [nlz]: below the limit, count [k] zeros and shift them out. *)
Definition nlz_step (limit k : Z) (s : Z * Z) : Z * Z :=
  let '(n, x) := s in
  if x <=? limit then (n + k, u32 (Z.shiftl x k)) else (n, x).

Definition nlz (x : Z) : Z :=
  let s := nlz_step 0x0000FFFF 16 (0, x) in
  let s := nlz_step 0x00FFFFFF 8 s in
  let s := nlz_step 0x0FFFFFFF 4 s in
  let '(n, x) := nlz_step 0x3FFFFFFF 2 s in
  if x <=? 0x7FFFFFFF then n + 1 else n.

Definition udiv64 (n d : Z) : res Z :=
  if Z.shiftr d 32 =? 0 then
    let b := Z.shiftl 1 32 in
    let n1 := u32 (Z.shiftr n 32) in
    let n0 := u32 n in
    let d0 := u32 d in
    if d0 =? 0 then Err KernelPanic else
    q ← divl (u64 (b * (n1 mod d0) + n0)) d0;
    Ok (u64 (q + b * (n1 / d0)))
  else if n <? d then Ok 0
  else
    let d1 := u32 (Z.shiftr d 32) in
    let s := nlz d1 in
    q ← divl (Z.shiftr n 1) (u32 (Z.shiftr (u64 (Z.shiftl d s)) 32));
    let q := Z.shiftr q (31 - s) in
    Ok (if u64 (n - u64 (u64 (q - 1) * d)) <? d then u64 (q - 1) else q).

Definition umod64 (n d : Z) : res Z :=
  q ← udiv64 n d; Ok (u32 (n - u64 (d * q))).

Definition sdiv64 (n d : Z) : res Z :=
  let n_abs := if 0 <=? n then u64 n else u64 (- u64 n) in
  let d_abs := if 0 <=? d then u64 d else u64 (- u64 d) in
  q_abs ← udiv64 n_abs d_abs;
  Ok (if Bool.eqb (n <? 0) (d <? 0) then i64 q_abs else i64 (- i64 q_abs)).

Definition smod64 (n d : Z) : res Z :=
  q ← sdiv64 n d; Ok (i32 (n - i64 (d * q))).

Definition __divdi3 (n d : Z) : res Z := sdiv64 n d.
Definition __moddi3 (n d : Z) : res Z := smod64 n d.
Definition __udivdi3 (n d : Z) : res Z := udiv64 n d.
Definition __umoddi3 (n d : Z) : res Z := umod64 n d.

(** ** Leading zeros *)

Lemma nlz_step_spec x0 n x limit k :
  0 <= n -> 0 <= k -> x = x0 * 2 ^ n -> 0 < x < 2 ^ 32 -> (limit + 1) * 2 ^ k = 2 ^ 32 -> 0 <= limit ->
  let '(n', x') := nlz_step limit k (n, x) in
  n <= n' <= n + k /\ x' = x0 * 2 ^ n' /\ x' < 2 ^ 32 /\ (x <= limit /\ x' = x * 2 ^ k \/ limit < x' /\ x <= x').
Proof.
  intros Hn Hk Ex Hx Hl Hl0. unfold nlz_step. destruct (Z.leb_spec x limit); [|lia].
  rewrite Z.shiftl_mul_pow2, u32_small by (done || nia). rewrite Ex, Z.pow_add_r by lia. nia.
Qed.

Lemma nlz_spec x : 0 < x < 2 ^ 32 -> 0 <= nlz x <= 31 /\ 2 ^ 31 <= x * 2 ^ nlz x < 2 ^ 32.
Proof.
  intros Hx. unfold nlz.
  pose proof (nlz_step_spec x 0 x 0xFFFF 16) as H1. destruct (nlz_step _ 16 _) as [n1 x1].
  destruct H1 as (Hn1 & E1 & Hlt1 & Hc1); try lia.
  assert (2 ^ 16 <= x1) by lia.
  pose proof (nlz_step_spec x n1 x1 0xFFFFFF 8) as H2. destruct (nlz_step _ 8 _) as [n2 x2].
  destruct H2 as (Hn2 & E2 & Hlt2 & Hc2); try lia.
  assert (2 ^ 24 <= x2) by lia.
  pose proof (nlz_step_spec x n2 x2 0xFFFFFFF 4) as H3. destruct (nlz_step _ 4 _) as [n3 x3].
  destruct H3 as (Hn3 & E3 & Hlt3 & Hc3); try lia.
  assert (2 ^ 28 <= x3) by lia.
  pose proof (nlz_step_spec x n3 x3 0x3FFFFFFF 2) as H4. destruct (nlz_step _ 2 _) as [n4 x4].
  destruct H4 as (Hn4 & E4 & Hlt4 & Hc4); try lia.
  assert (2 ^ 30 <= x4) by lia.
  destruct (Z.leb_spec x4 0x7FFFFFFF); [rewrite Z.pow_add_r by lia|]; lia.
Qed.

(** ** Unsigned division *)

Lemma shiftr_div a k : 0 <= k -> Z.shiftr a k = a / 2 ^ k.
Proof. apply Z.shiftr_div_pow2. Qed.

(** A divisor of at most 32 bits: long division with two 32-bit digits. *)
Lemma udiv64_short n d : in_u64 n -> 0 < d < 2 ^ 32 -> udiv64 n d = Ok (n / d).
Proof.
  unfold in_u64. intros Hn Hd. unfold udiv64. rewrite !shiftr_div by lia.
  rewrite (Z.div_small d) by lia. simpl. change (Z.shiftl 1 32) with (2 ^ 32).
  set (n1 := n / 2 ^ 32). assert (Hn1 : 0 <= n1 < 2 ^ 32) by (unfold n1; Z.to_euclidean_division_equations; lia).
  rewrite (u32_small n1), (u32_small d) by lia. unfold u32.
  pose proof (Z.div_mod n (2 ^ 32) ltac:(lia)) as En. fold n1 in En.
  pose proof (Z.mod_pos_bound n (2 ^ 32) ltac:(lia)). set (n0 := n mod 2 ^ 32) in *.
  pose proof (Z.div_mod n1 d ltac:(lia)) as E1. pose proof (Z.mod_pos_bound n1 d ltac:(lia)).
  set (q1 := n1 / d) in *. set (r1 := n1 mod d) in *.
  assert (0 <= q1) by (apply Z.div_pos; lia).
  replace (d =? 0) with false by zbool.
  assert (E : n / d = (2 ^ 32 * r1 + n0) / d + 2 ^ 32 * q1).
  { rewrite <- Z.div_add by lia. f_equal. rewrite En, E1. lia. }
  assert (Hq : 0 <= (2 ^ 32 * r1 + n0) / d < 2 ^ 32).
  { split; [apply Z.div_pos; lia|]. apply Z.div_lt_upper_bound; nia. }
  rewrite u64_small by nia. unfold divl. replace (d =? 0) with false by zbool.
  replace (2 ^ 32 <=? _) with false by zbool. simpl. f_equal. rewrite u64_small; [lia|].
  rewrite <- E. split; [apply Z.div_pos; lia|]. apply Z.div_lt_upper_bound; nia.
Qed.

(** The estimate of the quotient: [e] is [d] with its low bits cleared. *)
Lemma quotient_estimate n d e k : 0 <= n < 2 ^ 64 -> 1 <= k -> 2 ^ (31 + k) <= e -> e <= d < e + 2 ^ k ->
  n / d <= n / e <= n / d + 1.
Proof.
  intros Hn Hk He Hd. rewrite Z.pow_add_r in He by lia.
  assert (Hp : 2 <= 2 ^ k) by (apply (Z.pow_le_mono_r 2 1 k); lia). set (p := 2 ^ k) in *.
  assert (He0 : 0 < e) by lia.
  assert (Hgap : n * (d - e) < e * d).
  { apply Z.le_lt_trans with (n * (p - 1)); [apply Z.mul_le_mono_nonneg_l; lia|].
    apply Z.lt_le_trans with (2 ^ 64 * (p - 1)); [apply Z.mul_lt_mono_pos_r; lia|].
    apply Z.le_trans with ((2 ^ 31 * p) * (2 ^ 31 * p)); [|apply Z.mul_le_mono_nonneg; lia].
    pose proof (Z.square_nonneg (p - 2)). lia. }
  split; [apply Z.div_le_compat_l; lia|].
  pose proof (Z.div_mod n d ltac:(lia)). pose proof (Z.mod_pos_bound n d ltac:(lia)).
  cut (n / e < n / d + 2); [lia|]. apply Z.div_lt_upper_bound; [done|].
  apply Z.mul_lt_mono_pos_l with d; [lia|]. nia.
Qed.

(** Normalising a divisor of more than 32 bits: [d] shifted left by its leading zeros
    has its top bit set, and its upper half is [d] without its low [32 - s] bits. *)
Lemma normalise d : 2 ^ 32 <= d < 2 ^ 64 -> let s := nlz (u32 (Z.shiftr d 32)) in
  0 <= s <= 31 /\ 2 ^ 31 <= d / 2 ^ (32 - s) < 2 ^ 32 /\
  u32 (Z.shiftr (u64 (Z.shiftl d s)) 32) = d / 2 ^ (32 - s).
Proof.
  intros Hd. rewrite shiftr_div by lia. set (d1 := d / 2 ^ 32).
  assert (Hd1 : 0 < d1 < 2 ^ 32) by (unfold d1; Z.to_euclidean_division_equations; lia).
  rewrite u32_small by lia. cbv zeta. destruct (nlz_spec d1 Hd1) as [Hs Hn]. set (s := nlz d1) in *.
  assert (E32 : 2 ^ (32 - s) * 2 ^ s = 2 ^ 32) by (rewrite <- Z.pow_add_r by lia; f_equal; lia).
  assert (Hp : 0 < 2 ^ s) by lia. assert (Hk : 0 < 2 ^ (32 - s)) by lia.
  pose proof (Z.div_mod d (2 ^ 32) ltac:(lia)) as Ed. fold d1 in Ed. pose proof (Z.mod_pos_bound d (2 ^ 32) ltac:(lia)).
  assert (Hd1k : d1 + 1 <= 2 ^ (32 - s)) by nia.
  assert (Hv : 2 ^ 31 <= d / 2 ^ (32 - s) < 2 ^ 32).
  { split; [apply Z.div_le_lower_bound; nia|apply Z.div_lt_upper_bound; nia]. }
  split; [done|]. split; [done|]. rewrite Z.shiftl_mul_pow2, u64_small by (lia || nia).
  rewrite shiftr_div, <- E32, Z.div_mul_cancel_r by lia. by apply u32_small; lia.
Qed.

(** A divisor of more than 32 bits: the estimate is exact or one too large, and the last
    comparison tells which. *)
Lemma udiv64_long n d : in_u64 n -> 2 ^ 32 <= d < 2 ^ 64 -> udiv64 n d = Ok (n / d).
Proof.
  unfold in_u64. intros Hn Hd. unfold udiv64. destruct (normalise d Hd) as (Hs & Hv & Ev).
  rewrite (shiftr_div d) in * by lia.
  replace (d / 2 ^ 32 =? 0) with false by (symmetry; apply Z.eqb_neq; Z.to_euclidean_division_equations; lia).
  destruct (Z.ltb_spec n d); [by rewrite Z.div_small by lia|].
  set (s := nlz _) in *. rewrite Ev. set (v1 := d / 2 ^ (32 - s)) in *. rewrite shiftr_div by lia.
  assert (Hq1 : 0 <= n / 2 ^ 1 / v1 < 2 ^ 32).
  { split; [apply Z.div_pos; [apply Z.div_pos|]; lia|]. apply Z.div_lt_upper_bound; [lia|].
    apply Z.div_lt_upper_bound; nia. }
  unfold divl. replace (v1 =? 0) with false by zbool. replace (2 ^ 32 <=? _) with false by zbool.
  cbn [orb mbind res_bind]. rewrite shiftr_div by lia.
  assert (Eq : n / 2 ^ 1 / v1 / 2 ^ (31 - s) = n / (v1 * 2 ^ (32 - s))).
  { rewrite !Z.div_div by lia. f_equal. replace (32 - s) with (1 + (31 - s)) by lia. rewrite Z.pow_add_r by lia. lia. }
  rewrite Eq. pose proof (Z.div_mod d (2 ^ (32 - s)) ltac:(lia)) as Ed. fold v1 in Ed.
  pose proof (Z.mod_pos_bound d (2 ^ (32 - s)) ltac:(lia)).
  pose proof (quotient_estimate n d (v1 * 2 ^ (32 - s)) (32 - s)) as Hest.
  destruct Hest as [Hlo Hhi]; [lia|lia|rewrite Z.pow_add_r by lia; nia|lia|].
  set (q := n / (v1 * 2 ^ (32 - s))) in *.
  pose proof (Z.div_mod n d ltac:(lia)). pose proof (Z.mod_pos_bound n d ltac:(lia)).
  assert (1 <= n / d) by (apply Z.div_le_lower_bound; lia). set (Q := n / d) in *.
  assert (Q < 2 ^ 32) by (apply Z.div_lt_upper_bound; nia).
  rewrite (u64_small (q - 1)), (u64_small ((q - 1) * d)), u64_small by nia.
  f_equal. destruct (Z.ltb_spec (n - (q - 1) * d) d); nia.
Qed.

Lemma udiv64_eq n d : in_u64 n -> in_u64 d -> udiv64 n d = if d =? 0 then Err KernelPanic else Ok (n / d).
Proof.
  unfold in_u64. intros Hn Hd. destruct (Z.eqb_spec d 0) as [->|]; [done|].
  destruct (Z.ltb_spec d (2 ^ 32)); [apply udiv64_short|apply udiv64_long]; unfold in_u64; lia.
Qed.

Lemma umod64_eq n d : in_u64 n -> in_u64 d -> d <> 0 -> umod64 n d = Ok ((n mod d) mod 2 ^ 32).
Proof.
  unfold in_u64. intros Hn Hd Hd0. unfold umod64. rewrite udiv64_eq by done.
  replace (d =? 0) with false by zbool. simpl. unfold u32.
  pose proof (Z.div_mod n d Hd0). pose proof (Z.mod_pos_bound n d ltac:(lia)).
  assert (0 <= n / d) by (apply Z.div_pos; lia). rewrite u64_small by nia. do 2 f_equal. lia.
Qed.

(** ** Signed division *)

(** The unsigned magnitude of a signed number, as the code computes it. *)
Lemma magnitude n : - 2 ^ 63 <= n < 2 ^ 63 -> (if 0 <=? n then u64 n else u64 (- u64 n)) = Z.abs n.
Proof.
  intros Hn. destruct (Z.leb_spec 0 n); [rewrite u64_small; lia|].
  unfold u64. rewrite <- (Z.mod_add n 1 (2 ^ 64)), (Z.mod_small (n + 1 * 2 ^ 64)) by lia.
  rewrite <- (Z.mod_add _ 1 (2 ^ 64)), Z.mod_small by lia. lia.
Qed.

Lemma i64_opp_wrap q : i64 (- i64 q) = i64 (- q).
Proof.
  unfold i64. pose proof (Z.div_mod (q + 2 ^ 63) (2 ^ 64) ltac:(lia)) as E.
  set (k := (q + 2 ^ 63) / 2 ^ 64) in *. f_equal.
  replace (- ((q + 2 ^ 63) mod 2 ^ 64 - 2 ^ 63) + 2 ^ 63) with (- q + 2 ^ 63 + k * 2 ^ 64) by lia.
  by rewrite Z.mod_add.
Qed.

Definition in_i64 (z : Z) : Prop := - 2 ^ 63 <= z < 2 ^ 63.

(** Truncated division by magnitudes and signs. *)
Lemma quot_signs n d : d <> 0 ->
  Z.quot n d = if Bool.eqb (n <? 0) (d <? 0) then Z.abs n / Z.abs d else - (Z.abs n / Z.abs d).
Proof.
  intros Hd. rewrite <- (Z.quot_div_nonneg (Z.abs n) (Z.abs d)) by lia.
  destruct (Z.ltb_spec n 0), (Z.ltb_spec d 0); simpl;
    rewrite ?(Z.abs_neq n), ?(Z.abs_eq n), ?(Z.abs_neq d), ?(Z.abs_eq d) by lia;
    rewrite ?Z.quot_opp_opp, ?Z.quot_opp_l, ?Z.quot_opp_r by lia; lia.
Qed.

Lemma sdiv64_eq n d : in_i64 n -> in_i64 d -> d <> 0 -> sdiv64 n d = Ok (i64 (Z.quot n d)).
Proof.
  intros Hn Hd Hd0. unfold sdiv64. rewrite !magnitude by done. unfold in_i64 in *.
  rewrite udiv64_eq by (unfold in_u64; lia). replace (Z.abs d =? 0) with false by zbool.
  cbn [mbind res_bind]. f_equal. rewrite i64_opp_wrap, quot_signs by done.
  by destruct (Bool.eqb _ _).
Qed.

Lemma i32_mod a b : a mod 2 ^ 32 = b mod 2 ^ 32 -> i32 a = i32 b.
Proof. intros E. unfold i32. by rewrite <- Z.add_mod_idemp_l, E, Z.add_mod_idemp_l. Qed.

Lemma i64_mod z : i64 z mod 2 ^ 64 = z mod 2 ^ 64.
Proof. unfold i64. rewrite Zminus_mod_idemp_l. f_equal. lia. Qed.

Lemma i64_mod32 z : i64 z mod 2 ^ 32 = z mod 2 ^ 32.
Proof.
  pose proof (i64_mod z) as E. pose proof (Z.div_mod (i64 z) (2 ^ 64) ltac:(lia)) as E1.
  pose proof (Z.div_mod z (2 ^ 64) ltac:(lia)) as E2. rewrite E in E1.
  replace (i64 z) with (z + (i64 z / 2 ^ 64 - z / 2 ^ 64) * 2 ^ 32 * 2 ^ 32) by lia. by rewrite Z.mod_add.
Qed.

Lemma smod64_eq n d : in_i64 n -> in_i64 d -> d <> 0 -> smod64 n d = Ok (i32 (Z.rem n d)).
Proof.
  intros Hn Hd Hd0. unfold smod64. rewrite sdiv64_eq by done. simpl. f_equal. apply i32_mod.
  rewrite <- (Zminus_mod_idemp_r n), i64_mod32, <- (Zmult_mod_idemp_r _ d), i64_mod32, Zmult_mod_idemp_r,
    Zminus_mod_idemp_r. f_equal. pose proof (Z.quot_rem n d Hd0). lia.
Qed.

(** ** Properties *)

(** Unsigned 64-bit division is exact: [__udivdi3] returns the quotient for all 64-bit
    dividends and divisors, and ends in a divide error exactly for the divisor 0 (the
    DIVL instruction never traps otherwise). *)
Theorem udivdi3_exact n d : in_u64 n -> in_u64 d ->
  __udivdi3 n d = if d =? 0 then Err KernelPanic else Ok (n / d).
Proof. apply udiv64_eq. Qed.

Lemma udivdi3_exact_witness : __udivdi3 (2 ^ 64 - 1) (2 ^ 32 + 1) = Ok (2 ^ 32 - 1).
Proof. rewrite udivdi3_exact; [reflexivity|unfold in_u64; lia|unfold in_u64; lia]. Defined.

(** Signed 64-bit division truncates towards zero, wrapping only for the one quotient
    that does not fit (the least number divided by -1). *)
Theorem divdi3_exact n d : in_i64 n -> in_i64 d -> d <> 0 ->
  __divdi3 n d = Ok (if (n =? - 2 ^ 63) && (d =? -1) then - 2 ^ 63 else Z.quot n d).
Proof.
  intros Hn Hd Hd0. unfold __divdi3. rewrite sdiv64_eq by done. f_equal. unfold in_i64 in *.
  destruct (Z.eqb_spec n (- 2 ^ 63)) as [->|Hne], (Z.eqb_spec d (-1)) as [->|Hd1]; simpl; [done|..];
    apply i64_small.
  - rewrite quot_signs by done. assert (2 <= Z.abs d \/ d = 1) as [Hd2 | ->] by lia.
    + assert (0 <= Z.abs (- 2 ^ 63) / Z.abs d < 2 ^ 63).
      { split; [apply Z.div_pos; lia|apply Z.div_lt_upper_bound; lia]. }
      destruct (Bool.eqb _ _); lia.
    + change (- 2 ^ 63 <= - 2 ^ 63 < 2 ^ 63). lia.
  - rewrite quot_signs, Z.div_1_r by done. destruct (Bool.eqb _ _); lia.
  - rewrite quot_signs by done. assert (0 <= Z.abs n / Z.abs d < 2 ^ 63).
    { split; [apply Z.div_pos; lia|apply Z.div_lt_upper_bound; nia]. }
    destruct (Bool.eqb _ _); lia.
Qed.

Lemma divdi3_exact_witness : __divdi3 (- 7) 2 = Ok (- 3).
Proof. rewrite divdi3_exact; [reflexivity|unfold in_i64; lia..]. Defined.

(** The remainders keep only 32 bits: [__umoddi3] returns the remainder modulo 2^32
    and [__moddi3] its signed 32-bit truncation, because the functions they return from
    are declared with 32-bit results.  They are right for divisors up to 2^32 and wrong,
    for example, for 2^33 modulo 2^33 + 1. *)
Theorem moddi3_truncated n d : in_u64 n -> in_u64 d -> d <> 0 ->
  __umoddi3 n d = Ok ((n mod d) mod 2 ^ 32) /\
  (d <= 2 ^ 32 -> __umoddi3 n d = Ok (n mod d)) /\
  __umoddi3 (2 ^ 33) (2 ^ 33 + 1) = Ok 0 /\
  (in_i64 n -> in_i64 d -> __moddi3 n d = Ok (i32 (Z.rem n d))).
Proof.
  intros Hn Hd Hd0. unfold __umoddi3, __moddi3. rewrite umod64_eq by done. split; [done|]. split; [|split].
  - intros Hle. unfold in_u64 in *. rewrite Z.mod_small; [done|]. pose proof (Z.mod_pos_bound n d). lia.
  - vm_compute. reflexivity.
  - intros ? ?. by apply smod64_eq.
Qed.

Lemma moddi3_truncated_witness : __umoddi3 (2 ^ 40) 10 = Ok 6.
Proof.
  destruct (moddi3_truncated (2 ^ 40) 10) as (_ & H & _); [unfold in_u64; lia..|]. by rewrite H by lia.
Defined.
