(* ===== verification/Ctype.v ===== *)
(** * Character classes (lib/ctype.h)

    An [int] that holds a character is a [Z]; the classes are booleans. *)

From Stdlib Require Import ZArith Lia.
From stdpp Require Import base list numbers strings.
From S2P Require Import Prelude.

Local Open Scope Z_scope.

(** A string literal of the source. *)
Fixpoint chars (s : string) : list Z :=
  match s with
  | EmptyString => []
  | String c s => Z.of_N (Ascii.N_of_ascii c) :: chars s
  end.

Definition islower (c : Z) : bool := (97 <=? c) && (c <=? 122).
Definition isupper (c : Z) : bool := (65 <=? c) && (c <=? 90).
Definition isalpha (c : Z) : bool := islower c || isupper c.
Definition isdigit (c : Z) : bool := (48 <=? c) && (c <=? 57).
Definition isalnum (c : Z) : bool := isalpha c || isdigit c.
Definition isxdigit (c : Z) : bool :=
  isdigit c || ((97 <=? c) && (c <=? 102)) || ((65 <=? c) && (c <=? 70)).
Definition isspace (c : Z) : bool :=
  (c =? 32) || (c =? 12) || (c =? 10) || (c =? 13) || (c =? 9) || (c =? 11).
Definition isblank (c : Z) : bool := (c =? 32) || (c =? 9).
Definition isgraph (c : Z) : bool := (32 <? c) && (c <? 127).
Definition isprint (c : Z) : bool := (32 <=? c) && (c <? 127).
Definition iscntrl (c : Z) : bool := ((0 <=? c) && (c <? 32)) || (c =? 127).
Definition isascii (c : Z) : bool := (0 <=? c) && (c <? 128).
Definition ispunct (c : Z) : bool := isprint c && negb (isalnum c) && negb (isspace c).
Definition tolower (c : Z) : Z := if isupper c then c - 65 + 97 else c.
Definition toupper (c : Z) : Z := if islower c then c - 97 + 65 else c.

(** [ctype_cases] decides statements about the classes by their ranges. *)
Ltac ctype_cases :=
  unfold ispunct, isgraph, isprint, iscntrl, isascii, isalnum, isxdigit, isalpha, isdigit,
    isspace, isblank, islower, isupper in *; zcases; simpl in *; try lia.

(** Letters change case and back; every other character stays. *)
Lemma tolower_toupper c : islower c = true -> tolower (toupper c) = c.
Proof. unfold tolower, toupper. intros H. rewrite H. ctype_cases. Qed.

Lemma toupper_other c : islower c = false -> toupper c = c.
Proof. unfold toupper. by intros ->. Qed.

Lemma isdigit_range c : isdigit c = true <-> 48 <= c <= 57.
Proof. unfold isdigit. rewrite andb_true_iff, !Z.leb_le. done. Qed.

Lemma isdigit_not_space c : isdigit c = true -> isspace c = false.
Proof. rewrite isdigit_range. intros Hc. unfold isspace. zbool. Qed.
