(* ===== verification/CStdlib.v ===== *)
(** * Conversion, sorting and searching (lib/stdlib.c)

    [atoi] on strings in memory; the heap sort behind [sort] and [qsort] and the binary
    search behind [bsearch], on arrays of [size]-byte elements in memory.  The comparison
    function is a parameter. *)

From stdpp Require Import base list numbers sorting.
From Stdlib Require Import ZArith Lia.
From S2P Require Import Prelude CString StringLib Ctype.

Local Open Scope Z_scope.

(** ** Conversion *)

Definition atoi (m : mem) (s : Z) : res Z :=
  ASSERT (negb (s =? NULL));;
  s ← while (fun s => if isspace (m s) then Ok (inl (u32 (s + 1))) else Ok (inr s)) s;
  let '(negative, s) :=
    if m s =? 43 then (false, u32 (s + 1))
    else if m s =? 45 then (true, u32 (s + 1))
    else (false, s) in
  value ← while (fun '(value, s) =>
    if isdigit (m s) then Ok (inl (i32 (i32 (value * 10) - (m s - 48)), u32 (s + 1)))
    else Ok (inr value)) (0, s);
  Ok (if (negative : bool) then value else i32 (- value)).

(** ** Sorting *)

Section Sort.
(** A comparison function: what it returns for two element addresses. *)
Context (compare : mem -> Z -> Z -> Z).

(** The address of the element with a 1-based index. *)
Definition elem_addr (array idx size : Z) : Z := u32 (array + u32 (u32 (idx - 1) * size)).

Definition do_swap (m : mem) (array a_idx b_idx size : Z) : res mem :=
  let a := elem_addr array a_idx size in
  let b := elem_addr array b_idx size in
  loop (S (Z.to_nat size)) (fun '(m, i) =>
    if i <? size then
      let t := m (u32 (a + i)) in
      let m := store m (u32 (a + i)) (m (u32 (b + i))) in
      let m := store m (u32 (b + i)) t in
      Ok (inl (m, u32 (i + 1)))
    else Ok (inr m)) (m, 0).

Definition do_compare (m : mem) (array a_idx b_idx size : Z) : Z :=
  compare m (elem_addr array a_idx size) (elem_addr array b_idx size).

(** The index of the largest among element [i] and its children. *)
Definition largest (m : mem) (array i cnt size : Z) : Z :=
  let left := u32 (2 * i) in
  let right := u32 (2 * i + 1) in
  let max := i in
  let max := if (left <=? cnt) && (0 <? do_compare m array left max size) then left else max in
  if (right <=? cnt) && (0 <? do_compare m array right max size) then right else max.

Definition heapify_step (array cnt size : Z) (s : mem * Z) : res (mem * Z + mem) :=
  let '(m, i) := s in
  let max := largest m array i cnt size in
  if max =? i then Ok (inr m)
  else m ← do_swap m array i max size; Ok (inl (m, max)).

Definition heapify (m : mem) (array i cnt size : Z) : res mem :=
  while (heapify_step array cnt size) (m, i).

Definition sort (m : mem) (array cnt size : Z) : res mem :=
  ASSERT (negb (array =? NULL) || (cnt =? 0));;
  ASSERT (0 <? size);;
  m ← loop (S (Z.to_nat cnt)) (fun '(m, i) =>
    if 0 <? i then m ← heapify m array i cnt size; Ok (inl (m, i - 1))
    else Ok (inr m)) (m, cnt / 2);
  loop (S (Z.to_nat cnt)) (fun '(m, i) =>
    if 1 <? i then
      m ← do_swap m array 1 i size;
      m ← heapify m array 1 (i - 1) size;
      Ok (inl (m, i - 1))
    else Ok (inr m)) (m, cnt).

(** The key is an address too. *)
Definition binary_search (m : mem) (key array cnt size : Z) : res Z :=
  while (fun '(first, last) =>
    if first <? last then
      let range := u32 (last - first) / size in
      let middle := u32 (first + u32 (range / 2 * size)) in
      let cmp := compare m key middle in
      if cmp <? 0 then Ok (inl (first, middle))
      else if 0 <? cmp then Ok (inl (u32 (middle + size), last))
      else Ok (inr middle)
    else Ok (inr NULL)) (array, u32 (array + u32 (size * cnt))).
End Sort.

(** [compare_thunk] calls the two-argument comparison function through [aux]. *)
Definition compare_thunk (compare : mem -> Z -> Z -> Z) : mem -> Z -> Z -> Z := fun m a b => compare m a b.

Definition qsort (compare : mem -> Z -> Z -> Z) (m : mem) (array cnt size : Z) : res mem :=
  sort (compare_thunk compare) m array cnt size.

Definition bsearch (compare : mem -> Z -> Z -> Z) (m : mem) (key array cnt size : Z) : res Z :=
  binary_search (compare_thunk compare) m key array cnt size.

(** ** Heaps

    Arrays are functions from 1-based indexes; [le] is the order of the comparison. *)

Definition swapi (i j k : Z) : Z := if k =? i then j else if k =? j then i else k.

Lemma swapi_l i j : swapi i j i = j.
Proof. unfold swapi. by rewrite Z.eqb_refl. Qed.
Lemma swapi_r i j : swapi i j j = i.
Proof. unfold swapi. rewrite Z.eqb_refl. destruct (Z.eqb_spec j i); congruence. Qed.
Lemma swapi_other i j k : k <> i -> k <> j -> swapi i j k = k.
Proof. unfold swapi. intros Hi Hj. by rewrite (proj2 (Z.eqb_neq _ _) Hi), (proj2 (Z.eqb_neq _ _) Hj). Qed.
Lemma swapi_inv i j k : swapi i j (swapi i j k) = k.
Proof.
  destruct (decide (k = i)) as [->|Hi]; [by rewrite swapi_l, swapi_r|].
  destruct (decide (k = j)) as [->|Hj]; [by rewrite swapi_r, swapi_l|].
  rewrite (swapi_other i j k Hi Hj). by apply swapi_other.
Qed.

(** Exchanging two places of a list of indexes permutes the values there. *)
Lemma swapi_perm {A} (h : Z -> A) i j l : NoDup l -> i ∈ l -> j ∈ l ->
  map (fun k => h (swapi i j k)) l ≡ₚ map h l.
Proof.
  intros Hnd Hi Hj.
  assert (Hin : forall k, k ∈ l -> swapi i j k ∈ l).
  { intros k Hk. unfold swapi. destruct (k =? i); [done|]. by destruct (k =? j). }
  rewrite <- (List.map_map (swapi i j) h). apply Permutation_map, NoDup_Permutation; [|done|].
  - apply (NoDup_fmap_2_strong (swapi i j)); [|done]. intros x y _ _ E.
    by rewrite <- (swapi_inv i j x), E, swapi_inv.
  - intros x. rewrite list_elem_of_fmap. split.
    + intros (y & -> & Hy). auto.
    + intros Hx. exists (swapi i j x). rewrite swapi_inv. auto.
Qed.

Section Heap.
Context {A : Type} (le : A -> A -> Prop).
Context (le_total : forall a b, le a b \/ le b a) (le_trans : forall a b c, le a b -> le b c -> le a c).
Implicit Types h : Z -> A.

(** Index [k] is not below its children among the first [c] elements. *)
Definition heap_at h (c k : Z) : Prop :=
  (2 * k <= c -> le (h (2 * k)) (h k)) /\ (2 * k + 1 <= c -> le (h (2 * k + 1)) (h k)).

(** All indexes from [lo] on but [i] are above their children, and the children of [i]
    are below its parent. *)
Definition floating h (lo c i : Z) : Prop :=
  (forall k, lo <= k -> k <> i -> heap_at h c k) /\
  (forall p, lo <= p -> i = 2 * p \/ i = 2 * p + 1 ->
     (2 * i <= c -> le (h (2 * i)) (h p)) /\ (2 * i + 1 <= c -> le (h (2 * i + 1)) (h p))).

Lemma le_refl a : le a a.
Proof. by destruct (le_total a a). Qed.

Lemma float_done h lo c i : floating h lo c i -> heap_at h c i -> forall k, lo <= k -> heap_at h c k.
Proof. intros [Hf _] Hi k Hk. destruct (decide (k = i)) as [->|]; auto. Qed.

(** Moving the largest child up lets [i] float further down. *)
Lemma float_step h h' lo c i max : 1 <= lo -> lo <= i -> floating h lo c i ->
  max = 2 * i \/ max = 2 * i + 1 -> max <= c -> le (h i) (h max) ->
  (2 * i <= c -> le (h (2 * i)) (h max)) -> (2 * i + 1 <= c -> le (h (2 * i + 1)) (h max)) ->
  (forall k, 1 <= k <= c -> h' k = h (swapi i max k)) ->
  floating h' lo c max.
Proof.
  intros Hlo Hi [Hf Hp] Hmax Hc Hle Hl Hr E. split.
  - intros k Hk Hne. destruct (decide (k = i)) as [->|Hki].
    + split; intros Hle2; rewrite !E, swapi_l by lia.
      * destruct (decide (max = 2 * i)) as [<-|]; [by rewrite swapi_r|]. rewrite swapi_other by lia. auto.
      * destruct (decide (max = 2 * i + 1)) as [<-|]; [by rewrite swapi_r|]. rewrite swapi_other by lia. auto.
    + destruct (Hf k Hk Hki) as [H1 H2].
      split; intros Hle2; rewrite !E by lia; rewrite (swapi_other i max k) by lia.
      * destruct (decide (i = 2 * k)) as [->|].
        { rewrite swapi_l. destruct (Hp k Hk (or_introl eq_refl)) as [P1 P2]. destruct Hmax as [-> | ->]; auto. }
        rewrite swapi_other by lia. auto.
      * destruct (decide (i = 2 * k + 1)) as [->|].
        { rewrite swapi_l. destruct (Hp k Hk (or_intror eq_refl)) as [P1 P2]. destruct Hmax as [-> | ->]; auto. }
        rewrite swapi_other by lia. auto.
  - intros p Hlp Hpm. assert (p = i) as -> by lia.
    destruct (Hf max ltac:(lia) ltac:(lia)) as [H1 H2].
    split; intros Hle2; rewrite !E, swapi_l, swapi_other by lia; auto.
Qed.

(** The root of a heap is its maximum. *)
Lemma heap_root h c : (forall k, 1 <= k -> heap_at h c k) -> forall k, 1 <= k <= c -> le (h k) (h 1).
Proof.
  intros Hh k Hk. assert (H0 : 0 <= k) by lia. revert Hk. pattern k. apply Zlt_0_ind; [|done]. clear k H0.
  intros k IH _ Hk. destruct (decide (k = 1)) as [->|]; [apply le_refl|].
  destruct (Hh (k / 2)) as [H1 H2]; [Z.to_euclidean_division_equations; lia|].
  apply le_trans with (h (k / 2)); [|apply IH; Z.to_euclidean_division_equations; lia].
  destruct (Z.eq_dec k (2 * (k / 2))) as [E|E].
  - rewrite E at 1. apply H1. lia.
  - assert (E' : k = 2 * (k / 2) + 1) by (Z.to_euclidean_division_equations; lia). rewrite E' at 1. apply H2. lia.
Qed.
End Heap.

(** ** Arrays in memory *)

(** The [n] bytes at [p]. *)
Definition block (m : mem) (p n : Z) : list Z := map (fun i => m (p + i)) (seqZ 0 n).

Lemma block_ext m m' p p' n : (forall i, 0 <= i < n -> m (p + i) = m' (p' + i)) -> block m p n = block m' p' n.
Proof. intros H. apply map_ext_in. intros i Hi%list_elem_of_In%elem_of_seqZ. apply H. lia. Qed.

(** The loop of [do_swap] exchanges two blocks that do not overlap. *)
Lemma swap_blocks m a b size : 0 < a -> 0 < b -> 0 < size -> a + size <= 2 ^ 32 -> b + size <= 2 ^ 32 ->
  separate a size b size ->
  returns (loop (S (Z.to_nat size)) (fun '(m, i) =>
    if i <? size then
      let t := m (u32 (a + i)) in
      let m := store m (u32 (a + i)) (m (u32 (b + i))) in
      let m := store m (u32 (b + i)) t in
      Ok (inl (m, u32 (i + 1)))
    else Ok (inr m)) (m, 0)) (fun m' => forall x, m' x =
      if (a <=? x) && (x <? a + size) then m (b + (x - a))
      else if (b <=? x) && (x <? b + size) then m (a + (x - b)) else m x).
Proof.
  intros Ha Hb Hs Hea Heb Hsep.
  apply (returns_loop (fun '(m1, i) => 0 <= i <= size /\ forall x, m1 x =
      if (a <=? x) && (x <? a + i) then m (b + (x - a))
      else if (b <=? x) && (x <? b + i) then m (a + (x - b)) else m x)
    (fun '(_, i) => Z.to_nat (size - i))).
  - intros [m1 i] [Hi Hm]. destruct (Z.ltb_spec i size); simpl.
    + rewrite !u32_small by lia. split; [|lia]. split; [lia|]. intros x. unfold store, separate in *.
      rewrite !Hm. zbool; f_equal; lia.
    + by replace i with size in Hm by lia.
  - split; [lia|]. intros x. zbool.
  - lia.
Qed.

Section Array.
Context (compare : mem -> Z -> Z -> Z) (cmp : list Z -> list Z -> Z) (array cnt size : Z).

(** The comparison function looks at the bytes of the two elements, and orders them. *)
Hypothesis Hcompare : forall m a b, compare m a b = cmp (block m a size) (block m b size).
Hypothesis Hsign : forall x y, 0 < cmp x y <-> cmp y x < 0.
Hypothesis Htrans : forall x y z, cmp x y <= 0 -> cmp y z <= 0 -> cmp x z <= 0.
Hypothesis Harray : 0 < array /\ 0 < size /\ 0 <= cnt < 2 ^ 31 /\ array + cnt * size <= 2 ^ 32.

Definition cmp_le (x y : list Z) : Prop := cmp x y <= 0.

Lemma cmp_total x y : cmp_le x y \/ cmp_le y x.
Proof. unfold cmp_le. pose proof (Hsign x y). lia. Qed.

Lemma cmp_gt x y : 0 < cmp x y -> cmp_le y x.
Proof. unfold cmp_le. pose proof (Hsign x y). lia. Qed.

(** The element with 1-based index [k]. *)
Definition el (m : mem) (k : Z) : list Z := block m (array + (k - 1) * size) size.

Lemma elem_addr_eq k : 1 <= k <= cnt ->
  elem_addr array k size = array + (k - 1) * size /\ 0 <= (k - 1) * size /\ k * size <= cnt * size.
Proof.
  intros Hk. destruct Harray as (? & ? & ? & ?). unfold elem_addr.
  assert (0 <= (k - 1) * size) by nia. assert (k * size <= cnt * size) by nia.
  rewrite (u32_small (k - 1)), (u32_small (_ * _)), u32_small by nia. done.
Qed.

Lemma do_compare_eq m a b : 1 <= a <= cnt -> 1 <= b <= cnt ->
  do_compare compare m array a b size = cmp (el m a) (el m b).
Proof.
  intros Ha Hb. unfold do_compare. rewrite Hcompare.
  by rewrite (proj1 (elem_addr_eq a Ha)), (proj1 (elem_addr_eq b Hb)).
Qed.

(** Outside of the array nothing changes. *)
Definition outside (m m' : mem) : Prop := forall x, ~ array <= x < array + cnt * size -> m' x = m x.

Lemma outside_refl m : outside m m.
Proof. done. Qed.

Lemma outside_trans m m1 m2 : outside m m1 -> outside m1 m2 -> outside m m2.
Proof. intros H1 H2 x Hx. rewrite H2 by done. by apply H1. Qed.

Lemma do_swap_spec m a b : 1 <= a <= cnt -> 1 <= b <= cnt -> a <> b ->
  returns (do_swap m array a b size) (fun m' =>
    (forall k, 1 <= k <= cnt -> el m' k = el m (swapi a b k)) /\ outside m m').
Proof.
  intros Ha Hb Hne. destruct (elem_addr_eq a Ha) as (Ea & Ha0 & Hac). destruct (elem_addr_eq b Hb) as (Eb & Hb0 & Hbc).
  destruct Harray as (Har & Hs & Hc & Hend). unfold do_swap. rewrite Ea, Eb.
  assert (Hfar : forall i j, 1 <= i -> i < j -> (i - 1) * size + size <= (j - 1) * size) by (intros; nia).
  eapply returns_mono; [apply swap_blocks; try lia|].
  { destruct (decide (a < b)); [left; pose proof (Hfar a b)|right; pose proof (Hfar b a)]; lia. }
  intros m' Hm. split.
  - intros k Hk. unfold el. apply block_ext. intros i Hi. rewrite Hm. unfold swapi.
    destruct (Z.eqb_spec k a) as [->|Hka]; [zbool; f_equal; lia|].
    destruct (Z.eqb_spec k b) as [->|Hkb].
    + pose proof (Hfar a b ltac:(lia)). pose proof (Hfar b a ltac:(lia)). zbool; f_equal; lia.
    + pose proof (Hfar a k ltac:(lia)). pose proof (Hfar k a ltac:(lia)).
      pose proof (Hfar b k ltac:(lia)). pose proof (Hfar k b ltac:(lia)). zbool; f_equal; lia.
  - intros x Hx. rewrite Hm. zbool.
Qed.

(** [m'] is [m] with its first [c] elements permuted. *)
Definition rearranged (m m' : mem) (c : Z) : Prop :=
  map (el m') (seqZ 1 c) ≡ₚ map (el m) (seqZ 1 c) /\
  (forall k, c < k <= cnt -> el m' k = el m k) /\ outside m m'.

Lemma rearranged_refl m c : rearranged m m c.
Proof. split; [done|]. split; [done|apply outside_refl]. Qed.

Lemma rearranged_trans m m1 m2 c : rearranged m m1 c -> rearranged m1 m2 c -> rearranged m m2 c.
Proof.
  intros (P1 & K1 & O1) (P2 & K2 & O2). split; [by rewrite P2|]. split; [|by eapply outside_trans].
  intros k Hk. by rewrite K2, K1.
Qed.

Lemma rearranged_more m m' c : 0 <= c <= cnt -> rearranged m m' c -> rearranged m m' cnt.
Proof.
  intros Hc (Hp & Hk & Ho). split; [|split; [intros; lia|done]].
  replace cnt with (c + (cnt - c)) by lia. rewrite seqZ_app, !map_app by lia. apply Permutation_app; [done|].
  apply Permutation_refl', map_ext_in. intros k Hk2%list_elem_of_In%elem_of_seqZ. apply Hk. lia.
Qed.

Lemma swap_rearranged m m' a b c : 1 <= a <= c -> 1 <= b <= c -> c <= cnt ->
  (forall k, 1 <= k <= cnt -> el m' k = el m (swapi a b k)) -> outside m m' -> rearranged m m' c.
Proof.
  intros Ha Hb Hc Hel Ho. split; [|split; [|done]].
  - rewrite <- (swapi_perm (el m) a b (seqZ 1 c)) by (apply NoDup_seqZ || (apply elem_of_seqZ; lia)).
    apply Permutation_refl', map_ext_in. intros k Hk%list_elem_of_In%elem_of_seqZ. apply Hel. lia.
  - intros k Hk. rewrite Hel, swapi_other by lia. done.
Qed.

Lemma largest_spec m i c : 1 <= i <= c -> c <= cnt ->
  let max := largest compare m array i c size in
  (max = i /\ heap_at cmp_le (el m) c i) \/
  ((max = 2 * i \/ max = 2 * i + 1) /\ max <= c /\ cmp_le (el m i) (el m max) /\
   (2 * i <= c -> cmp_le (el m (2 * i)) (el m max)) /\ (2 * i + 1 <= c -> cmp_le (el m (2 * i + 1)) (el m max))).
Proof.
  intros Hi Hc. destruct Harray as (_ & _ & Hcnt & _). unfold largest. rewrite !u32_small by lia.
  pose proof (le_refl cmp_le cmp_total) as Hrefl. unfold cmp_le in *. pose proof cmp_gt as Hgt. unfold cmp_le in Hgt.
  destruct (Z.leb_spec (2 * i) c) as [Hl|Hl]; cbn [andb].
  - rewrite (do_compare_eq m (2 * i) i) by lia. destruct (Z.ltb_spec 0 (cmp (el m (2 * i)) (el m i))) as [H1|H1].
    + destruct (Z.leb_spec (2 * i + 1) c) as [Hr|Hr]; cbn [andb].
      * rewrite do_compare_eq by lia. destruct (Z.ltb_spec 0 (cmp (el m (2 * i + 1)) (el m (2 * i)))) as [H2|H2].
        -- right. split; [auto|]. split; [lia|]. split; [eauto|]. split; [auto|]. auto.
        -- right. split; [auto|]. split; [lia|]. split; [auto|]. split; [auto|]. auto.
      * right. split; [auto|]. split; [lia|]. split; [auto|]. split; [auto|]. lia.
    + destruct (Z.leb_spec (2 * i + 1) c) as [Hr|Hr]; cbn [andb].
      * rewrite do_compare_eq by lia. destruct (Z.ltb_spec 0 (cmp (el m (2 * i + 1)) (el m i))) as [H2|H2].
        -- right. split; [auto|]. split; [lia|]. split; [auto|]. split; [eauto|]. auto.
        -- left. split; [done|]. by split.
      * left. split; [done|]. split; [done|lia].
  - destruct (Z.leb_spec (2 * i + 1) c); [lia|]. cbn [andb]. left. split; [done|]. split; lia.
Qed.

Lemma heapify_spec m lo i c : 1 <= lo <= i -> i <= c <= cnt -> floating cmp_le (el m) lo c i ->
  returns (heapify compare m array i c size) (fun m' =>
    (forall k, lo <= k -> heap_at cmp_le (el m') c k) /\ rearranged m m' c).
Proof.
  intros Hlo Hc Hf. unfold heapify.
  apply (returns_while_ix (fun n '(m1, j) => n = c - j /\ lo <= j <= c /\ floating cmp_le (el m1) lo c j /\
    rearranged m m1 c)) with (c - i).
  - intros n [m1 j] (-> & Hj & Hfl & Hre). split; [lia|]. unfold heapify_step.
    destruct (largest_spec m1 j c ltac:(lia) ltac:(lia)) as [[-> Hdone]|(Hmax & Hle & H1 & H2 & H3)].
    + rewrite Z.eqb_refl. simpl. split; [|done]. by apply float_done with j.
    + set (max := largest compare m1 array j c size) in *. replace (max =? j) with false by zbool.
      apply returns_bind. eapply returns_mono; [apply (do_swap_spec m1 j max); lia|]. intros m2 [Hel Ho].
      exists (c - max). split; [lia|]. split; [done|]. split; [lia|]. split.
      * eapply (float_step cmp_le (el m1) (el m2) lo c j max); try done; try lia. intros k Hk. apply Hel. lia.
      * eapply rearranged_trans; [exact Hre|]. eapply (swap_rearranged m1 m2 j max); done || lia.
  - split; [done|]. split; [lia|]. split; [done|apply rearranged_refl].
  - destruct Harray as (_ & _ & ? & _). lia.
Qed.

(** Building the heap, from the last parent down to the root. *)
Lemma build_heap m : returns (loop (S (Z.to_nat cnt)) (fun '(m, i) =>
    if 0 <? i then m ← heapify compare m array i cnt size; Ok (inl (m, i - 1))
    else Ok (inr m)) (m, cnt / 2)) (fun m' =>
  (forall k, 1 <= k -> heap_at cmp_le (el m') cnt k) /\ rearranged m m' cnt).
Proof.
  destruct Harray as (_ & _ & Hcnt & _).
  assert (Hhalf : 0 <= cnt / 2 <= cnt /\ cnt < 2 * (cnt / 2 + 1)) by (Z.to_euclidean_division_equations; lia).
  apply (returns_loop (fun '(m1, i) => 0 <= i <= cnt / 2 /\ (forall k, i < k -> heap_at cmp_le (el m1) cnt k) /\
    rearranged m m1 cnt) (fun '(_, i) => Z.to_nat i)).
  - intros [m1 i] (Hi & Hh & Hre). destruct (Z.ltb_spec 0 i).
    + apply returns_bind. eapply returns_mono; [apply (heapify_spec m1 i i cnt); [lia|lia|]|].
      { split; [intros k Hk Hne; apply Hh; lia|]. intros; lia. }
      intros m2 [Hh2 Hre2]. simpl. split; [|lia]. split; [lia|]. split; [intros k Hk; apply Hh2; lia|].
      by eapply rearranged_trans.
    + simpl. split; [|done]. intros k Hk. apply Hh. lia.
  - split; [lia|]. split; [|apply rearranged_refl]. intros k Hk. split; lia.
  - lia.
Qed.

(** The elements after the first [i] are sorted and not below any of the first [i]. *)
Definition sorted_after (m : mem) (i : Z) : Prop :=
  forall j k, 1 <= j < k -> i < k <= cnt -> cmp_le (el m j) (el m k).

(** One round of the second phase. *)
Lemma sort_round m m1 m2 i : 1 < i <= cnt -> (forall k, 1 <= k -> heap_at cmp_le (el m) i k) -> sorted_after m i ->
  (forall k, 1 <= k <= cnt -> el m1 k = el m (swapi 1 i k)) -> rearranged m1 m2 (i - 1) -> sorted_after m2 (i - 1).
Proof.
  intros Hi Hh Hs Hel (Hp & Hk & _) j k Hjk Hk2. rewrite (Hk k) by lia.
  assert (Hj : exists j', 1 <= j' <= cnt /\ (j' < k) /\ el m2 j = el m1 j' /\ (j <= i - 1 -> j' <= i - 1) /\ (i - 1 < j -> j' = j)).
  { destruct (decide (j <= i - 1)).
    - assert (Hin : el m2 j ∈ map (el m2) (seqZ 1 (i - 1))) by (apply list_elem_of_fmap_2, elem_of_seqZ; lia).
      rewrite Hp in Hin. apply list_elem_of_fmap in Hin as (j' & E & Hj'%elem_of_seqZ). exists j'. split_and!; try done; lia.
    - exists j. rewrite Hk by lia. split_and!; done || lia. }
  destruct Hj as (j' & Hj1 & Hjk' & -> & Hlo & Hhi).
  rewrite (Hel j'), (Hel k) by lia. destruct (decide (k = i)) as [->|Hki].
  - rewrite swapi_r. apply (heap_root cmp_le cmp_total Htrans (el m) i Hh). unfold swapi. zbool.
  - rewrite (swapi_other 1 i k) by lia. apply Hs; [|lia]. unfold swapi. zbool.
Qed.

Lemma sort_spec m : returns (sort compare m array cnt size) (fun m' =>
  map (el m') (seqZ 1 cnt) ≡ₚ map (el m) (seqZ 1 cnt) /\
  (forall j k, 1 <= j < k -> k <= cnt -> cmp_le (el m' j) (el m' k)) /\ outside m m').
Proof.
  pose proof Harray as (Har & Hsz & Hcnt & _). unfold sort.
  rewrite !assert_bind by (unfold NULL; zbool). apply returns_bind.
  eapply returns_mono; [apply build_heap|]. intros m0 [Hh0 Hre0].
  apply (returns_loop (fun '(m1, i) => 0 <= i <= cnt /\ (forall k, 1 <= k -> heap_at cmp_le (el m1) i k) /\
    sorted_after m1 i /\ rearranged m m1 cnt) (fun '(_, i) => Z.to_nat i)).
  - intros [m1 i] (Hi & Hh & Hs & Hre). destruct (Z.ltb_spec 1 i).
    + apply returns_bind. eapply returns_mono; [apply (do_swap_spec m1 1 i); lia|]. intros m2 [Hel Ho].
      apply returns_bind. eapply returns_mono; [apply (heapify_spec m2 1 1 (i - 1)); [lia|lia|]|].
      { split; [|intros; lia]. intros k Hk Hne. destruct (Hh k Hk) as [H1 H2].
        split; intros Hle; rewrite !Hel, !swapi_other by lia; [apply H1|apply H2]; lia. }
      intros m3 [Hh3 Hre3]. simpl. split; [|lia]. split; [lia|]. split; [done|].
      split; [apply (sort_round m1 m2 m3 i); done || lia|].
      eapply rearranged_trans; [exact Hre|]. eapply rearranged_trans; [apply (swap_rearranged m1 m2 1 i cnt); done || lia|].
      apply (rearranged_more m2 m3 (i - 1)); [lia|done].
    + simpl. destruct Hre as (Hp & _ & Ho). split; [done|]. split; [|done].
      intros j k Hjk Hk. apply Hs; lia.
  - split; [lia|]. split; [done|]. split; [intros j k ? ?; lia|done].
  - lia.
Qed.

(** Binary search in a sorted array; the key is outside of the search's concern. *)
Lemma binary_search_spec m key : array + cnt * size < 2 ^ 32 ->
  (forall j k, 1 <= j < k -> k <= cnt -> cmp_le (el m j) (el m k)) ->
  returns (binary_search compare m key array cnt size) (fun q =>
    (exists k, 1 <= k <= cnt /\ q = array + (k - 1) * size /\ cmp (block m key size) (el m k) = 0) \/
    (q = NULL /\ forall k, 1 <= k <= cnt -> cmp (block m key size) (el m k) <> 0)).
Proof.
  intros Hend Hsorted. pose proof Harray as (Har & Hsz & Hcnt & _). unfold binary_search.
  set (K := block m key size).
  assert (Hmul : forall k, 0 <= k <= cnt -> 0 <= k * size <= cnt * size) by (intros; nia).
  pose proof (Hmul cnt ltac:(lia)). rewrite (u32_small (size * cnt)), (u32_small (array + _)) by lia.
  apply (returns_while_ix (fun n '(first, last) => exists f l, 0 <= f <= l /\ l <= cnt /\ n = l - f /\
    first = array + f * size /\ last = array + l * size /\
    (forall k, 1 <= k <= f -> 0 < cmp K (el m k)) /\ (forall k, l < k <= cnt -> cmp K (el m k) < 0)))
    with cnt.
  - intros n [first last] (f & l & Hfl & Hl & -> & -> & -> & Hlo & Hhi). split; [lia|].
    pose proof (Hmul f ltac:(lia)). pose proof (Hmul l ltac:(lia)).
    destruct (Z.ltb_spec (array + f * size) (array + l * size)).
    + replace (array + l * size - (array + f * size)) with ((l - f) * size) by lia.
      assert (f < l) by nia. pose proof (Hmul (l - f) ltac:(lia)). rewrite (u32_small ((l - f) * size)), Z.div_mul by lia.
      set (h := (l - f) / 2). assert (Hh : 0 <= h < l - f) by (unfold h; Z.to_euclidean_division_equations; lia).
      pose proof (Hmul h ltac:(lia)). pose proof (Hmul (f + h) ltac:(lia)). pose proof (Hmul (f + h + 1) ltac:(lia)).
      rewrite (u32_small (h * size)), (u32_small (array + f * size + h * size)),
        (u32_small (array + f * size + h * size + size)) by lia.
      replace (array + f * size + h * size) with (array + (f + h + 1 - 1) * size) by lia. rewrite Hcompare.
      fold K (el m (f + h + 1)). pose proof (Hsign K (el m (f + h + 1))). pose proof (Hsign (el m (f + h + 1)) K).
      destruct (Z.ltb_spec (cmp K (el m (f + h + 1))) 0); simpl; [|destruct (Z.ltb_spec 0 (cmp K (el m (f + h + 1)))); simpl].
      * exists h. split; [lia|]. exists f, (f + h). split_and!; try lia; [done|]. intros k Hk.
        destruct (decide (k = f + h + 1)) as [->|]; [done|].
        pose proof (Hsign (el m k) K). pose proof (Htrans (el m (f + h + 1)) (el m k) K (Hsorted (f + h + 1) k ltac:(lia) ltac:(lia))). lia.
      * exists (l - (f + h + 1)). split; [lia|]. exists (f + h + 1), l. split_and!; try lia; [|done]. intros k Hk.
        destruct (decide (k = f + h + 1)) as [->|]; [done|].
        pose proof (fun H => Htrans K (el m k) (el m (f + h + 1)) H (Hsorted k (f + h + 1) ltac:(lia) ltac:(lia))). lia.
      * left. exists (f + h + 1). split_and!; lia.
    + simpl. right. split; [done|]. intros k Hk. assert (l = f) as -> by nia.
      destruct (decide (k <= f)); [pose proof (Hlo k ltac:(lia))|pose proof (Hhi k ltac:(lia))]; lia.
  - exists 0, cnt. split_and!; try lia; intros; lia.
  - lia.
Qed.
End Array.

(** C4: [qsort] sorts: for any comparison function that orders the elements by their
    bytes, it terminates, leaves a permutation of the elements in ascending order, and
    writes to no other memory. *)
Theorem qsort_sorts compare cmp array cnt size m :
  (forall m a b, compare m a b = cmp (block m a size) (block m b size)) ->
  (forall x y, 0 < cmp x y <-> cmp y x < 0) ->
  (forall x y z, cmp x y <= 0 -> cmp y z <= 0 -> cmp x z <= 0) ->
  0 < array /\ 0 < size /\ 0 <= cnt < 2 ^ 31 /\ array + cnt * size <= 2 ^ 32 ->
  returns (qsort compare m array cnt size) (fun m' =>
    map (el array size m') (seqZ 1 cnt) ≡ₚ map (el array size m) (seqZ 1 cnt) /\
    (forall j k, 1 <= j < k -> k <= cnt -> cmp_le cmp (el array size m' j) (el array size m' k)) /\
    outside array cnt size m m').
Proof. intros Hc Hs Ht Ha. by apply (sort_spec (compare_thunk compare) cmp). Qed.

(** [bsearch] is correct on sorted arrays: it terminates and returns the address of an
    element equal to the key if there is one, and a null pointer if there is none. *)
Theorem bsearch_finds compare cmp array cnt size m key :
  (forall m a b, compare m a b = cmp (block m a size) (block m b size)) ->
  (forall x y, 0 < cmp x y <-> cmp y x < 0) ->
  (forall x y z, cmp x y <= 0 -> cmp y z <= 0 -> cmp x z <= 0) ->
  0 < array /\ 0 < size /\ 0 <= cnt < 2 ^ 31 /\ array + cnt * size <= 2 ^ 32 ->
  array + cnt * size < 2 ^ 32 ->
  (forall j k, 1 <= j < k -> k <= cnt -> cmp_le cmp (el array size m j) (el array size m k)) ->
  returns (bsearch compare m key array cnt size) (fun q =>
    (exists k, 1 <= k <= cnt /\ q = array + (k - 1) * size /\ cmp (block m key size) (el array size m k) = 0) \/
    (q = NULL /\ forall k, 1 <= k <= cnt -> cmp (block m key size) (el array size m k) <> 0)).
Proof. intros Hc Hs Ht Ha He Hm. by apply (binary_search_spec (compare_thunk compare) cmp). Qed.

(** Bytes compared as numbers: the comparison of the examples. *)
Definition byte_cmp (x y : list Z) : Z := hd 0 x - hd 0 y.
Definition byte_compare (m : mem) (a b : Z) : Z := m a - m b.

Lemma byte_compare_ok m a b : byte_compare m a b = byte_cmp (block m a 1) (block m b 1).
Proof. unfold byte_compare, byte_cmp, block. simpl. by rewrite !Z.add_0_r. Qed.

Lemma qsort_sorts_witness : returns (qsort byte_compare sample_mem 0x1000 6 1) (fun m' =>
  forall j k, 1 <= j < k -> k <= 6 -> m' (0x1000 + (j - 1) * 1 + 0) <= m' (0x1000 + (k - 1) * 1 + 0)).
Proof.
  eapply returns_mono; [apply (qsort_sorts byte_compare byte_cmp 0x1000 6 1 sample_mem byte_compare_ok)|].
  - unfold byte_cmp. lia.
  - unfold byte_cmp. lia.
  - lia.
  - intros m' (_ & H & _) j k Hjk Hk. specialize (H j k Hjk Hk). unfold cmp_le, byte_cmp, el, block in H. simpl in H.
    apply Z.le_sub_0. exact H.
Defined.

Lemma bsearch_finds_witness : returns (bsearch byte_compare (with_string (fun _ => 0) 0x1000 [3; 5; 8]) 0x2000 0x1000 3 1)
  (fun q => q = NULL).
Proof.
  eapply returns_mono; [apply (bsearch_finds byte_compare byte_cmp 0x1000 3 1
    (with_string (fun _ => 0) 0x1000 [3; 5; 8]) 0x2000 byte_compare_ok)|].
  - unfold byte_cmp. lia.
  - unfold byte_cmp. lia.
  - lia.
  - lia.
  - intros j k Hjk Hk.
    assert ((j = 1 /\ k = 2) \/ (j = 1 /\ k = 3) \/ (j = 2 /\ k = 3)) as [[-> ->]|[[-> ->]|[-> ->]]] by lia;
      vm_compute; discriminate.
  - intros q [(k & Hk & _ & E)|[-> _]]; [exfalso|reflexivity].
    assert (k = 1 \/ k = 2 \/ k = 3) as [-> |[-> | ->]] by lia; revert E; vm_compute; discriminate.
Defined.

(** ** Decimal numbers *)

(** The value of a sequence of decimal digits. *)
Definition dec (ds : list Z) : Z := fold_left (fun v d => v * 10 + (d - 48)) ds 0.

Lemma dec_snoc ds d : dec (ds ++ [d]) = dec ds * 10 + (d - 48).
Proof. unfold dec. by rewrite fold_left_app. Qed.

Lemma dec_prefix a b : Forall (fun c => isdigit c = true) (a ++ b) -> 0 <= dec a <= dec (a ++ b).
Proof.
  assert (Hn : forall a, Forall (fun c => isdigit c = true) a -> 0 <= dec a).
  { intros l. induction l as [|d l IH] using rev_ind; [done|]. intros [Hl Hd]%Forall_app. rewrite dec_snoc.
    apply list.Forall_cons in Hd as [Hd%isdigit_range _]. specialize (IH Hl). lia. }
  intros Hf. split; [apply Hn; by apply Forall_app in Hf as [? _]|].
  induction b as [|d b IH] using rev_ind; [by rewrite app_nil_r|]. rewrite app_assoc in Hf |- *.
  apply Forall_app in Hf as [Hf Hd]. apply list.Forall_cons in Hd as [Hd%isdigit_range _].
  rewrite dec_snoc. pose proof (Hn _ Hf). specialize (IH Hf). lia.
Qed.

Lemma skip_spaces m p s : cstring m p s ->
  while (fun s => if isspace (m s) then Ok (inl (u32 (s + 1))) else Ok (inr s)) p = Ok (past p (span isspace s).1).
Proof.
  intros Hs. apply returns_eq. apply (walk s (past p) (fun pre => Forall (fun c => isspace c = true) pre)).
  - by eapply cstring_length.
  - by rewrite past_nil.
  - constructor.
  - intros pre c r E HI. destruct (cstring_char m p s Hs pre c r E) as [-> _].
    destruct (isspace c) eqn:Ec; simpl; [|by rewrite E, span_app].
    split; [by eapply cstring_next|]. apply Forall_app. auto.
  - intros HI. rewrite (cstring_null m p s) by done. simpl. by rewrite span_all.
Qed.

Lemma span_extends f s pre c r : s = pre ++ c :: r -> Forall (fun x => f x = true) pre -> f c = true ->
  exists x, (span f s).1 = (pre ++ [c]) ++ x.
Proof.
  intros -> Hpre Hc. replace (pre ++ c :: r) with ((pre ++ [c]) ++ r) by by rewrite <- app_assoc.
  rewrite span_prefix by (apply Forall_app; auto). destruct (span f r) as [x y]. by exists x.
Qed.

(** The digits at the start of [s], accumulated as a negative number. *)
Lemma parse_digits m p s : cstring m p s -> dec (span isdigit s).1 <= 2 ^ 31 ->
  while (fun '(value, s) =>
    if isdigit (m s) then Ok (inl (i32 (i32 (value * 10) - (m s - 48)), u32 (s + 1)))
    else Ok (inr value)) (0, p) = Ok (- dec (span isdigit s).1).
Proof.
  intros Hs Hmax. pose proof (span_spec isdigit s) as Hsp. destruct (span isdigit s) as [ds t] eqn:Es.
  destruct Hsp as (E0 & Hds & _). simpl in *. apply returns_eq.
  apply (walk s (fun pre => (- dec pre, past p pre)) (fun pre => Forall (fun c => isdigit c = true) pre)).
  - by eapply cstring_length.
  - by rewrite past_nil.
  - constructor.
  - intros pre c r E HI. destruct (cstring_char m p s Hs pre c r E) as [-> _]. destruct (isdigit c) eqn:Ec; simpl.
    + assert (Hpre : 0 <= dec pre /\ dec (pre ++ [c]) <= dec ds).
      { assert (Hpc : Forall (fun c => isdigit c = true) (pre ++ [c])) by (apply Forall_app; auto).
        split; [pose proof (dec_prefix pre [c] Hpc); lia|].
        destruct (span_extends isdigit s pre c r) as [x Hx]; [done..|]. rewrite Es in Hx. simpl in Hx. subst ds.
        by apply dec_prefix. }
      apply isdigit_range in Ec as Hc. rewrite dec_snoc in Hpre. split.
      * rewrite dec_snoc, (i32_small (_ * 10)), i32_small by lia. f_equal; [lia|]. by eapply cstring_next.
      * apply Forall_app. auto.
    + by rewrite E, span_app in Es by done; simplify_eq.
  - intros HI. rewrite (cstring_null m p s) by done. simpl. rewrite span_all in Es by done. by injection Es as <- _.
Qed.

(** A decimal number in a string: white space, an optional sign, digits, and then
    anything that is not a digit. *)
Lemma atoi_spec m p ws sg ds r : cstring m p (ws ++ sg ++ ds ++ r) ->
  Forall (fun c => isspace c = true) ws -> sg = [] \/ sg = [43] \/ sg = [45] ->
  Forall (fun c => isdigit c = true) ds -> ds <> [] -> isdigit (hd 0 r) = false ->
  dec ds <= 2 ^ 31 -> (sg = [45] \/ dec ds < 2 ^ 31) ->
  atoi m p = Ok (if decide (sg = [45]) then - dec ds else dec ds).
Proof.
  intros Hs Hws Hsg Hds Hne Hr Hmax Hmax2. destruct ds as [|d ds]; [done|].
  assert (Hspan : (span isdigit ((d :: ds) ++ r)).1 = d :: ds).
  { destruct r as [|x r]; [by rewrite app_nil_r, span_all|]. by rewrite span_app. }
  apply list.Forall_cons in Hds as [Hd Hds']. pose proof (isdigit_range d) as [Hrange _]. specialize (Hrange Hd).
  assert (Hsp : (span isspace (ws ++ sg ++ (d :: ds) ++ r)).1 = ws).
  { destruct Hsg as [-> | [-> | ->]]; simpl app; rewrite span_app; try done. by apply isdigit_not_space. }
  unfold atoi. rewrite assert_bind by by rewrite (cstring_nonnull m p _ Hs).
  rewrite (skip_spaces m p _ Hs), Hsp. cbn [mbind res_bind].
  pose proof (cstring_suffix m p _ Hs ws _ eq_refl) as Hs1. rewrite (cstring_head m _ _ Hs1).
  destruct Hsg as [-> | [-> | ->]]; simpl hd.
  - replace (d =? 43) with false by zbool. replace (d =? 45) with false by zbool.
    rewrite (parse_digits m _ ((d :: ds) ++ r)) by (done || by rewrite Hspan). rewrite Hspan. cbn [mbind res_bind].
    destruct Hmax2 as [?|?]; [done|]. pose proof (dec_prefix (d :: ds) [] ltac:(rewrite app_nil_r; by constructor)) as Hn.
    simpl. rewrite i32_small; [f_equal; lia|]. lia.
  - cbn [Z.eqb Pos.eqb]. rewrite (cstring_next m p _ Hs ws 43 ((d :: ds) ++ r)) by done.
    rewrite (parse_digits m _ ((d :: ds) ++ r)); [|apply (cstring_suffix m p _ Hs); by rewrite <- app_assoc|by rewrite Hspan].
    rewrite Hspan. cbn [mbind res_bind]. destruct Hmax2 as [?|?]; [done|].
    pose proof (dec_prefix (d :: ds) [] ltac:(rewrite app_nil_r; by constructor)) as Hn.
    simpl. rewrite i32_small; [f_equal; lia|]. lia.
  - cbn [Z.eqb Pos.eqb]. rewrite (cstring_next m p _ Hs ws 45 ((d :: ds) ++ r)) by done.
    rewrite (parse_digits m _ ((d :: ds) ++ r)); [|apply (cstring_suffix m p _ Hs); by rewrite <- app_assoc|by rewrite Hspan].
    by rewrite Hspan.
Qed.
