(* ===== verification/Stdio.v ===== *)
(** * Formatted output (lib/stdio.c)

    [__vprintf] and what it is built from, over an arbitrary output function, and its
    clients [vsnprintf], [hex_dump] and [print_human_readable_size].  The variable
    arguments are the 32-bit words of the caller's stack frame: an [int], a [long], a
    [size_t], a [ptrdiff_t] and a pointer take one, a 64-bit type two. *)

From stdpp Require Import base list numbers sets.
From Stdlib Require Import ZArith Lia.
From S2P Require Import Prelude CString StringLib Ctype CStdlib Arith64 Vaddr.
Import Round.

Local Open Scope Z_scope.

(** ** Data *)

Definition MINUS : Z := Z.shiftl 1 0.
Definition PLUS : Z := Z.shiftl 1 1.
Definition SPACE : Z := Z.shiftl 1 2.
Definition POUND : Z := Z.shiftl 1 3.
Definition ZERO : Z := Z.shiftl 1 4.
Definition GROUP : Z := Z.shiftl 1 5.

Inductive conv_type := CHAR | SHORT | INT | INTMAX | LONG | LONGLONG | PTRDIFFT | SIZET.

Record printf_conversion := mk_conversion {
  flags : Z;
  width : Z;
  precision : Z;
  type : conv_type
}.

Record integer_base := mk_base {
  base : Z;
  digits : list Z;
  x : Z;
  group : Z
}.

(** The ASCII codes from [a] on. *)
Definition codes (a n : Z) : list Z := seqZ a n.

Definition base_d : integer_base := mk_base 10 (codes 48 10) 0 3.
Definition base_o : integer_base := mk_base 8 (codes 48 8) 0 3.
Definition base_x : integer_base := mk_base 16 (codes 48 10 ++ codes 97 6) 120 4.
Definition base_X : integer_base := mk_base 16 (codes 48 10 ++ codes 65 6) 88 4.

Definition flag (c : printf_conversion) (f : Z) : bool := negb (Z.land (flags c) f =? 0).

(** ** Variable arguments *)

Definition va_arg32 (args : list Z) : res (Z * list Z) :=
  match args with w :: r => Ok (u32 w, r) | [] => Err BadAccess end.

Definition va_arg64 (args : list Z) : res (Z * list Z) :=
  match args with lo :: hi :: r => Ok (u32 lo + 2 ^ 32 * u32 hi, r) | _ => Err BadAccess end.

(** ** Parsing a conversion *)

(** The flags loop: its state is the format pointer and the flags. *)
Definition flags_step (m : mem) (s : Z * Z) : res (Z * Z + Z * Z) :=
  let '(format, flags) := s in
  let next f := Ok (inl (u32 (format + 1), Z.lor flags f)) in
  let ch := m format in
  if ch =? 45 then next MINUS
  else if ch =? 43 then next PLUS
  else if ch =? 32 then next SPACE
  else if ch =? 35 then next POUND
  else if ch =? 48 then next ZERO
  else if ch =? 39 then next GROUP
  else Ok (inr (format, flags)).

(** A decimal number in the format. *)
Definition number_step (m : mem) (s : Z * Z) : res (Z * Z + Z * Z) :=
  let '(format, n) := s in
  if isdigit (m format) then Ok (inl (u32 (format + 1), i32 (i32 (i32 (n * 10) + m format) - 48)))
  else Ok (inr (format, n)).

Definition parse_type (m : mem) (format : Z) : Z * conv_type :=
  let next := u32 (format + 1) in
  let ch := m format in
  if ch =? 104 then if m next =? 104 then (u32 (next + 1), CHAR) else (next, SHORT)
  else if ch =? 106 then (next, INTMAX)
  else if ch =? 108 then if m next =? 108 then (u32 (next + 1), LONGLONG) else (next, LONG)
  else if ch =? 116 then (next, PTRDIFFT)
  else if ch =? 122 then (next, SIZET)
  else (format, INT).

Definition clear (flags f : Z) : Z := Z.ldiff flags f.

Definition parse_conversion (m : mem) (format : Z) (args : list Z) :
    res (Z * printf_conversion * list Z) :=
  '(format, flags) ← while (flags_step m) (format, 0);
  let flags := if negb (Z.land flags MINUS =? 0) then clear flags ZERO else flags in
  let flags := if negb (Z.land flags PLUS =? 0) then clear flags SPACE else flags in
  '(format, width, args) ←
    (if m format =? 42 then
       '(w, args) ← va_arg32 args; Ok (u32 (format + 1), i32 w, args)
     else
       '(format, w) ← while (number_step m) (format, 0); Ok (format, w, args));
  let '(width, flags) := if width <? 0 then (i32 (- width), Z.lor flags MINUS) else (width, flags) in
  '(format, precision, args) ←
    (if m format =? 46 then
       let format := u32 (format + 1) in
       '(format, p, args) ←
         (if m format =? 42 then
            '(w, args) ← va_arg32 args; Ok (u32 (format + 1), i32 w, args)
          else
            '(format, p) ← while (number_step m) (format, 0); Ok (format, p, args));
       Ok (format, if p <? 0 then -1 else p, args)
     else Ok (format, -1, args));
  let flags := if 0 <=? precision then clear flags ZERO else flags in
  let '(format, type) := parse_type m format in
  Ok (format, mk_conversion flags width precision type, args).

(** ** Conversions *)

(** A string literal of the code, at an address of its own. *)
Definition literal_at : Z := 0x1000.
Definition literal (s : list Z) : mem := with_string (fun _ => 0) literal_at s.

(** The argument of a signed conversion. *)
Definition signed_arg (t : conv_type) (args : list Z) : res (Z * list Z) :=
  match t with
  | CHAR => '(w, args) ← va_arg32 args; Ok (let v := u8 w in if v <? 2 ^ 7 then v else v - 2 ^ 8, args)
  | SHORT => '(w, args) ← va_arg32 args; Ok (let v := u16 w in if v <? 2 ^ 15 then v else v - 2 ^ 16, args)
  | INT | LONG | PTRDIFFT => '(w, args) ← va_arg32 args; Ok (i32 w, args)
  | INTMAX | LONGLONG => '(w, args) ← va_arg64 args; Ok (i64 w, args)
  | SIZET => '(w, args) ← va_arg32 args;
      Ok (if SIZE_MAX / 2 <? w then w - SIZE_MAX - 1 else w, args)
  end.

(** The argument of an unsigned conversion. *)
Definition unsigned_arg (t : conv_type) (args : list Z) : res (Z * list Z) :=
  match t with
  | CHAR => '(w, args) ← va_arg32 args; Ok (u8 w, args)
  | SHORT => '(w, args) ← va_arg32 args; Ok (u16 w, args)
  | INT | LONG | SIZET => '(w, args) ← va_arg32 args; Ok (w, args)
  | INTMAX | LONGLONG => va_arg64 args
  | PTRDIFFT => '(w, args) ← va_arg32 args; Ok (Z.land (u64 (i32 w)) (Z.lor (Z.shiftl (2 ^ 31 - 1) 1) 1), args)
  end.

(** The digits of a value into the buffer, least significant first.  The state is the
    buffer, the position, the value and the number of digits.  Division and remainder of
    64-bit values are the library's own routines. *)
Definition digits_step (c : printf_conversion) (b : integer_base) (s : list Z * Z * Z * Z) :
    res (list Z * Z * Z * Z + list Z * Z) :=
  let '(buf, cp, value, digit_cnt) := s in
  if 0 <? value then
    '(buf, cp) ←
      (if flag c GROUP && (0 <? digit_cnt) && (Z.rem digit_cnt (group b) =? 0) then
         buf ← wr buf cp 44; Ok (buf, cp + 1)
       else Ok (buf, cp));
    d ← __umoddi3 value (base b);
    ch ← rd (digits b) d;
    buf ← wr buf cp ch;
    value ← __udivdi3 value (base b);
    Ok (inl (buf, cp + 1, value, digit_cnt + 1))
  else Ok (inr (buf, cp)).

Definition zeros_step (precision : Z) (s : list Z * Z) : res (list Z * Z + list Z * Z) :=
  let '(buf, cp) := s in
  if (cp <? precision) && (cp <? 63) then buf ← wr buf cp 48; Ok (inl (buf, cp + 1))
  else Ok (inr (buf, cp)).

(** The buffer of [format_integer], filled. *)
Definition fill_buffer (value : Z) (b : integer_base) (c : printf_conversion) : res (list Z * Z) :=
  '(buf, cp) ← loop 65 (digits_step c b) (replicate 64 0, 0, value, 0);
  let precision := if precision c <? 0 then 1 else precision c in
  '(buf, cp) ← loop 65 (zeros_step precision) (buf, cp);
  if flag c POUND && (base b =? 8) then
    more ← (if cp =? 0 then Ok true else ch ← rd buf (cp - 1); Ok (negb (ch =? 48)));
    if (more : bool) then buf ← wr buf cp 48; Ok (buf, cp + 1) else Ok (buf, cp)
  else Ok (buf, cp).

Section Output.
Context {S : Type} (output : Z -> S -> S).

Definition output_dup (ch cnt : Z) (s : S) : res S :=
  while (fun '(cnt, s) => if 0 <? cnt then Ok (inl (cnt - 1, output ch s)) else Ok (inr s)) (cnt, s).

(** The buffer, last character first. *)
Definition output_buffer (buf : list Z) (cp : Z) (s : S) : res S :=
  loop 65 (fun '(cp, s) =>
    if 0 <? cp then ch ← rd buf (cp - 1); Ok (inl (cp - 1, output ch s)) else Ok (inr s)) (cp, s).

Definition format_integer (value : Z) (is_signed negative : bool) (b : integer_base) (c : printf_conversion) (s : S) : res S :=
  let sign :=
    if is_signed then
      if flag c PLUS then if negative then 45 else 43
      else if flag c SPACE then if negative then 45 else 32
      else if negative then 45 else 0
    else 0 in
  let x := if flag c POUND && negb (value =? 0) then x b else 0 in
  '(buf, cp) ← fill_buffer value b c;
  let pad_cnt := i32 (width c - cp - (if negb (x =? 0) then 2 else 0) - (if negb (sign =? 0) then 1 else 0)) in
  let pad_cnt := if pad_cnt <? 0 then 0 else pad_cnt in
  s ← (if Z.land (flags c) (Z.lor MINUS ZERO) =? 0 then output_dup 32 pad_cnt s else Ok s);
  let s := if negb (sign =? 0) then output sign s else s in
  let s := if negb (x =? 0) then output x (output 48 s) else s in
  s ← (if flag c ZERO then output_dup 48 pad_cnt s else Ok s);
  s ← output_buffer buf cp s;
  if flag c MINUS then output_dup 32 pad_cnt s else Ok s.

Definition chars_step (m : mem) (string length : Z) (st : Z * S) : res (Z * S + S) :=
  let '(i, s) := st in
  if i <? length then Ok (inl (i + 1, output (m (u32 (string + i))) s)) else Ok (inr s).

Definition format_string (m : mem) (string length : Z) (c : printf_conversion) (s : S) : res S :=
  s ← (if (length <? width c) && negb (flag c MINUS) then output_dup 32 (width c - length) s else Ok s);
  s ← while (chars_step m string length) (0, s);
  if (length <? width c) && flag c MINUS then output_dup 32 (width c - length) s else Ok s.

(** *** [__vprintf]

    One round of its loop.  [sub] is its own call through [__printf] with a literal
    format, for conversions that the kernel does not have. *)
Definition no_in_kernel : list Z := [60; 60; 110; 111; 32; 37; 37; 37; 99; 32; 105; 110; 32; 107; 101; 114; 110; 101; 108; 62; 62].
Definition no_conversion : list Z := [60; 60; 110; 111; 32; 37; 37; 37; 99; 32; 99; 111; 110; 118; 101; 114; 115; 105; 111; 110; 62; 62].
Definition null_text : list Z := [40; 110; 117; 108; 108; 41].

Definition unsigned_base (ch : Z) : integer_base :=
  if ch =? 111 then base_o else if ch =? 117 then base_d else if ch =? 120 then base_x else base_X.

Definition convert (sub : list Z -> list Z -> S -> res S) (m : mem) (ch : Z) (c : printf_conversion)
    (args : list Z) (s : S) : res (list Z * S) :=
  if (ch =? 100) || (ch =? 105) then
    '(value, args) ← signed_arg (type c) args;
    s ← format_integer (if value <? 0 then u64 (- value) else value) true (value <? 0) base_d c s;
    Ok (args, s)
  else if (ch =? 111) || (ch =? 117) || (ch =? 120) || (ch =? 88) then
    '(value, args) ← unsigned_arg (type c) args;
    s ← format_integer value false false (unsigned_base ch) c s;
    Ok (args, s)
  else if ch =? 99 then
    '(w, args) ← va_arg32 args;
    s ← format_string (fun _ => u8 w) literal_at 1 c s;
    Ok (args, s)
  else if ch =? 115 then
    '(p, args) ← va_arg32 args;
    let '(m, p) := if p =? NULL then (literal null_text, literal_at) else (m, p) in
    n ← strnlen m p (u32 (precision c));
    s ← format_string m p (i32 n) c s;
    Ok (args, s)
  else if ch =? 112 then
    '(p, args) ← va_arg32 args;
    let c := mk_conversion POUND (width c) (precision c) (type c) in
    s ← format_integer p false false base_x c s;
    Ok (args, s)
  else if (ch =? 102) || (ch =? 101) || (ch =? 69) || (ch =? 103) || (ch =? 71) || (ch =? 110) then
    s ← sub no_in_kernel [ch] s; Ok (args, s)
  else
    s ← sub no_conversion [ch] s; Ok (args, s).

Definition vprintf_step (sub : list Z -> list Z -> S -> res S) (m : mem) (st : Z * list Z * S) :
    res (Z * list Z * S + S) :=
  let '(format, args, s) := st in
  if m format =? 0 then Ok (inr s)
  else if negb (m format =? 37) then Ok (inl (u32 (format + 1), args, output (m format) s))
  else
    let format := u32 (format + 1) in
    if m format =? 37 then Ok (inl (u32 (format + 1), args, output 37 s))
    else
      '(format, c, args) ← parse_conversion m format args;
      '(args, s) ← convert sub m (m format) c args s;
      Ok (inl (u32 (format + 1), args, s)).

Definition vprintf_with (sub : list Z -> list Z -> S -> res S) (m : mem) (format : Z) (args : list Z) (s : S) : res S :=
  while (vprintf_step sub m) (format, args, s).

(** The literal formats have no conversions but %c, so the inner call makes no further
    one. *)
Definition __printf (format args : list Z) (s : S) : res S :=
  vprintf_with (fun _ _ _ => Err NoFuel) (literal format) literal_at args s.

Definition __vprintf (m : mem) (format : Z) (args : list Z) (s : S) : res S :=
  vprintf_with __printf m format args s.

(** *** Dumps *)

(** [printf] with a literal format. *)
Definition printf (format args : list Z) (s : S) : res S := __vprintf (literal format) literal_at args s.

(** A loop [for (; i < limit; i++) body]. *)
Definition for_up (limit : Z) (body : Z -> S -> res S) (i : Z) (s : S) : res (Z * S) :=
  loop 17 (fun '(i, s) => if i <? limit then s ← body i s; Ok (inl (i + 1, s)) else Ok (inr (i, s))) (i, s).

Definition fmt_offset : list Z := [37; 48; 56; 106; 120; 32; 32].              (* "%08jx  " *)
Definition fmt_byte : list Z := [37; 48; 50; 104; 104; 120; 37; 99].           (* "%02hhx%c" *)
Definition three_spaces : list Z := [32; 32; 32].

Definition hex_dump_step (m : mem) (ascii : bool) (st : Z * Z * Z * S) : res (Z * Z * Z * S + S) :=
  let '(ofs, buf, size, s) := st in
  let per_line := 16 in
  if 0 <? size then
    let start := ofs mod per_line in
    let end_ := if size <? per_line - start then start + size else per_line in
    let n := end_ - start in
    let byte i := m (u32 (buf + (i - start))) in
    s ← printf fmt_offset [ROUND_DOWN ofs per_line; 0] s;
    '(i, s) ← for_up start (fun _ s => printf three_spaces [] s) 0 s;
    '(i, s) ← for_up end_ (fun i s =>
      printf fmt_byte [byte i; if i =? per_line / 2 - 1 then 45 else 32] s) i s;
    s ← (if ascii then
      '(i, s) ← for_up per_line (fun _ s => printf three_spaces [] s) i s;
      s ← printf [124] [] s;
      '(i, s) ← for_up start (fun _ s => printf [32] [] s) 0 s;
      '(i, s) ← for_up end_ (fun i s => printf [37; 99] [if isprint (byte i) then byte i else 46] s) i s;
      '(i, s) ← for_up per_line (fun _ s => printf [32] [] s) i s;
      printf [124] [] s
    else Ok s);
    s ← printf [10] [] s;
    Ok (inl (u32 (ofs + n), u32 (buf + n), size - n, s))
  else Ok (inr s).

Definition hex_dump (m : mem) (ofs buf size : Z) (ascii : bool) (s : S) : res S :=
  while (hex_dump_step m ascii) (ofs, buf, size, s).

(** The units of [print_human_readable_size]. *)
Definition factors : list (list Z) :=
  [[98; 121; 116; 101; 115]; [107; 66]; [77; 66]; [71; 66]; [84; 66]].

Definition factor_step (st : Z * Z) : res (Z * Z + Z * Z) :=
  let '(size, fp) := st in
  if (1024 <=? size) && (fp + 1 <? 5) then size ← __udivdi3 size 1024; Ok (inl (size, fp + 1))
  else Ok (inr (size, fp)).

Definition print_human_readable_size (size : Z) (s : S) : res S :=
  if size =? 1 then printf [49; 32; 98; 121; 116; 101] [] s
  else
    '(size, fp) ← loop 6 factor_step (size, 0);
    unit ← rd factors fp;
    let unit_at := 0x2000 in
    let m := with_string (literal [37; 108; 108; 117; 32; 37; 115]) unit_at unit in   (* "%llu %s" *)
    __vprintf m literal_at [u32 size; size / 2 ^ 32; unit_at] s.
End Output.

(** ** [vsnprintf] *)

(** The state of [vsnprintf_helper]: memory, current output position, length. *)
Definition vsnprintf_helper (max_length ch : Z) (aux : mem * Z * Z) : mem * Z * Z :=
  let '(m, p, length) := aux in
  if length <? max_length then (store m p (u8 ch), u32 (p + 1), i32 (length + 1))
  else (m, p, i32 (length + 1)).

(** The format and the strings printed are read as they are at the call: C leaves a
    buffer that overlaps them undefined. *)
Definition vsnprintf (m : mem) (buffer buf_size format : Z) (args : list Z) : res (Z * mem) :=
  let max_length := i32 (if 0 <? buf_size then buf_size - 1 else 0) in
  '(m, p, length) ← __vprintf (vsnprintf_helper max_length) m format args (m, buffer, 0);
  Ok (length, if 0 <? buf_size then store m p 0 else m).

Definition snprintf (m : mem) (buffer buf_size format : Z) (args : list Z) : res (Z * mem) :=
  vsnprintf m buffer buf_size format args.
