(* ===== verification/StdioSpec.v ===== *)
(** * Properties of formatted output

    What the conversions of [Stdio] print, that the integer buffer cannot overflow, that
    [vsnprintf] stays inside its buffer, and that [atoi] reads back what %d prints. *)

From stdpp Require Import base list numbers sets.
From Stdlib Require Import ZArith Lia.
From S2P Require Import Prelude CString StringLib Ctype CStdlib Arith64 Stdio.

Local Open Scope Z_scope.

(** ** What an integer looks like *)

(** The digits of [v] in base [B], least significant first. *)
Fixpoint lsd (fuel : nat) (B v : Z) : list Z :=
  match fuel with
  | O => []
  | S n => if v =? 0 then [] else v mod B :: lsd n B (v / B)
  end.

Definition char_of (b : integer_base) (d : Z) : Z := nth (Z.to_nat d) (digits b) 0.

(** The characters of the digits, [k] digits having been written, with a comma before
    every group but the first when [g] is set. *)
Fixpoint digit_chars (b : integer_base) (g : bool) (k : Z) (ds : list Z) : list Z :=
  match ds with
  | [] => []
  | d :: r => (if g && (0 <? k) && (Z.rem k (group b) =? 0) then [44] else []) ++ char_of b d :: digit_chars b g (k + 1) r
  end.

(** No 64-bit value has more than 22 digits in base 8 or more. *)
Definition max_digits : nat := 22.

(** The filled buffer: the digits, zeros up to the precision, and the zero that the # flag
    asks of octal numbers. *)
Definition number_chars (value : Z) (b : integer_base) (c : printf_conversion) : list Z :=
  let w := digit_chars b (flag c GROUP) 0 (lsd max_digits (base b) value) in
  let p := if precision c <? 0 then 1 else precision c in
  let w := w ++ replicate (Z.to_nat (Z.min p 63 - Z.of_nat (length w))) 48 in
  if flag c POUND && (base b =? 8) && negb (List.last w 0 =? 48) then w ++ [48] else w.

Definition base_ok (b : integer_base) : Prop := b = base_d \/ b = base_o \/ b = base_x \/ b = base_X.

Lemma base_range b : base_ok b -> 8 <= base b <= 16 /\ Z.of_nat (length (digits b)) = base b.
Proof. by intros [-> | [-> | [-> | ->]]]. Qed.

Lemma lsd_length n B v : (length (lsd n B v) <= n)%nat.
Proof. revert v. induction n as [|n IH]; intros v; simpl; [lia|]. case_match; simpl; [lia|]. specialize (IH (v / B)). lia. Qed.

Lemma digit_chars_length b g k ds : (length (digit_chars b g k ds) <= 2 * length ds)%nat.
Proof.
  revert k. induction ds as [|d ds IH]; intros k; simpl; [lia|]. rewrite length_app. simpl. specialize (IH (k + 1)).
  destruct (g && _ && _); simpl; lia.
Qed.

(** ** The buffer *)

(** The first [cp] of the 64 characters are [w]. *)
Definition filled (buf : list Z) (cp : Z) (w : list Z) : Prop :=
  length buf = 64%nat /\ cp = Z.of_nat (length w) /\ (length w <= 64)%nat /\ take (length w) buf = w.

Lemma filled_push buf cp w ch : filled buf cp w -> (length w < 64)%nat ->
  returns (wr buf cp ch) (fun buf' => filled buf' (cp + 1) (w ++ [ch])).
Proof.
  intros (Hb & -> & _ & Ht) Hw. rewrite wr_ok by lia. simpl. unfold filled.
  rewrite length_insert, length_app, Nat2Z.id. simpl. split; [done|]. split; [lia|]. split; [lia|].
  rewrite Nat.add_1_r, take_S_r with (x := ch) by (apply list_lookup_insert_eq; lia).
  by rewrite take_insert_ge, Ht by lia.
Qed.

Lemma filled_last buf cp w : filled buf cp w -> w <> [] -> rd buf (cp - 1) = Ok (List.last w 0).
Proof.
  intros (Hb & -> & _ & Ht) Hne. destruct (exists_last Hne) as (w' & x & ->). rewrite last_last.
  rewrite length_app in *. simpl in *. apply rd_ok. split; [lia|].
  replace (Z.to_nat _) with (length w') by lia. rewrite <- (lookup_take_lt buf (length w' + 1)) by lia.
  rewrite Ht. by apply list_lookup_middle.
Qed.

Lemma exists_last_or_nil (a : list Z) : a = [] \/ exists a' x, a = a' ++ [x].
Proof. destruct a as [|x a]; [by left|right]. destruct (exists_last (l := x :: a)) as (a' & y & E); [done|]. eauto. Qed.

Section Fill.
Context (b : integer_base) (c : printf_conversion) (Hb : base_ok b).

Lemma digits_loop value : in_u64 value -> returns (loop 65 (digits_step c b) (replicate 64 0, 0, value, 0)) (fun '(buf, cp) =>
  filled buf cp (digit_chars b (flag c GROUP) 0 (lsd max_digits (base b) value))).
Proof.
  intros Hv. destruct (base_range b Hb) as [HB Hlen]. set (total := digit_chars _ _ _ _).
  assert (Htot : (length total <= 44)%nat).
  { unfold total. pose proof (digit_chars_length b (flag c GROUP) 0 (lsd max_digits (base b) value)).
    pose proof (lsd_length max_digits (base b) value). unfold max_digits in *. lia. }
  apply (returns_loop_ix (fun n '(buf, cp, v, k) => exists w, filled buf cp w /\ 0 <= v < 2 ^ 64 /\ v < base b ^ Z.of_nat n /\ 0 <= k /\
    total = w ++ digit_chars b (flag c GROUP) k (lsd n (base b) v))) with max_digits; [|exists [] |unfold max_digits; lia].
  - intros n [[[buf cp] v] k] (w & Hf & Hv64 & Hvn & Hk & Et). unfold digits_step.
    destruct (Z.ltb_spec 0 v) as [Hpos|Hz].
    + destruct n as [|n]; [simpl in Hvn; lia|]. simpl lsd in Et. rewrite (proj2 (Z.eqb_neq v 0)) in Et by lia.
      simpl digit_chars in Et. set (sep := if _ && _ && _ then [44] else []) in Et.
      assert (Hlw : (length w + length sep + 1 <= 44)%nat) by (rewrite Et, !length_app in Htot; simpl in Htot; lia).
      apply returns_bind. eapply (returns_mono _ (fun '(buf1, cp1) => filled buf1 cp1 (w ++ sep))).
      { unfold sep in *. destruct (_ && _ && _); [|by rewrite app_nil_r].
        apply returns_bind. eapply returns_mono; [apply (filled_push buf cp w 44 Hf); lia|]. done. }
      intros [buf1 cp1] Hf1. unfold __umoddi3, __udivdi3. rewrite umod64_eq, udiv64_eq by (unfold in_u64; lia).
      rewrite (proj2 (Z.eqb_neq (base b) 0)) by lia. cbn [mbind res_bind].
      pose proof (Z.mod_pos_bound v (base b) ltac:(lia)). rewrite (Z.mod_small (v mod base b)) by lia.
      rewrite (rd_default _ _ 0) by lia. cbn [mbind res_bind]. fold (char_of b (v mod base b)).
      apply returns_bind. eapply returns_mono; [apply (filled_push buf1 cp1 _ (char_of b (v mod base b)) Hf1)|].
      { rewrite length_app. lia. }
      intros buf2 Hf2. exists n. split; [lia|]. exists ((w ++ sep) ++ [char_of b (v mod base b)]). split; [done|].
      assert (0 <= v / base b <= v) by (split; [apply Z.div_pos|apply Z.div_le_upper_bound]; nia).
      split; [lia|]. split; [apply Z.div_lt_upper_bound; [lia|]; by rewrite <- Z.pow_succ_r, <- Nat2Z.inj_succ by lia|].
      split; [lia|]. by rewrite Et, <- !app_assoc.
    + assert (v = 0) as -> by lia. simpl. destruct n; simpl in Et; by rewrite app_nil_r in Et; subst w.
  - split; [split; [done|]; split; [done|]; split; [simpl; lia|done]|]. split; [unfold in_u64 in Hv; lia|]. split; [|done].
    unfold in_u64 in Hv. apply Z.lt_le_trans with (8 ^ Z.of_nat max_digits); [change (8 ^ Z.of_nat max_digits) with (2 ^ 66); lia|].
    apply Z.pow_le_mono_l. lia.
Qed.

Lemma zeros_loop p buf cp w : filled buf cp w -> (length w <= 63)%nat ->
  returns (loop 65 (zeros_step p) (buf, cp)) (fun '(buf', cp') =>
    filled buf' cp' (w ++ replicate (Z.to_nat (Z.min p 63 - Z.of_nat (length w))) 48)).
Proof.
  intros Hf Hw.
  apply (returns_loop_ix (fun n '(buf1, cp1) => exists k, filled buf1 cp1 (w ++ replicate k 48) /\
    (length w + k + n = 63)%nat /\ Z.of_nat k <= Z.max 0 (Z.min p 63 - Z.of_nat (length w)))) with (63 - length w)%nat.
  - intros n [buf1 cp1] (k & Hf1 & Hn & Hk). unfold zeros_step. pose proof Hf1 as (_ & Ecp & _ & _).
    rewrite length_app, length_replicate in Ecp. destruct ((cp1 <? p) && (cp1 <? 63)) eqn:E.
    + apply andb_true_iff in E as [E1%Z.ltb_lt E2%Z.ltb_lt]. apply returns_bind.
      eapply returns_mono; [apply (filled_push _ _ _ 48 Hf1); rewrite length_app, length_replicate; lia|].
      intros buf2 Hf2. exists (n - 1)%nat. split; [lia|]. exists (k + 1)%nat. split; [|lia].
      by rewrite replicate_add, app_assoc.
    + simpl. replace (Z.to_nat _) with k; [done|]. apply andb_false_iff in E as [E%Z.ltb_ge|E%Z.ltb_ge]; lia.
  - exists 0%nat. simpl. rewrite app_nil_r. split; [done|lia].
  - lia.
Qed.

(** The buffer of 64 characters is large enough for every value, base, and conversion. *)
Lemma fill_buffer_spec value : in_u64 value ->
  returns (fill_buffer value b c) (fun '(buf, cp) => filled buf cp (number_chars value b c)).
Proof.
  intros Hv. unfold fill_buffer, number_chars. apply returns_bind. eapply returns_mono; [by apply digits_loop|].
  intros [buf cp] Hf. set (w := digit_chars _ _ _ _) in *.
  assert (Hw : (length w <= 44)%nat).
  { unfold w. pose proof (digit_chars_length b (flag c GROUP) 0 (lsd max_digits (base b) value)).
    pose proof (lsd_length max_digits (base b) value). unfold max_digits in *. lia. }
  set (p := if precision c <? 0 then 1 else precision c). apply returns_bind.
  eapply returns_mono; [apply (zeros_loop p); [done|lia]|]. intros [buf1 cp1] Hf1.
  set (w1 := w ++ _) in *. destruct (flag c POUND && (base b =? 8)); [|done]. cbn [andb].
  pose proof Hf1 as (_ & Ecp & _ & _). destruct w1 as [|a w1'] eqn:Ew1.
  - subst cp1. change (Z.of_nat (length (@nil Z))) with 0 in *. change (0 =? 0) with true. cbn [mbind res_bind].
    change (negb (List.last [] 0 =? 48)) with true. cbv iota. apply returns_bind. eapply returns_mono; [apply (filled_push _ _ _ 48 Hf1); simpl; lia|]. done.
  - rewrite (proj2 (Z.eqb_neq cp1 0)) by (subst cp1; simpl; lia).
    rewrite (filled_last _ _ _ Hf1) by done. cbn [mbind res_bind].
    destruct (Z.eqb_spec (List.last (a :: w1') 0) 48) as [|Hl]; [done|]. cbn [negb]. apply returns_bind.
    eapply returns_mono; [apply (filled_push _ _ _ 48 Hf1)|done].
    (* a 64th character would be a zero of the padding *)
    rewrite <- Ew1 in *. unfold w1 in *. rewrite length_app, length_replicate in *.
    destruct (Z.to_nat (Z.min p 63 - Z.of_nat (length w))) as [|k] eqn:Ek; [lia|].
    destruct Hl. rewrite replicate_S_end, app_assoc. apply last_last.
Qed.
End Fill.

(** ** Output *)

(** What an integer conversion prints. *)
Definition integer_text (value : Z) (is_signed negative : bool) (b : integer_base) (c : printf_conversion) : list Z :=
  let sign :=
    if is_signed then
      if flag c PLUS then if negative then 45 else 43
      else if flag c SPACE then if negative then 45 else 32
      else if negative then 45 else 0
    else 0 in
  let xc := if flag c POUND && negb (value =? 0) then x b else 0 in
  let w := number_chars value b c in
  let pad := i32 (width c - Z.of_nat (length w) - (if negb (xc =? 0) then 2 else 0) - (if negb (sign =? 0) then 1 else 0)) in
  let n := Z.to_nat (if pad <? 0 then 0 else pad) in
  (if Z.land (flags c) (Z.lor MINUS ZERO) =? 0 then replicate n 32 else []) ++
  (if negb (sign =? 0) then [sign] else []) ++
  (if negb (xc =? 0) then [48; xc] else []) ++
  (if flag c ZERO then replicate n 48 else []) ++
  rev w ++
  (if flag c MINUS then replicate n 32 else []).

(** What a string conversion prints. *)
Definition string_text (s : list Z) (c : printf_conversion) : list Z :=
  let n := Z.of_nat (length s) in
  (if (n <? width c) && negb (flag c MINUS) then replicate (Z.to_nat (width c - n)) 32 else []) ++
  s ++
  (if (n <? width c) && flag c MINUS then replicate (Z.to_nat (width c - n)) 32 else []).

Section Printed.
Context {S : Type} (output : Z -> S -> S).

Definition output_all (cs : list Z) (s : S) : S := fold_left (fun s ch => output ch s) cs s.

Lemma output_all_app a b s : output_all (a ++ b) s = output_all b (output_all a s).
Proof. apply fold_left_app. Qed.

Lemma output_all_snoc a ch s : output_all (a ++ [ch]) s = output ch (output_all a s).
Proof. apply output_all_app. Qed.

Lemma output_dup_spec ch n s : 0 <= n < 2 ^ 33 ->
  output_dup output ch n s = Ok (output_all (replicate (Z.to_nat n) ch) s).
Proof.
  intros Hn. apply returns_eq. unfold output_dup.
  apply (returns_while (fun '(k, s1) => 0 <= k <= n /\ s1 = output_all (replicate (Z.to_nat (n - k)) ch) s) (fun '(k, _) => k)).
  - intros [k s1] [Hk ->]. split; [lia|]. destruct (Z.ltb_spec 0 k); simpl.
    + split; [|lia]. split; [lia|]. replace (Z.to_nat (n - (k - 1))) with (Datatypes.S (Z.to_nat (n - k))) by lia.
      by rewrite replicate_S_end, output_all_snoc.
    + by replace (n - k) with n by lia.
  - split; [lia|]. by rewrite Z.sub_diag.
  - lia.
Qed.

Lemma output_buffer_spec buf cp w s : filled buf cp w -> output_buffer output buf cp s = Ok (output_all (rev w) s).
Proof.
  intros (Hl & -> & Hw & Ht). apply returns_eq. unfold output_buffer.
  apply (returns_loop (fun '(k, s1) => exists a d, w = a ++ d /\ k = Z.of_nat (length a) /\ s1 = output_all (rev d) s)
    (fun '(k, _) => Z.to_nat k)).
  - intros [k s1] (a & d & -> & -> & ->). destruct (exists_last_or_nil a) as [->|(a' & x & ->)]; simpl; [done|].
    rewrite length_app. simpl. rewrite (proj2 (Z.ltb_lt _ _)) by lia.
    assert (Hx : rd buf (Z.of_nat (length a' + 1) - 1) = Ok x).
    { apply rd_ok. split; [lia|]. replace (Z.to_nat _) with (length a') by lia.
      rewrite <- (lookup_take_lt buf (length ((a' ++ [x]) ++ d))) by (rewrite !length_app; simpl; lia).
      rewrite Ht, <- app_assoc. by apply list_lookup_middle. }
    rewrite Hx. simpl. split; [|lia]. exists a', (x :: d). rewrite <- app_assoc. split; [done|]. split; [lia|].
    simpl. by rewrite output_all_snoc.
  - exists w, []. by rewrite app_nil_r.
  - lia.
Qed.

Lemma output_if (p : bool) a s : (if p then output_all a s else s) = output_all (if p then a else []) s.
Proof. by destruct p. Qed.

Lemma dup_if (p : bool) ch n s : 0 <= n < 2 ^ 33 ->
  (if p then output_dup output ch n s else Ok s) = Ok (output_all (if p then replicate (Z.to_nat n) ch else []) s).
Proof. intros Hn. destruct p; [by apply output_dup_spec|done]. Qed.

(** [format_integer] prints the padding, the sign, the prefix, the zeros and the number as
    the flags say. *)
Lemma format_integer_spec value is_signed negative b c s : base_ok b -> in_u64 value ->
  format_integer output value is_signed negative b c s = Ok (output_all (integer_text value is_signed negative b c) s).
Proof.
  intros Hb Hv. unfold format_integer, integer_text. cbv zeta.
  destruct (returns_inv _ _ (fill_buffer_spec b c Hb value Hv)) as ([buf cp] & -> & Hf). cbn [mbind res_bind].
  pose proof Hf as (_ & -> & _). set (w := number_chars value b c) in *.
  set (sign := if is_signed then _ else 0). set (xc := if flag c POUND && _ then _ else 0).
  set (pad := i32 _). set (n := if pad <? 0 then 0 else pad).
  assert (Hn : 0 <= n < 2 ^ 33).
  { assert (Hpad : - 2 ^ 31 <= pad < 2 ^ 31) by apply i32_range. unfold n. destruct (Z.ltb_spec pad 0); lia. }
  clearbody n sign xc. rewrite dup_if by done. cbn [mbind res_bind].
  change (output xc (output 48 ?s)) with (output_all [48; xc] s).
  set (s1 := output_all _ s). replace (if negb (sign =? 0) then output sign s1 else s1)
    with (output_all (if negb (sign =? 0) then [sign] else []) s1) by by destruct (negb (sign =? 0)).
  set (s2 := output_all _ s1).
  rewrite (output_if (negb (xc =? 0))).
  rewrite dup_if by done. cbn [mbind res_bind]. rewrite (output_buffer_spec buf _ w) by done. cbn [mbind res_bind].
  rewrite dup_if by done. f_equal. unfold s2, s1. by rewrite !output_all_app.
Qed.

(** [format_string] prints the characters between the padding. *)
Lemma format_string_spec m p n c s : 0 <= n < 2 ^ 31 -> Z.abs (width c) <= 2 ^ 31 ->
  format_string output m p n c s = Ok (output_all (string_text (map (fun i => m (u32 (p + i))) (seqZ 0 n)) c) s).
Proof.
  intros Hn Hw. unfold format_string, string_text. rewrite length_map, length_seqZ, Z2Nat.id by lia.
  assert (Hpad : forall q s, (if (n <? width c) && q then output_dup output 32 (width c - n) s else Ok s) =
    Ok (output_all (if (n <? width c) && q then replicate (Z.to_nat (width c - n)) 32 else []) s)).
  { intros q s1. destruct (Z.ltb_spec n (width c)); [|done]. simpl. apply dup_if. lia. }
  rewrite Hpad. rewrite bind_ok. set (s1 := output_all _ s).
  assert (Hloop : while (chars_step output m p n) (0, s1) =
    Ok (output_all (map (fun i => m (u32 (p + i))) (seqZ 0 n)) s1)).
  { apply returns_eq. apply (returns_while (fun '(i, s2) => 0 <= i <= n /\
      s2 = output_all (map (fun i => m (u32 (p + i))) (seqZ 0 i)) s1) (fun '(i, _) => n - i)).
    - intros [i s2] [Hi ->]. split; [lia|]. unfold chars_step. destruct (Z.ltb_spec i n); simpl.
      + split; [|lia]. split; [lia|]. rewrite seqZ_app, map_app by lia. simpl. by rewrite output_all_snoc.
      + by replace i with n by lia.
    - split; [lia|done].
    - lia. }
  rewrite Hloop. rewrite bind_ok. rewrite Hpad. unfold s1. by rewrite !output_all_app.
Qed.
End Printed.

(** ** Output functions only receive the text

    Whatever the output function does, [__vprintf] calls it on the characters that it
    collects when it does nothing but collect them, in order, or stops with the same
    fault. *)
Definition collect (ch : Z) (cs : list Z) : list Z := cs ++ [ch].

Section Parametric.
Context {S : Type} (output : Z -> S -> S) (s0 : S).

Definition outputs (cs : list Z) (s : S) : Prop := s = output_all output cs s0.

Lemma outputs_one ch cs s : outputs cs s -> outputs (collect ch cs) (output ch s).
Proof. unfold outputs, collect. intros ->. by rewrite output_all_snoc. Qed.

(** The same value next to related outputs. *)
Definition beside {A} (x : A * list Z) (y : A * S) : Prop := x.1 = y.1 /\ outputs x.2 y.2.

Lemma output_dup_rel ch n cs s : outputs cs s -> res_rel outputs (output_dup collect ch n cs) (output_dup output ch n s).
Proof.
  intros Hs. apply (res_rel_while beside); [|done]. intros [k c1] [k' s1] [[= <-] H1]. simpl.
  destruct (0 <? k); simpl; [|done]. split; [done|]. by apply outputs_one.
Qed.

Lemma output_buffer_rel buf cp cs s : outputs cs s ->
  res_rel outputs (output_buffer collect buf cp cs) (output_buffer output buf cp s).
Proof.
  intros Hs. apply (res_rel_loop beside); [|done]. intros [k c1] [k' s1] [[= <-] H1]. simpl.
  destruct (0 <? k); simpl; [|done]. apply res_rel_same. intros ch. split; [done|]. by apply outputs_one.
Qed.

Lemma dup_if_rel (p : bool) ch n cs s : outputs cs s ->
  res_rel outputs (if p then output_dup collect ch n cs else Ok cs) (if p then output_dup output ch n s else Ok s).
Proof. destruct p; [apply output_dup_rel|done]. Qed.

Lemma format_integer_rel v g n b c cs s : outputs cs s ->
  res_rel outputs (format_integer collect v g n b c cs) (format_integer output v g n b c s).
Proof.
  intros Hs. unfold format_integer. apply res_rel_same. intros [buf cp].
  eapply res_rel_bind; [by apply dup_if_rel|]. intros c1 s1 H1. set (sign := if g then _ else 0).
  assert (H2 : outputs (if negb (sign =? 0) then collect sign c1 else c1) (if negb (sign =? 0) then output sign s1 else s1))
    by (destruct (negb (sign =? 0)); auto using outputs_one).
  set (c2 := if negb (sign =? 0) then _ else c1) in *. set (s2 := if negb (sign =? 0) then _ else s1) in *.
  set (xc := if flag c POUND && _ then _ else 0).
  assert (H3 : outputs (if negb (xc =? 0) then collect xc (collect 48 c2) else c2)
    (if negb (xc =? 0) then output xc (output 48 s2) else s2)) by (destruct (negb (xc =? 0)); auto using outputs_one).
  eapply res_rel_bind; [by apply dup_if_rel|]. clear H3. intros c3 s3 H3.
  eapply res_rel_bind; [by apply output_buffer_rel|]. intros c4 s4 H4. by apply dup_if_rel.
Qed.

Lemma format_string_rel m p n c cs s : outputs cs s ->
  res_rel outputs (format_string collect m p n c cs) (format_string output m p n c s).
Proof.
  intros Hs. unfold format_string. eapply res_rel_bind; [by apply dup_if_rel|]. intros c1 s1 H1.
  eapply res_rel_bind; [apply (res_rel_while beside)|].
  - intros [i c2] [i' s2] [[= <-] H2]. unfold chars_step. destruct (i <? n); simpl; [|done].
    split; [done|]. by apply outputs_one.
  - done.
  - intros c2 s2 H2. by apply dup_if_rel.
Qed.

Section Convert.
Context (sub1 : list Z -> list Z -> list Z -> res (list Z)) (sub2 : list Z -> list Z -> S -> res S).
Hypothesis Hsub : forall f a cs s, outputs cs s -> res_rel outputs (sub1 f a cs) (sub2 f a s).

Lemma then_args {A} (args : A) m1 m2 : res_rel outputs m1 m2 ->
  res_rel beside (s ← m1; Ok (args, s)) (s ← m2; Ok (args, s)).
Proof. intros H. eapply res_rel_bind; [exact H|]. by intros a b. Qed.

Lemma convert_rel m ch c args cs s : outputs cs s ->
  res_rel beside (convert collect sub1 m ch c args cs) (convert output sub2 m ch c args s).
Proof.
  intros Hs. unfold convert.
  destruct ((ch =? 100) || (ch =? 105)).
  { apply res_rel_same. intros [v a]. by apply then_args, format_integer_rel. }
  destruct ((ch =? 111) || (ch =? 117) || (ch =? 120) || (ch =? 88)).
  { apply res_rel_same. intros [v a]. by apply then_args, format_integer_rel. }
  destruct (ch =? 99).
  { apply res_rel_same. intros [v a]. by apply then_args, format_string_rel. }
  destruct (ch =? 115).
  { apply res_rel_same. intros [p a]. destruct (p =? NULL); apply res_rel_same; intros n; by apply then_args, format_string_rel. }
  destruct (ch =? 112).
  { apply res_rel_same. intros [p a]. by apply then_args, format_integer_rel. }
  match goal with |- context [if ?t then _ else _] => destruct t end; by apply then_args, Hsub.
Qed.

Lemma vprintf_with_rel m format args cs s : outputs cs s ->
  res_rel outputs (vprintf_with collect sub1 m format args cs) (vprintf_with output sub2 m format args s).
Proof.
  intros Hs. apply (res_rel_while beside); [|done].
  intros [[f a] c1] [[f' a'] s1] [[= <- <-] H1]. unfold vprintf_step.
  destruct (m f =? 0); [done|]. destruct (m f =? 37); simpl negb; cbv iota.
  2:{ split; [done|]. by apply outputs_one. }
  destruct (m (u32 (f + 1)) =? 37); [split; [done|]; by apply outputs_one|].
  apply res_rel_same. intros [[f2 c] a2]. eapply res_rel_bind; [by apply convert_rel|].
  intros [a3 c3] [a3' s3] [[= <-] H3]. by split.
Qed.
End Convert.

Lemma vprintf_rel m format args cs s : outputs cs s ->
  res_rel outputs (__vprintf collect m format args cs) (__vprintf output m format args s).
Proof.
  apply vprintf_with_rel. intros f a c1 s1. by apply vprintf_with_rel.
Qed.
End Parametric.

(** The text of a format and its arguments. *)
Definition text_of (m : mem) (format : Z) (args : list Z) : res (list Z) := __vprintf collect m format args [].

Lemma vprintf_text {S} (output : Z -> S -> S) m format args s :
  __vprintf output m format args s = (cs ← text_of m format args; Ok (output_all output cs s)).
Proof.
  pose proof (vprintf_rel output s m format args [] s eq_refl) as H. unfold text_of.
  destruct (__vprintf collect m format args []), (__vprintf output m format args s); simpl in *; try done; congruence.
Qed.

(** ** [vsnprintf] *)

(** The state of the helper after the characters [cs]. *)
Lemma helper_all max m buffer cs : 0 <= max < 2 ^ 31 -> 0 < buffer -> buffer + max < 2 ^ 32 ->
  Z.of_nat (length cs) < 2 ^ 31 ->
  exists m', output_all (vsnprintf_helper max) cs (m, buffer, 0) =
      (m', buffer + Z.min (Z.of_nat (length cs)) max, Z.of_nat (length cs)) /\
    forall a, m' a = match take (Z.to_nat max) cs !! Z.to_nat (a - buffer) with
                     | Some c => if buffer <=? a then u8 c else m a | None => m a end.
Proof.
  intros Hmax Hb He. induction cs as [|c cs IH] using rev_ind; intros Hl.
  { exists m. simpl. rewrite take_nil. split; [rewrite !pair_eq; auto with lia|done]. }
  rewrite length_app in *. simpl in *. destruct IH as (m1 & E & Hm); [lia|].
  rewrite output_all_snoc, E. unfold vsnprintf_helper. destruct (Z.ltb_spec (Z.of_nat (length cs)) max).
  - exists (store m1 (buffer + Z.min (Z.of_nat (length cs)) max) (u8 c)).
    rewrite u32_small, i32_small by lia. split; [rewrite !pair_eq; auto with lia|]. intros a. unfold store.
    rewrite Hm, Z.min_l by lia. rewrite !take_ge by (rewrite ?length_app; simpl; lia).
    destruct (Z.eqb_spec a (buffer + Z.of_nat (length cs))) as [->|Hne].
    + replace (Z.to_nat _) with (length cs) by lia. rewrite (list_lookup_middle cs [] c) by done. zbool.
    + destruct (decide (Z.to_nat (a - buffer) < length cs)%nat).
      * by rewrite lookup_app_l by lia.
      * rewrite (lookup_ge_None_2 cs) by lia. destruct ((cs ++ [c]) !! Z.to_nat (a - buffer)) eqn:Ea; [|done].
        apply lookup_lt_Some in Ea. rewrite length_app in Ea. simpl in Ea. zbool.
  - exists m1. rewrite i32_small by lia. split; [rewrite !pair_eq; auto with lia|]. intros a. rewrite Hm.
    by rewrite take_app_le by lia.
Qed.

Lemma vsnprintf_spec m buffer buf_size format args cs : text_of m format args = Ok cs ->
  Z.of_nat (length cs) < 2 ^ 31 -> 0 < buffer < 2 ^ 32 -> 0 <= buf_size <= 2 ^ 31 -> buffer + buf_size <= 2 ^ 32 ->
  returns (vsnprintf m buffer buf_size format args) (fun '(r, m') =>
    r = Z.of_nat (length cs) /\
    forall a, m' a = if buf_size =? 0 then m a
                     else with_string m buffer (map u8 (take (Z.to_nat (buf_size - 1)) cs)) a).
Proof.
  intros Ht Hl Hb Hs He. unfold vsnprintf. rewrite vprintf_text, Ht. cbn [mbind res_bind].
  destruct (Z.ltb_spec 0 buf_size) as [Hpos|Hz].
  - rewrite i32_small by lia. destruct (helper_all (buf_size - 1) m buffer cs) as (m' & -> & Hm); [lia..|].
    split; [done|]. intros a. rewrite (proj2 (Z.eqb_neq buf_size 0)) by lia. unfold store, with_string. rewrite Hm.
    set (w := take _ cs). assert (Hw : Z.of_nat (length w) = Z.min (Z.of_nat (length cs)) (buf_size - 1)).
    { unfold w. rewrite length_take. lia. }
    rewrite <- Hw. destruct (Z.eqb_spec a (buffer + Z.of_nat (length w))) as [->|Hne].
    + replace (Z.to_nat _) with (length (map u8 w)) by (rewrite length_map; lia).
      rewrite list_lookup_middle by done. zbool.
    + destruct (w !! Z.to_nat (a - buffer)) as [c|] eqn:Ew.
      * rewrite lookup_app_l by (rewrite length_map; by eapply lookup_lt_Some).
        change (map u8 w) with (u8 <$> w). by rewrite list_lookup_fmap, Ew.
      * apply lookup_ge_None_1 in Ew. destruct ((map u8 w ++ [0]) !! Z.to_nat (a - buffer)) as [z|] eqn:Ez; [|done].
        apply lookup_lt_Some in Ez. rewrite length_app, length_map in Ez. simpl in Ez. zbool.
  - assert (buf_size = 0) as -> by lia. rewrite i32_small by lia.
    destruct (helper_all 0 m buffer cs) as (m' & -> & Hm); [lia..|]. split; [done|]. intros a. by rewrite Hm.
Qed.

(** ** Decimal output *)

Definition decimal (n : Z) : list Z :=
  (if n <? 0 then [45] else []) ++
  (if n =? 0 then [48] else rev (map (fun d => 48 + d) (lsd max_digits 10 (Z.abs n)))).

Lemma char_of_d d : 0 <= d < 10 -> char_of base_d d = 48 + d.
Proof.
  intros Hd. assert (d = 0 \/ d = 1 \/ d = 2 \/ d = 3 \/ d = 4 \/ d = 5 \/ d = 6 \/ d = 7 \/ d = 8 \/ d = 9) as Hc by lia.
  repeat (destruct Hc as [->|Hc]; [reflexivity|]). by subst d.
Qed.

Lemma lsd_range n B v : 0 < B -> Forall (fun d => 0 <= d < B) (lsd n B v).
Proof.
  intros HB. revert v. induction n as [|n IH]; intros v; simpl; [constructor|]. case_match; constructor; [|apply IH].
  by apply Z.mod_pos_bound.
Qed.

Lemma lsd_short n B v k : 1 < B -> 0 <= v < B ^ Z.of_nat k -> (length (lsd n B v) <= k)%nat.
Proof.
  intros HB. revert v k. induction n as [|n IH]; intros v k Hv; simpl; [lia|]. destruct (Z.eqb_spec v 0); simpl; [lia|].
  destruct k as [|k]; [simpl in Hv; lia|]. rewrite Nat2Z.inj_succ, Z.pow_succ_r in Hv by lia.
  specialize (IH (v / B) k). enough (0 <= v / B < B ^ Z.of_nat k) by lia.
  split; [apply Z.div_pos; lia|apply Z.div_lt_upper_bound; lia].
Qed.

Lemma lsd_nonzero n B v : v <> 0 -> (1 <= length (lsd (S n) B v))%nat.
Proof. intros Hv. simpl. rewrite (proj2 (Z.eqb_neq v 0)) by done. simpl. lia. Qed.

Lemma dec_lsd n v : 0 <= v < 10 ^ Z.of_nat n -> dec (rev (map (fun d => 48 + d) (lsd n 10 v))) = v.
Proof.
  revert v. induction n as [|n IH]; intros v Hv; simpl lsd; [simpl in *; unfold dec; simpl; lia|].
  destruct (Z.eqb_spec v 0) as [->|]; [done|]. simpl rev. rewrite dec_snoc, IH.
  - pose proof (Z.div_mod v 10). lia.
  - rewrite Nat2Z.inj_succ, Z.pow_succ_r in Hv by lia. split; [apply Z.div_pos; lia|apply Z.div_lt_upper_bound; lia].
Qed.

Lemma digit_chars_plain k ds : Forall (fun d => 0 <= d < 10) ds ->
  digit_chars base_d false k ds = map (fun d => 48 + d) ds.
Proof.
  intros Hf. revert k. induction Hf as [|d ds Hd _ IH]; intros k; simpl; [done|]. by rewrite char_of_d, IH.
Qed.

Definition plain_conversion : printf_conversion := mk_conversion 0 0 (-1) INT.

Lemma decimal_text n : - 2 ^ 63 <= n < 2 ^ 63 ->
  integer_text (Z.abs n) true (n <? 0) base_d plain_conversion = decimal n.
Proof.
  intros Hn. unfold integer_text, decimal. cbv zeta.
  change (flag plain_conversion POUND) with false. change (flag plain_conversion PLUS) with false.
  change (flag plain_conversion SPACE) with false. change (flag plain_conversion ZERO) with false.
  change (flag plain_conversion MINUS) with false. change (Z.land (flags plain_conversion) (Z.lor MINUS ZERO) =? 0) with true.
  cbn [andb Z.eqb negb app]. set (pad := i32 _).
  assert (Hpad : (if pad <? 0 then 0 else pad) = 0).
  { assert (Hle : pad <= 0); [|destruct (Z.ltb_spec pad 0); lia]. unfold pad. simpl width.
    assert (Hlen : (length (number_chars (Z.abs n) base_d plain_conversion) <= 64)%nat).
    { destruct (returns_inv _ _ (fill_buffer_spec base_d plain_conversion (or_introl eq_refl) (Z.abs n) ltac:(unfold in_u64; lia)))
        as ([buf cp] & _ & _ & _ & ? & _). done. }
    rewrite i32_small; destruct (negb _); lia. }
  rewrite Hpad. change (replicate (Z.to_nat 0) 32) with (@nil Z). cbn [app]. rewrite app_nil_r.
  unfold number_chars. change (flag plain_conversion GROUP) with false. change (flag plain_conversion POUND) with false.
  cbn [andb precision plain_conversion Z.ltb Z.compare]. change (base base_d) with 10.
  rewrite digit_chars_plain by (apply lsd_range; lia).
  f_equal; [by destruct (n <? 0)|]. destruct (Z.eqb_spec n 0) as [->|Hne]; [done|]. set (w := map _ _).
  assert (Hw : (1 <= length w)%nat).
  { unfold w. rewrite length_map. apply (lsd_nonzero 21). lia. }
  replace (Z.to_nat _) with 0%nat by lia. simpl replicate. by rewrite app_nil_r.
Qed.

(** A conversion without flags, width, precision or type. *)
Lemma parse_plain m f args ch : m f = ch -> ch = 100 -> parse_conversion m f args = Ok (f, plain_conversion, args).
Proof.
  intros Hm ->. unfold parse_conversion.
  rewrite (while_stop (flags_step m) (f, 0) (f, 0)) by (unfold flags_step; by rewrite Hm).
  rewrite bind_ok. cbv beta iota zeta. rewrite Hm. change (100 =? 42) with false. cbv iota.
  rewrite (while_stop (number_step m) (f, 0) (f, 0)) by (unfold number_step; by rewrite Hm).
  rewrite !bind_ok. cbv beta iota. change (0 <? 0) with false. cbv beta iota.
  rewrite Hm. change (100 =? 46) with false. cbv iota. rewrite bind_ok. cbv beta iota. unfold parse_type. by rewrite Hm.
Qed.

Lemma text_of_d m f n : cstring m f [37; 100] -> - 2 ^ 31 <= n < 2 ^ 31 -> text_of m f [u32 n] = Ok (decimal n).
Proof.
  intros Hf Hn. unfold text_of, __vprintf, vprintf_with. apply returns_eq.
  pose proof (cs_ptr _ _ _ Hf) as Hp. pose proof (cs_end _ _ _ Hf) as He. simpl in He.
  pose proof (cs_at _ _ _ Hf 0%nat 37 eq_refl) as H0. pose proof (cs_at _ _ _ Hf 1%nat 100 eq_refl) as H1.
  pose proof (cs_at _ _ _ Hf 2%nat 0 eq_refl) as H2. change (Z.of_nat 0) with 0 in H0. change (Z.of_nat 1) with 1 in H1.
  change (Z.of_nat 2) with 2 in H2. rewrite Z.add_0_r in H0.
  apply (returns_while_ix (fun k st => (k = 1 /\ st = (f, [u32 n], [])) \/ (k = 0 /\ st = (f + 2, [], decimal n)))) with 1.
  - intros k st [[-> ->]|[-> ->]]; (split; [lia|]); unfold vprintf_step.
    + rewrite H0. cbn [Z.eqb Pos.eqb negb]. rewrite u32_small, H1 by lia. cbn [Z.eqb Pos.eqb].
      rewrite (parse_plain m (f + 1) [u32 n] 100) by done. rewrite bind_ok, H1. unfold convert.
      cbn [Z.eqb Pos.eqb orb type plain_conversion signed_arg va_arg32 mbind res_bind].
      rewrite (u32_small (u32 n)), i32_u32 by (apply u32_range || done).
      replace (if n <? 0 then u64 (- n) else n) with (Z.abs n)
        by (destruct (Z.ltb_spec n 0); rewrite ?u64_small by lia; lia).
      rewrite format_integer_spec by (first [by left | unfold in_u64; lia]). rewrite decimal_text by lia.
      cbn [mbind res_bind]. exists 0. split; [lia|]. right. split; [done|]. rewrite u32_small by lia.
      rewrite !pair_eq. split; [split; [lia|done]|]. clear. induction (decimal n) as [|c l IH] using rev_ind; [done|]. by rewrite output_all_snoc, IH.
    + by rewrite H2.
  - by left.
  - lia.
Qed.

(** A decimal number is a sign and digits that denote its magnitude. *)
Lemma decimal_shape n : - 2 ^ 31 <= n < 2 ^ 31 -> exists ds, decimal n = (if n <? 0 then [45] else []) ++ ds /\
  Forall (fun c => isdigit c = true) ds /\ ds <> [] /\ dec ds = Z.abs n /\ (length (decimal n) <= 11)%nat.
Proof.
  intros Hn. unfold decimal. destruct (Z.eqb_spec n 0) as [->|Hne].
  { exists [48]. split; [done|]. split; [by repeat constructor|]. split; [done|]. split; [done|simpl; lia]. }
  eexists. split; [done|]. split; [|split; [|split]].
  - apply Forall_rev, Forall_map. eapply Forall_impl; [apply (lsd_range max_digits 10); lia|].
    intros d Hd. apply isdigit_range. simpl in Hd |- *. lia.
  - intros E. pose proof (lsd_nonzero 21 10 (Z.abs n) ltac:(lia)) as Hl.
    apply (f_equal length) in E. rewrite length_rev, length_map in E. unfold max_digits in E. rewrite E in Hl. simpl in Hl. lia.
  - apply dec_lsd. change (10 ^ Z.of_nat max_digits) with (10 ^ 22). lia.
  - rewrite length_app, length_rev, length_map.
    pose proof (lsd_short max_digits 10 (Z.abs n) 10 ltac:(lia)) as Hs.
    change (10 ^ Z.of_nat 10) with (10 ^ 10) in Hs. specialize (Hs ltac:(lia)).
    assert (length (if (n <? 0)%Z then [45%Z] else []) <= 1)%nat by (case_match; simpl; lia). lia.
Qed.

Lemma digits_are_chars ds : Forall (fun c => isdigit c = true) ds -> Forall (fun c => 0 < c < 2 ^ 8) ds.
Proof. intros Hd. eapply Forall_impl; [exact Hd|]. intros c Hc%isdigit_range. lia. Qed.

Lemma map_u8_chars s : Forall (fun c => 0 < c < 2 ^ 8) s -> map u8 s = s.
Proof. induction 1 as [|c s Hc _ IH]; simpl; [done|]. by rewrite u8_small, IH by lia. Qed.

(** ** Properties *)

(** An integer conversion never overflows the 64-character buffer it builds the
    number in and prints exactly what the flags, the width and the precision ask for: for
    every 64-bit value, every base of the code and every conversion. *)
Theorem format_integer_prints {S} (output : Z -> S -> S) value is_signed negative b c s : base_ok b -> in_u64 value ->
  format_integer output value is_signed negative b c s = Ok (output_all output (integer_text value is_signed negative b c) s).
Proof. apply format_integer_spec. Qed.

(** C32: [vsnprintf] stays inside its buffer: it stores the longest prefix of the text that
    fits and a null terminator, changes no other byte, stores nothing when the size is 0,
    and returns the length of the whole text. *)
Theorem vsnprintf_bounded m buffer buf_size format args cs : text_of m format args = Ok cs ->
  Z.of_nat (length cs) < 2 ^ 31 -> 0 < buffer < 2 ^ 32 -> 0 <= buf_size <= 2 ^ 31 -> buffer + buf_size <= 2 ^ 32 ->
  returns (vsnprintf m buffer buf_size format args) (fun '(r, m') =>
    r = Z.of_nat (length cs) /\
    forall a, m' a = if buf_size =? 0 then m a
                     else with_string m buffer (map u8 (take (Z.to_nat (buf_size - 1)) cs)) a).
Proof. apply vsnprintf_spec. Qed.

(** C34: Decimal output and input are inverse: for every [int], [atoi] reads back from the
    buffer the number that [snprintf] printed there with %d. *)
Theorem decimal_roundtrip m buffer buf_size format n : cstring m format [37; 100] -> - 2 ^ 31 <= n < 2 ^ 31 ->
  0 < buffer -> 12 <= buf_size <= 2 ^ 31 -> buffer + buf_size <= 2 ^ 32 ->
  returns (snprintf m buffer buf_size format [u32 n]) (fun '(_, m') => atoi m' buffer = Ok n).
Proof.
  intros Hf Hn Hb Hs He. destruct (decimal_shape n Hn) as (ds & Ed & Hds & Hne & Hdec & Hlen).
  eapply returns_mono; [apply (vsnprintf_spec m buffer buf_size format _ _ (text_of_d m format n Hf Hn)); lia|].
  intros [r m'] [_ Hm]. rewrite take_ge in Hm by lia.
  assert (Hch : Forall (fun c => 0 < c < 2 ^ 8) (decimal n)).
  { rewrite Ed. apply Forall_app. split; [|by apply digits_are_chars]. destruct (n <? 0); repeat constructor; lia. }
  assert (Hstr : cstring m' buffer ([] ++ (if n <? 0 then [45] else []) ++ ds ++ [])).
  { rewrite app_nil_r. change ([] ++ ?s) with s. rewrite <- Ed. apply (cstring_ext (with_string m buffer (decimal n))).
    - apply with_string_ok; [done|lia|done].
    - intros a _. rewrite Hm, (proj2 (Z.eqb_neq buf_size 0)), map_u8_chars by (done || lia). done. }
  rewrite (atoi_spec m' buffer [] (if n <? 0 then [45] else []) ds [] Hstr); try done.
  - f_equal. destruct (Z.ltb_spec n 0); [rewrite decide_True by done|rewrite decide_False by done]; lia.
  - destruct (n <? 0); auto.
  - lia.
  - destruct (Z.ltb_spec n 0); [by left|right; lia].
Qed.

(** A format that ends in a single % is read past its end: [__vprintf] prints the
    terminator as an unknown conversion, steps over it, and goes on with whatever bytes
    follow the string in memory. *)
Theorem vprintf_trailing_percent :
  __vprintf collect (fun a => if a =? 0x1000 then 37 else if a =? 0x1002 then 88 else 0) 0x1000 [] [] =
  Ok ([60; 60; 110; 111; 32; 37; 0; 32; 99; 111; 110; 118; 101; 114; 115; 105; 111; 110; 62; 62] ++ [88]).
Proof. vm_compute. reflexivity. Qed.

(** ** Concrete inputs *)

Lemma format_integer_prints_witness :
  format_integer collect (2 ^ 64 - 1) false false base_o (mk_conversion (Z.lor POUND GROUP) 0 64 INTMAX) [] =
  Ok (output_all collect (integer_text (2 ^ 64 - 1) false false base_o (mk_conversion (Z.lor POUND GROUP) 0 64 INTMAX)) []).
Proof. apply format_integer_prints; [unfold base_ok; auto|unfold in_u64; lia]. Defined.

Lemma vsnprintf_bounded_witness : returns (vsnprintf (literal [37; 100]) 0x3000 3 literal_at [12345]) (fun '(r, m') =>
  r = 5 /\ m' 0x3002 = 0).
Proof.
  eapply returns_mono;
    [apply (vsnprintf_bounded (literal [37; 100]) 0x3000 3 literal_at [12345] [49; 50; 51; 52; 53]); [vm_compute; reflexivity|simpl; lia|lia|lia|lia]|].
  intros [r m'] [-> H]. split; [reflexivity|]. rewrite H. reflexivity.
Defined.

Lemma decimal_roundtrip_witness : returns (snprintf (literal [37; 100]) 0x3000 12 literal_at [u32 (- 2 ^ 31)])
  (fun '(_, m') => atoi m' 0x3000 = Ok (- 2 ^ 31)).
Proof.
  apply (decimal_roundtrip (literal [37; 100]) 0x3000 12 literal_at (- 2 ^ 31)).
  - apply with_string_ok; [unfold literal_at; lia|unfold literal_at; simpl; lia|]. repeat constructor; lia.
  - lia.
  - lia.
  - lia.
  - lia.
Defined.
