(* ===== verification/Interfaces.v ===== *)
(** * Interfaces between kernel components

    What the locks of threads/synch.c promise to the components that protect their
    data with them, and what the block allocator of threads/malloc.c promises to the
    components that keep their data in its blocks.  A client is verified against
    [LockOps] or [BlockOps]; the kernel model and the allocator discharge them. *)

From stdpp Require Import base gmap numbers.
From Stdlib Require Import ZArith Lia.
From S2P Require Import Prelude.
From S2P Require Import CString.

Local Open Scope Z_scope.

(** [K] is the kernel state behind the locks and [L] the type of locks.
    [lock_free l k]: no thread holds [l] and the running thread may acquire it
    without waiting.  [lock_held l k]: the running thread holds [l].  The laws say
    nothing about a lock that another thread holds: there the calling thread waits. *)
Class LockOps (K L : Type) := {
  lock_init : L -> K -> K;
  lock_acquire : L -> K -> res K;
  lock_release : L -> K -> res K;
  lock_ctx : K -> Prop;
  lock_free : L -> K -> Prop;
  lock_held : L -> K -> Prop;
  lock_init_law : forall l k, lock_ctx k ->
    lock_ctx (lock_init l k) /\ lock_free l (lock_init l k) /\
    forall l', l' <> l -> lock_free l' k -> lock_free l' (lock_init l k);
  lock_acquire_law : forall l k, lock_free l k ->
    returns (lock_acquire l k) (fun k' => lock_held l k' /\
      forall l', l' <> l -> lock_free l' k -> lock_free l' k');
  lock_release_law : forall l k, lock_held l k ->
    returns (lock_release l k) (fun k' => lock_free l k' /\
      forall l', l' <> l -> lock_free l' k -> lock_free l' k');
  lock_acquire_keeps : forall l l' k k', lock_free l k -> lock_acquire l k = Ok k' -> l' <> l ->
    lock_held l' k -> lock_held l' k';
  lock_release_keeps : forall l l' k k', lock_held l k -> lock_release l k = Ok k' -> l' <> l ->
    lock_held l' k -> lock_held l' k'
}.

(** [A] is the state behind [malloc] and [free].  [blocks a] maps the address of every
    block in use to its size and [managed a x] says that the allocator hands out the byte
    at [x]; what it does not manage it never touches.  [malloc] either fails with a null
    pointer or returns a block of at least the requested size, disjoint from all blocks in
    use.  The bound on the request leaves room for the allocator's own header. *)
Definition fresh_block (bs : gmap Z Z) (p size : Z) : Prop :=
  0 < p /\ p + size < 2 ^ 32 /\ p mod 4 = 0 /\
  forall q sz, bs !! q = Some sz -> p + size <= q \/ q + sz <= p.

Class BlockOps (A : Type) := {
  bo_malloc : A -> Z -> res (Z * A);
  bo_free : A -> Z -> res A;
  heap_ok : A -> Prop;
  blocks : A -> gmap Z Z;
  managed : A -> Z -> Prop;
  malloc_law : forall a size, heap_ok a -> 0 <= size < 2 ^ 31 ->
    returns (bo_malloc a size) (fun '(p, a') =>
      heap_ok a' /\ (forall x, managed a' x <-> managed a x) /\
      ((p = NULL /\ blocks a' = blocks a) \/
       exists sz, size <= sz /\ fresh_block (blocks a) p sz /\ blocks a' = <[p := sz]> (blocks a) /\
         forall x, p <= x < p + sz -> managed a x));
  free_law : forall a p, heap_ok a -> is_Some (blocks a !! p) ->
    returns (bo_free a p) (fun a' => heap_ok a' /\ blocks a' = delete p (blocks a) /\
      forall x, managed a' x <-> managed a x)
}.
