(* ===== verification/Ports.v ===== *)
(** * Port input and output

    The port instructions of threads/io.h.  Devices are not part of the program: a device
    answers an input instruction by any function of what was read from and written to
    ports so far, and the trace of these accesses is what a driver does to its device. *)

From stdpp Require Import base list numbers.
From Stdlib Require Import ZArith Lia.
From S2P Require Import Prelude CString.

Local Open Scope Z_scope.

(** A byte read, a byte written, a 16-bit word written, one read; a pause in which a driver
    leaves its device alone. *)
Inductive io_event := In (port v : Z) | Out (port v : Z) | Outw (port v : Z) | Inw (port v : Z) | Pause.

(** What the devices answer when a port is read after the given accesses. *)
Class Device := dev : list io_event -> Z -> Z.

Definition inb `{Device} (port : Z) (tr : list io_event) : Z * list io_event :=
  let v := u8 (dev tr port) in (v, tr ++ [In port v]).

Definition outb (port v : Z) (tr : list io_event) : list io_event := tr ++ [Out port (u8 v)].

Definition outw (port v : Z) (tr : list io_event) : list io_event := tr ++ [Outw port (u16 v)].

Definition inw `{Device} (port : Z) (tr : list io_event) : Z * list io_event :=
  let v := u16 (dev tr port) in (v, tr ++ [Inw port v]).

(** The repeated forms, with the words in memory at [addr], low byte first. *)
Fixpoint insw `{Device} (port addr : Z) (cnt : nat) (m : mem) (tr : list io_event) : mem * list io_event :=
  match cnt with
  | O => (m, tr)
  | S cnt =>
      let '(w, tr) := inw port tr in
      insw port (u32 (addr + 2)) cnt (store (store m addr (u8 w)) (u32 (addr + 1)) (w / 256)) tr
  end.

Fixpoint outsw (port addr : Z) (cnt : nat) (m : mem) (tr : list io_event) : list io_event :=
  match cnt with
  | O => tr
  | S cnt => outsw port (u32 (addr + 2)) cnt m (outw port (u8 (m addr) + 256 * u8 (m (u32 (addr + 1)))) tr)
  end.

(** The bytes written to a port. *)
Definition written (port : Z) (tr : list io_event) : list Z :=
  omap (fun e => match e with Out p v => if p =? port then Some v else None | _ => None end) tr.

Lemma inb_byte `{Device} port tr : 0 <= (inb port tr).1 < 256.
Proof. apply Z.mod_pos_bound. lia. Qed.

Lemma written_app port tr tr' : written port (tr ++ tr') = written port tr ++ written port tr'.
Proof. apply omap_app. Qed.
