(* ===== verification/IntrTable.v ===== *)
(** * The interrupt descriptor table and the interrupt controller

    The rest of threads/interrupt.c: the gates of the descriptor table, the registration
    of handlers, and the programming of the two 8259A controllers.  The addresses of the
    assembly stubs are a parameter, and so is the type of handlers. *)

From stdpp Require Import base list numbers strings relations.
From Stdlib Require Import ZArith Lia.
From S2P Require Import Prelude CString Ports.

Local Open Scope Z_scope.

Definition PIC0_CTRL : Z := 0x20.
Definition PIC0_DATA : Z := 0x21.
Definition PIC1_CTRL : Z := 0xa0.
Definition PIC1_DATA : Z := 0xa1.
Definition INTR_CNT : Z := 256.
Definition SEL_KCSEG : Z := 0x08.

(** ** Gates *)

Definition make_gate (function dpl type : Z) : res Z :=
  ASSERT (negb (function =? NULL));;
  ASSERT ((0 <=? dpl) && (dpl <=? 3));;
  ASSERT ((0 <=? type) && (type <=? 15));;
  let e0 := Z.lor (Z.land function 0xffff) (Z.shiftl SEL_KCSEG 16) in
  let e1 := Z.lor (Z.lor (Z.lor (Z.lor (Z.land function 0xffff0000) (Z.shiftl 1 15))
                                (u32 (Z.shiftl dpl 13))) (Z.shiftl 0 12)) (u32 (Z.shiftl type 8)) in
  Ok (Z.lor e0 (u64 (Z.shiftl e1 32))).

Definition make_intr_gate (function dpl : Z) : res Z := make_gate function dpl 14.
Definition make_trap_gate (function dpl : Z) : res Z := make_gate function dpl 15.

Definition make_idtr_operand (limit base : Z) : Z := Z.lor limit (u64 (Z.shiftl (u32 base) 16)).

(** ** The tables *)

Record intr_table (H : Type) := mk_intr_table {
  idt : list Z;
  idtr : Z;                              (* the operand of the last LIDT *)
  intr_handlers : list (option H);
  intr_names : list string;
  unexpected_cnt : list Z
}.
Arguments mk_intr_table {H}.
Arguments idt {H}.
Arguments idtr {H}.
Arguments intr_handlers {H}.
Arguments intr_names {H}.
Arguments unexpected_cnt {H}.

(** The names of the CPU's own exceptions. *)
Definition exception_names : list (Z * string) :=
  [(0, "#DE Divide Error"%string); (1, "#DB Debug Exception"%string); (2, "NMI Interrupt"%string);
   (3, "#BP Breakpoint Exception"%string); (4, "#OF Overflow Exception"%string);
   (5, "#BR BOUND Range Exceeded Exception"%string); (6, "#UD Invalid Opcode Exception"%string);
   (7, "#NM Device Not Available Exception"%string); (8, "#DF Double Fault Exception"%string);
   (9, "Coprocessor Segment Overrun"%string); (10, "#TS Invalid TSS Exception"%string);
   (11, "#NP Segment Not Present"%string); (12, "#SS Stack Fault Exception"%string);
   (13, "#GP General Protection Exception"%string); (14, "#PF Page-Fault Exception"%string);
   (16, "#MF x87 FPU Floating-Point Error"%string); (17, "#AC Alignment Check Exception"%string);
   (18, "#MC Machine-Check Exception"%string); (19, "#XF SIMD Floating-Point Exception"%string)].

Definition pic_init (tr : list io_event) : list io_event :=
  let tr := outb PIC0_DATA 0xff tr in
  let tr := outb PIC1_DATA 0xff tr in
  let tr := outb PIC0_CTRL 0x11 tr in
  let tr := outb PIC0_DATA 0x20 tr in
  let tr := outb PIC0_DATA 0x04 tr in
  let tr := outb PIC0_DATA 0x01 tr in
  let tr := outb PIC1_CTRL 0x11 tr in
  let tr := outb PIC1_DATA 0x28 tr in
  let tr := outb PIC1_DATA 0x02 tr in
  let tr := outb PIC1_DATA 0x01 tr in
  let tr := outb PIC0_DATA 0x00 tr in
  outb PIC1_DATA 0x00 tr.

Definition pic_end_of_interrupt (irq : Z) (tr : list io_event) : res (list io_event) :=
  ASSERT ((0x20 <=? irq) && (irq <? 0x30));;
  let tr := outb 0x20 0x20 tr in
  Ok (if 0x28 <=? irq then outb 0xa0 0x20 tr else tr).

Section Table.
(** [intr_stubs] of threads/intr-stubs.S and the address of the descriptor table. *)
Context {H : Type} (intr_stubs : Z -> Z) (idt_base : Z).
Implicit Types (s : intr_table H).

(** Static variables are zero. *)
Definition zero_table : intr_table H :=
  mk_intr_table (replicate 256 0) 0 (replicate 256 None) (replicate 256 EmptyString) (replicate 256 0).

Definition set_name s (v : Z * string) : res (intr_table H) :=
  names ← wr (intr_names s) v.1 v.2;
  Ok (mk_intr_table (idt s) (idtr s) (intr_handlers s) names (unexpected_cnt s)).

Fixpoint set_names (l : list (Z * string)) s : res (intr_table H) :=
  match l with [] => Ok s | v :: l => s ← set_name s v; set_names l s end.

Definition intr_init (s : intr_table H) (tr : list io_event) : res (intr_table H * list io_event) :=
  let tr := pic_init tr in
  gates ← while (fun '(i, gates) =>
    if i <? INTR_CNT then
      g ← make_intr_gate (intr_stubs i) 0;
      gates ← wr gates i g;
      Ok (inl (i + 1, gates))
    else Ok (inr gates)) (0, idt s);
  let s := mk_intr_table gates (make_idtr_operand (8 * INTR_CNT - 1) idt_base) (intr_handlers s) (intr_names s) (unexpected_cnt s) in
  names ← while (fun '(i, names) =>
    if i <? INTR_CNT then
      names ← wr names i "unknown"%string;
      Ok (inl (i + 1, names))
    else Ok (inr names)) (0, intr_names s);
  s ← set_names exception_names (mk_intr_table (idt s) (idtr s) (intr_handlers s) names (unexpected_cnt s));
  Ok (s, tr).

Definition register_handler (vec_no dpl : Z) (level : bool) (handler : H) (name : string) s : res (intr_table H) :=
  h ← rd (intr_handlers s) vec_no;
  ASSERT (match h with None => true | Some _ => false end);;
  g ← (if level then make_trap_gate (intr_stubs vec_no) dpl else make_intr_gate (intr_stubs vec_no) dpl);
  gates ← wr (idt s) vec_no g;
  handlers ← wr (intr_handlers s) vec_no (Some handler);
  names ← wr (intr_names s) vec_no name;
  Ok (mk_intr_table gates (idtr s) handlers names (unexpected_cnt s)).

Definition intr_register_ext (vec_no : Z) (handler : H) (name : string) s : res (intr_table H) :=
  ASSERT ((0x20 <=? vec_no) && (vec_no <=? 0x2f));;
  register_handler vec_no 0 false handler name s.

Definition intr_register_int (vec_no dpl : Z) (level : bool) (handler : H) (name : string) s : res (intr_table H) :=
  ASSERT ((vec_no <? 0x20) || (0x2f <? vec_no));;
  register_handler vec_no dpl level handler name s.

(** The result says whether a message is printed. *)
Definition unexpected_interrupt (vec_no : Z) s : res (bool * intr_table H) :=
  c ← rd (unexpected_cnt s) vec_no;
  let n := u32 (c + 1) in
  cnt ← wr (unexpected_cnt s) vec_no n;
  Ok (Z.land n (u32 (n - 1)) =? 0, mk_intr_table (idt s) (idtr s) (intr_handlers s) (intr_names s) cnt).

Definition intr_name (vec : Z) s : res string := rd (intr_names s) vec.
End Table.

(** ** What the CPU finds in the table

    The fields of a gate as IA-32 defines them: the address of the stub, its code segment,
    present, the privilege level a caller needs, and the type: 14 turns interrupts off, 15
    does not. *)
Record gate := mk_gate { g_offset : Z; g_selector : Z; g_present : bool; g_dpl : Z; g_type : Z }.

Definition bits (g lo n : Z) : Z := Z.land (Z.shiftr g lo) (Z.ones n).

Definition decode_gate (g : Z) : gate :=
  mk_gate (bits g 0 16 + Z.shiftl (bits g 48 16) 16) (bits g 16 16) (Z.testbit g 47) (bits g 45 2) (bits g 40 5).

Lemma bits_div g lo n : 0 <= lo -> 0 <= n -> bits g lo n = g / 2 ^ lo mod 2 ^ n.
Proof. intros. unfold bits. by rewrite Z.shiftr_div_pow2, Z.land_ones. Qed.

Lemma land_high f : 0 <= f < 2 ^ 32 -> Z.land f 0xffff0000 = f / 2 ^ 16 * 2 ^ 16.
Proof.
  intros Hf. rewrite <- Z.shiftl_mul_pow2, <- Z.shiftr_div_pow2 by lia. apply Z.bits_inj'. intros n Hn.
  change 0xffff0000 with (Z.shiftl (Z.ones 16) 16). rewrite Z.land_spec. destruct (Z.lt_ge_cases n 16).
  - rewrite !Z.shiftl_spec_low by lia. apply andb_false_r.
  - rewrite !Z.shiftl_spec_high, Z.shiftr_spec by lia. replace (n - 16 + 16) with n by lia.
    destruct (Z.lt_ge_cases n 32); [rewrite Z.ones_spec_low by lia; apply andb_true_r|].
    by rewrite (testbit_small f 32).
Qed.

Lemma gate_value f dpl type : 0 < f < 2 ^ 32 -> 0 <= dpl <= 3 -> 0 <= type <= 15 ->
  make_gate f dpl type = Ok (f mod 2 ^ 16 + SEL_KCSEG * 2 ^ 16 +
    (type * 2 ^ 8 + (dpl + (1 + f / 2 ^ 16 * 2) * 2 ^ 2) * 2 ^ 13) * 2 ^ 32).
Proof.
  intros Hf Hd Ht. unfold make_gate. rewrite !assert_bind by (unfold NULL; zbool).
  rewrite land_high by lia.
  rewrite !Z.shiftl_mul_pow2, Z.mul_0_l, Z.lor_0_r by lia. unfold u32, u64. rewrite !(Z.mod_small _ (2 ^ 32)) by lia.
  f_equal. assert (Z.land f 0xffff = f mod 2 ^ 16) as -> by (apply (Z.land_ones f 16); lia).
  pose proof (Z.mod_pos_bound f (2 ^ 16) ltac:(lia)).
  rewrite (lor_low (f mod 2 ^ 16) SEL_KCSEG 16) by lia.
  set (h := f / 2 ^ 16). assert (0 <= h < 2 ^ 16) by (subst h; split; [apply Z.div_pos; lia|apply Z.div_lt_upper_bound; lia]).
  rewrite (Z.lor_comm (h * 2 ^ 16)), (lor_low (1 * 2 ^ 15) h 16) by lia.
  replace (1 * 2 ^ 15 + h * 2 ^ 16) with ((1 + h * 2) * 2 ^ 15) by lia.
  rewrite (Z.lor_comm _ (dpl * 2 ^ 13)), (lor_low (dpl * 2 ^ 13) _ 15) by lia.
  replace (dpl * 2 ^ 13 + (1 + h * 2) * 2 ^ 15) with ((dpl + (1 + h * 2) * 2 ^ 2) * 2 ^ 13) by lia.
  rewrite (Z.lor_comm _ (type * 2 ^ 8)), (lor_low (type * 2 ^ 8) _ 13) by lia.
  rewrite (Z.mod_small _ (2 ^ 64)) by lia. rewrite lor_low by (unfold SEL_KCSEG; lia). done.
Qed.

Lemma make_gate_decode f dpl type : 0 < f < 2 ^ 32 -> 0 <= dpl <= 3 -> 0 <= type <= 15 ->
  exists g, make_gate f dpl type = Ok g /\ decode_gate g = mk_gate f SEL_KCSEG true dpl type.
Proof.
  intros Hf Hd Ht. eexists. split; [by apply gate_value|]. unfold decode_gate.
  rewrite !bits_div, Z.shiftl_mul_pow2, Z.testbit_odd, Z.shiftr_div_pow2 by lia.
  pose proof (Z.mod_pos_bound f (2 ^ 16) ltac:(lia)). pose proof (Z.div_mod f (2 ^ 16) ltac:(lia)).
  set (h := f / 2 ^ 16) in *. set (l := f mod 2 ^ 16) in *. unfold SEL_KCSEG.
  set (g := l + 8 * 2 ^ 16 + _). assert (0 <= h < 2 ^ 16) by lia.
  assert (g / 2 ^ 47 = 1 + h * 2) as -> by (subst g; Z.div_mod_to_equations; lia).
  f_equal; try (subst g; Z.div_mod_to_equations; lia). rewrite Z.mul_comm. apply (Z.odd_add_mul_2 1 h).
Qed.

Definition external (v : Z) : Prop := 0x20 <= v <= 0x2f.

Section Gates.
Context {H : Type} (intr_stubs : Z -> Z) (idt_base : Z).
Implicit Types (s : intr_table H) (v : Z).

(** The stubs are kernel code. *)
Definition stubs_ok : Prop := forall v, 0 <= v < 256 -> 0 < intr_stubs v < 2 ^ 32.

(** A gate that enters the vector's own stub in the kernel's code segment.  Those of
    external interrupts and those without a handler turn interrupts off and are closed to
    user programs. *)
Definition gate_ok s v (g : Z) : Prop := exists dpl type,
  decode_gate g = mk_gate (intr_stubs v) SEL_KCSEG true dpl type /\ 0 <= dpl <= 3 /\ (type = 14 \/ type = 15) /\
  (external v \/ intr_handlers s !! Z.to_nat v = Some None -> dpl = 0 /\ type = 14).

Record table_ok s : Prop := mk_table_ok {
  to_idt : length (idt s) = 256%nat;
  to_handlers : length (intr_handlers s) = 256%nat;
  to_names : length (intr_names s) = 256%nat;
  to_gates : forall v g, 0 <= v -> idt s !! Z.to_nat v = Some g -> gate_ok s v g
}.

(** A registration by some part of the kernel. *)
Inductive registers s s' : Prop :=
| registers_ext v h name : 0 <= v < 256 -> intr_register_ext intr_stubs v h name s = Ok s' -> registers s s'
| registers_int v dpl level h name : 0 <= v < 256 -> intr_register_int intr_stubs v dpl level h name s = Ok s' -> registers s s'.

Hypothesis Hstubs : stubs_ok.

(** What a registration does. *)
Lemma register_handler_inv v dpl (level : bool) h name s s' : 0 <= v < 256 -> length (idt s) = 256%nat ->
  register_handler intr_stubs v dpl level h name s = Ok s' ->
  intr_handlers s !! Z.to_nat v = Some None /\ exists g,
  decode_gate g = mk_gate (intr_stubs v) SEL_KCSEG true dpl (if level then 15 else 14) /\ 0 <= dpl <= 3 /\
  s' = mk_intr_table (<[Z.to_nat v := g]> (idt s)) (idtr s) (<[Z.to_nat v := Some h]> (intr_handlers s))
         (<[Z.to_nat v := name]> (intr_names s)) (unexpected_cnt s).
Proof.
  intros Hv Hl Hr. unfold register_handler in Hr. inv_res. destruct a; [done|]. apply rd_ok in Ha as [_ Ha]. split; [done|].
  assert (0 <= dpl <= 3) as Hd.
  { destruct level; unfold make_trap_gate, make_intr_gate, make_gate in Ha1; inv_res; zbool. }
  destruct (make_gate_decode (intr_stubs v) dpl (if level then 15 else 14) (Hstubs v Hv) Hd ltac:(destruct level; lia)) as (g & Hg & Hdec).
  assert (a1 = g) as -> by (destruct level; unfold make_trap_gate, make_intr_gate in Ha1; congruence).
  apply wr_ok_inv in Ha2 as [_ ->]. apply wr_ok_inv in Ha3 as [_ ->]. apply wr_ok_inv in Ha4 as [_ ->]. by exists g.
Qed.

Lemma register_ok v dpl (level : bool) h name s s' : table_ok s -> 0 <= v < 256 -> (external v -> dpl = 0 /\ level = false) ->
  register_handler intr_stubs v dpl level h name s = Ok s' -> table_ok s'.
Proof.
  intros [Hi Hh Hn Hg] Hv He Hr. apply register_handler_inv in Hr as (_ & g & Hd & Hdpl & ->); [|done..].
  split; simpl; rewrite ?length_insert; try done.
  intros u g' Hu Hlk. destruct (decide (v = u)) as [->|Hne].
  - rewrite list_lookup_insert_eq in Hlk by lia. simplify_eq. exists dpl, (if level then 15 else 14). split; [done|].
    split; [done|]. split; [destruct level; lia|]. simpl. rewrite list_lookup_insert_eq by lia.
    intros [Hx|?]; [|done]. by destruct (He Hx) as [-> ->].
  - rewrite list_lookup_insert_ne in Hlk by lia. destruct (Hg u g' Hu Hlk) as (d & ty & Hdec & Hdp & Hty & Hc).
    exists d, ty. simpl. by rewrite list_lookup_insert_ne by lia.
Qed.

Lemma registers_ok s s' : table_ok s -> registers s s' -> table_ok s'.
Proof.
  intros Hs [v h name Hv Hr|v dpl level h name Hv Hr].
  - unfold intr_register_ext in Hr. inv_res. by eapply register_ok.
  - unfold intr_register_int in Hr. inv_res. eapply register_ok; [done|done| |done]. unfold external. intros. zbool.
Qed.

(** The loop of [intr_init] over the descriptor table. *)
Lemma init_gates gates : length gates = 256%nat ->
  returns (while (fun '(i, gates) =>
    if i <? INTR_CNT then
      g ← make_intr_gate (intr_stubs i) 0;
      gates ← wr gates i g;
      Ok (inl (i + 1, gates))
    else Ok (inr gates)) (0, gates)) (fun gates => length gates = 256%nat /\
    forall v g, 0 <= v -> gates !! Z.to_nat v = Some g -> decode_gate g = mk_gate (intr_stubs v) SEL_KCSEG true 0 14).
Proof.
  intros Hl. apply (returns_while (fun '(i, gs) => 0 <= i <= 256 /\ length gs = 256%nat /\
    forall v g, 0 <= v < i -> gs !! Z.to_nat v = Some g -> decode_gate g = mk_gate (intr_stubs v) SEL_KCSEG true 0 14)
    (fun '(i, _) => 256 - i)); [|split; [lia|split; [done|lia]]|lia].
  intros [i gs] (Hi & Hgl & Hg). split; [lia|]. unfold INTR_CNT. destruct (Z.ltb_spec i 256).
  - unfold make_intr_gate. destruct (make_gate_decode (intr_stubs i) 0 14 (Hstubs i ltac:(lia)) ltac:(lia) ltac:(lia)) as (g & -> & Hd).
    rewrite bind_ok, wr_ok, bind_ok by lia. apply returns_ok. split; [|lia]. split; [lia|]. rewrite length_insert. split; [done|].
    intros v g' Hv Hlk. destruct (decide (v = i)) as [->|Hne].
    + rewrite list_lookup_insert_eq in Hlk by lia. by simplify_eq.
    + rewrite list_lookup_insert_ne in Hlk by lia. apply (Hg v g'); [lia|done].
  - apply returns_ok. split; [done|]. intros v g Hv Hlk. apply Hg; [|done]. apply lookup_lt_Some in Hlk as Hlt. lia.
Qed.

Lemma init_names names : length names = 256%nat ->
  returns (while (fun '(i, names) =>
    if i <? INTR_CNT then
      names ← wr names i "unknown"%string;
      Ok (inl (i + 1, names))
    else Ok (inr names)) (0, names)) (fun names => names = replicate 256 "unknown"%string).
Proof.
  intros Hl. apply (returns_while (fun '(i, ns) => 0 <= i <= 256 /\ ns = replicate (Z.to_nat i) "unknown"%string ++ drop (Z.to_nat i) names)
    (fun '(i, _) => 256 - i)); [|split; [lia|done]|lia].
  intros [i ns] (Hi & ->). split; [lia|]. unfold INTR_CNT. destruct (Z.ltb_spec i 256).
  - rewrite wr_ok, bind_ok by (rewrite length_app, length_replicate, length_drop; lia). apply returns_ok. split; [|lia]. split; [lia|].
    destruct (lookup_lt_is_Some_2 names (Z.to_nat i)) as [x Hx]; [lia|]. rewrite (drop_S _ _ _ Hx).
    rewrite insert_app_r_alt by (rewrite length_replicate; lia). rewrite length_replicate, Nat.sub_diag. simpl.
    replace (Z.to_nat (i + 1)) with (S (Z.to_nat i)) by lia. by rewrite replicate_S_end, <- app_assoc.
  - apply returns_ok. replace (Z.to_nat i) with 256%nat by lia. rewrite drop_ge by lia. apply app_nil_r.
Qed.

Lemma set_names_ok (l : list (Z * string)) s : Forall (fun p : Z * string => 0 <= p.1 < 256) l -> length (intr_names s) = 256%nat ->
  returns (set_names l s) (fun s' => length (intr_names s') = 256%nat /\ idt s' = idt s /\ idtr s' = idtr s /\
    intr_handlers s' = intr_handlers s /\ unexpected_cnt s' = unexpected_cnt s).
Proof.
  revert s. induction l as [|[v nm] l IH]; intros s Hl Hn; simpl; [by apply returns_ok|].
  apply Forall_cons in Hl as [Hv Hl]. unfold set_name. simpl in *. rewrite wr_ok, !bind_ok by lia.
  eapply returns_mono; [apply IH; [done|simpl; by rewrite length_insert]|done].
Qed.

Lemma exception_vectors : Forall (fun p : Z * string => 0 <= p.1 < 256) exception_names.
Proof. repeat (apply Forall_cons; split; [cbn; lia|]). apply Forall_nil. done. Qed.

Lemma intr_init_spec s tr : length (idt s) = 256%nat -> length (intr_names s) = 256%nat -> intr_handlers s = replicate 256 None ->
  returns (intr_init intr_stubs idt_base s tr) (fun '(s', tr') => table_ok s' /\ intr_handlers s' = replicate 256 None /\
    unexpected_cnt s' = unexpected_cnt s /\ idtr s' = make_idtr_operand 2047 idt_base /\ tr' = pic_init tr).
Proof.
  intros Hi Hn Hh. unfold intr_init. apply returns_bind. eapply returns_mono; [by apply init_gates|].
  intros gates (Hgl & Hg). cbn [intr_names idt idtr intr_handlers unexpected_cnt]. apply returns_bind.
  eapply returns_mono; [by apply init_names|]. intros names ->.
  apply returns_bind. eapply returns_mono; [apply set_names_ok; [exact exception_vectors|exact (length_replicate 256 _)]|].
  intros s' (Hl & E1 & E2 & E3 & E4). cbn [intr_names idt idtr intr_handlers unexpected_cnt] in *. apply returns_ok.
  rewrite E3, E4. split; [|split; [exact Hh|done]]. split; [by rewrite E1|by rewrite E3, Hh, length_replicate|done|].
  intros v g Hv Hlk. rewrite E1 in Hlk. exists 0, 14. split; [by apply Hg|]. split; [lia|]. split; [by left|done].
Qed.

(** What was registered stays. *)
Lemma registers_stable s s' (v : nat) h : table_ok s -> registers s s' -> intr_handlers s !! v = Some (Some h) ->
  intr_handlers s' !! v = Some (Some h).
Proof.
  intros Hs Hr Hh. assert (forall u dpl level h' name, 0 <= u < 256 -> register_handler intr_stubs u dpl level h' name s = Ok s' ->
    intr_handlers s' !! v = Some (Some h)) as Hu.
  { intros u dpl level h' name Hu Hreg. apply register_handler_inv in Hreg as (Hnone & g & _ & _ & ->); [|done|by destruct Hs].
    simpl. rewrite list_lookup_insert_ne; [done|]. intros <-. congruence. }
  destruct Hr as [u h' name Hb Hr|u dpl level h' name Hb Hr]; [unfold intr_register_ext in Hr|unfold intr_register_int in Hr]; inv_res; eauto.
Qed.

Lemma registers_rtc s s' : table_ok s -> rtc registers s s' ->
  table_ok s' /\ forall (v : nat) h, intr_handlers s !! v = Some (Some h) -> intr_handlers s' !! v = Some (Some h).
Proof.
  intros Hs Hr. induction Hr as [s|s s1 s2 H1 _ IH]; [done|]. pose proof (registers_ok _ _ Hs H1) as Hs1.
  destruct (IH Hs1) as [H2 Hk]. split; [done|]. intros v h Hv. apply Hk. by apply (registers_stable s s1).
Qed.
End Gates.

(** C29: The interrupt descriptor table.  [intr_init] returns, and after it and any
    registrations by the rest of the kernel the CPU finds, for every vector, a present gate
    to that vector's stub in the kernel's code segment; the gates of external interrupts
    turn interrupts off and cannot be called from user mode, and so do those of vectors
    without a handler.  A registered handler is never replaced: a second registration of a
    vector, or one as external or internal on the wrong side of 0x20-0x2f, fails. *)
Theorem interrupt_gates {H : Type} (intr_stubs : Z -> Z) idt_base tr : stubs_ok intr_stubs ->
  returns (intr_init intr_stubs idt_base (zero_table (H := H)) tr) (fun '(s0, _) => forall s, rtc (registers intr_stubs) s0 s ->
    (forall v, 0 <= v < 256 -> exists g, idt s !! Z.to_nat v = Some g /\ gate_ok intr_stubs s v g) /\
    (forall v h h' name dpl level, intr_handlers s !! Z.to_nat v = Some (Some h) -> 0 <= v ->
       register_handler intr_stubs v dpl level h' name s = Err AssertFail) /\
    (forall v h' name, ~ external v -> intr_register_ext intr_stubs v h' name s = Err AssertFail) /\
    (forall v h' name dpl level, external v -> intr_register_int intr_stubs v dpl level h' name s = Err AssertFail)).
Proof.
  intros Hst. eapply returns_mono; [by apply (intr_init_spec intr_stubs idt_base Hst zero_table tr)|].
  intros [s0 tr'] (Hok & _) s Hr. destruct (registers_rtc intr_stubs Hst _ _ Hok Hr) as [[Hi Hh Hn Hg] _]. split; [|split; [|split]].
  - intros v Hv. destruct (lookup_lt_is_Some_2 (idt s) (Z.to_nat v)) as [g Hgv]; [lia|]. exists g. split; [done|]. apply Hg; [lia|done].
  - intros v h h' name dpl level Hv H0. unfold register_handler. by rewrite (proj2 (rd_ok _ _ _) (conj H0 Hv)).
  - intros v h' name Hx. unfold intr_register_ext, external in *. unfold ASSERT. zbool.
  - intros v h' name dpl level Hx. unfold intr_register_int, external in *. unfold ASSERT. zbool.
Qed.

Definition example_stubs (v : Z) : Z := 0xc0021000 + 16 * v.

Lemma interrupt_gates_witness :
  returns (intr_init example_stubs 0xc0040000 (zero_table (H := nat)) []) (fun '(s0, _) => forall s, rtc (registers example_stubs) s0 s ->
    (forall v, 0 <= v < 256 -> exists g, idt s !! Z.to_nat v = Some g /\ gate_ok example_stubs s v g) /\
    (forall v h h' name dpl level, intr_handlers s !! Z.to_nat v = Some (Some h) -> 0 <= v ->
       register_handler example_stubs v dpl level h' name s = Err AssertFail) /\
    (forall v h' name, ~ external v -> intr_register_ext example_stubs v h' name s = Err AssertFail) /\
    (forall v h' name dpl level, external v -> intr_register_int example_stubs v dpl level h' name s = Err AssertFail)).
Proof. apply interrupt_gates. intros v Hv. unfold example_stubs. lia. Defined.
