(* ===== verification/Palloc.v ===== *)
(** * The page allocator (threads/palloc.c, threads/palloc.h)

    Two pools of pages, each a lock, a bitmap of used pages, a base address and the
    next-fit cursor; the three placement policies and the mode switch; allocation,
    release and initialisation.  The bitmap is any [BitArray] and the locks any
    [LockOps]; memory is written where the code zeroes or poisons pages. *)

From stdpp Require Import base list gmap numbers.
From Stdlib Require Import ZArith Lia.
From S2P Require Import Prelude Vaddr Bitmap CString Interfaces.
Import Round Vaddr.

Local Open Scope Z_scope.

(** ** Data *)

(** enum palloc_flags *)
Definition PAL_ASSERT : Z := 1.
Definition PAL_ZERO : Z := 2.
Definition PAL_USER : Z := 4.

Inductive palloc_mode := PAL_FIRST_FIT | PAL_NEXT_FIT | PAL_BEST_FIT | PAL_BUDDY.

#[export] Instance palloc_mode_eq_dec : EqDecision palloc_mode.
Proof. solve_decision. Defined.

Record pool {L B : Type} := mk_pool {
  pool_lock : L;
  used_map : B;
  base : Z;
  next_fit_start_idx : Z
}.
Arguments pool : clear implicits.
Arguments mk_pool {L B} _ _ _ _.

(** Which of the two static pools a pointer [struct pool *] designates. *)
Inductive pool_id := KernelPool | UserPool.

#[export] Instance pool_id_eq_dec : EqDecision pool_id.
Proof. solve_decision. Defined.

(** The static variables of palloc.c, with the kernel state behind the locks and
    the memory the pages live in. *)
Record palloc_state {K L B : Type} := mk_state {
  kernel_pool : pool L B;
  user_pool : pool L B;
  current_palloc_mode : palloc_mode;
  ksync : K;
  memory : mem
}.
Arguments palloc_state : clear implicits.
Arguments mk_state {K L B} _ _ _ _ _.

Definition flag_set (flags f : Z) : bool := negb (Z.land flags f =? 0).

Section Palloc.
Context {K L B : Type} `{!LockOps K L, !BitArray B}.
Abbreviation poolT := (pool L B).
Abbreviation stateT := (palloc_state K L B).

Definition get_pool (st : stateT) (w : pool_id) : poolT :=
  match w with KernelPool => kernel_pool st | UserPool => user_pool st end.

Definition put_pool (st : stateT) (w : pool_id) (p : poolT) : stateT :=
  match w with
  | KernelPool => mk_state p (user_pool st) (current_palloc_mode st) (ksync st) (memory st)
  | UserPool => mk_state (kernel_pool st) p (current_palloc_mode st) (ksync st) (memory st)
  end.

Definition put_ksync (st : stateT) (k : K) : stateT :=
  mk_state (kernel_pool st) (user_pool st) (current_palloc_mode st) k (memory st).

Definition put_memory (st : stateT) (m : mem) : stateT :=
  mk_state (kernel_pool st) (user_pool st) (current_palloc_mode st) (ksync st) m.

Definition with_map (p : poolT) (b : B) : poolT :=
  mk_pool (pool_lock p) b (base p) (next_fit_start_idx p).

Definition with_cursor (p : poolT) (i : Z) : poolT :=
  mk_pool (pool_lock p) (used_map p) (base p) i.

Definition palloc_set_mode (mode : palloc_mode) (st : stateT) : stateT :=
  mk_state (kernel_pool st) (user_pool st) mode (ksync st) (memory st).

(** ** Placement policies *)

Definition find_first_fit (pool : poolT) (page_cnt : Z) : res (Z * poolT) :=
  '(idx, b) ← ba_scan_and_flip (used_map pool) 0 page_cnt false;
  Ok (idx, with_map pool b).

Definition find_next_fit (pool : poolT) (page_cnt : Z) : res (Z * poolT) :=
  let bitmap_len := ba_size (used_map pool) in
  let start_idx := next_fit_start_idx pool in
  page_idx ← ba_scan (used_map pool) start_idx page_cnt false;
  page_idx ← (if page_idx =? BITMAP_ERROR then ba_scan (used_map pool) 0 page_cnt false
              else Ok page_idx);
  if negb (page_idx =? BITMAP_ERROR) then
    b ← ba_set_multiple (used_map pool) page_idx page_cnt true;
    let next_start := u32 (page_idx + page_cnt) in
    let pool := with_map pool b in
    if bitmap_len <=? next_start then Ok (page_idx, with_cursor pool 0)
    else Ok (page_idx, with_cursor pool next_start)
  else Ok (page_idx, pool).

(** The inner loop of [find_best_fit]: the number of consecutive free pages from
    [free_start]. *)
Definition count_free (b : B) (free_start : Z) : res Z :=
  loop (S (Z.to_nat (ba_size b))) (fun '(current_idx, free_cnt) =>
    if current_idx <? ba_size b then
      t ← ba_test b current_idx;
      if negb t then Ok (inl (u32 (current_idx + 1), u32 (free_cnt + 1)))
      else Ok (inr free_cnt)
    else Ok (inr free_cnt)) (free_start, 0).

(** The outer loop; its state is (idx, best_idx, best_size). *)
Definition best_fit_step (b : B) (page_cnt : Z) (s : Z * Z * Z) : res (Z * Z * Z + Z) :=
  let '(idx, best_idx, best_size) := s in
  if idx <? ba_size b then
    free_start ← ba_scan b idx 1 false;
    if free_start =? BITMAP_ERROR then Ok (inr best_idx)
    else
      free_cnt ← count_free b free_start;
      if (page_cnt <=? free_cnt) && (free_cnt <? best_size) then
        if free_cnt =? page_cnt then Ok (inr free_start)
        else Ok (inl (u32 (free_start + free_cnt), free_start, free_cnt))
      else Ok (inl (u32 (free_start + free_cnt), best_idx, best_size))
  else Ok (inr best_idx).

Definition find_best_fit (pool : poolT) (page_cnt : Z) : res (Z * poolT) :=
  best_idx ← loop (S (Z.to_nat (ba_size (used_map pool))))
    (best_fit_step (used_map pool) page_cnt) (0, BITMAP_ERROR, SIZE_MAX);
  if negb (best_idx =? BITMAP_ERROR) then
    b ← ba_set_multiple (used_map pool) best_idx page_cnt true;
    Ok (best_idx, with_map pool b)
  else Ok (best_idx, pool).

(** The switch of [palloc_get_multiple]; the buddy mode is the first-fit case. *)
Definition find_fit (mode : palloc_mode) (pool : poolT) (page_cnt : Z) : res (Z * poolT) :=
  match mode with
  | PAL_NEXT_FIT => find_next_fit pool page_cnt
  | PAL_BEST_FIT => find_best_fit pool page_cnt
  | PAL_BUDDY => find_first_fit pool page_cnt
  | PAL_FIRST_FIT => find_first_fit pool page_cnt
  end.

(** ** Allocation *)

Definition palloc_get_multiple (flags page_cnt : Z) (st : stateT) : res (Z * stateT) :=
  let w := if flag_set flags PAL_USER then UserPool else KernelPool in
  if page_cnt =? 0 then Ok (NULL, st) else
  k ← lock_acquire (pool_lock (get_pool st w)) (ksync st);
  '(page_idx, p) ← find_fit (current_palloc_mode st) (get_pool st w) page_cnt;
  k ← lock_release (pool_lock p) k;
  let st := put_ksync (put_pool st w p) k in
  let pages := if negb (page_idx =? BITMAP_ERROR)
               then u32 (base p + u32 (PGSIZE * page_idx)) else NULL in
  if negb (pages =? NULL) then
    if flag_set flags PAL_ZERO then
      m ← memset (memory st) pages 0 (u32 (PGSIZE * page_cnt));
      Ok (pages, put_memory st m)
    else Ok (pages, st)
  else
    if flag_set flags PAL_ASSERT then Err KernelPanic else Ok (pages, st).

Definition palloc_get_page (flags : Z) (st : stateT) : res (Z * stateT) :=
  palloc_get_multiple flags 1 st.

(** ** Release *)

Definition page_from_pool (pool : poolT) (page : Z) : bool :=
  let page_no := pg_no page in
  let start_page := pg_no (base pool) in
  let end_page := u32 (start_page + ba_size (used_map pool)) in
  (start_page <=? page_no) && (page_no <? end_page).

Definition palloc_free_multiple (pages page_cnt : Z) (st : stateT) : res stateT :=
  ASSERT (pg_ofs pages =? 0);;
  if (pages =? NULL) || (page_cnt =? 0) then Ok st else
  w ← (if page_from_pool (kernel_pool st) pages then Ok KernelPool
       else if page_from_pool (user_pool st) pages then Ok UserPool
       else Err KernelPanic);
  let p := get_pool st w in
  let page_idx := u32 (pg_no pages - pg_no (base p)) in
  m ← memset (memory st) pages 0xcc (u32 (PGSIZE * page_cnt));
  k ← lock_acquire (pool_lock p) (ksync st);
  all ← ba_all (used_map p) page_idx page_cnt;
  ASSERT all;;
  b ← ba_set_multiple (used_map p) page_idx page_cnt false;
  k ← lock_release (pool_lock p) k;
  Ok (put_memory (put_ksync (put_pool st w (with_map p b)) k) m).

Definition palloc_free_page (page : Z) (st : stateT) : res stateT :=
  palloc_free_multiple page 1 st.

(** [pool] is passed by identity; a null pool is the caller's [None]. *)
Definition buddy_system_free (pool : option pool_id) (pages : Z) (st : stateT) : res stateT :=
  match pool with
  | None => Ok st
  | Some w =>
    if pages =? NULL then Ok st else
    let p := get_pool st w in
    let page_idx := u32 (pg_no pages - pg_no (base p)) in
    k ← lock_acquire (pool_lock p) (ksync st);
    page_cnt ← loop (S (Z.to_nat (ba_size (used_map p)))) (fun page_cnt =>
      if u32 (page_idx + page_cnt) <? ba_size (used_map p) then
        t ← ba_test (used_map p) (u32 (page_idx + page_cnt));
        if (t : bool) then Ok (inl (u32 (page_cnt + 1))) else Ok (inr page_cnt)
      else Ok (inr page_cnt)) 1;
    all ← ba_all (used_map p) page_idx page_cnt;
    ASSERT all;;
    b ← ba_set_multiple (used_map p) page_idx page_cnt false;
    k ← lock_release (pool_lock p) k;
    Ok (put_ksync (put_pool st w (with_map p b)) k)
  end.

Definition palloc_get_page_index (page : Z) (st : stateT) : Z :=
  if page_from_pool (kernel_pool st) page then
    u32 (pg_no page - pg_no (base (kernel_pool st)))
  else if page_from_pool (user_pool st) page then
    u32 (pg_no page - pg_no (base (user_pool st)))
  else 0.

(** ** Initialisation *)

(** The 32-bit little-endian words that memory holds at [a]. *)
Definition load32 (m : mem) (a : Z) : Z :=
  u8 (m a) + 2 ^ 8 * u8 (m (a + 1)) + 2 ^ 16 * u8 (m (a + 2)) + 2 ^ 24 * u8 (m (a + 3)).

Definition words_at (m : mem) (a n : Z) : list Z :=
  map (fun i => load32 m (a + 4 * i)) (seqZ 0 n).

(** The bitmap is laid out at the pool's base: its header, then the element array in
    the rest of the [bm_pages] pages. *)
Definition init_pool (st : stateT) (w : pool_id) (base page_cnt : Z) : res stateT :=
  let bm_pages := DIV_ROUND_UP (bitmap_buf_size page_cnt) PGSIZE in
  if page_cnt <? bm_pages then Err KernelPanic else
  let page_cnt := page_cnt - bm_pages in
  let p := get_pool st w in
  let k := lock_init (pool_lock p) (ksync st) in
  let words := words_at (memory st) (base + SIZEOF_BITMAP)
                 ((bm_pages * PGSIZE - SIZEOF_BITMAP) / ELEM_SIZE) in
  b ← ba_create_in_buf page_cnt words (u32 (bm_pages * PGSIZE));
  Ok (put_ksync (put_pool st w (mk_pool (pool_lock p) b (u32 (base + bm_pages * PGSIZE)) 0)) k).

Definition palloc_init (init_ram_pages user_page_limit : Z) (st : stateT) : res stateT :=
  free_start ← ptov (1024 * 1024);
  free_end ← ptov (u32 (init_ram_pages * PGSIZE));
  let free_pages := u32 (Z.quot (i32 (free_end - free_start)) PGSIZE) in
  let user_pages := free_pages / 2 in
  let user_pages := if user_page_limit <? user_pages then user_page_limit else user_pages in
  let kernel_pages := free_pages - user_pages in
  st ← init_pool st KernelPool free_start kernel_pages;
  init_pool st UserPool (u32 (free_start + kernel_pages * PGSIZE)) user_pages.

(** ** Invariants *)

Definition psize (p : poolT) : Z := ba_size (used_map p).
Definition used (p : poolT) (i : Z) : bool := ba_bit (used_map p) i.

(** A pool's pages fill [base, base + PGSIZE * size), page aligned, above address 0
    and inside the address space; the cursor is a page of the pool, or 0. *)
Definition pool_wf (p : poolT) : Prop :=
  ba_wf (used_map p) /\ pg_ofs (base p) = 0 /\ 0 < base p /\
  base p + PGSIZE * psize p <= 2 ^ 32 /\
  0 <= next_fit_start_idx p /\ (next_fit_start_idx p < psize p \/ next_fit_start_idx p = 0).

(** Pages [i] to [i + n - 1] of the pool exist and are free. *)
Definition free_run (p : poolT) (i n : Z) : Prop :=
  0 <= i /\ i + n <= psize p /\ run_at (used p) i n false.

(** [p'] is [p] with exactly the pages [i] to [i + n - 1] set to [v]. *)
Definition marked (p p' : poolT) (i n : Z) (v : bool) : Prop :=
  pool_wf p' /\ pool_lock p' = pool_lock p /\ base p' = base p /\ psize p' = psize p /\
  forall j, 0 <= j -> used p' j = if (i <=? j) && (j <? i + n) then v else used p j.

(** The contract common to the placement policies: they take a free run that is
    there, and report failure only when there is none. *)
Definition placed (p : poolT) (n : Z) (r : Z * poolT) : Prop :=
  let '(idx, p') := r in
  (free_run p idx n /\ marked p p' idx n true) \/
  (idx = BITMAP_ERROR /\ p' = p /\ forall i, ~ free_run p i n).

(** A hole: a maximal run of free pages. *)
Definition hole (p : poolT) (s n : Z) : Prop :=
  0 < n /\ free_run p s n /\
  (s = 0 \/ used p (s - 1) = true) /\ (s + n = psize p \/ used p (s + n) = true).

Lemma psize_range p : pool_wf p -> 0 <= psize p <= 2 ^ 32 - 32.
Proof. intros (Hwf & _). exact (ba_size_range _ Hwf). Qed.

(** The size of a pool is far below [BITMAP_ERROR]: its pages fit the address space. *)
Lemma psize_small p : pool_wf p -> 0 <= psize p < 2 ^ 20.
Proof.
  intros Hp. pose proof (psize_range p Hp). destruct Hp as (_ & _ & Hb & Hle & _).
  change PGSIZE with 4096 in Hle. lia.
Qed.

Lemma set_run_marked p i n v :
  pool_wf p -> 0 <= i -> 0 <= n -> i + n <= psize p ->
  returns (ba_set_multiple (used_map p) i n v) (fun b => marked p (with_map p b) i n v).
Proof.
  intros Hp Hi Hn Hle. pose proof Hp as (Hwf & Ho & Hb & Ht & Hc0 & Hc).
  eapply returns_mono; [by apply ba_set_multiple_law|]. simpl. intros b (Hwf' & Hsz & Hbits).
  unfold marked, pool_wf, psize in *. simpl. rewrite Hsz. done.
Qed.

(** *** First fit *)
Lemma find_first_fit_spec p n :
  pool_wf p -> 0 < n ->
  returns (find_first_fit p n) (fun r => placed p n r /\
    (r.1 <> BITMAP_ERROR -> forall i, free_run p i n -> r.1 <= i)).
Proof.
  intros Hp Hn. pose proof (psize_small p Hp) as Hsz. pose proof Hp as (Hwf & _).
  unfold find_first_fit. rewrite ba_scan_and_flip_law. apply returns_bind, returns_bind.
  eapply returns_mono; [apply ba_scan_law; [done|unfold psize in Hsz; lia|lia]|].
  intros idx [(H0 & Hle & Hrun & Hmin)|(-> & Hnone)].
  - fold (psize p) in Hle. assert (Hne : (idx =? BITMAP_ERROR) = false).
    { apply Z.eqb_neq. unfold BITMAP_ERROR, SIZE_MAX, UINT32_MAX. lia. }
    rewrite Hne. simpl. apply returns_bind.
    eapply returns_mono; [apply set_run_marked; done || lia|]. simpl. intros b Hm. split.
    + left. split; [done|]. done.
    + intros _ i (Hi & Hle' & Hrun'). destruct (decide (idx <= i)); [done|].
      exfalso. apply (Hmin i); [lia|done].
  - simpl. split; [|done]. right. split; [done|]. split; [by destruct p|].
    intros i (Hi & Hle & Hrun). by apply (Hnone i).
Qed.

(** *** Next fit *)

(** An index of a pool is not the error value. *)
Lemma idx_not_error p idx n : pool_wf p -> free_run p idx n -> 0 < n ->
  (idx =? BITMAP_ERROR) = false.
Proof.
  intros Hp (H0 & Hle & _) Hn. pose proof (psize_small p Hp).
  apply Z.eqb_neq. unfold BITMAP_ERROR, SIZE_MAX, UINT32_MAX. lia.
Qed.

(** Where next fit looks: the first free run at or after the cursor, and only when
    there is none there, the first one from the start. *)
Definition next_fit_choice (p : poolT) (n idx : Z) : Prop :=
  (next_fit_start_idx p <= idx /\
     forall i, next_fit_start_idx p <= i -> free_run p i n -> idx <= i) \/
  ((forall i, next_fit_start_idx p <= i -> ~ free_run p i n) /\
     forall i, free_run p i n -> idx <= i).

Lemma scan_free_run p start n : pool_wf p -> 0 <= start <= psize p -> 0 < n ->
  returns (ba_scan (used_map p) start n false) (fun idx =>
    (start <= idx /\ free_run p idx n /\ forall i, start <= i -> free_run p i n -> idx <= i) \/
    (idx = BITMAP_ERROR /\ forall i, start <= i -> ~ free_run p i n)).
Proof.
  intros Hp Hs Hn. pose proof Hp as (Hwf & _).
  eapply returns_mono; [apply ba_scan_law; done || lia|].
  intros idx [(H0 & Hle & Hrun & Hmin)|(-> & Hnone)].
  - left. split; [done|]. split; [split; [lia|done]|].
    intros i Hi (_ & _ & Hri). destruct (decide (idx <= i)); [done|].
    exfalso. apply (Hmin i); [lia|done].
  - right. split; [done|]. intros i Hi (_ & Hle & Hri). by apply (Hnone i).
Qed.

Lemma next_fit_take p n idx :
  pool_wf p -> 0 < n -> free_run p idx n -> next_fit_choice p n idx ->
  returns (b ← ba_set_multiple (used_map p) idx n true;
    let next_start := u32 (idx + n) in
    if ba_size (used_map p) <=? next_start then Ok (idx, with_cursor (with_map p b) 0)
    else Ok (idx, with_cursor (with_map p b) next_start))
  (fun r => placed p n r /\
    (r.1 <> BITMAP_ERROR -> next_fit_choice p n r.1 /\
      next_fit_start_idx r.2 = if psize p <=? r.1 + n then 0 else r.1 + n)).
Proof.
  intros Hp Hn Hf Hch. pose proof (psize_small p Hp) as Hsz. pose proof Hf as (H0 & Hle & _).
  apply returns_bind. eapply returns_mono; [apply set_run_marked; done || lia|].
  intros b (Hwf' & Hl & Hb & Hs & Hbits). simpl. rewrite u32_small by lia.
  destruct Hwf' as (W1 & W2 & W3 & W4 & _). fold (psize p).
  destruct (Z.leb_spec (psize p) (idx + n)) as [Hge|Hlt]; simpl;
    (split; [left; split; [done|]|rewrite ?(proj2 (Z.leb_le _ _) Hge), ?(proj2 (Z.leb_gt _ _) Hlt); done]).
  - split; [|done]. do 4 (split; [done|]). split; [done|by right].
  - split; [|done]. do 4 (split; [done|]). split; [simpl; lia|]. left. unfold psize in *. simpl in *. lia.
Qed.

Lemma find_next_fit_spec p n :
  pool_wf p -> 0 < n ->
  returns (find_next_fit p n) (fun r => placed p n r /\
    (r.1 <> BITMAP_ERROR -> next_fit_choice p n r.1 /\
      next_fit_start_idx r.2 = if psize p <=? r.1 + n then 0 else r.1 + n)).
Proof.
  intros Hp Hn. pose proof (psize_small p Hp) as Hsz. pose proof Hp as (_ & _ & _ & _ & Hc0 & Hc).
  unfold find_next_fit. apply returns_bind.
  eapply returns_mono; [apply scan_free_run; done || lia|].
  intros idx [(Hge & Hf & Hmin)|(-> & Hnone)].
  - rewrite (idx_not_error p idx n) by done. simpl. rewrite (idx_not_error p idx n) by done. simpl.
    apply next_fit_take; [done|done|done|]. by left.
  - rewrite Z.eqb_refl. simpl. apply returns_bind.
    eapply returns_mono; [apply scan_free_run; done || lia|].
    intros idx [(_ & Hf & Hmin)|(-> & Hnone0)].
    + rewrite (idx_not_error p idx n) by done. simpl.
      apply next_fit_take; [done|done|done|]. right. split; [done|].
      intros i Hi. apply Hmin; [apply Hi|done].
    + simpl. split; [|done]. right. split; [done|]. split; [done|].
      intros i Hi. apply (Hnone0 i); [apply Hi|done].
Qed.

(** *** Best fit *)

(** Every free run lies in a hole. *)
Lemma extend_left p i n : 0 < n -> free_run p i n ->
  exists s, 0 <= s <= i /\ free_run p s (n + (i - s)) /\ (s = 0 \/ used p (s - 1) = true).
Proof.
  intros Hn Hf. pose proof Hf as (H0 & _). revert n Hn Hf. pattern i.
  apply natlike_ind; [| |done]; clear i H0.
  - intros n Hn Hf. exists 0. split; [lia|]. split; [|by left]. by replace (n + (0 - 0)) with n by lia.
  - intros i Hi IH n Hn (_ & Hle & Hrun). destruct (used p i) eqn:E.
    + exists (Z.succ i). split; [lia|].
      split; [|right; by replace (Z.succ i - 1) with i by lia].
      replace (n + _) with n by lia. split; [lia|done].
    + destruct (IH (n + 1)) as (s & Hs & Hfs & Hb); [lia| |].
      * split; [lia|]. split; [lia|]. intros j Hj.
        destruct (decide (j = i)) as [->|]; [done|]. apply Hrun; lia.
      * exists s. split; [lia|]. split; [|done]. by replace (n + (Z.succ i - s)) with (n + 1 + (i - s)) by lia.
Qed.

Lemma extend_right p i n : 0 < n -> free_run p i n ->
  exists m, n <= m /\ free_run p i m /\ (i + m = psize p \/ used p (i + m) = true).
Proof.
  intros Hn Hf. assert (Hk : exists k, 0 <= k /\ i + n + k = psize p).
  { exists (psize p - (i + n)). destruct Hf as (_ & ? & _). lia. }
  destruct Hk as (k & Hk & Hsum). revert n Hn Hf Hsum. pattern k.
  apply natlike_ind; [| |done]; clear k Hk.
  - intros n Hn Hf Hsum. exists n. split; [lia|]. split; [done|]. left; lia.
  - intros k Hk IH n Hn (H0 & Hle & Hrun) Hsum. destruct (used p (i + n)) eqn:E.
    + exists n. split; [lia|]. split; [done|by right].
    + destruct (IH (n + 1)) as (m & Hm & Hfm & Hb); [lia| |lia|].
      * split; [lia|]. split; [lia|]. intros j Hj.
        destruct (decide (j = i + n)) as [->|]; [done|]. apply Hrun; lia.
      * exists m. split; [lia|done].
Qed.

Lemma hole_of_run p i n : 0 < n -> free_run p i n -> exists s m, hole p s m /\ n <= m.
Proof.
  intros Hn Hf. destruct (extend_left p i n Hn Hf) as (s & Hs & Hfs & Hl).
  destruct (extend_right p s (n + (i - s)) ltac:(lia) Hfs) as (m & Hm & Hfm & Hr).
  exists s, m. split; [|lia]. split; [lia|]. done.
Qed.

Lemma hole_length_unique p s m m' : hole p s m -> hole p s m' -> m = m'.
Proof.
  intros (Hm & (H0 & Hle & Hr) & _ & He) (Hm' & (_ & Hle' & Hr') & _ & He').
  destruct (Z.lt_trichotomy m m') as [Hlt|[?|Hgt]]; [|done|].
  - destruct He as [He|He]; [lia|]. rewrite Hr' in He by lia. done.
  - destruct He' as [He'|He']; [lia|]. rewrite Hr in He' by lia. done.
Qed.

Lemma count_free_spec p s : pool_wf p -> 0 <= s < psize p -> used p s = false ->
  returns (count_free (used_map p) s) (fun c => 0 < c /\ free_run p s c /\
    (s + c = psize p \/ used p (s + c) = true)).
Proof.
  intros Hp Hs Hu. pose proof (psize_small p Hp) as Hsz. pose proof Hp as (Hwf & _).
  unfold count_free. fold (psize p).
  apply (returns_loop (fun '(cur, cnt) => 0 <= cnt /\ cur = s + cnt /\ free_run p s cnt)
    (fun '(cur, _) => Z.to_nat (psize p - cur))).
  - intros [cur cnt] (Hc & -> & Hf). pose proof Hf as (_ & Hle & Hrun).
    destruct (Z.ltb_spec (s + cnt) (psize p)); simpl.
    + rewrite ba_test_law by (done || unfold psize in *; lia). simpl. fold (used p (s + cnt)).
      destruct (used p (s + cnt)) eqn:E; simpl.
      * split; [|by eauto]. destruct (decide (cnt = 0)) as [->|]; [|lia].
        rewrite Z.add_0_r in E. congruence.
      * rewrite !u32_small by lia. split; [|lia]. split; [lia|]. split; [lia|].
        split; [lia|]. split; [lia|]. intros j Hj.
        destruct (decide (j = s + cnt)) as [->|]; [done|]. apply Hrun; lia.
    + split; [lia|]. split; [done|]. left; lia.
  - split; [lia|]. split; [lia|]. split; [lia|]. split; [lia|]. intros j Hj; lia.
  - unfold psize. lia.
Qed.

(** What best fit decides: the smallest hole that is large enough, the first of those
    of that size; or that no hole is large enough. *)
Definition best_among (p : poolT) (n bound bi bs : Z) : Prop :=
  (bi = BITMAP_ERROR /\ bs = SIZE_MAX /\ forall s m, hole p s m -> s < bound -> m < n) \/
  (hole p bi bs /\ n <= bs /\ bi < bound /\ forall s m, hole p s m -> s < bound -> n <= m ->
     bs <= m /\ (m = bs -> bi <= s)).

Lemma best_among_all p n bi bs : best_among p n (psize p) bi bs ->
  (bi = BITMAP_ERROR /\ forall s m, hole p s m -> m < n) \/
  (hole p bi bs /\ n <= bs /\ forall s m, hole p s m -> n <= m -> bs <= m /\ (m = bs -> bi <= s)).
Proof.
  assert (Hb : forall s m, hole p s m -> s < psize p) by (intros s m (? & (_ & ? & _) & _); lia).
  intros [(-> & _ & H)|(Hh & Hn & _ & H)]; [left|right]; eauto 6.
Qed.

Lemma best_among_extend p n idx idx' bi bs :
  idx <= idx' -> (forall s m, hole p s m -> idx <= s < idx' -> m < n) ->
  best_among p n idx bi bs -> best_among p n idx' bi bs.
Proof.
  intros Hle Hno [(-> & -> & H)|(Hh & Hn & Hbi & H)]; [left|right].
  - do 2 (split; [done|]). intros s m Hs Hlt.
    destruct (decide (s < idx)); [by eauto|]. apply (Hno s m Hs). lia.
  - do 2 (split; [done|]). split; [lia|]. intros s m Hs Hlt Hm.
    destruct (decide (s < idx)); [by eauto|]. specialize (Hno s m Hs). lia.
Qed.

(** The search position is at the start of the pool, at its end, or on a used page. *)
Definition boundary (p : poolT) (idx : Z) : Prop :=
  idx = 0 \/ idx = psize p \/ used p idx = true.

Lemma next_hole p idx fs c :
  0 <= idx -> boundary p idx -> idx <= fs ->
  (forall i, idx <= i < fs -> used p i = true) ->
  0 < c -> free_run p fs c -> (fs + c = psize p \/ used p (fs + c) = true) ->
  hole p fs c /\ forall s m, hole p s m -> idx <= s < fs + c -> s = fs.
Proof.
  intros H0 Hb Hle Hused Hc Hf He. pose proof Hf as (Hfs0 & Hfle & Hrun).
  assert (Hfree : used p fs = false) by (apply Hrun; lia). split.
  - split; [done|]. split; [done|]. split; [|done].
    destruct (decide (fs = idx)) as [->|]; [|right; apply Hused; lia].
    destruct Hb as [->|[->|Hb]]; [by left|lia|congruence].
  - intros s m (Hm & (Hs0 & Hsle & Hsrun) & Hleft & _) Hr.
    destruct (Z.lt_trichotomy s fs) as [Hlt|[?|Hgt]]; [|done|]; exfalso.
    + specialize (Hused s ltac:(lia)). rewrite Hsrun in Hused by lia. done.
    + destruct Hleft as [->|Hleft]; [lia|]. rewrite Hrun in Hleft by lia. done.
Qed.

Lemma scan_one p idx : pool_wf p -> 0 <= idx <= psize p ->
  returns (ba_scan (used_map p) idx 1 false) (fun fs =>
    (idx <= fs < psize p /\ used p fs = false /\ forall i, idx <= i < fs -> used p i = true) \/
    (fs = BITMAP_ERROR /\ forall i, idx <= i < psize p -> used p i = true)).
Proof.
  intros Hp Hi. assert (Hone : forall i, 0 <= i < psize p -> used p i = false -> free_run p i 1).
  { intros i Hr Hu. split; [lia|]. split; [lia|]. intros j Hj. by replace j with i by lia. }
  eapply returns_mono; [apply scan_free_run; done || lia|].
  intros fs [(Hge & (_ & Hle & Hrun) & Hmin)|(-> & Hnone)]; [left|right]; (split; [done || lia|]).
  - split; [apply Hrun; lia|]. intros i Hr. apply not_false_is_true. intros Hu.
    specialize (Hmin i ltac:(lia) (Hone i ltac:(lia) Hu)). lia.
  - intros i Hr. apply not_false_is_true. intros Hu.
    apply (Hnone i); [lia|]. apply Hone; [lia|done].
Qed.

Lemma best_fit_loop p n : pool_wf p -> 0 < n ->
  returns (loop (S (Z.to_nat (psize p))) (best_fit_step (used_map p) n) (0, BITMAP_ERROR, SIZE_MAX))
    (fun bi => exists bs, best_among p n (psize p) bi bs).
Proof.
  intros Hp Hn. pose proof (psize_small p Hp) as Hsz.
  apply (returns_loop (fun '(idx, bi, bs) => 0 <= idx <= psize p /\ boundary p idx /\
      best_among p n idx bi bs) (fun '(idx, _, _) => Z.to_nat (psize p - idx))).
  2: { split; [lia|]. split; [by left|]. left. do 2 (split; [done|]).
       intros s m (_ & (? & _) & _); lia. }
  2: lia.
  intros [[idx bi] bs] (Hi & Hbd & Hbest). unfold best_fit_step. fold (psize p).
  destruct (Z.ltb_spec idx (psize p)) as [Hlt|Hge].
  2: { exists bs. by assert (idx = psize p) as <- by lia. }
  apply returns_bind. eapply returns_mono; [by apply scan_one|].
  intros fs [(Hfs & Hfree & Hused)|(-> & Hall)].
  2: { simpl. exists bs. apply (best_among_extend p n idx); [lia| |done].
       intros s m (Hm & (_ & _ & Hrun) & _) Hs.
       specialize (Hrun s ltac:(lia)). rewrite Hall in Hrun by lia. done. }
  assert (Hne : (fs =? BITMAP_ERROR) = false)
    by (apply Z.eqb_neq; unfold BITMAP_ERROR, SIZE_MAX, UINT32_MAX; lia).
  rewrite Hne. apply returns_bind. eapply returns_mono; [apply count_free_spec; done || lia|].
  intros c (Hc & Hf & He).
  destruct (next_hole p idx fs c ltac:(lia) Hbd ltac:(lia) Hused Hc Hf He) as [Hhole Honly].
  pose proof Hf as (_ & Hfle & _). rewrite !(u32_small (fs + c)) by lia.
  assert (Hbd' : boundary p (fs + c)) by (unfold boundary; tauto).
  assert (Hnew : forall s m, hole p s m -> idx <= s < fs + c -> s = fs /\ m = c).
  { intros s m Hs Hr. assert (s = fs) as -> by (by apply (Honly s m)).
    split; [done|]. by apply (hole_length_unique p fs). }
  assert (Htake : n <= c -> c < bs -> best_among p n (fs + c) fs c).
  { intros Hnc Hcb. right. do 2 (split; [done|]). split; [lia|]. intros s m Hs Hlt' Hm.
    destruct (decide (idx <= s)) as [Hle|Hgt].
    - destruct (Hnew s m Hs) as [-> ->]; lia.
    - destruct Hbest as [(_ & _ & Hb)|(_ & _ & _ & Hb)]; specialize (Hb s m Hs ltac:(lia)); lia. }
  destruct (Z.leb_spec n c) as [Hnc|Hnc]; [destruct (Z.ltb_spec c bs) as [Hcb|Hcb]|]; simpl.
  - destruct (Z.eqb_spec c n) as [->|Hcn]; simpl.
    + exists n. specialize (Htake ltac:(lia) ltac:(lia)).
      destruct Htake as [(-> & _)|(Hh & Hle & _ & Hb)]; [done|].
      right. split; [done|]. split; [done|]. split; [lia|]. intros s m Hs _ Hm. split; [done|]. intros ->.
      destruct (decide (s < fs + n)); [|lia]. by apply (Hb s n).
    + split; [|lia]. split; [lia|]. split; [done|]. by apply Htake.
  - split; [|lia]. split; [lia|]. split; [done|].
    destruct Hbest as [(-> & -> & _)|(Hh & Hle & Hbi & Hb)].
    { exfalso. unfold SIZE_MAX, UINT32_MAX in Hcb. lia. }
    right. do 2 (split; [done|]). split; [lia|]. intros s m Hs Hlt' Hm.
    destruct (decide (idx <= s)) as [Hle'|Hgt]; [|apply Hb; done || lia].
    destruct (Hnew s m Hs) as [-> ->]; lia.
  - split; [|lia]. split; [lia|]. split; [done|].
    apply (best_among_extend p n idx); [lia| |done]. intros s m Hs Hr.
    destruct (Hnew s m Hs Hr) as [-> ->]. lia.
Qed.

Lemma find_best_fit_spec p n :
  pool_wf p -> 0 < n ->
  returns (find_best_fit p n) (fun r => placed p n r /\
    (r.1 <> BITMAP_ERROR -> exists bs, hole p r.1 bs /\ n <= bs /\
       forall s m, hole p s m -> n <= m -> bs <= m /\ (m = bs -> r.1 <= s))).
Proof.
  intros Hp Hn. unfold find_best_fit. apply returns_bind.
  eapply returns_mono; [by apply best_fit_loop|].
  intros bi (bs & [(-> & Hnone)|(Hh & Hbs & Hmin)]%best_among_all).
  - simpl. split; [|done]. right. split; [done|]. split; [done|].
    intros i Hf. destruct (hole_of_run p i n Hn Hf) as (s & m & Hs & Hm).
    specialize (Hnone s m Hs). lia.
  - assert (Hf : free_run p bi n).
    { destruct Hh as (_ & (H0 & Hle & Hrun) & _). split; [done|]. split; [lia|].
      intros j Hj. apply Hrun. lia. }
    rewrite (idx_not_error p bi n) by done. simpl. apply returns_bind.
    pose proof Hf as (H0 & Hle & _).
    eapply returns_mono; [apply set_run_marked; done || lia|]. intros b Hm. simpl.
    split; [by left|]. eauto 6.
Qed.

(** Every mode meets the common contract. *)
Lemma find_fit_placed mode p n :
  pool_wf p -> 0 < n -> returns (find_fit mode p n) (placed p n).
Proof.
  intros Hp Hn. destruct mode; simpl; eapply returns_mono;
    eauto using find_first_fit_spec, find_next_fit_spec, find_best_fit_spec; by intros r [? _].
Qed.

(** *** The whole allocator *)

Definition other (w : pool_id) : pool_id :=
  match w with KernelPool => UserPool | UserPool => KernelPool end.

Definition pool_end (p : poolT) : Z := base p + PGSIZE * psize p.

Definition state_wf (st : stateT) : Prop :=
  (forall w, pool_wf (get_pool st w)) /\
  pool_end (kernel_pool st) <= base (user_pool st) /\
  pool_lock (kernel_pool st) <> pool_lock (user_pool st) /\
  (forall w, lock_free (pool_lock (get_pool st w)) (ksync st)).

Lemma get_put_pool st w p : get_pool (put_pool st w p) w = p.
Proof. by destruct w. Qed.
Lemma get_put_other st w p : get_pool (put_pool st w p) (other w) = get_pool st (other w).
Proof. by destruct w. Qed.
Lemma get_put_ksync st w k : get_pool (put_ksync st k) w = get_pool st w.
Proof. by destruct w. Qed.
Lemma pool_id_cases w w' : w' = w \/ w' = other w.
Proof. destruct w, w'; auto. Qed.
Lemma pool_lock_ne st w : state_wf st ->
  pool_lock (get_pool st w) <> pool_lock (get_pool st (other w)).
Proof. intros (_ & _ & Hne & _). destruct w; simpl; congruence. Qed.

(** One pool changed by an operation that keeps its place and its lock, under that
    lock: the state stays well formed. *)
Lemma state_wf_update st w p' k m i n v :
  state_wf st -> marked (get_pool st w) p' i n v ->
  lock_free (pool_lock (get_pool st w)) k ->
  (forall l, l <> pool_lock (get_pool st w) -> lock_free l (ksync st) -> lock_free l k) ->
  state_wf (put_memory (put_ksync (put_pool st w p') k) m).
Proof.
  intros (Hw & Hd & Hne & Hl) (Hp' & El & Eb & Es & _) Hk Hfr.
  pose proof (Hw KernelPool). pose proof (Hw UserPool).
  pose proof (Hl KernelPool). pose proof (Hl UserPool).
  unfold state_wf, pool_end in *. destruct w; simpl in *; split_and!; try congruence.
  all: intros [|]; simpl; rewrite ?El; auto.
Qed.

(** [in_block a pages n]: address [a] lies in the [n] pages at [pages]. *)
Definition in_block (a pages n : Z) : bool := (pages <=? a) && (a <? pages + PGSIZE * n).

(** [pages] was taken from pool [w] of [st], leaving [st']: a free run became used,
    nothing else changed in either pool. *)
Definition taken (st : stateT) (w : pool_id) (n pages : Z) (st' : stateT) : Prop :=
  exists idx, free_run (get_pool st w) idx n /\
    find_fit (current_palloc_mode st) (get_pool st w) n = Ok (idx, get_pool st' w) /\
    marked (get_pool st w) (get_pool st' w) idx n true /\
    pages = base (get_pool st w) + PGSIZE * idx /\
    get_pool st' (other w) = get_pool st (other w) /\
    current_palloc_mode st' = current_palloc_mode st.

Definition pool_of (flags : Z) : pool_id :=
  if flag_set flags PAL_USER then UserPool else KernelPool.

Lemma run_address p idx n : pool_wf p -> free_run p idx n -> 0 < n ->
  0 < base p + PGSIZE * idx /\ 0 < PGSIZE * n /\ base p + PGSIZE * idx + PGSIZE * n <= 2 ^ 32 /\
  u32 (base p + u32 (PGSIZE * idx)) = base p + PGSIZE * idx /\ u32 (PGSIZE * n) = PGSIZE * n.
Proof.
  intros (_ & _ & Hb & He & _) (H0 & Hle & _) Hn. change PGSIZE with 4096 in *.
  rewrite !u32_small; rewrite ?u32_small; lia.
Qed.

(** A request that some run satisfies is satisfied, in every mode; the pages are
    zeroed when asked for and memory is otherwise untouched. *)
Lemma palloc_get_multiple_spec flags n st :
  state_wf st -> 0 < n -> (exists i, free_run (get_pool st (pool_of flags)) i n) ->
  returns (palloc_get_multiple flags n st) (fun '(pages, st') =>
    state_wf st' /\ pages <> NULL /\ taken st (pool_of flags) n pages st' /\
    forall a, memory st' a =
      if flag_set flags PAL_ZERO && in_block a pages n then 0 else memory st a).
Proof.
  intros Hst Hn [i Hi]. pose proof Hst as (Hw & _ & _ & Hl).
  unfold palloc_get_multiple. fold (pool_of flags). set (w := pool_of flags) in *.
  replace (n =? 0) with false by (symmetry; apply Z.eqb_neq; lia).
  apply returns_bind. eapply returns_mono; [apply lock_acquire_law, Hl|]. intros k1 [Hh Hfr1].
  destruct (returns_inv _ _ (find_fit_placed (current_palloc_mode st) _ n (Hw w) Hn))
    as ([idx p'] & Hfind & Hpl). rewrite Hfind. simpl.
  destruct Hpl as [(Hf & Hm)|(_ & _ & Hnone)]; [|by destruct (Hnone i)].
  pose proof Hm as (_ & El & Eb & _). rewrite El, Eb.
  apply returns_bind. eapply returns_mono; [by apply lock_release_law|]. intros k2 [Hf2 Hfr2].
  rewrite (idx_not_error (get_pool st w) idx n) by (by try apply Hw). simpl.
  destruct (run_address _ idx n (Hw w) Hf Hn) as (Hpos & Hlen & Hend & Ead & Esz).
  rewrite Ead, Esz. set (pages := base _ + _) in *.
  replace (pages =? NULL) with false by (symmetry; apply Z.eqb_neq; unfold NULL; lia). simpl.
  assert (Htk : forall m, taken st w n pages (put_memory (put_ksync (put_pool st w p') k2) m)).
  { intros m. exists idx. destruct w; simpl; eauto 10. }
  assert (Hwf' : forall m, state_wf (put_memory (put_ksync (put_pool st w p') k2) m)).
  { intros m. eapply state_wf_update; eauto. }
  destruct (flag_set flags PAL_ZERO); simpl.
  - apply returns_bind. eapply returns_mono; [apply memset_spec|].
    { unfold block_ok, NULL. lia. }
    intros m' Hm'. simpl. split; [apply Hwf'|]. split; [unfold NULL; lia|]. split; [apply Htk|].
    intros a. rewrite Hm'. unfold put_pool, put_ksync. destruct w; done.
  - split; [|split; [unfold NULL; lia|split]].
    + specialize (Hwf' (memory st)). by destruct w.
    + specialize (Htk (memory st)). by destruct w.
    + by destruct w.
Qed.

(** A request that no run satisfies: a panic under [PAL_ASSERT], a null pointer and
    unchanged pools otherwise. *)
Lemma palloc_get_multiple_none flags n st :
  state_wf st -> 0 < n -> (forall i, ~ free_run (get_pool st (pool_of flags)) i n) ->
  if flag_set flags PAL_ASSERT then palloc_get_multiple flags n st = Err KernelPanic
  else returns (palloc_get_multiple flags n st) (fun '(pages, st') =>
    pages = NULL /\ state_wf st' /\ (forall w, get_pool st' w = get_pool st w) /\
    memory st' = memory st /\ current_palloc_mode st' = current_palloc_mode st).
Proof.
  intros Hst Hn Hnone. pose proof Hst as (Hw & Hd & Hne & Hl).
  unfold palloc_get_multiple. fold (pool_of flags). set (w := pool_of flags) in *.
  replace (n =? 0) with false by (symmetry; apply Z.eqb_neq; lia).
  destruct (returns_inv _ _ (lock_acquire_law _ _ (Hl w))) as (k1 & -> & Hh & Hfr1). simpl.
  destruct (returns_inv _ _ (find_fit_placed (current_palloc_mode st) _ n (Hw w) Hn))
    as ([idx p'] & -> & [(Hf & _)|(-> & -> & _)]); [by destruct (Hnone idx)|]. simpl.
  destruct (returns_inv _ _ (lock_release_law _ _ Hh)) as (k2 & -> & Hf2 & Hfr2). simpl.
  destruct (flag_set flags PAL_ASSERT); [done|]. simpl.
  assert (Hsame : forall w', get_pool (put_ksync (put_pool st w (get_pool st w)) k2) w' = get_pool st w').
  { intros w'. destruct w, w'; done. }
  split; [done|]. split; [|split; [done|]; by destruct w].
  split; [intros w'; rewrite Hsame; apply Hw|].
  split; [by destruct w|]. split; [by destruct w|]. intros w'. rewrite Hsame. simpl.
  destruct (pool_id_cases w w') as [->| ->]; [done|].
  apply Hfr2; [|apply Hfr1; [|apply Hl]]; apply not_eq_sym, pool_lock_ne; done.
Qed.

(** Pages of a pool, by address. *)
Lemma page_from_pool_spec p a : pool_wf p -> in_u32 a ->
  page_from_pool p a = true <-> base p <= a < pool_end p.
Proof.
  intros Hp Ha. pose proof (psize_small p Hp) as Hsz. destruct Hp as (_ & Ho & Hb & He & _).
  unfold page_from_pool, pool_end. fold (psize p).
  rewrite andb_true_iff, Z.leb_le, Z.ltb_lt, !pg_no_div. rewrite pg_ofs_mod in Ho.
  unfold in_u32 in Ha. change PGSIZE with 4096 in *.
  pose proof (Z.div_mod (base p) 4096 ltac:(lia)). pose proof (Z.div_mod a 4096 ltac:(lia)).
  pose proof (Z.mod_pos_bound a 4096 ltac:(lia)).
  rewrite u32_small by lia. lia.
Qed.

Lemma page_number p i : pool_wf p -> 0 <= i < psize p ->
  in_u32 (base p + PGSIZE * i) /\ pg_ofs (base p + PGSIZE * i) = 0 /\
  base p <= base p + PGSIZE * i < pool_end p /\
  u32 (pg_no (base p + PGSIZE * i) - pg_no (base p)) = i.
Proof.
  intros Hp Hi. pose proof (psize_small p Hp). destruct Hp as (_ & Ho & Hb & He & _).
  split; [unfold in_u32; change PGSIZE with 4096 in *; lia|].
  split; [by apply pg_ofs_aligned|].
  split; [unfold pool_end; change PGSIZE with 4096; lia|].
  rewrite pg_no_aligned, u32_small; lia.
Qed.

(** Page [i] of a pool is found in that pool and not in the other. *)
Lemma find_pool st w i : state_wf st -> 0 <= i < psize (get_pool st w) ->
  page_from_pool (get_pool st w) (base (get_pool st w) + PGSIZE * i) = true /\
  page_from_pool (get_pool st (other w)) (base (get_pool st w) + PGSIZE * i) = false.
Proof.
  intros (Hw & Hd & _) Hi. destruct (page_number _ i (Hw w) Hi) as (Hr & _ & Hin & _).
  split; [by apply page_from_pool_spec|]. apply not_true_is_false.
  rewrite page_from_pool_spec by done. pose proof (Hw KernelPool) as (_ & _ & ? & _).
  destruct w; simpl in *; lia.
Qed.

Theorem palloc_get_page_index_spec st w i :
  state_wf st -> 0 <= i < psize (get_pool st w) ->
  palloc_get_page_index (base (get_pool st w) + PGSIZE * i) st = i.
Proof.
  intros Hst Hi. destruct (find_pool st w i Hst Hi) as [H1 H2].
  pose proof Hst as (Hw & _). destruct (page_number _ i (Hw w) Hi) as (_ & _ & _ & Hn).
  unfold palloc_get_page_index. destruct w; simpl in *; rewrite ?H1, ?H2; done.
Qed.

(** The [n] pages at [pages] are pages [idx] to [idx + n - 1] of pool [w], all in use. *)
Definition in_use (st : stateT) (w : pool_id) (idx n pages : Z) : Prop :=
  let p := get_pool st w in
  0 <= idx /\ 0 < n /\ idx + n <= psize p /\ run_at (used p) idx n true /\
  pages = base p + PGSIZE * idx.

Lemma in_use_address st w idx n pages : state_wf st -> in_use st w idx n pages ->
  pg_ofs pages = 0 /\ pages <> NULL /\ block_ok pages (PGSIZE * n) /\
  u32 (PGSIZE * n) = PGSIZE * n /\ u32 (pg_no pages - pg_no (base (get_pool st w))) = idx.
Proof.
  intros (Hw & _) (H0 & Hn & Hle & _ & ->).
  destruct (page_number _ idx (Hw w)) as (Hr & Ho & _ & Hi); [lia|].
  pose proof (Hw w) as (_ & _ & Hb & He & _). unfold block_ok, NULL, in_u32 in *.
  do 1 (split; [done|]). change PGSIZE with 4096 in *. rewrite u32_small by lia. lia.
Qed.

(** The pages at [pages] were given back to pool [w] of [st], leaving [st']. *)
Definition given_back (st : stateT) (w : pool_id) (idx n : Z) (st' : stateT) : Prop :=
  marked (get_pool st w) (get_pool st' w) idx n false /\
  get_pool st' (other w) = get_pool st (other w) /\
  current_palloc_mode st' = current_palloc_mode st.

(** The common tail of the two release functions: under the pool's lock, the run is
    asserted to be in use and cleared. *)
Lemma clear_run st w idx n m :
  state_wf st -> 0 <= idx -> 0 <= n -> idx + n <= psize (get_pool st w) ->
  run_at (used (get_pool st w)) idx n true ->
  returns (
    k ← lock_acquire (pool_lock (get_pool st w)) (ksync st);
    all ← ba_all (used_map (get_pool st w)) idx n;
    ASSERT all;;
    b ← ba_set_multiple (used_map (get_pool st w)) idx n false;
    k ← lock_release (pool_lock (get_pool st w)) k;
    Ok (put_memory (put_ksync (put_pool st w (with_map (get_pool st w) b)) k) m))
    (fun st' => state_wf st' /\ given_back st w idx n st' /\ memory st' = m).
Proof.
  intros Hst H0 Hn Hle Hrun. pose proof Hst as (Hw & _ & _ & Hl).
  apply returns_bind. eapply returns_mono; [apply lock_acquire_law, Hl|]. intros k1 [Hh Hfr1].
  apply returns_bind. pose proof (Hw w) as (Hwf & _).
  eapply returns_mono; [by apply ba_all_law|]. intros r [_ ->]; [simpl|done].
  apply returns_bind. eapply returns_mono; [by apply set_run_marked|]. intros b Hm.
  apply returns_bind. eapply returns_mono; [by apply lock_release_law|]. intros k2 [Hf2 Hfr2].
  simpl. split; [exact (state_wf_update _ _ _ _ m _ _ _ Hst Hm Hf2 (fun l Hne H => Hfr2 l Hne (Hfr1 l Hne H)))|]. split; [|done].
  by destruct w.
Qed.

(** Giving back pages that are in use clears exactly their bits and fills exactly
    their bytes with 0xcc. *)
Lemma palloc_free_multiple_spec st w idx n pages :
  state_wf st -> in_use st w idx n pages ->
  returns (palloc_free_multiple pages n st) (fun st' =>
    state_wf st' /\ given_back st w idx n st' /\
    forall a, memory st' a = if in_block a pages n then 0xcc else memory st a).
Proof.
  intros Hst Hu. destruct (in_use_address _ _ _ _ _ Hst Hu) as (Ho & Hnn & Hb & Es & Ei).
  pose proof Hu as (H0 & Hn & Hle & Hrun & Ep).
  destruct (find_pool st w idx Hst) as [Hin Hout]; [lia|]. rewrite <- Ep in Hin, Hout.
  unfold palloc_free_multiple. rewrite Ho. simpl.
  replace (pages =? NULL) with false by (symmetry; by apply Z.eqb_neq).
  replace (n =? 0) with false by (symmetry; apply Z.eqb_neq; lia). simpl.
  replace (if page_from_pool (kernel_pool st) pages then Ok KernelPool
           else if page_from_pool (user_pool st) pages then Ok UserPool
           else Err KernelPanic) with (Ok w)
    by (destruct w; simpl in *; by rewrite ?Hin, ?Hout).
  simpl. rewrite Ei, Es. apply returns_bind. eapply returns_mono; [by apply memset_spec|].
  intros m Hm. eapply returns_mono; [apply clear_run; done || lia|].
  intros st' (? & ? & ->). done.
Qed.

(** ** Clients of the allocator

    A client's view: the blocks it was given and has not given back, as a map from
    the first address of a block to its number of pages. *)
Definition clientT : Type := stateT * gmap Z Z.

Inductive palloc_step : clientT -> clientT -> Prop :=
| step_get flags n pages st st' live :
    0 <= n -> palloc_get_multiple flags n st = Ok (pages, st') -> pages <> NULL ->
    palloc_step (st, live) (st', <[pages := n]> live)
| step_get_null flags n st st' live :
    0 <= n -> palloc_get_multiple flags n st = Ok (NULL, st') ->
    palloc_step (st, live) (st', live)
| step_free pages n st st' live :
    live !! pages = Some n -> palloc_free_multiple pages n st = Ok st' ->
    palloc_step (st, live) (st', delete pages live)
| step_mode mode st live :
    palloc_step (st, live) (palloc_set_mode mode st, live).

Definition apart (p1 n1 p2 n2 : Z) : Prop :=
  p1 + PGSIZE * n1 <= p2 \/ p2 + PGSIZE * n2 <= p1.

Definition page_addr (st : stateT) (w : pool_id) (j : Z) : Z :=
  base (get_pool st w) + PGSIZE * j.

(** Live blocks are in use and do not overlap, and every page in use belongs to one
    of them. *)
Definition client_ok (c : clientT) : Prop :=
  let '(st, live) := c in
  state_wf st /\
  (forall p n, live !! p = Some n -> exists w idx, in_use st w idx n p) /\
  (forall p n p' n', live !! p = Some n -> live !! p' = Some n' -> p <> p' -> apart p n p' n') /\
  (forall w j, 0 <= j < psize (get_pool st w) -> used (get_pool st w) j = true ->
     exists p n, live !! p = Some n /\ in_block (page_addr st w j) p n = true).

(** The pages a run covers: those of its own indices in its own pool. *)
Lemma run_cover st w idx n w' j :
  state_wf st -> 0 <= idx -> idx + n <= psize (get_pool st w) ->
  0 <= j < psize (get_pool st w') ->
  in_block (page_addr st w' j) (page_addr st w idx) n = true <-> w' = w /\ idx <= j < idx + n.
Proof.
  intros (Hw & Hd & _) H0 Hle Hj. unfold in_block, page_addr, pool_end in *.
  rewrite andb_true_iff, Z.leb_le, Z.ltb_lt. change PGSIZE with 4096 in *.
  destruct w, w'; simpl in *; split; intuition (done || lia).
Qed.

(** Two non-empty runs that share no page do not overlap. *)
Lemma runs_apart st w1 i1 n1 w2 i2 n2 :
  state_wf st -> 0 <= i1 -> i1 + n1 <= psize (get_pool st w1) -> 0 < n1 ->
  0 <= i2 -> i2 + n2 <= psize (get_pool st w2) -> 0 < n2 ->
  (w1 = w2 -> i1 + n1 <= i2 \/ i2 + n2 <= i1) ->
  apart (page_addr st w1 i1) n1 (page_addr st w2 i2) n2.
Proof.
  intros (Hw & Hd & _) ?????? Hs. unfold apart, page_addr, pool_end in *.
  change PGSIZE with 4096 in *. destruct w1, w2; simpl in *; try specialize (Hs eq_refl); lia.
Qed.

(** A free run and a run in use of the same pool share no page. *)
Lemma free_used_runs p i n i' n' : run_at (used p) i n false -> run_at (used p) i' n' true ->
  0 < n -> 0 < n' -> i + n <= i' \/ i' + n' <= i.
Proof.
  intros Hf Hu Hn Hn'. destruct (decide (i + n <= i')); [by left|].
  destruct (decide (i' + n' <= i)); [by right|]. exfalso.
  pose proof (Hf (Z.max i i') ltac:(lia)). pose proof (Hu (Z.max i i') ltac:(lia)). congruence.
Qed.

(** One pool marked, the other kept: what changes, pool by pool. *)
Definition changed (st : stateT) (w : pool_id) (idx n : Z) (v : bool) (st' : stateT) : Prop :=
  forall w', base (get_pool st' w') = base (get_pool st w') /\
    psize (get_pool st' w') = psize (get_pool st w') /\
    forall j, 0 <= j -> used (get_pool st' w') j =
      if bool_decide (w' = w) && (idx <=? j) && (j <? idx + n) then v
      else used (get_pool st w') j.

Lemma changed_intro st w idx n v st' :
  marked (get_pool st w) (get_pool st' w) idx n v ->
  get_pool st' (other w) = get_pool st (other w) -> changed st w idx n v st'.
Proof.
  intros (_ & _ & Eb & Es & Eu) Eo w'. destruct (pool_id_cases w w') as [->| ->].
  - rewrite bool_decide_true by done. done.
  - rewrite Eo, bool_decide_false by (by destruct w). done.
Qed.

Lemma changed_addr st w idx n v st' w' j :
  changed st w idx n v st' -> page_addr st' w' j = page_addr st w' j.
Proof. intros H. unfold page_addr. by destruct (H w') as (-> & _). Qed.

Lemma in_use_changed st w idx n v st' w' idx' n' pages :
  changed st w idx n v st' -> in_use st w' idx' n' pages ->
  (v = false -> w' = w -> idx + n <= idx' \/ idx' + n' <= idx) ->
  in_use st' w' idx' n' pages.
Proof.
  intros Hc (H0 & Hn & Hle & Hrun & ->) Hd. destruct (Hc w') as (Eb & Es & Eu).
  split; [done|]. split; [done|]. rewrite Es. split; [done|]. split; [|by rewrite Eb].
  intros j Hj. rewrite Eu by lia. destruct v.
  - rewrite (Hrun j Hj). by destruct (_ && _).
  - case_bool_decide as Hw; [|by apply Hrun]. specialize (Hd eq_refl Hw).
    zbool; by apply Hrun.
Qed.

(** A block that [taken] describes is apart from every live block. *)
Lemma taken_apart st live w n pages st' p m :
  client_ok (st, live) -> 0 < n -> taken st w n pages st' -> live !! p = Some m ->
  apart pages n p m.
Proof.
  intros (Hst & Hlive & _) Hn (idx & (H0 & Hle & Hf) & _ & _ & -> & _) Hp.
  destruct (Hlive p m Hp) as (w' & i & (Hi & Hm & Hle' & Hu & ->)).
  apply runs_apart; try done. intros <-. by apply (free_used_runs (get_pool st w)).
Qed.

Lemma apart_irrefl p n m : 0 < n -> 0 < m -> ~ apart p n p m.
Proof. unfold apart. change PGSIZE with 4096. lia. Qed.

Lemma apart_sym p n p' n' : apart p n p' n' -> apart p' n' p n.
Proof. unfold apart. tauto. Qed.

Lemma taken_fresh st live w n pages st' :
  client_ok (st, live) -> 0 < n -> taken st w n pages st' -> live !! pages = None.
Proof.
  intros Hc Hn Ht. destruct (live !! pages) as [m|] eqn:E; [|done].
  destruct Hc as (Hst & Hlive & Hrest). destruct (Hlive _ _ E) as (? & ? & _ & Hm & _).
  destruct (apart_irrefl pages n m Hn Hm). by eapply taken_apart.
Qed.

Lemma client_ok_get st live w n pages st' :
  client_ok (st, live) -> 0 < n -> state_wf st' -> taken st w n pages st' ->
  client_ok (st', <[pages := n]> live).
Proof.
  intros Hc Hn Hst' Ht. pose proof Ht as (idx & (H0 & Hle & Hf) & _ & Hm & Ep & Eo & _).
  pose proof (changed_intro _ _ _ _ _ _ Hm Eo) as Hch.
  pose proof Hc as (Hst & Hlive & Hap & Hcov). split; [done|]. split; [|split].
  - intros p m [[<- <-]|[Hne Hp]]%lookup_insert_Some.
    + exists w, idx. destruct (Hch w) as (Eb & Es & Eu). split_and!; rewrite ?Eb, ?Es; try done.
      intros j Hj. rewrite Eu, bool_decide_true by (done || lia). zbool.
    + destruct (Hlive p m Hp) as (w' & i & Hu). exists w', i. by eapply in_use_changed.
  - intros p m p' m' [[<- <-]|[Hne Hp]]%lookup_insert_Some [[<- <-]|[Hne' Hp']]%lookup_insert_Some Hd;
      eauto using taken_apart, apart_sym. done.
  - intros w' j Hj Hu. destruct (Hch w') as (_ & Es & Eu). rewrite Es in Hj.
    rewrite Eu in Hu by lia. rewrite (changed_addr _ _ _ _ _ _ _ _ Hch).
    destruct (bool_decide (w' = w) && (idx <=? j) && (j <? idx + n)) eqn:E.
    + apply andb_true_iff in E as [[->%bool_decide_eq_true ?%Z.leb_le]%andb_true_iff ?%Z.ltb_lt].
      exists pages, n. rewrite lookup_insert_eq. split; [done|]. rewrite Ep.
      by apply (run_cover st w idx n).
    + destruct (Hcov w' j Hj Hu) as (p & m & Hp & Hin). exists p, m.
      rewrite lookup_insert_ne; [done|]. intros <-.
      by rewrite (taken_fresh _ _ _ _ _ _ Hc Hn Ht) in Hp.
Qed.

Lemma client_ok_free st live w idx n pages st' :
  client_ok (st, live) -> live !! pages = Some n -> in_use st w idx n pages ->
  state_wf st' -> given_back st w idx n st' -> client_ok (st', delete pages live).
Proof.
  intros Hc Hl Hu Hst' (Hm & Eo & _). pose proof (changed_intro _ _ _ _ _ _ Hm Eo) as Hch.
  pose proof Hc as (Hst & Hlive & Hap & Hcov). pose proof Hu as (H0 & Hn & Hle & _ & Ep).
  split; [done|]. split; [|split].
  - intros p m [Hne Hp]%lookup_delete_Some. destruct (Hlive p m Hp) as (w' & i & Hu').
    exists w', i. eapply in_use_changed; [done|done|]. intros _ ->.
    specialize (Hap _ _ _ _ Hl Hp Hne). destruct Hu' as (_ & _ & _ & _ & Ep').
    subst. unfold apart in Hap. change PGSIZE with 4096 in *. lia.
  - intros p m p' m' [Hne Hp]%lookup_delete_Some [Hne' Hp']%lookup_delete_Some. by apply Hap.
  - intros w' j Hj Huj. destruct (Hch w') as (_ & Es & Eu). rewrite Es in Hj.
    rewrite Eu in Huj by lia. rewrite (changed_addr _ _ _ _ _ _ _ _ Hch).
    destruct (bool_decide (w' = w) && (idx <=? j) && (j <? idx + n)) eqn:E; [done|].
    destruct (Hcov w' j Hj Huj) as (p & m & Hp & Hin). exists p, m. split; [|done].
    rewrite lookup_delete_ne; [done|]. intros ->. rewrite Hl in Hp. injection Hp as <-.
    rewrite Ep in Hin. apply (run_cover st w idx n) in Hin as [-> Hr]; [|done..].
    rewrite bool_decide_true in E by done. zbool.
Qed.

(** A pool has a free run of [n] pages or it has none: the placement policies decide. *)
Lemma free_run_dec p n : pool_wf p -> 0 < n ->
  (exists i, free_run p i n) \/ forall i, ~ free_run p i n.
Proof.
  intros Hp Hn. destruct (returns_inv _ _ (find_first_fit_spec p n Hp Hn))
    as ([idx p'] & _ & [[Hf _]|(_ & _ & Hnone)] & _); eauto.
Qed.

Definition same_pools (st st' : stateT) : Prop :=
  (forall w, get_pool st' w = get_pool st w) /\
  memory st' = memory st /\ current_palloc_mode st' = current_palloc_mode st.

(** The two ways an allocation returns. *)
Lemma palloc_get_multiple_cases flags n st pages st' :
  state_wf st -> 0 <= n -> palloc_get_multiple flags n st = Ok (pages, st') ->
  state_wf st' /\
  ((pages = NULL /\ same_pools st st') \/
   (pages <> NULL /\ 0 < n /\ taken st (pool_of flags) n pages st' /\
    forall a, memory st' a =
      if flag_set flags PAL_ZERO && in_block a pages n then 0 else memory st a)).
Proof.
  intros Hst Hn E. destruct (Z.eqb_spec n 0) as [->|Hne].
  { unfold palloc_get_multiple in E. simpl in E. injection E as <- <-.
    split; [done|]. by left. }
  assert (Hn' : 0 < n) by lia. pose proof Hst as (Hw & _).
  destruct (free_run_dec _ n (Hw (pool_of flags)) Hn') as [Hf|Hnone].
  - pose proof (palloc_get_multiple_spec flags n st Hst Hn' Hf) as H. rewrite E in H. simpl in H.
    destruct H as (? & ? & ? & ?). auto 8.
  - pose proof (palloc_get_multiple_none flags n st Hst Hn' Hnone) as H.
    destruct (flag_set flags PAL_ASSERT); rewrite E in H; [done|]. simpl in H.
    unfold same_pools. destruct H as (? & ? & ? & ? & ?). auto 8.
Qed.

Lemma client_ok_same st st' live :
  client_ok (st, live) -> state_wf st' -> (forall w, get_pool st' w = get_pool st w) ->
  client_ok (st', live).
Proof.
  intros (Hst & Hlive & Hap & Hcov) Hst' Hsame. unfold client_ok, in_use, page_addr in *.
  split_and!; [done| | |].
  - intros p n Hp. destruct (Hlive p n Hp) as (w & idx & H). exists w, idx. by rewrite Hsame.
  - done.
  - intros w j. rewrite !Hsame. apply Hcov.
Qed.

Lemma client_ok_step c c' : client_ok c -> palloc_step c c' -> client_ok c'.
Proof.
  intros Hc Hs. destruct Hs as [flags n pages st st' live Hn E Hnn|flags n st st' live Hn E
    |pages n st st' live Hl E|mode st live]; pose proof Hc as (Hst & Hlive & _).
  - destruct (palloc_get_multiple_cases _ _ _ _ _ Hst Hn E) as (Hst' & [[? _]|(_ & Hn' & Ht & _)]);
      [done|]. by eapply client_ok_get.
  - destruct (palloc_get_multiple_cases _ _ _ _ _ Hst Hn E) as (Hst' & [(_ & Hsame & _)|[? _]]);
      [|done]. by eapply client_ok_same.
  - destruct (Hlive _ _ Hl) as (w & idx & Hu).
    pose proof (palloc_free_multiple_spec _ _ _ _ _ Hst Hu) as H. rewrite E in H.
    destruct H as (Hst' & Hg & _). by eapply client_ok_free.
  - by eapply client_ok_same.
Qed.

Lemma client_ok_steps c c' : rtc palloc_step c c' -> client_ok c -> client_ok c'.
Proof. induction 1; eauto using client_ok_step. Qed.

(** The allocator writes only to the block it hands out or takes back. *)
Lemma client_memory_step st live st' live' p n a :
  client_ok (st, live) -> palloc_step (st, live) (st', live') ->
  live !! p = Some n -> live' !! p = Some n -> in_block a p n = true ->
  memory st' a = memory st a.
Proof.
  intros Hc Hs Hp Hp' Ha. pose proof Hc as (Hst & Hlive & Hap & _).
  assert (Hout : forall q m, apart q m p n -> in_block a q m = false).
  { unfold apart, in_block in *. intros q m Hd. apply not_true_is_false.
    rewrite andb_true_iff, Z.leb_le, Z.ltb_lt in Ha |- *. lia. }
  inversion Hs as [flags k pages ? ? ? Hk E Hnn|flags k ? ? ? Hk E|pages k ? ? ? Hl E|];
    subst; [..|done].
  - destruct (palloc_get_multiple_cases _ _ _ _ _ Hst Hk E) as (_ & [[? _]|(_ & Hk' & Ht & Hm)]);
      [done|]. rewrite Hm, Hout, andb_false_r; [done|]. by eapply taken_apart.
  - destruct (palloc_get_multiple_cases _ _ _ _ _ Hst Hk E) as (_ & [(_ & _ & Hm & _)|[? _]]);
      [|done]. by rewrite Hm.
  - destruct (Hlive _ _ Hl) as (w & idx & Hu). apply lookup_delete_Some in Hp' as [Hne _].
    pose proof (palloc_free_multiple_spec _ _ _ _ _ Hst Hu) as H. rewrite E in H.
    destruct H as (_ & _ & Hm). rewrite Hm, Hout; [done|]. by apply Hap.
Qed.

(** ** [buddy_system_free]

    The function has no record of a block's size: it gives back the whole run of used
    pages that starts at the given page. *)
Lemma buddy_count b idx :
  ba_wf b -> 0 <= idx < ba_size b -> ba_bit b idx = true ->
  returns (loop (S (Z.to_nat (ba_size b))) (fun page_cnt =>
      if u32 (idx + page_cnt) <? ba_size b then
        t ← ba_test b (u32 (idx + page_cnt));
        if (t : bool) then Ok (inl (u32 (page_cnt + 1))) else Ok (inr page_cnt)
      else Ok (inr page_cnt)) 1)
    (fun c => 0 < c /\ idx + c <= ba_size b /\ run_at (ba_bit b) idx c true /\
       (idx + c = ba_size b \/ ba_bit b (idx + c) = false)).
Proof.
  intros Hwf Hi Ht. pose proof (ba_size_range b Hwf) as Hsz.
  apply (returns_loop (fun c => 0 < c /\ idx + c <= ba_size b /\ run_at (ba_bit b) idx c true)
    (fun c => Z.to_nat (ba_size b - idx - c))).
  - intros c (Hc & Hle & Hrun). unfold ELEM_BITS, ELEM_SIZE in Hsz.
    rewrite u32_small by lia. destruct (Z.ltb_spec (idx + c) (ba_size b)).
    + rewrite ba_test_law by (done || lia). simpl.
      destruct (ba_bit b (idx + c)) eqn:E; simpl; [|auto].
      rewrite u32_small by lia. split; [|lia]. split; [lia|]. split; [lia|]. intros j Hj.
      destruct (decide (j = idx + c)) as [->|]; [done|]. apply Hrun. lia.
    + simpl. auto with lia.
  - split; [lia|]. split; [lia|]. intros j Hj. by assert (j = idx) as -> by lia.
  - lia.
Qed.

Lemma buddy_system_free_spec st w idx :
  state_wf st -> 0 <= idx < psize (get_pool st w) -> used (get_pool st w) idx = true ->
  returns (buddy_system_free (Some w) (page_addr st w idx) st) (fun st' =>
    state_wf st' /\ exists c, 0 < c /\ given_back st w idx c st' /\
      run_at (used (get_pool st w)) idx c true /\
      (idx + c = psize (get_pool st w) \/ used (get_pool st w) (idx + c) = false)).
Proof.
  intros Hst Hi Hu. assert (Huse : in_use st w idx 1 (page_addr st w idx)).
  { split_and!; try done || lia. intros j Hj. by assert (j = idx) as -> by lia. }
  destruct (in_use_address _ _ _ _ _ Hst Huse) as (_ & Hnn & _ & _ & Ei).
  unfold buddy_system_free. rewrite Ei.
  replace (page_addr st w idx =? NULL) with false by (symmetry; by apply Z.eqb_neq).
  pose proof Hst as (Hw & _). pose proof (Hw w) as (Hwf & _).
  destruct (returns_inv _ _ (buddy_count _ idx Hwf Hi Hu)) as (c & -> & Hc & Hle & Hrun & Hend).
  pose proof (clear_run st w idx c (memory st) Hst ltac:(lia) ltac:(lia) Hle Hrun) as H.
  simpl in H |- *. destruct (lock_acquire _ _); simpl in *; [|done].
  destruct (ba_all _ _ _) as [[]|]; simpl in *; try done.
  destruct (ba_set_multiple _ _ _ _); simpl in *; [|done].
  destruct (lock_release _ _); simpl in *; [|done].
  destruct H as (Hwf' & Hg & _). split; [by destruct w|]. exists c. split; [done|].
  split; [by destruct w|]. done.
Qed.

(** ** Initialisation *)

Lemma words_at_spec m a n :
  0 <= n -> Z.of_nat (length (words_at m a n)) = n /\ Forall in_u32 (words_at m a n).
Proof.
  intros Hn. unfold words_at. rewrite length_map, length_seqZ. split; [lia|].
  apply Forall_map, Forall_true. intros i. unfold in_u32, load32; simpl.
  pose proof (u8_range (m (a + 4 * i))). pose proof (u8_range (m (a + 4 * i + 1))).
  pose proof (u8_range (m (a + 4 * i + 2))). pose proof (u8_range (m (a + 4 * i + 3))). lia.
Qed.

(** The bitmap of [n] pages needs at most [n] pages, unless [n] is 0. *)
Lemma bitmap_pages n : 0 < n < 2 ^ 20 ->
  0 < DIV_ROUND_UP (bitmap_buf_size n) PGSIZE <= n /\
  bitmap_buf_size n <= DIV_ROUND_UP (bitmap_buf_size n) PGSIZE * PGSIZE /\
  bitmap_buf_size n = SIZEOF_BITMAP + ELEM_SIZE * elem_cnt n /\ 0 <= elem_cnt n.
Proof.
  intros Hn. pose proof (DIV_ROUND_UP_spec n ELEM_BITS ltac:(lia) ltac:(done)) as He.
  unfold bitmap_buf_size, byte_cnt, elem_cnt, SIZEOF_BITMAP, ELEM_SIZE in *.
  change ELEM_BITS with 32 in *. set (e := DIV_ROUND_UP n 32) in *.
  assert (Eb : u32 (8 + u32 (4 * e)) = 8 + 4 * e) by (rewrite !u32_small; rewrite ?u32_small; lia).
  rewrite Eb. pose proof (DIV_ROUND_UP_spec (8 + 4 * e) PGSIZE) as Hb.
  change PGSIZE with 4096 in *. lia.
Qed.

Lemma elem_cnt_mono n m : 0 <= n <= m -> m < 2 ^ 20 -> elem_cnt n <= elem_cnt m.
Proof. intros. apply DIV_ROUND_UP_mono; try done. change ELEM_BITS with 32. lia. Qed.

Lemma init_pool_spec st w bs n :
  lock_ctx (ksync st) -> pg_ofs bs = 0 -> 0 < bs -> 0 < n -> bs + PGSIZE * n < 2 ^ 32 ->
  returns (init_pool st w bs n) (fun st' =>
    let p := get_pool st' w in
    pool_wf p /\ run_at (used p) 0 (psize p) false /\ psize p < n /\
    bs < base p /\ pool_end p = bs + PGSIZE * n /\
    pool_lock p = pool_lock (get_pool st w) /\
    get_pool st' (other w) = get_pool st (other w) /\ memory st' = memory st /\
    ksync st' = lock_init (pool_lock p) (ksync st)).
Proof.
  intros Hk Ho Hb Hn He. assert (Hn20 : n < 2 ^ 20) by (change PGSIZE with 4096 in He; lia).
  destruct (bitmap_pages n ltac:(lia)) as (Hbm & Hfit & Ebuf & He0).
  unfold init_pool. set (bm := DIV_ROUND_UP (bitmap_buf_size n) PGSIZE) in *.
  replace (n <? bm) with false by (symmetry; apply Z.ltb_ge; lia).
  destruct (words_at_spec (memory st) (bs + SIZEOF_BITMAP)
    ((bm * PGSIZE - SIZEOF_BITMAP) / ELEM_SIZE)) as [Hlen Hwords].
  { apply Z.div_pos; [|done]. unfold SIZEOF_BITMAP, ELEM_SIZE in *. lia. }
  pose proof (elem_cnt_mono (n - bm) n ltac:(lia) Hn20) as Hmono.
  apply returns_bind. eapply returns_mono; [apply ba_create_law|].
  - unfold ELEM_BITS, ELEM_SIZE. lia.
  - rewrite u32_small by (change PGSIZE with 4096 in *; lia). etransitivity; [|exact Hfit].
    destruct (decide (n - bm = 0)) as [Hz|].
    + rewrite Hz, Ebuf. change (bitmap_buf_size 0) with SIZEOF_BITMAP. unfold ELEM_SIZE. lia.
    + destruct (bitmap_pages (n - bm)) as (_ & _ & -> & _); [lia|]. rewrite Ebuf. unfold ELEM_SIZE. lia.
  - rewrite Hlen. apply Z.div_le_lower_bound; [done|]. unfold ELEM_SIZE in *. lia.
  - done.
  - intros b (Hwf & Esz & Hfree). unfold returns. cbv zeta.
    rewrite get_put_ksync, get_put_pool, get_put_ksync, get_put_other.
    unfold pool_wf, pool_end, psize, used in *. simpl. rewrite Esz.
    rewrite (u32_small (bs + bm * PGSIZE)) by (change PGSIZE with 4096 in *; lia).
    assert (Hofs : pg_ofs (bs + bm * PGSIZE) = 0).
    { rewrite (Z.mul_comm bm). by apply pg_ofs_aligned. }
    change PGSIZE with 4096 in *. split_and!; try done || lia. all: by destruct w.
Qed.

(** Memory from 1 MB up is split into two pools, all pages free: the state a client
    starts from, with no live block. *)
Lemma palloc_init_spec ram limit st :
  lock_ctx (ksync st) -> pool_lock (kernel_pool st) <> pool_lock (user_pool st) ->
  258 <= ram < 2 ^ 18 -> 1 <= limit ->
  returns (palloc_init ram limit st) (fun st' =>
    client_ok (st', ∅) /\ memory st' = memory st /\
    (forall w, run_at (used (get_pool st' w)) 0 (psize (get_pool st' w)) false) /\
    PHYS_BASE + 1024 * 1024 < base (kernel_pool st') /\
    pool_end (user_pool st') = PHYS_BASE + PGSIZE * ram /\ psize (user_pool st') < limit).
Proof.
  intros Hk Hne Hram Hlim. unfold palloc_init, ptov.
  change (1024 * 1024 <? PHYS_BASE) with true. simpl.
  change (u32 (1024 * 1024 + PHYS_BASE)) with 0xc0100000.
  rewrite (u32_small (ram * PGSIZE)) by (change PGSIZE with 4096; lia).
  replace (ram * PGSIZE <? PHYS_BASE) with true
    by (symmetry; apply Z.ltb_lt; change PGSIZE with 4096; change PHYS_BASE with 0xc0000000; lia).
  simpl. change PHYS_BASE with 0xc0000000. set (fe := u32 (ram * PGSIZE + 0xc0000000)).
  assert (Hfe : fe = ram * 4096 + 0xc0000000) by (apply u32_small; change PGSIZE with 4096; lia).
  rewrite i32_small by lia.
  replace (Z.quot (fe - 0xc0100000) PGSIZE) with (ram - 256)
    by (change PGSIZE with 4096; rewrite Z.quot_div_nonneg; [|lia..];
        replace (fe - 0xc0100000) with ((ram - 256) * 4096) by lia; by rewrite Z.div_mul).
  rewrite (u32_small (ram - 256)) by lia. set (half := (ram - 256) / 2).
  assert (Hhalf : 1 <= half <= ram - 257) by (unfold half; Z.to_euclidean_division_equations; lia).
  set (up := if limit <? half then limit else half).
  assert (Hup : 1 <= up <= half /\ up <= limit) by (unfold up; zbool). clearbody up half fe.
  apply returns_bind. eapply returns_mono.
  { apply (init_pool_spec st KernelPool 0xc0100000 (ram - 256 - up)); try done; try lia.
    change PGSIZE with 4096. lia. }
  intros st1 (Hwf1 & Hfr1 & _ & Hb1 & He1 & El1 & Eo1 & Em1 & Ek1).
  destruct (lock_init_law (pool_lock (get_pool st1 KernelPool)) _ Hk) as (Hk1 & Hf1 & _).
  rewrite <- Ek1 in Hk1, Hf1. simpl in *.
  rewrite u32_small by (change PGSIZE with 4096; lia).
  eapply returns_mono.
  { apply (init_pool_spec st1 UserPool (0xc0100000 + (ram - 256 - up) * PGSIZE) up); try done.
    - rewrite (Z.mul_comm _ PGSIZE). by apply pg_ofs_aligned.
    - change PGSIZE with 4096. lia.
    - lia.
    - change PGSIZE with 4096. lia. }
  intros st2 (Hwf2 & Hfr2 & Hlt2 & Hb2 & He2 & El2 & Eo2 & Em2 & Ek2). simpl in *.
  destruct (lock_init_law (pool_lock (user_pool st2)) _ Hk1) as (_ & Hf2 & Hfo).
  rewrite <- Ek2 in Hf2, Hfo. rewrite Eo2 in *.
  assert (Hnel : pool_lock (kernel_pool st1) <> pool_lock (user_pool st2)) by congruence.
  assert (Hfree : forall w, run_at (used (get_pool st2 w)) 0 (psize (get_pool st2 w)) false)
    by (intros []; simpl; rewrite ?Eo2; done).
  split_and!; try done; try lia.
  - split; [intros []; simpl; by rewrite ?Eo2|]. simpl. rewrite Eo2.
    split; [lia|]. split; [done|]. intros []; simpl; rewrite ?Eo2; auto.
  - intros w j Hj Hu. by rewrite (Hfree w j ltac:(lia)) in Hu.
  - congruence.
  - rewrite He2. change PGSIZE with 4096. lia.
Qed.

End Palloc.
