(* ===== verification/KList.v ===== *)
(** * Doubly linked lists

    lib/kernel/list.c and the structures of lib/kernel/list.h.  The links live in a
    heap that maps the [prev] and [next] members of every [struct list_elem] to a
    pointer; elements of several lists share the heap, as they do in the kernel.  The
    operations read and write the heap member by member, in the order of the source. *)

From stdpp Require Import base list gmap numbers sorting.
From Stdlib Require Import ZArith Lia.
From S2P Require Import Prelude CString.

Local Open Scope Z_scope.

(** ** Heap *)

Inductive link := Prev | Next.

#[export] Instance link_eq_dec : EqDecision link.
Proof. solve_decision. Defined.
#[export] Program Instance link_countable : Countable link :=
  inj_countable' (fun f => match f with Prev => true | Next => false end)
                 (fun b : bool => if b then Prev else Next) _.
Next Obligation. by intros []. Qed.

(** [h !! (e, Prev)] is [e->prev]. *)
Abbreviation heap := (gmap (Z * link) Z).

Definition load (h : heap) (e : Z) (f : link) : res Z :=
  match h !! (e, f) with Some v => Ok v | None => Err BadAccess end.

Definition store_link (h : heap) (e : Z) (f : link) (v : Z) : res heap :=
  match h !! (e, f) with Some _ => Ok (<[(e, f) := v]> h) | None => Err BadAccess end.

(** A [struct list] at [l] is its head element followed by its tail element; a
    [struct list_elem] is two pointers. *)
Definition head_of (l : Z) : Z := l.
Definition tail_of (l : Z) : Z := l + 8.
Arguments head_of : simpl never.
Arguments tail_of : simpl never.

(** A loop over the elements of a list visits at most every element of the heap. *)
Definition list_fuel (h : heap) : nat := S (S (size h)).

(** ** Tests on elements *)

Definition is_head (h : heap) (elem : Z) : res bool :=
  if elem =? NULL then Ok false else
  p ← load h elem Prev;
  if negb (p =? NULL) then Ok false else
  n ← load h elem Next;
  Ok (negb (n =? NULL)).

Definition is_interior (h : heap) (elem : Z) : res bool :=
  if elem =? NULL then Ok false else
  p ← load h elem Prev;
  if p =? NULL then Ok false else
  n ← load h elem Next;
  Ok (negb (n =? NULL)).

Definition is_tail (h : heap) (elem : Z) : res bool :=
  if elem =? NULL then Ok false else
  p ← load h elem Prev;
  if p =? NULL then Ok false else
  n ← load h elem Next;
  Ok (n =? NULL).

(** C's [a || b]: the second test is evaluated only when the first fails. *)
Definition or_else (a b : res bool) : res bool :=
  r ← a; if (r : bool) then Ok true else b.

(** ** Traversal *)

Definition list_init (h : heap) (list : Z) : res heap :=
  ASSERT (negb (list =? NULL));;
  h ← store_link h (head_of list) Prev NULL;
  h ← store_link h (head_of list) Next (tail_of list);
  h ← store_link h (tail_of list) Prev (head_of list);
  store_link h (tail_of list) Next NULL.

Definition list_begin (h : heap) (list : Z) : res Z :=
  ASSERT (negb (list =? NULL));; load h (head_of list) Next.

Definition list_next (h : heap) (elem : Z) : res Z :=
  ok ← or_else (is_head h elem) (is_interior h elem);
  ASSERT ok;; load h elem Next.

Definition list_end (list : Z) : res Z :=
  ASSERT (negb (list =? NULL));; Ok (tail_of list).

Definition list_rbegin (h : heap) (list : Z) : res Z :=
  ASSERT (negb (list =? NULL));; load h (tail_of list) Prev.

Definition list_prev (h : heap) (elem : Z) : res Z :=
  ok ← or_else (is_interior h elem) (is_tail h elem);
  ASSERT ok;; load h elem Prev.

Definition list_rend (list : Z) : res Z :=
  ASSERT (negb (list =? NULL));; Ok (head_of list).

Definition list_head (list : Z) : res Z :=
  ASSERT (negb (list =? NULL));; Ok (head_of list).

Definition list_tail (list : Z) : res Z :=
  ASSERT (negb (list =? NULL));; Ok (tail_of list).

Definition list_empty (h : heap) (list : Z) : res bool :=
  b ← list_begin h list;
  e ← list_end list;
  Ok (b =? e).

(** ** Insertion and removal *)

Definition list_insert (h : heap) (before elem : Z) : res heap :=
  ok ← or_else (is_interior h before) (is_tail h before);
  ASSERT ok;;
  ASSERT (negb (elem =? NULL));;
  p ← load h before Prev;
  h ← store_link h elem Prev p;
  h ← store_link h elem Next before;
  p ← load h before Prev;
  h ← store_link h p Next elem;
  store_link h before Prev elem.

Definition list_splice (h : heap) (before first last : Z) : res heap :=
  ok ← or_else (is_interior h before) (is_tail h before);
  ASSERT ok;;
  if first =? last then Ok h else
  last ← list_prev h last;
  i ← is_interior h first; ASSERT i;;
  i ← is_interior h last; ASSERT i;;
  (* Cleanly remove FIRST...LAST from its current list. *)
  p ← load h first Prev;
  n ← load h last Next;
  h ← store_link h p Next n;
  n ← load h last Next;
  p ← load h first Prev;
  h ← store_link h n Prev p;
  (* Splice FIRST...LAST into new list. *)
  p ← load h before Prev;
  h ← store_link h first Prev p;
  h ← store_link h last Next before;
  p ← load h before Prev;
  h ← store_link h p Next first;
  store_link h before Prev last.

Definition list_push_front (h : heap) (list elem : Z) : res heap :=
  b ← list_begin h list; list_insert h b elem.

Definition list_push_back (h : heap) (list elem : Z) : res heap :=
  e ← list_end list; list_insert h e elem.

Definition list_remove (h : heap) (elem : Z) : res (Z * heap) :=
  i ← is_interior h elem; ASSERT i;;
  p ← load h elem Prev;
  n ← load h elem Next;
  h ← store_link h p Next n;
  n ← load h elem Next;
  p ← load h elem Prev;
  h ← store_link h n Prev p;
  n ← load h elem Next;
  Ok (n, h).

Definition list_front (h : heap) (list : Z) : res Z :=
  e ← list_empty h list; ASSERT (negb e);; load h (head_of list) Next.

Definition list_back (h : heap) (list : Z) : res Z :=
  e ← list_empty h list; ASSERT (negb e);; load h (tail_of list) Prev.

Definition list_pop_front (h : heap) (list : Z) : res (Z * heap) :=
  front ← list_front h list;
  '(_, h) ← list_remove h front;
  Ok (front, h).

Definition list_pop_back (h : heap) (list : Z) : res (Z * heap) :=
  back ← list_back h list;
  '(_, h) ← list_remove h back;
  Ok (back, h).

(** ** Size and reversal *)

Definition list_size (h : heap) (list : Z) : res Z :=
  e ← list_begin h list;
  loop (list_fuel h) (fun '(e, cnt) =>
    stop ← list_end list;
    if e =? stop then Ok (inr cnt)
    else n ← list_next h e; Ok (inl (n, u32 (cnt + 1)))) (e, 0).

(** [swap] exchanges the pointers held by two members. *)
Definition swap (h : heap) (a b : Z * link) : res heap :=
  t ← load h a.1 a.2;
  v ← load h b.1 b.2;
  h ← store_link h a.1 a.2 v;
  store_link h b.1 b.2 t.

Definition list_reverse (h : heap) (list : Z) : res heap :=
  empty ← list_empty h list;
  if negb empty then
    e ← list_begin h list;
    h ← loop (list_fuel h) (fun '(h, e) =>
      stop ← list_end list;
      if e =? stop then Ok (inr h)
      else
        h ← swap h (e, Prev) (e, Next);
        e ← load h e Prev;
        Ok (inl (h, e))) (h, e);
    h ← swap h (head_of list, Next) (tail_of list, Prev);
    first ← load h (head_of list) Next;
    last ← load h (tail_of list) Prev;
    swap h (first, Prev) (last, Next)
  else Ok h.

(** ** Ordered lists

    [less] is the caller's comparison with its auxiliary data; it compares the
    contents of two elements, which these functions do not change. *)
Section Ordered.
Variable less : Z -> Z -> bool.

Definition is_sorted (h : heap) (a b : Z) : res bool :=
  if negb (a =? b) then
    loop (list_fuel h) (fun a =>
      a ← list_next h a;
      if a =? b then Ok (inr true)
      else
        p ← list_prev h a;
        if less a p then Ok (inr false) else Ok (inl a)) a
  else Ok true.

Definition find_end_of_run (h : heap) (a b : Z) : res Z :=
  ASSERT (negb (a =? NULL));;
  ASSERT (negb (b =? NULL));;
  ASSERT (negb (a =? b));;
  loop (list_fuel h) (fun a =>
    a ← list_next h a;
    if a =? b then Ok (inr a)
    else
      p ← list_prev h a;
      if less a p then Ok (inr a) else Ok (inl a)) a.

Definition inplace_merge (h : heap) (a0 a1b0 b1 : Z) : res heap :=
  ASSERT (negb (a0 =? NULL));;
  ASSERT (negb (a1b0 =? NULL));;
  ASSERT (negb (b1 =? NULL));;
  s ← is_sorted h a0 a1b0; ASSERT s;;
  s ← is_sorted h a1b0 b1; ASSERT s;;
  loop (list_fuel h) (fun '(h, a0, a1b0) =>
    if (a0 =? a1b0) || (a1b0 =? b1) then Ok (inr h)
    else if negb (less a1b0 a0) then
      a0 ← list_next h a0; Ok (inl (h, a0, a1b0))
    else
      a1b0 ← list_next h a1b0;
      p ← list_prev h a1b0;
      h ← list_splice h a0 p a1b0;
      Ok (inl (h, a0, a1b0))) (h, a0, a1b0).

(** One pass: the body of the do-while loop; returns the number of runs output. *)
Definition sort_pass (h : heap) (list : Z) : res (heap * Z) :=
  a0 ← list_begin h list;
  loop (list_fuel h) (fun '(h, a0, output_run_cnt) =>
    stop ← list_end list;
    if a0 =? stop then Ok (inr (h, output_run_cnt))
    else
      let output_run_cnt := u32 (output_run_cnt + 1) in
      a1b0 ← find_end_of_run h a0 stop;
      if a1b0 =? stop then Ok (inr (h, output_run_cnt))
      else
        b1 ← find_end_of_run h a1b0 stop;
        h ← inplace_merge h a0 a1b0 b1;
        Ok (inl (h, b1, output_run_cnt))) (h, a0, 0).

Definition list_sort (h : heap) (list : Z) : res heap :=
  ASSERT (negb (list =? NULL));;
  h ← loop (list_fuel h) (fun h =>
    '(h, output_run_cnt) ← sort_pass h list;
    if 1 <? output_run_cnt then Ok (inl h) else Ok (inr h)) h;
  b ← list_begin h list;
  e ← list_end list;
  s ← is_sorted h b e; ASSERT s;;
  Ok h.

Definition list_insert_ordered (h : heap) (list elem : Z) : res heap :=
  ASSERT (negb (list =? NULL));;
  ASSERT (negb (elem =? NULL));;
  e ← list_begin h list;
  e ← loop (list_fuel h) (fun e =>
    stop ← list_end list;
    if e =? stop then Ok (inr e)
    else if less elem e then Ok (inr e)
    else n ← list_next h e; Ok (inl n)) e;
  list_insert h e elem.

Definition list_unique (h : heap) (list duplicates : Z) : res heap :=
  ASSERT (negb (list =? NULL));;
  empty ← list_empty h list;
  if (empty : bool) then Ok h else
  elem ← list_begin h list;
  loop (list_fuel h) (fun '(h, elem) =>
    next ← list_next h elem;
    stop ← list_end list;
    if next =? stop then Ok (inr h)
    else if negb (less elem next) && negb (less next elem) then
      '(_, h) ← list_remove h next;
      if negb (duplicates =? NULL) then
        h ← list_push_back h duplicates next;
        Ok (inl (h, elem))
      else Ok (inl (h, elem))
    else Ok (inl (h, next))) (h, elem).

(** The common loop of [list_max] and [list_min]: [better e m] replaces the element
    [m] kept so far by [e]. *)
Definition list_best (better : Z -> Z -> bool) (h : heap) (list : Z) : res Z :=
  best ← list_begin h list;
  stop ← list_end list;
  if negb (best =? stop) then
    e ← list_next h best;
    loop (list_fuel h) (fun '(best, e) =>
      stop ← list_end list;
      if e =? stop then Ok (inr best)
      else
        let best := if better e best then e else best in
        n ← list_next h e; Ok (inl (best, n))) (best, e)
  else Ok best.

Definition list_max (h : heap) (list : Z) : res Z :=
  list_best (fun e max => less max e) h list.

Definition list_min (h : heap) (list : Z) : res Z :=
  list_best (fun e min => less e min) h list.
End Ordered.

(** ** Representation

    [chain h p s n]: the elements of [s] are linked in order; the first one's [prev] is
    [p] and the last one's [next] is [n]. *)
Fixpoint chain (h : heap) (p : Z) (s : list Z) (n : Z) : Prop :=
  match s with
  | [] => True
  | a :: t => h !! (a, Prev) = Some p /\ h !! (a, Next) = Some (hd n t) /\ chain h a t n
  end.

Definition whole (l : Z) (es : list Z) : list Z := head_of l :: es ++ [tail_of l].
Arguments whole : simpl never.

(** The list at [l] holds the elements [es], front to back. *)
Record is_list (h : heap) (l : Z) (es : list Z) : Prop := {
  il_chain : chain h NULL (whole l es) NULL;
  il_nodup : NoDup (whole l es);
  il_range : Forall (fun a => 0 < a < 2 ^ 32) (whole l es)
}.

(** An element that a list may take: both of its members exist. *)
Definition allocated (h : heap) (e : Z) : Prop :=
  0 < e < 2 ^ 32 /\ is_Some (h !! (e, Prev)) /\ is_Some (h !! (e, Next)).

(** [h'] differs from [h] at most in the links of the elements of [s]; no member
    appears or disappears. *)
Definition frame (s : list Z) (h h' : heap) : Prop :=
  (forall e f, e ∉ s -> h' !! (e, f) = h !! (e, f)) /\ dom h' = dom h.

Section Chain.
Implicit Types (h : heap) (s t es : list Z) (a b l p n : Z).

Lemma last_cons_default a s p : List.last (a :: s) p = List.last s a.
Proof.
  revert a p. induction s as [|b s IH]; intros a p; [done|].
  change (List.last (b :: s) p = List.last (b :: s) a). by rewrite !IH.
Qed.

Lemma chain_app h p s t n :
  chain h p (s ++ t) n <-> chain h p s (hd n t) /\ chain h (List.last s p) t n.
Proof.
  revert p. induction s as [|a s IH]; intros p; [simpl; tauto|].
  rewrite last_cons_default. cbn [chain app]. rewrite IH.
  replace (hd n (s ++ t)) with (hd (hd n t) s) by (by destruct s). tauto.
Qed.

Lemma chain_ext h h' p s n :
  chain h p s n -> (forall a f, a ∈ s -> h' !! (a, f) = h !! (a, f)) -> chain h' p s n.
Proof.
  revert p. induction s as [|a s IH]; intros p; simpl; [done|]. intros (Hp & Hn & Hc) E.
  rewrite !E by set_solver. split; [done|]. split; [done|]. apply IH; [done|].
  intros; apply E; set_solver.
Qed.

Lemma chain_insert h p s n e f v : chain h p s n -> e ∉ s -> chain (<[(e, f) := v]> h) p s n.
Proof. intros Hc He. apply (chain_ext h); [done|]. intros. apply lookup_insert_ne. set_solver. Qed.

Lemma chain_dom h p s n a f : chain h p s n -> a ∈ s -> is_Some (h !! (a, f)).
Proof.
  revert p. induction s as [|b s IH]; intros p; simpl; [set_solver|]. intros (Hp & Hn & Hc).
  intros [->|Ha]%elem_of_cons; [|by eapply IH]. destruct f; eauto.
Qed.

Lemma last_snoc_cons (d : Z) s x : List.last (s ++ [x]) d = x.
Proof. apply List.last_last. Qed.

Lemma last_in (d : Z) s : s <> [] -> List.last s d ∈ s.
Proof.
  intros Hs. destruct (exists_last Hs) as (t & x & ->). rewrite List.last_last. set_solver.
Qed.

(** The neighbours of an element. *)
Lemma chain_at h p s a t n : chain h p (s ++ a :: t) n ->
  h !! (a, Prev) = Some (List.last s p) /\ h !! (a, Next) = Some (hd n t).
Proof. rewrite chain_app. simpl. tauto. Qed.
End Chain.

Lemma load_some (h : heap) e f v : h !! (e, f) = Some v -> load h e f = Ok v.
Proof. unfold load. by intros ->. Qed.

Lemma store_some (h : heap) e f v : is_Some (h !! (e, f)) -> store_link h e f v = Ok (<[(e, f) := v]> h).
Proof. unfold store_link. by intros [? ->]. Qed.

(** [look] computes a lookup in a heap after stores; [run_heap] executes the loads and
    stores at the front of a computation. *)
Ltac look :=
  repeat first
    [ rewrite lookup_insert_eq
    | rewrite lookup_insert_ne by (intros [=]; congruence) ].
Ltac run_heap :=
  repeat first
    [ erewrite load_some by (look; solve [eauto])
    | rewrite store_some by (look; solve [eauto])
    | progress simpl ].

(** ** Elements of a well-formed list *)
Section Elements.
Implicit Types (h : heap) (s t es : list Z) (a b l p n : Z).

Lemma whole_nonnull h l es a : is_list h l es -> a ∈ whole l es -> (a =? NULL) = false.
Proof.
  intros [_ _ Hr] Ha. rewrite Forall_forall in Hr. specialize (Hr a Ha).
  apply Z.eqb_neq. unfold NULL. lia.
Qed.

Lemma list_nonnull h l es : is_list h l es -> (l =? NULL) = false.
Proof. intros Hl. apply (whole_nonnull h l es); [done|]. unfold whole, head_of. set_solver. Qed.

Lemma link_tests h a p n :
  h !! (a, Prev) = Some p -> h !! (a, Next) = Some n -> (a =? NULL) = false ->
  is_interior h a = Ok (negb (p =? NULL) && negb (n =? NULL)) /\
  is_head h a = Ok ((p =? NULL) && negb (n =? NULL)) /\
  is_tail h a = Ok (negb (p =? NULL) && (n =? NULL)).
Proof.
  intros Hp%load_some Hn%load_some Ha. unfold is_interior, is_head, is_tail.
  rewrite Ha, Hp. simpl. by destruct (p =? NULL); rewrite ?Hn.
Qed.

(** What precedes and what follows a position of the list. *)
Definition before_of (l : Z) (es1 : list Z) : Z := List.last (head_of l :: es1) NULL.
Definition after_of (l : Z) (es2 : list Z) : Z := hd NULL (es2 ++ [tail_of l]).

Lemma whole_split l es1 es2 : whole l (es1 ++ es2) = (head_of l :: es1) ++ (es2 ++ [tail_of l]).
Proof. unfold whole. by rewrite <- app_assoc. Qed.

(** A position cuts the list between the elements [before_of] and [after_of]. *)
Lemma position l es1 es2 : exists s t,
  head_of l :: es1 = s ++ [before_of l es1] /\ es2 ++ [tail_of l] = after_of l es2 :: t /\
  whole l (es1 ++ es2) = s ++ before_of l es1 :: after_of l es2 :: t.
Proof.
  destruct (exists_last (l := head_of l :: es1)) as (s & p & E); [done|].
  destruct (es2 ++ [tail_of l]) as [|n t] eqn:En; [by destruct es2|].
  exists s, t. rewrite whole_split. unfold before_of, after_of. rewrite E, En, List.last_last.
  simpl. by rewrite <- app_assoc.
Qed.

Lemma whole_mid l es1 m es2 s p r :
  head_of l :: es1 = s ++ [p] -> es2 ++ [tail_of l] = r ->
  whole l (es1 ++ m ++ es2) = s ++ p :: m ++ r.
Proof. intros E1 <-. rewrite whole_split, E1, <- !app_assoc. done. Qed.

Lemma after_of_cons l a es : after_of l (a :: es) = a.
Proof. done. Qed.
Lemma after_of_nil l : after_of l [] = tail_of l.
Proof. done. Qed.
Lemma before_of_snoc l es a : before_of l (es ++ [a]) = a.
Proof. unfold before_of. rewrite app_comm_cons. apply List.last_last. Qed.
Lemma before_of_nil l : before_of l [] = head_of l.
Proof. done. Qed.

Lemma position_in l es1 es2 :
  before_of l es1 ∈ whole l (es1 ++ es2) /\ after_of l es2 ∈ whole l (es1 ++ es2).
Proof. destruct (position l es1 es2) as (s & t & _ & _ & ->). set_solver. Qed.

Lemma position_links h l es1 es2 : is_list h l (es1 ++ es2) ->
  h !! (before_of l es1, Next) = Some (after_of l es2) /\
  h !! (after_of l es2, Prev) = Some (before_of l es1) /\
  (before_of l es1 =? NULL) = false /\ (after_of l es2 =? NULL) = false.
Proof.
  intros Hl. destruct (position_in l es1 es2) as [Hb Ha].
  rewrite !(whole_nonnull h l (es1 ++ es2)) by done. destruct Hl as [Hc _ _].
  destruct (position l es1 es2) as (s & t & _ & _ & E). rewrite E in Hc.
  pose proof (chain_at _ _ _ _ _ _ Hc) as [_ H1].
  change (before_of l es1 :: after_of l es2 :: t) with ([before_of l es1] ++ after_of l es2 :: t) in Hc.
  rewrite app_assoc in Hc. pose proof (chain_at _ _ _ _ _ _ Hc) as [H2 _].
  rewrite List.last_last in H2. done.
Qed.

Lemma interior_links h l es1 a es2 : is_list h l (es1 ++ a :: es2) ->
  h !! (a, Prev) = Some (before_of l es1) /\ h !! (a, Next) = Some (after_of l es2) /\
  is_interior h a = Ok true /\ is_head h a = Ok false /\ (a =? NULL) = false.
Proof.
  intros Hl. destruct (position_links h l es1 (a :: es2) Hl) as (_ & Hp & Ep & Ea).
  assert (Hl' := Hl). rewrite cons_middle, app_assoc in Hl'.
  destruct (position_links h l (es1 ++ [a]) es2 Hl') as (Hn & _ & _ & En).
  rewrite before_of_snoc in Hn. rewrite after_of_cons in Hp, Ea.
  destruct (link_tests h a _ _ Hp Hn Ea) as (-> & -> & _). by rewrite Ep, En.
Qed.

Lemma tail_links h l es : is_list h l es ->
  h !! (tail_of l, Prev) = Some (before_of l es) /\ h !! (tail_of l, Next) = Some NULL /\
  is_interior h (tail_of l) = Ok false /\ is_tail h (tail_of l) = Ok true.
Proof.
  intros Hl. assert (Hl' := Hl). rewrite <- (app_nil_r es) in Hl'.
  destruct (position_links h l es [] Hl') as (_ & Hp & Ep & Ea). rewrite after_of_nil in Hp, Ea.
  assert (Hn : h !! (tail_of l, Next) = Some NULL).
  { destruct Hl as [Hc _ _]. unfold whole in Hc. rewrite app_comm_cons in Hc.
    by apply chain_at in Hc as [_ ?]. }
  destruct (link_tests h _ _ _ Hp Hn Ea) as (-> & _ & ->). by rewrite Ep.
Qed.

Lemma head_links h l es : is_list h l es ->
  h !! (head_of l, Next) = Some (after_of l es) /\ h !! (head_of l, Prev) = Some NULL /\
  is_head h (head_of l) = Ok true.
Proof.
  intros Hl. destruct (position_links h l [] es Hl) as (Hn & _ & Ep & Ea).
  rewrite before_of_nil in Hn, Ep.
  assert (Hp : h !! (head_of l, Prev) = Some NULL) by (by destruct Hl as [[? _] _ _]).
  destruct (link_tests h _ _ _ Hp Hn Ep) as (_ & -> & _). by rewrite Ea.
Qed.

(** What may stand before an insertion point: an interior element or the tail. *)
Lemma after_kind h l es1 es2 : is_list h l (es1 ++ es2) ->
  or_else (is_interior h (after_of l es2)) (is_tail h (after_of l es2)) = Ok true.
Proof.
  intros Hl. unfold or_else. destruct es2 as [|a es2].
  - rewrite app_nil_r in Hl. rewrite after_of_nil. by destruct (tail_links h l es1 Hl) as (_ & _ & -> & ->).
  - rewrite after_of_cons. by destruct (interior_links h l es1 a es2 Hl) as (_ & _ & -> & _).
Qed.

(** *** Traversal *)

Lemma list_begin_spec h l es : is_list h l es -> list_begin h l = Ok (after_of l es).
Proof.
  intros Hl. destruct (head_links h l es Hl) as (Hn & _). unfold list_begin.
  rewrite (list_nonnull h l es Hl). by run_heap.
Qed.

Lemma list_end_spec h l es : is_list h l es -> list_end l = Ok (tail_of l).
Proof. intros Hl. unfold list_end. by rewrite (list_nonnull h l es Hl). Qed.

Lemma list_next_spec h l es1 a es2 :
  is_list h l (es1 ++ a :: es2) -> list_next h a = Ok (after_of l es2).
Proof.
  intros Hl. destruct (interior_links h l es1 a es2 Hl) as (_ & Hn & Ei & Eh & _).
  unfold list_next, or_else. rewrite Eh. simpl. rewrite Ei. by run_heap.
Qed.

Lemma list_prev_spec h l es1 es2 :
  is_list h l (es1 ++ es2) -> list_prev h (after_of l es2) = Ok (before_of l es1).
Proof.
  intros Hl. destruct (position_links h l es1 es2 Hl) as (_ & Hp & _).
  unfold list_prev. rewrite (after_kind h l es1 es2 Hl). by run_heap.
Qed.

(** Positions are determined by the element that follows them. *)
Lemma after_of_ne l s x k es : NoDup (s ++ (x :: k) ++ es ++ [tail_of l]) ->
  after_of l ((x :: k) ++ es) <> after_of l es.
Proof.
  intros Hnd E. destruct (position l [] es) as (_ & t & _ & Et & _).
  apply NoDup_app in Hnd as (_ & _ & Hnd). apply NoDup_app in Hnd as (_ & Hd & _).
  apply (Hd x); [set_solver|]. rewrite Et, <- E. set_solver.
Qed.

(** Comparing the positions two suffixes start at, as the loops do. *)
Lemma after_of_eqb h l es0 k es : is_list h l (es0 ++ k ++ es) ->
  (after_of l (k ++ es) =? after_of l es) = bool_decide (k = []).
Proof.
  intros [_ Hnd _]. destruct k as [|x k]; [apply Z.eqb_refl|].
  rewrite bool_decide_false by done. apply Z.eqb_neq, (after_of_ne l (head_of l :: es0)).
  by rewrite whole_split, <- app_assoc in Hnd.
Qed.

Lemma after_of_end h l es1 es2 : is_list h l (es1 ++ es2) ->
  (after_of l es2 =? tail_of l) = bool_decide (es2 = []).
Proof.
  intros Hl. rewrite <- (after_of_nil l). rewrite <- (app_nil_r es2) in Hl |- * at 1.
  by apply (after_of_eqb h l es1 es2 []).
Qed.

(** The number of elements is below the fuel of the loops. *)
Lemma is_list_fuel h l es : is_list h l es -> (length es + 1 < list_fuel h)%nat.
Proof.
  intros [Hc Hnd _]. unfold list_fuel. rewrite <- size_dom.
  assert (Hsub : list_to_set ((fun a => (a, Prev)) <$> whole l es) ⊆ dom h).
  { intros [x f]. rewrite elem_of_list_to_set, list_elem_of_fmap. intros (y & [= -> ->] & Hy).
    apply elem_of_dom. by eapply chain_dom. }
  apply subseteq_size in Hsub. rewrite size_list_to_set in Hsub by (by apply NoDup_fmap; [intros ?? [=]|]).
  rewrite length_fmap in Hsub. unfold whole in Hsub. simpl in Hsub. rewrite length_app in Hsub.
  simpl in Hsub. lia.
Qed.

(** *** Frames *)

Lemma frame_refl s h : frame s h h.
Proof. done. Qed.

Lemma frame_trans s h1 h2 h3 : frame s h1 h2 -> frame s h2 h3 -> frame s h1 h3.
Proof. intros [H1 D1] [H2 D2]. split; [|congruence]. intros e f He. rewrite H2, H1; done. Qed.

Lemma frame_mono s s' h h' : frame s h h' -> s ⊆ s' -> frame s' h h'.
Proof. intros [H D] Hs. split; [|done]. intros e f He. apply H. set_solver. Qed.

Lemma frame_insert s h h' e f v :
  frame s h h' -> e ∈ s -> is_Some (h !! (e, f)) -> frame s h (<[(e, f) := v]> h').
Proof.
  intros [Hf Hd] He Hs. split.
  - intros x g Hx. rewrite lookup_insert_ne; [by apply Hf|]. intros [= -> ->]. done.
  - rewrite dom_insert_lookup_L; [done|]. by rewrite <- elem_of_dom, Hd, elem_of_dom.
Qed.

(** A list whose elements are outside the frame is untouched. *)
Lemma is_list_frame s h h' l es :
  is_list h l es -> frame s h h' -> (forall e, e ∈ whole l es -> e ∉ s) -> is_list h' l es.
Proof. intros [Hc Hnd Hr] [Hf _] Hd. split; try done. apply (chain_ext h); auto. Qed.

Lemma allocated_frame s h h' e : allocated h e -> frame s h h' -> allocated h' e.
Proof.
  intros (Hr & Hp & Hn) [_ D]. unfold allocated.
  rewrite <- !elem_of_dom, D, !elem_of_dom. done.
Qed.

Lemma list_fuel_frame s h h' : frame s h h' -> list_fuel h' = list_fuel h.
Proof. intros [_ D]. unfold list_fuel. by rewrite <- !size_dom, D. Qed.
End Elements.

(** [split_nodup H] breaks [NoDup] of a concatenation into membership facts that
    [set_solver] uses; [chains] carries a [chain] over stores outside of it. *)
Ltac split_nodup H :=
  repeat (rewrite NoDup_app in H || rewrite NoDup_cons in H);
  repeat match type of H with
  | _ /\ _ => let H1 := fresh "Hd" in let H2 := fresh "Hd" in
               destruct H as [H1 H2]; split_nodup H1; split_nodup H2
  end.
Ltac chains := repeat (apply chain_insert; [|set_solver]); try assumption.
Ltac frames := repeat (apply frame_insert; [|set_solver|by eauto]); apply frame_refl.

(** ** Insertion and removal *)
Section Updates.
Implicit Types (h : heap) (s t es : list Z) (a b l p n : Z).

Lemma list_init_spec h l :
  allocated h (head_of l) -> allocated h (tail_of l) ->
  returns (list_init h l) (fun h' => is_list h' l [] /\ frame (whole l []) h h').
Proof.
  intros (Hl & Hlp & Hln) (Ht & Htp & Htn). unfold list_init.
  assert (Hne : head_of l <> tail_of l) by (unfold head_of, tail_of; lia).
  replace (l =? NULL) with false by (symmetry; apply Z.eqb_neq; unfold NULL, head_of in *; lia).
  run_heap. split; [split|frames].
  - unfold whole. simpl. split_and!; look; done.
  - unfold whole. simpl. apply NoDup_cons. split; [set_solver|apply NoDup_singleton].
  - unfold whole. simpl. apply Forall_cons. split; [done|]. by apply Forall_singleton.
Qed.

Lemma list_insert_spec h l es1 es2 x :
  is_list h l (es1 ++ es2) -> allocated h x -> x ∉ whole l (es1 ++ es2) ->
  returns (list_insert h (after_of l es2) x) (fun h' =>
    is_list h' l (es1 ++ x :: es2) /\ frame (x :: whole l (es1 ++ es2)) h h').
Proof.
  intros Hl (Hx & Hxp & Hxn) Hni.
  unfold list_insert. rewrite (after_kind h l es1 es2 Hl). simpl.
  destruct (position_links h l es1 es2 Hl) as (Hpn & Hbp & _).
  destruct (position l es1 es2) as (s & t & E1 & E2 & Ew). destruct Hl as [Hc Hnd Hr].
  assert (Ew' : whole l (es1 ++ x :: es2) = s ++ before_of l es1 :: x :: after_of l es2 :: t).
  { by apply (whole_mid l es1 [x] es2). }
  set (p := before_of l es1) in *. set (b := after_of l es2) in *. rewrite Ew in *.
  replace (x =? NULL) with false by (symmetry; apply Z.eqb_neq; unfold NULL; lia).
  assert (Hnd' := Hnd). split_nodup Hnd'.
  assert (x <> p /\ x <> b /\ p <> b) as (? & ? & ?) by set_solver.
  run_heap. split; [split; rewrite Ew'|frames].
  - apply chain_app in Hc as (Hcs & Hp & _ & _ & Hb & Hct). apply chain_app. split; [by chains|].
    simpl. split_and!; look; try done. by chains.
  - rewrite cons_middle, app_assoc, <- Permutation_middle, <- app_assoc. by apply NoDup_cons.
  - rewrite cons_middle, app_assoc, <- Permutation_middle, <- app_assoc. by constructor.
Qed.

Lemma list_remove_spec h l es1 x es2 :
  is_list h l (es1 ++ x :: es2) ->
  returns (list_remove h x) (fun '(n, h') =>
    n = after_of l es2 /\ is_list h' l (es1 ++ es2) /\ allocated h' x /\
    frame (whole l (es1 ++ x :: es2)) h h').
Proof.
  intros Hl. destruct (interior_links h l es1 x es2 Hl) as (Hxp & Hxn & Ei & _ & _).
  unfold list_remove. rewrite Ei. simpl.
  destruct (position_links h l es1 (x :: es2) Hl) as (Hpn & _).
  assert (Hl' := Hl). rewrite cons_middle, app_assoc in Hl'.
  destruct (position_links h l (es1 ++ [x]) es2 Hl') as (_ & Hnp & _). clear Hl'.
  destruct (position l es1 es2) as (s & t & E1 & E2 & Ew). destruct Hl as [Hc Hnd Hr].
  assert (Ew' : whole l (es1 ++ x :: es2) = s ++ before_of l es1 :: x :: after_of l es2 :: t).
  { by apply (whole_mid l es1 [x] es2). }
  set (p := before_of l es1) in *. set (n := after_of l es2) in *. rewrite Ew' in *.
  rewrite before_of_snoc in Hnp. rewrite after_of_cons in Hpn.
  assert (Hnd' := Hnd). split_nodup Hnd'.
  assert (x <> p /\ x <> n /\ p <> n) as (? & ? & ?) by set_solver.
  run_heap. split; [done|]. split; [split; rewrite Ew|split; [|frames]].
  - apply chain_app in Hc as (Hcs & Hp & _ & _ & _ & _ & Hn & Hct). apply chain_app.
    split; [by chains|]. simpl. split_and!; look; try done. by chains.
  - rewrite cons_middle, app_assoc, <- Permutation_middle, <- app_assoc in Hnd. by apply NoDup_cons in Hnd as [_ ?].
  - rewrite cons_middle, app_assoc, <- Permutation_middle, <- app_assoc in Hr. by apply Forall_cons in Hr as [_ ?].
  - split; [|by split; look; eauto]. rewrite Forall_forall in Hr. apply Hr. set_solver.
Qed.
End Updates.

(** ** Splicing *)
Section Splice.
Implicit Types (h : heap) (s t es M : list Z) (a b l p n q f z : Z).

Lemma chain_set_first h p p' a s n :
  chain h p (a :: s) n -> NoDup (a :: s) -> chain (<[(a, Prev) := p']> h) p' (a :: s) n.
Proof.
  intros (Hp & Hn & Hc) [Ha _]%NoDup_cons. simpl. split_and!; look; try done. by apply chain_insert.
Qed.

Lemma chain_set_last h p s a n n' :
  chain h p (s ++ [a]) n -> NoDup (s ++ [a]) -> chain (<[(a, Next) := n']> h) p (s ++ [a]) n'.
Proof.
  rewrite !chain_app. simpl. intros (Hs & Hp & Hn & _) Hnd. split_nodup Hnd.
  split; [apply chain_insert; [done|set_solver]|]. split_and!; look; done.
Qed.

(** The two ends of a non-empty run of elements. *)
Lemma run_ends (M : list Z) : M <> [] -> exists f z M1 M2, M = f :: M1 /\ M = M2 ++ [z].
Proof. destruct M as [|f M1]; [done|]. intros Hne. destruct (exists_last Hne) as (M2 & z & E). eauto 8. Qed.

(** [list_splice] executed: the six stores, for a run from [f] to [z] between [q] and
    [n] that goes in front of [b], which follows [p]. *)
Definition spliced h p b q f z n : heap :=
  <[(b, Prev) := z]> (<[(p, Next) := f]> (<[(z, Next) := b]> (<[(f, Prev) := p]>
    (<[(n, Prev) := q]> (<[(q, Next) := n]> h))))).

Lemma list_splice_run h p b q f z n :
  or_else (is_interior h b) (is_tail h b) = Ok true -> list_prev h n = Ok z ->
  is_interior h f = Ok true -> is_interior h z = Ok true ->
  h !! (b, Prev) = Some p -> is_Some (h !! (p, Next)) ->
  is_Some (h !! (q, Next)) -> h !! (f, Prev) = Some q ->
  h !! (z, Next) = Some n -> is_Some (h !! (n, Prev)) ->
  f <> n -> z <> q -> b <> n -> b <> f ->
  list_splice h b f n = Ok (spliced h p b q f z n).
Proof.
  intros Hb Hn Hf Hz Hbp Hpn Hqn Hfq Hzn Hnp ????. unfold list_splice, spliced.
  rewrite Hb. simpl. replace (f =? n) with false by (symmetry; by apply Z.eqb_neq).
  rewrite Hn. simpl. rewrite Hf. simpl. rewrite Hz. run_heap.
  assert (Hpn' : is_Some (<[(z, Next) := b]> (<[(f, Prev) := p]> (<[(n, Prev) := q]>
    (<[(q, Next) := n]> h))) !! (p, Next))).
  { rewrite lookup_insert_is_Some. destruct (decide ((z, Next) = (p, Next))); [by left|right].
    split; [done|]. rewrite !lookup_insert_ne by done. rewrite lookup_insert_is_Some'. auto. }
  run_heap. done.
Qed.

(** Cutting a run out of a chain and closing the gap. *)
Lemma chain_cut h p0 s q M n t n0 :
  chain h p0 (s ++ q :: M ++ n :: t) n0 -> NoDup (s ++ q :: M ++ n :: t) ->
  chain (<[(n, Prev) := q]> (<[(q, Next) := n]> h)) p0 (s ++ q :: n :: t) n0 /\
  chain (<[(n, Prev) := q]> (<[(q, Next) := n]> h)) q M n.
Proof.
  intros Hc Hnd. apply chain_app in Hc as (Hs & Hq & Hqn & Hc). apply chain_app in Hc as (HM & Hn & Hnn & Ht).
  simpl in Hs, HM. split_nodup Hnd. assert (q <> n) by set_solver. split; [|by chains].
  apply chain_app. split; [by chains|]. simpl. split_and!; look; try done. by chains.
Qed.

(** Pasting a run that is linked on its own in front of [b]. *)
Lemma chain_paste h p0 s p M f M1 M2 z b t n0 q n :
  chain h p0 (s ++ p :: b :: t) n0 -> NoDup (s ++ p :: b :: t) -> chain h q M n ->
  M = f :: M1 -> M = M2 ++ [z] -> NoDup M -> (forall x, x ∈ M -> x ∉ s ++ p :: b :: t) ->
  chain (<[(b, Prev) := z]> (<[(p, Next) := f]> (<[(z, Next) := b]> (<[(f, Prev) := p]> h))))
    p0 (s ++ p :: M ++ b :: t) n0.
Proof.
  intros Hc Hnd HM Ef Ez HndM Hdis.
  apply chain_app in Hc as (Hs & Hp & Hpn & Hb & Hbn & Ht). simpl in Hs. split_nodup Hnd.
  assert (f ∈ M /\ z ∈ M) as [Hf Hz] by (split; [rewrite Ef|rewrite Ez]; set_solver).
  pose proof (Hdis f Hf). pose proof (Hdis z Hz).
  assert (p <> b /\ p <> f /\ p <> z /\ b <> f /\ b <> z) as (? & ? & ? & ? & ?) by set_solver.
  apply chain_app. split; [by chains|]. simpl. split; [by look|]. split; [look; by rewrite Ef|].
  apply chain_app. simpl. split.
  - do 2 (apply chain_insert; [|set_solver]). rewrite Ez. apply (chain_set_last _ _ _ _ n); [|by rewrite <- Ez].
    rewrite <- Ez. rewrite Ef in HM, HndM |- *. by apply (chain_set_first h q).
  - split; [rewrite Ez, List.last_last; by look|]. split; [by look|]. by chains.
Qed.

(** Where the run is and where it goes, read off the links. *)
Lemma chain_run h p0 s q M f M1 M2 z n t n0 :
  chain h p0 (s ++ q :: M ++ n :: t) n0 -> M = f :: M1 -> M = M2 ++ [z] ->
  h !! (q, Next) = Some f /\ h !! (f, Prev) = Some q /\
  h !! (z, Next) = Some n /\ h !! (n, Prev) = Some z.
Proof.
  intros Hc Ef Ez. apply chain_app in Hc as (_ & _ & Hqn & Hc). rewrite Ef in Hqn. simpl in Hqn.
  assert (Hf : h !! (f, Prev) = Some q) by (rewrite Ef in Hc; by destruct Hc).
  rewrite Ez, <- app_assoc in Hc. apply chain_app in Hc as (_ & _ & Hzn & Hn & _). done.
Qed.

Lemma interior_in h l es x : is_list h l es -> x ∈ es -> is_interior h x = Ok true.
Proof.
  intros Hl (es1 & es2 & ->)%list_elem_of_split.
  by destruct (interior_links h l es1 x es2 Hl) as (_ & _ & ? & _).
Qed.

Lemma before_of_last l es1 k z es0 : k = es0 ++ [z] -> before_of l (es1 ++ k) = z.
Proof. intros ->. by rewrite app_assoc, before_of_snoc. Qed.

Lemma spliced_frame W h p b q f z n (x0 y0 : Z) :
  chain h x0 W y0 -> b ∈ W -> p ∈ W -> z ∈ W -> f ∈ W -> n ∈ W -> q ∈ W ->
  frame W h (spliced h p b q f z n).
Proof.
  intros Hc. intros. unfold spliced.
  repeat (apply frame_insert; [|done|by eapply chain_dom]). apply frame_refl.
Qed.

Lemma splice_back_chain h s p b mid mid' q M f M1 M2 z n t :
  let W := (s ++ p :: mid') ++ q :: M ++ n :: t in
  let W' := s ++ p :: M ++ b :: mid ++ n :: t in
  chain h NULL W NULL -> NoDup W -> b :: mid = mid' ++ [q] -> M = f :: M1 -> M = M2 ++ [z] ->
  chain (spliced h p b q f z n) NULL W' NULL /\ W ≡ₚ W' /\
  frame W h (spliced h p b q f z n) /\ f <> n /\ z <> q /\ b <> n /\ b <> f.
Proof.
  intros W W' Hc Hnd Emid Ef Ez.
  assert (Eback : (s ++ p :: mid') ++ q :: n :: t = s ++ p :: b :: mid ++ n :: t).
  { rewrite (app_comm_cons mid _ b), Emid, <- !app_assoc. done. }
  assert (Hperm : W ≡ₚ M ++ s ++ p :: b :: mid ++ n :: t).
  { unfold W. rewrite <- Eback, cons_middle, app_assoc, Permutation_app_swap_app. by rewrite <- !app_assoc. }
  destruct (chain_cut _ _ _ _ _ _ _ _ Hc Hnd) as [Hcut Hrun]. rewrite Eback in Hcut.
  assert (Hnd' := Hnd). rewrite Hperm in Hnd'. apply NoDup_app in Hnd' as (HndM & Hdis & HndW).
  assert (f ∈ M /\ z ∈ M) as [Hf Hz] by (split; [rewrite Ef|rewrite Ez]; set_solver).
  assert (q ∈ b :: mid) as Hq by (rewrite Emid; set_solver).
  split_and!.
  - by apply (chain_paste _ NULL s p M f M1 M2 z b _ NULL q n).
  - rewrite Hperm. unfold W'. rewrite (cons_middle p s (M ++ _)), (cons_middle p s (b :: _)), !(app_assoc s [p]).
    apply Permutation_app_swap_app.
  - apply (spliced_frame _ _ _ _ _ _ _ _ _ _ Hc); rewrite Hperm; set_solver + Hf Hz Hq.
  - pose proof (Hdis f Hf). set_solver.
  - pose proof (Hdis z Hz). set_solver.
  - split_nodup HndW. set_solver.
  - pose proof (Hdis f Hf). set_solver.
Qed.

(** Moving the run [M] of a list in front of the element [b], which comes earlier in
    the same list. *)
Lemma list_splice_back h l es1 b mid M es2 :
  is_list h l (es1 ++ (b :: mid) ++ M ++ es2) -> M <> [] ->
  returns (list_splice h b (after_of l (M ++ es2)) (after_of l es2)) (fun h' =>
    is_list h' l (es1 ++ M ++ (b :: mid) ++ es2) /\
    frame (whole l (es1 ++ (b :: mid) ++ M ++ es2)) h h').
Proof.
  intros Hl HM. destruct (run_ends M HM) as (f & z & M1 & M2 & Ef & Ez).
  destruct (exists_last (l := b :: mid)) as (mid' & q & Emid); [done|].
  destruct (position l es1 es2) as (s & t & E1 & E2 & _). set (p := before_of l es1) in *.
  pose proof (after_kind h l es1 _ Hl) as Hkind. pose proof (position_links h l es1 _ Hl) as (Hpb & Hbp & _).
  assert (Hprev : list_prev h (after_of l es2) = Ok z).
  { rewrite <- (before_of_last l (es1 ++ b :: mid) M z M2 Ez). apply list_prev_spec.
    by rewrite <- !app_assoc. }
  assert (Hif : is_interior h f = Ok true) by (eapply interior_in; [exact Hl|rewrite Ef; set_solver]).
  assert (Hiz : is_interior h z = Ok true) by (eapply interior_in; [exact Hl|rewrite Ez; set_solver]).
  assert (Ew : whole l (es1 ++ (b :: mid) ++ M ++ es2) =
    (s ++ p :: mid') ++ q :: M ++ after_of l es2 :: t).
  { rewrite (app_assoc (b :: mid)). rewrite (whole_mid l es1 _ es2 s _ _ E1 E2), Emid.
    by rewrite <- !app_assoc. }
  assert (Ew' : whole l (es1 ++ M ++ (b :: mid) ++ es2) =
    s ++ p :: M ++ b :: mid ++ after_of l es2 :: t).
  { rewrite (app_assoc M). rewrite (whole_mid l es1 _ es2 s _ _ E1 E2). by rewrite <- !app_assoc. }
  destruct Hl as [Hc Hnd Hr]. rewrite Ew in Hc, Hnd, Hr |- *.
  rewrite <- app_comm_cons, after_of_cons in Hkind, Hbp, Hpb.
  rewrite Ef, <- app_comm_cons, after_of_cons, <- Ef. set (n := after_of l es2) in *.
  destruct (chain_run _ _ _ _ _ _ _ _ _ _ _ _ Hc Ef Ez) as (Hqn & Hfq & Hzn & Hnz).
  destruct (splice_back_chain _ _ _ _ _ _ _ _ _ _ _ _ _ _ Hc Hnd Emid Ef Ez)
    as (Hc' & Hperm & Hfr & ? & ? & ? & ?).
  rewrite (list_splice_run h p b q f z n) by eauto. apply returns_ok. split; [|done].
  split; rewrite Ew'; [done|by rewrite <- Hperm|by rewrite <- Hperm].
Qed.

Lemma splice_across_chain h A q M f M1 M2 z n B C p b E :
  let W := A ++ q :: M ++ n :: B in
  let V := C ++ p :: b :: E in
  chain h NULL W NULL -> NoDup W -> chain h NULL V NULL -> NoDup V ->
  (forall x, x ∈ W -> x ∉ V) -> M = f :: M1 -> M = M2 ++ [z] ->
  chain (spliced h p b q f z n) NULL (A ++ q :: n :: B) NULL /\
  chain (spliced h p b q f z n) NULL (C ++ p :: M ++ b :: E) NULL /\
  W ≡ₚ M ++ A ++ q :: n :: B /\ C ++ p :: M ++ b :: E ≡ₚ M ++ V /\
  frame (W ++ V) h (spliced h p b q f z n) /\ f <> n /\ z <> q /\ b <> n /\ b <> f.
Proof.
  intros W V Hc Hnd Hv HndV Hdis Ef Ez.
  assert (HpW : W ≡ₚ M ++ A ++ q :: n :: B).
  { unfold W. rewrite (cons_middle q A (M ++ _)), (cons_middle q A (n :: _)), !(app_assoc A [q]).
    apply Permutation_app_swap_app. }
  destruct (chain_cut _ _ _ _ _ _ _ _ Hc Hnd) as [Hcut Hrun].
  assert (Hnd' := Hnd). rewrite HpW in Hnd'. apply NoDup_app in Hnd' as (HndM & HdM & _).
  assert (f ∈ M /\ z ∈ M) as [Hf Hz] by (split; [rewrite Ef|rewrite Ez]; set_solver).
  assert (Hin : forall x, x ∈ M \/ x = q \/ x = n -> x ∈ W) by (intros x Hx; rewrite HpW; set_solver).
  pose proof (Hdis f ltac:(auto)). pose proof (Hdis z ltac:(auto)).
  pose proof (Hdis q ltac:(auto)). pose proof (Hdis n ltac:(auto)).
  pose proof (HdM f Hf). pose proof (HdM z Hz).
  assert (b ∈ V /\ p ∈ V) as [Hb Hp] by set_solver.
  assert ((b ∉ W) /\ (p ∉ W)) as [HbW HpW'] by (split; intros Hx%Hdis; done). rewrite HpW in HbW, HpW'.
  assert (Hq : q ∈ A ++ q :: n :: B) by set_solver +. assert (Hn : n ∈ A ++ q :: n :: B) by set_solver +.
  split_and!; [| |done| | |by intros ->|by intros ->|by intros ->|intros ->; by auto].
  - unfold spliced. rewrite not_elem_of_app in HbW, HpW'.
    do 4 (apply chain_insert; [|by (done || apply HbW || apply HpW')]). done.
  - apply (chain_paste _ NULL C p M f M1 M2 z b E NULL q n); try done.
    + do 2 (apply chain_insert; [|done]). done.
    + intros x Hx. apply Hdis. auto.
  - unfold V. rewrite (cons_middle p C (M ++ _)), (cons_middle p C (b :: _)), !(app_assoc C [p]).
    apply Permutation_app_swap_app.
  - unfold spliced. assert (Hd : forall x g, x ∈ W ++ V -> is_Some (h !! (x, g))).
    { intros x g [Hx|Hx]%elem_of_app; [by apply (chain_dom h NULL W NULL)|by apply (chain_dom h NULL V NULL)]. }
    repeat (apply frame_insert; [|apply elem_of_app; auto|apply Hd, elem_of_app; auto]). apply frame_refl.
Qed.

(** Moving the run [M] of one list to a position of another list. *)
Lemma list_splice_across h l es1 M es2 l' es3 es4 :
  is_list h l (es1 ++ M ++ es2) -> is_list h l' (es3 ++ es4) -> M <> [] ->
  (forall x, x ∈ whole l (es1 ++ M ++ es2) -> x ∉ whole l' (es3 ++ es4)) ->
  returns (list_splice h (after_of l' es4) (after_of l (M ++ es2)) (after_of l es2)) (fun h' =>
    is_list h' l (es1 ++ es2) /\ is_list h' l' (es3 ++ M ++ es4) /\
    frame (whole l (es1 ++ M ++ es2) ++ whole l' (es3 ++ es4)) h h').
Proof.
  intros Hl Hl' HM Hdis. destruct (run_ends M HM) as (f & z & M1 & M2 & Ef & Ez).
  pose proof (after_kind h l' es3 es4 Hl') as Hkind.
  pose proof (position_links h l' es3 es4 Hl') as (Hpb & Hbp & _).
  assert (Hprev : list_prev h (after_of l es2) = Ok z).
  { rewrite <- (before_of_last l es1 M z M2 Ez). apply list_prev_spec. by rewrite <- !app_assoc. }
  assert (Hif : is_interior h f = Ok true) by (eapply interior_in; [exact Hl|rewrite Ef; set_solver]).
  assert (Hiz : is_interior h z = Ok true) by (eapply interior_in; [exact Hl|rewrite Ez; set_solver]).
  destruct (position l es1 es2) as (s & t & E1 & E2 & Eout).
  destruct (position l' es3 es4) as (s' & t' & E3 & E4 & Ein).
  pose proof (whole_mid l es1 M es2 _ _ _ E1 E2) as Ew.
  pose proof (whole_mid l' es3 M es4 _ _ _ E3 E4) as Ew'.
  destruct Hl as [Hc Hnd Hr], Hl' as [Hc' Hnd' Hr']. rewrite Ew in Hc, Hnd, Hr, Hdis |- *.
  rewrite Ein in Hc', Hnd', Hr', Hdis |- *.
  rewrite Ef, <- app_comm_cons, after_of_cons, <- Ef.
  destruct (chain_run _ _ _ _ _ _ _ _ _ _ _ _ Hc Ef Ez) as (Hqn & Hfq & Hzn & Hnz).
  destruct (splice_across_chain _ _ _ _ _ _ _ _ _ _ _ _ _ _ Hc Hnd Hc' Hnd' Hdis Ef Ez)
    as (H1 & H2 & P1 & P2 & Hfr & ? & ? & ? & ?).
  rewrite (list_splice_run h (before_of l' es3) _ (before_of l es1) f z) by eauto.
  apply returns_ok. rewrite P1 in Hnd, Hr. apply Forall_app in Hr as [HrM Hr].
  assert (HndM := Hnd). apply NoDup_app in HndM as (HndM & _ & HndO).
  split; [|split; [|done]]; split; rewrite ?Eout, ?Ew'; try done.
  - rewrite P2. apply NoDup_app. split; [done|]. split; [|done].
    intros x Hx. apply Hdis. rewrite P1. set_solver.
  - rewrite P2. by apply Forall_app.
Qed.
End Splice.

(** ** Deques, size and reversal *)
Section Deque.
Implicit Types (h : heap) (s t es : list Z) (a b l p n x : Z).

Lemma list_empty_spec h l es : is_list h l es -> list_empty h l = Ok (bool_decide (es = [])).
Proof.
  intros Hl. unfold list_empty. rewrite (list_begin_spec h l es Hl), (list_end_spec h l es Hl). simpl.
  by rewrite (after_of_end h l [] es Hl).
Qed.

Lemma list_push_front_spec h l es x :
  is_list h l es -> allocated h x -> x ∉ whole l es ->
  returns (list_push_front h l x) (fun h' => is_list h' l (x :: es) /\ frame (x :: whole l es) h h').
Proof.
  intros Hl Hx Hni. unfold list_push_front. rewrite (list_begin_spec h l es Hl).
  by apply (list_insert_spec h l [] es).
Qed.

Lemma list_push_back_spec h l es x :
  is_list h l es -> allocated h x -> x ∉ whole l es ->
  returns (list_push_back h l x) (fun h' => is_list h' l (es ++ [x]) /\ frame (x :: whole l es) h h').
Proof.
  intros Hl Hx Hni. unfold list_push_back. rewrite (list_end_spec h l es Hl).
  pose proof (list_insert_spec h l es [] x) as H. rewrite app_nil_r in H. by apply H.
Qed.

Lemma list_front_spec h l x es : is_list h l (x :: es) -> list_front h l = Ok x.
Proof.
  intros Hl. unfold list_front. rewrite (list_empty_spec h l _ Hl). simpl.
  by destruct (head_links h l _ Hl) as (->%load_some & _).
Qed.

Lemma list_back_spec h l es x : is_list h l (es ++ [x]) -> list_back h l = Ok x.
Proof.
  intros Hl. unfold list_back. rewrite (list_empty_spec h l _ Hl), bool_decide_false by (by destruct es).
  simpl. destruct (tail_links h l _ Hl) as (->%load_some & _). by rewrite before_of_snoc.
Qed.

Lemma list_pop_front_spec h l x es : is_list h l (x :: es) ->
  returns (list_pop_front h l) (fun '(y, h') =>
    y = x /\ is_list h' l es /\ allocated h' x /\ frame (whole l (x :: es)) h h').
Proof.
  intros Hl. unfold list_pop_front. rewrite (list_front_spec h l x es Hl). simpl.
  apply returns_bind. eapply returns_mono; [by apply (list_remove_spec h l [])|].
  intros [n h'] (_ & ? & ? & ?). done.
Qed.

Lemma list_pop_back_spec h l es x : is_list h l (es ++ [x]) ->
  returns (list_pop_back h l) (fun '(y, h') =>
    y = x /\ is_list h' l es /\ allocated h' x /\ frame (whole l (es ++ [x])) h h').
Proof.
  intros Hl. unfold list_pop_back. rewrite (list_back_spec h l es x Hl). simpl.
  apply returns_bind. eapply returns_mono; [by apply (list_remove_spec h l es x [])|].
  intros [n h'] (_ & Hl' & ? & ?). by rewrite app_nil_r in Hl'.
Qed.

(** An empty list has no front and no back: both assertions fail. *)
Lemma list_pop_empty h l : is_list h l [] ->
  list_pop_front h l = Err AssertFail /\ list_pop_back h l = Err AssertFail.
Proof.
  intros Hl. unfold list_pop_front, list_pop_back, list_front, list_back.
  by rewrite (list_empty_spec h l [] Hl).
Qed.

(** Elements have distinct 32-bit addresses, so their number fits a [size_t]. *)
Lemma is_list_length h l es : is_list h l es -> Z.of_nat (length es) < 2 ^ 32.
Proof.
  intros [_ Hnd Hr]. assert (Hsub : whole l es ⊆+ seqZ 0 (2 ^ 32)).
  { apply NoDup_submseteq; [done|]. intros x Hx. rewrite Forall_forall in Hr.
    apply elem_of_seqZ. specialize (Hr x Hx). lia. }
  apply submseteq_length in Hsub. rewrite length_seqZ in Hsub. unfold whole in Hsub.
  cbn [length] in Hsub. rewrite length_app in Hsub. lia.
Qed.

Lemma list_size_spec h l es : is_list h l es -> list_size h l = Ok (Z.of_nat (length es)).
Proof.
  intros Hl. pose proof (is_list_length h l es Hl) as Hlen.
  apply returns_eq. unfold list_size. rewrite (list_begin_spec h l es Hl). simpl.
  apply (returns_loop (fun '(e, cnt) => exists es1 es2, es = es1 ++ es2 /\ e = after_of l es2 /\
      cnt = Z.of_nat (length es1)) (fun '(_, cnt) => (length es - Z.to_nat cnt)%nat)).
  - intros [e cnt] (es1 & es2 & -> & -> & ->). rewrite (list_end_spec h l _ Hl). simpl.
    rewrite (after_of_end h l es1 es2 Hl). destruct es2 as [|a es2]; simpl; [by rewrite app_nil_r|].
    rewrite after_of_cons, (list_next_spec h l es1 a es2 Hl). rewrite length_app in Hlen |- *. simpl in *.
    rewrite u32_small by lia. split; [|lia]. exists (es1 ++ [a]), es2.
    rewrite <- app_assoc, length_app. simpl. split; [done|]. split; [done|]. lia.
  - by exists [], es.
  - pose proof (is_list_fuel h l es Hl). lia.
Qed.
End Deque.
