(* ===== verification/KLists.v ===== *)
(** * Families of disjoint lists

    Hash tables and the block allocator keep arrays of lists whose elements move from one
    list to another.  [lists h addr bs] says that the [i]-th list is at [addr i] and holds
    the [i]-th list of [bs], and that no element is shared. *)

From stdpp Require Import base list gmap numbers.
From Stdlib Require Import ZArith Lia.
From S2P Require Import Prelude.
From S2P Require Import CString.
From S2P Require Import KList.

Local Open Scope Z_scope.

Record lists (h : heap) (addr : nat -> Z) (bs : list (list Z)) : Prop := {
  ls_list : forall i es, bs !! i = Some es -> is_list h (addr i) es;
  ls_disjoint : forall i j es es' x, bs !! i = Some es -> bs !! j = Some es' ->
    x ∈ whole (addr i) es -> x ∈ whole (addr j) es' -> i = j
}.

(** [x] belongs to no list of the family, neither as an element nor as an end. *)
Definition outside (addr : nat -> Z) (bs : list (list Z)) (x : Z) : Prop :=
  forall i es, bs !! i = Some es -> x ∉ whole (addr i) es.

(** Every element and end of the family. *)
Definition members (addr : nat -> Z) (bs : list (list Z)) : list Z := concat (imap (fun i es => whole (addr i) es) bs).

Section Families.
Implicit Types (h : heap) (addr : nat -> Z) (bs : list (list Z)) (es : list Z) (x : Z).

Lemma elem_members addr bs x : x ∈ members addr bs <-> exists i es, bs !! i = Some es /\ x ∈ whole (addr i) es.
Proof.
  unfold members. rewrite list_elem_of_In, in_concat. setoid_rewrite <- list_elem_of_In. split.
  - intros (l & Hl & Hx). apply list_elem_of_lookup in Hl as [i Hi]. rewrite list_lookup_imap in Hi.
    destruct (bs !! i) as [es|] eqn:E; simplify_eq/=. eauto.
  - intros (i & es & E & Hx). exists (whole (addr i) es). split; [|done]. apply list_elem_of_lookup. exists i.
    by rewrite list_lookup_imap, E.
Qed.

Lemma outside_members addr bs x : outside addr bs x <-> x ∉ members addr bs.
Proof. rewrite elem_members. unfold outside. naive_solver. Qed.

Lemma whole_member h addr bs i es x : lists h addr bs -> bs !! i = Some es -> x ∈ whole (addr i) es -> ~ outside addr bs x.
Proof. intros _ Hi Hx Ho. by apply (Ho i es). Qed.

(** Replacing one list by another, the elements of which are its own or new to the family. *)
Lemma lists_update h h' addr bs i es es' :
  lists h addr bs -> bs !! i = Some es -> is_list h' (addr i) es' ->
  (forall x, x ∈ es' -> x ∈ es \/ outside addr bs x) ->
  (exists s, frame s h h' /\ forall x, x ∈ s -> x ∈ whole (addr i) es \/ outside addr bs x) ->
  lists h' addr (<[i := es']> bs).
Proof.
  intros [Hl Hd] Hi Hnew Hsub (s & Hf & Hs). split.
  - intros j e [(-> & -> & _)|[Hne Hj]]%list_lookup_insert_Some; [done|].
    apply (is_list_frame s h); [by apply Hl|done|]. intros x Hx Hxs. destruct (Hs x Hxs) as [Hxi|Ho].
    + apply Hne. by eauto using Hd.
    + by apply (Ho j e).
  - assert (Hw : forall x, x ∈ whole (addr i) es' -> x ∈ whole (addr i) es \/ outside addr bs x).
    { intros x. unfold whole. rewrite !elem_of_cons, !elem_of_app. intros [?|[Hx|?]]; [set_solver| |set_solver].
      destruct (Hsub x Hx); [set_solver|by right]. }
    intros j k e e' x Hj Hk Hxj Hxk.
    apply list_lookup_insert_Some in Hj as [(<- & <- & Hlt)|[Hne Hj]];
      apply list_lookup_insert_Some in Hk as [(<- & <- & Hlt')|[Hne' Hk]]; [done| | |by eauto using Hd].
    + destruct (Hw x Hxj) as [?|Ho]; [by eauto using Hd|]. by destruct (Ho k e').
    + destruct (Hw x Hxk) as [?|Ho]; [by eauto using Hd|]. by destruct (Ho j e).
Qed.

Lemma lists_push_front h addr bs i es x :
  lists h addr bs -> bs !! i = Some es -> allocated h x -> outside addr bs x ->
  returns (list_push_front h (addr i) x) (fun h' =>
    lists h' addr (<[i := x :: es]> bs) /\ frame (x :: whole (addr i) es) h h').
Proof.
  intros Hl Hi Hx Ho. eapply returns_mono; [apply list_push_front_spec; [by apply (ls_list _ _ _ Hl)|done|by apply Ho]|].
  intros h' [Hn Hf]. split; [|done]. eapply lists_update; try done; [set_solver|]. exists (x :: whole (addr i) es).
  split; [done|]. set_solver.
Qed.

Lemma lists_push_back h addr bs i es x :
  lists h addr bs -> bs !! i = Some es -> allocated h x -> outside addr bs x ->
  returns (list_push_back h (addr i) x) (fun h' =>
    lists h' addr (<[i := es ++ [x]]> bs) /\ frame (x :: whole (addr i) es) h h').
Proof.
  intros Hl Hi Hx Ho. eapply returns_mono; [apply list_push_back_spec; [by apply (ls_list _ _ _ Hl)|done|by apply Ho]|].
  intros h' [Hn Hf]. split; [|done]. eapply lists_update; try done; [set_solver|]. exists (x :: whole (addr i) es).
  split; [done|]. set_solver.
Qed.

(** An element that is removed becomes an element that any list may take. *)
Lemma removed_outside h addr bs i es1 x es2 : lists h addr bs -> bs !! i = Some (es1 ++ x :: es2) ->
  outside addr (<[i := es1 ++ es2]> bs) x.
Proof.
  intros [Hl Hd] Hi j e [(<- & <- & _)|[Hne Hj]]%list_lookup_insert_Some.
  - pose proof (il_nodup _ _ _ (Hl i _ Hi)) as Hnd. unfold whole in *.
    rewrite <- app_assoc in Hnd |- *. simpl in Hnd. rewrite app_comm_cons in Hnd |- *.
    apply list.NoDup_app in Hnd as (H1 & H2 & H3). apply list.NoDup_cons in H3 as [H3 _]. set_solver.
  - intros Hx. apply Hne. eapply Hd; [exact Hi|exact Hj| |done]. unfold whole. set_solver.
Qed.

Lemma lists_remove h addr bs i es1 x es2 :
  lists h addr bs -> bs !! i = Some (es1 ++ x :: es2) ->
  returns (list_remove h x) (fun '(n, h') =>
    n = after_of (addr i) es2 /\ lists h' addr (<[i := es1 ++ es2]> bs) /\ allocated h' x /\
    outside addr (<[i := es1 ++ es2]> bs) x /\ frame (whole (addr i) (es1 ++ x :: es2)) h h').
Proof.
  intros Hl Hi. eapply returns_mono; [apply list_remove_spec; by apply (ls_list _ _ _ Hl)|].
  intros [n h'] (-> & Hn & Ha & Hf). split; [done|]. split; [|split; [done|split; [by eapply removed_outside|done]]].
  eapply lists_update; try done; [set_solver|]. exists (whole (addr i) (es1 ++ x :: es2)). split; [done|]. set_solver.
Qed.

Lemma lists_pop_front h addr bs i x es :
  lists h addr bs -> bs !! i = Some (x :: es) ->
  returns (list_pop_front h (addr i)) (fun '(y, h') =>
    y = x /\ lists h' addr (<[i := es]> bs) /\ allocated h' x /\
    outside addr (<[i := es]> bs) x /\ frame (whole (addr i) (x :: es)) h h').
Proof.
  intros Hl Hi. unfold list_pop_front. rewrite (list_front_spec h (addr i) x es) by (by apply (ls_list _ _ _ Hl)).
  rewrite bind_ok. apply returns_bind. eapply returns_mono; [by apply (lists_remove h addr bs i [] x es)|].
  intros [n h'] (_ & ? & ? & ? & ?). by apply returns_ok.
Qed.

(** A prefix of the family. *)
Lemma lists_prefix h addr bs cs : lists h addr (bs ++ cs) -> lists h addr bs.
Proof.
  intros [Hl Hd]. split.
  - intros i es Hi. apply Hl. by apply lookup_app_l_Some.
  - intros i j es es' x Hi Hj. apply Hd; by apply lookup_app_l_Some.
Qed.

(** The family is where it was when the heap changes elsewhere. *)
Lemma lists_frame s h h' addr bs : lists h addr bs -> frame s h h' -> (forall x, x ∈ s -> outside addr bs x) -> lists h' addr bs.
Proof.
  intros [Hl Hd] Hf Ho. split; [|done]. intros i es Hi. apply (is_list_frame s h); [by apply Hl|done|].
  intros x Hx Hs. by apply (Ho x Hs i es).
Qed.

Lemma lists_ext h h' addr bs : lists h addr bs -> (forall x f, ~ outside addr bs x -> h' !! (x, f) = h !! (x, f)) ->
  lists h' addr bs.
Proof.
  intros [Hl Hd] Hh. split; [|done]. intros i es Hi. destruct (Hl i es Hi) as [Hc Hn Hr]. split; [|done..].
  apply (chain_ext h); [done|]. intros x f Hx. apply Hh. intros Ho. by apply (Ho i es).
Qed.

(** An element of the family has its links. *)
Lemma lists_allocated h addr bs i es x : lists h addr bs -> bs !! i = Some es -> x ∈ whole (addr i) es -> allocated h x.
Proof.
  intros [Hl _] Hi Hx. destruct (Hl i es Hi) as [Hc _ Hr]. rewrite list.Forall_forall in Hr. split; [by apply Hr|].
  split; by eapply chain_dom.
Qed.

(** Whether an element has its links depends on the members of the heap only. *)
Lemma allocated_dom h h' x : dom h' = dom h -> allocated h x -> allocated h' x.
Proof. intros Hd. unfold allocated. by rewrite <- !elem_of_dom, Hd. Qed.

(** One more list at the end of the family. *)
Lemma lists_snoc h addr bs es : lists h addr bs -> is_list h (addr (length bs)) es ->
  (forall x, x ∈ whole (addr (length bs)) es -> outside addr bs x) -> lists h addr (bs ++ [es]).
Proof.
  intros [Hl Hd] Hn Ho.
  assert (Hat : forall i e, (bs ++ [es]) !! i = Some e -> bs !! i = Some e \/ i = length bs /\ e = es).
  { intros i e [?|[? Hi]]%lookup_app_Some; [by left|]. apply list_lookup_singleton_Some in Hi as [Hi ->]. right. split; lia || done. }
  split.
  - intros i e [Hi|[-> ->]]%Hat; auto.
  - intros i j e e' x [Hi|[-> ->]]%Hat [Hj|[-> ->]]%Hat Hxi Hxj; [by eauto| | |done].
    + by destruct (Ho x Hxj i e Hi).
    + by destruct (Ho x Hxi j e' Hj).
Qed.

(** ** Contents *)

Lemma concat_insert bs i es es' : bs !! i = Some es ->
  exists r, concat bs ≡ₚ es ++ r /\ concat (<[i := es']> bs) ≡ₚ es' ++ r.
Proof.
  revert i. induction bs as [|b bs IH]; intros [|i] Hi; simplify_eq/=.
  - by exists (concat bs).
  - destruct (IH i Hi) as (r & H1 & H2). exists (b ++ r). rewrite H1, H2.
    split; rewrite !app_assoc; apply Permutation_app; auto using Permutation_app_comm.
Qed.

Lemma elem_concat bs x : x ∈ concat bs <-> exists i es, bs !! i = Some es /\ x ∈ es.
Proof.
  rewrite list_elem_of_In, in_concat. setoid_rewrite <- list_elem_of_In. split.
  - intros (es & [i Hi]%list_elem_of_lookup & Hx). eauto.
  - intros (i & es & Hi%list_elem_of_lookup_2 & Hx). eauto.
Qed.

Lemma lists_nodup h addr bs : lists h addr bs -> NoDup (concat bs).
Proof.
  revert addr. induction bs as [|b bs IH]; intros addr [Hl Hd]; simpl; [apply NoDup_nil_2|].
  apply list.NoDup_app. split; [|split].
  - pose proof (il_nodup _ _ _ (Hl 0%nat b eq_refl)) as Hn. unfold whole in Hn.
    apply list.NoDup_cons in Hn as [_ Hn]. by apply list.NoDup_app in Hn as [Hn _].
  - intros x Hb (i & es & Hi & Hx)%elem_concat.
    assert (0%nat = S i) by (apply (Hd 0%nat (S i) b es x); try done; unfold whole; set_solver). done.
  - apply (IH (fun i => addr (S i))). split.
    + intros i es Hi. by apply (Hl (S i)).
    + intros i j es es' x Hi Hj H1 H2. specialize (Hd (S i) (S j) es es' x Hi Hj H1 H2). congruence.
Qed.
End Families.
