(* ===== verification/KListSort.v ===== *)
(** * Whole-list operations

    The remaining operations of lib/kernel/list.c on well-formed lists: reversal,
    natural merge sort, ordered insertion, removal of adjacent duplicates, maximum and
    minimum. *)

From stdpp Require Import base list gmap numbers sorting.
From Stdlib Require Import ZArith Lia.
From S2P Require Import Prelude CString KList.

Local Open Scope Z_scope.

(** ** Reversal *)
Section Reverse.
Implicit Types (h : heap) (s t es : list Z) (a b l p n x : Z).

(** [h'] is [h] with the two links of every element of [s] exchanged. *)
Definition flipped h s h' : Prop :=
  (forall x, x ∈ s -> h' !! (x, Prev) = h !! (x, Next) /\ h' !! (x, Next) = h !! (x, Prev)) /\
  (forall x f, x ∉ s -> h' !! (x, f) = h !! (x, f)) /\ dom h' = dom h.

Lemma chain_flipped h h' p s n :
  chain h p s n ->
  (forall x, x ∈ s -> h' !! (x, Prev) = h !! (x, Next) /\ h' !! (x, Next) = h !! (x, Prev)) ->
  chain h' n (reverse s) p.
Proof.
  revert p. induction s as [|a s IH]; intros p; [done|]. intros (Hp & Hn & Hc) Hfl.
  rewrite reverse_cons. apply chain_app. simpl. split; [apply IH; [done|]; intros; apply Hfl; set_solver|].
  destruct (Hfl a) as [-> ->]; [set_solver|]. split; [|done]. rewrite Hn. f_equal.
  destruct s as [|b s]; [done|]. by rewrite reverse_cons, List.last_last.
Qed.

Lemma swap_spec h a f b g u v :
  h !! (a, f) = Some u -> h !! (b, g) = Some v -> (a, f) <> (b, g) ->
  swap h (a, f) (b, g) = Ok (<[(b, g) := u]> (<[(a, f) := v]> h)).
Proof.
  intros Hu Hv Hne. unfold swap. simpl. rewrite (load_some _ _ _ _ Hu). simpl.
  rewrite (load_some _ _ _ _ Hv). simpl. rewrite store_some by eauto. simpl.
  by rewrite store_some by (rewrite lookup_insert_ne by done; eauto).
Qed.

Lemma flipped_step h l es1 a es2 h1 :
  is_list h l (es1 ++ a :: es2) -> flipped h es1 h1 ->
  exists h2, swap h1 (a, Prev) (a, Next) = Ok h2 /\ flipped h (es1 ++ [a]) h2 /\
    h2 !! (a, Prev) = Some (after_of l es2).
Proof.
  intros Hl (Hin & Hout & Hdom). destruct (interior_links h l es1 a es2 Hl) as (Hp & Hn & _).
  assert (Ha : a ∉ es1).
  { destruct Hl as [_ Hnd _]. unfold whole in Hnd. rewrite <- app_assoc in Hnd. split_nodup Hnd. set_solver. }
  rewrite (swap_spec h1 a Prev a Next (before_of l es1) (after_of l es2)) by (rewrite ?Hout; done).
  eexists. split; [done|]. split; [|by look]. split; [|split].
  - intros x [Hx|Hx%list_elem_of_singleton]%elem_of_app; [|subst x].
    + rewrite !lookup_insert_ne by set_solver. by apply Hin.
    + split; look; done.
  - intros x f Hx. rewrite !lookup_insert_ne by set_solver. apply Hout. set_solver.
  - rewrite !dom_insert_lookup_L; [done|rewrite Hout by done; eauto|].
    rewrite lookup_insert_ne, Hout by done. eauto.
Qed.

Lemma reverse_loop h l es : is_list h l es ->
  returns (loop (list_fuel h) (fun '(h, e) =>
      stop ← list_end l;
      if e =? stop then Ok (inr h)
      else
        h ← swap h (e, Prev) (e, Next);
        e ← load h e Prev;
        Ok (inl (h, e))) (h, after_of l es)) (flipped h es).
Proof.
  intros Hl. apply (returns_loop_ix (fun k '(h1, e) => exists es1 es2, es = es1 ++ es2 /\
      e = after_of l es2 /\ k = length es2 /\ flipped h es1 h1) _ _) with (n := length es).
  - intros k [h1 e] (es1 & es2 & -> & -> & -> & Hfl). rewrite (list_end_spec h l _ Hl). simpl.
    rewrite (after_of_end h l es1 es2 Hl). destruct es2 as [|a es2]; simpl; [by rewrite app_nil_r|].
    rewrite after_of_cons. destruct (flipped_step h l es1 a es2 h1 Hl Hfl) as (h2 & -> & Hfl' & Ha).
    simpl. rewrite (load_some _ _ _ _ Ha). simpl. exists (length es2). split; [lia|].
    exists (es1 ++ [a]), es2. by rewrite <- app_assoc.
  - exists [], es. split; [done|]. split; [done|]. split; [done|]. split; [set_solver|done].
  - pose proof (is_list_fuel h l es Hl). lia.
Qed.

Lemma list_reverse_spec h l es : is_list h l es ->
  returns (list_reverse h l) (fun h' => is_list h' l (reverse es) /\ frame (whole l es) h h').
Proof.
  intros Hl. unfold list_reverse. rewrite (list_empty_spec h l es Hl). simpl.
  case_bool_decide as He; simpl; [by subst|]. rewrite (list_begin_spec h l es Hl). simpl.
  apply returns_bind. eapply returns_mono; [by apply reverse_loop|]. intros h1 (Hin & Hout & Hdom).
  destruct (run_ends es He) as (f & z & es1 & es2 & Ef & Ez).
  destruct (head_links h l es Hl) as (Hhn & Hhp & _). destruct (tail_links h l es Hl) as (Htp & Htn & _).
  replace (after_of l es) with f in Hhn by (by rewrite Ef).
  replace (before_of l es) with z in Htp by (by rewrite Ez, before_of_snoc).
  assert (Hfp : h !! (f, Prev) = Some (head_of l)).
  { rewrite Ef in Hl. by apply (interior_links h l [] f es1). }
  assert (Hzn : h !! (z, Next) = Some (tail_of l)).
  { rewrite Ez in Hl. by apply (interior_links h l es2 z []). }
  assert (Hf : f ∈ es) by (rewrite Ef; set_solver +). assert (Hz : z ∈ es) by (rewrite Ez; set_solver +).
  destruct Hl as [Hc Hnd Hr]. assert (Hnd' := Hnd). unfold whole in Hnd'. split_nodup Hnd'.
  assert (Hne : head_of l <> tail_of l) by set_solver.
  assert (Hh : head_of l ∉ es) by set_solver. assert (Ht : tail_of l ∉ es) by set_solver.
  assert (head_of l <> f /\ head_of l <> z /\ tail_of l <> f /\ tail_of l <> z) as (? & ? & ? & ?)
    by (split_and!; by intros <-).
  destruct (Hin f Hf) as [_ Hf1]. destruct (Hin z Hz) as [Hz1 _].
  rewrite (swap_spec h1 (head_of l) Next (tail_of l) Prev f z) by (rewrite ?Hout; done). simpl.
  rewrite (load_some _ (head_of l) Next z) by (by look). simpl.
  rewrite (load_some _ (tail_of l) Prev f) by (by look). simpl.
  rewrite (swap_spec _ z Prev f Next (tail_of l) (head_of l)) by (look; congruence). simpl.
  split; [split|].
  - assert (Hes : chain h (head_of l) es (tail_of l)).
    { destruct Hc as (_ & _ & Hc). by apply chain_app in Hc as [? _]. }
    pose proof (chain_flipped _ h1 _ _ _ Hes Hin) as Hrev.
    assert (E1 : reverse es = z :: reverse es2) by (by rewrite Ez, reverse_snoc).
    assert (E2 : reverse es = reverse es1 ++ [f]) by (by rewrite Ef, reverse_cons).
    assert (Hndr : NoDup (reverse es)) by (by rewrite reverse_Permutation).
    split; [look; by rewrite Hout|]. split; [look; by rewrite E1|]. apply chain_app. simpl. split.
    + rewrite E2 in Hndr |- *. apply (chain_set_last _ _ _ _ (head_of l)); [|done].
      rewrite <- E2 in Hndr |- *. rewrite E1 in Hndr |- *. apply (chain_set_first _ (tail_of l)); [|done].
      rewrite <- E1. by do 2 (apply chain_insert; [|by rewrite elem_of_reverse]).
    + rewrite E2, List.last_last. split; [by look|]. look. by rewrite Hout.
  - unfold whole. by rewrite reverse_Permutation.
  - unfold whole. by rewrite reverse_Permutation.
  - assert (Hfr : frame (whole l es) h h1).
    { split; [|done]. intros e g He'. apply Hout. unfold whole in He'. set_solver + He'. }
    assert (Hall : forall x g, x ∈ whole l es -> is_Some (h !! (x, g))) by (intros; by eapply chain_dom).
    do 4 (apply frame_insert; [|unfold whole; set_solver + Hf Hz|apply Hall; unfold whole; set_solver + Hf Hz]). done.
Qed.
End Reverse.

(** ** Ordered lists

    A comparison that callers may pass: a strict weak order, stated as [less] has it. *)
Class WeakOrder (less : Z -> Z -> bool) : Prop := {
  less_asym : forall a b, less a b = true -> less b a = false;
  less_neg_trans : forall a b c, less b a = false -> less c b = false -> less c a = false
}.

Section Order.
Context (less : Z -> Z -> bool) `{!WeakOrder less}.
Implicit Types (s t es r k : list Z) (a b x y : Z).

(** [a] may stand before [b] in a nondecreasing list. *)
Definition le (a b : Z) : Prop := less b a = false.

#[export] Instance le_dec a b : Decision (le a b).
Proof. unfold le. apply _. Defined.

#[export] Instance le_total : Total le.
Proof.
  intros a b. unfold le. destruct (less a b) eqn:E; [left|by right]. by apply less_asym.
Qed.

#[export] Instance le_trans : Transitive le.
Proof. intros a b c. unfold le. apply less_neg_trans. Qed.

(** The number of maximal nondecreasing runs. *)
Fixpoint nruns (s : list Z) : nat :=
  match s with
  | [] => 0
  | a :: t =>
    match t with
    | [] => 1
    | b :: _ => if less b a then S (nruns t) else nruns t
    end
  end.

(** The first maximal run and what follows it. *)
Fixpoint run_split (s : list Z) : list Z * list Z :=
  match s with
  | [] => ([], [])
  | a :: t =>
    match t with
    | [] => ([a], [])
    | b :: _ => if less b a then ([a], t) else let '(r, u) := run_split t in (a :: r, u)
    end
  end.

Lemma Sorted_cons_iff a b t : Sorted le (a :: b :: t) <-> less b a = false /\ Sorted le (b :: t).
Proof.
  split.
  - intros [Hs Hh]%Sorted_inv. by apply HdRel_inv in Hh.
  - intros [Hl Hs]. constructor; [done|]. by constructor.
Qed.

Lemma run_split_spec s : s <> [] -> exists a r u,
  run_split s = (a :: r, u) /\ s = (a :: r) ++ u /\ head s = Some a /\ Sorted le (a :: r) /\
  nruns s = S (nruns u).
Proof.
  induction s as [|a t IH]; [done|]. intros _. destruct t as [|b t].
  { exists a, [], []. split_and!; try done. by repeat constructor. }
  cbn [run_split nruns]. destruct (less b a) eqn:E.
  - exists a, [], (b :: t). split_and!; try done. by repeat constructor.
  - destruct IH as (b' & r & u & Er & Es & Hh & Hs & Hn); [done|]. simplify_eq/=. rewrite Er.
    exists a, (b' :: r), u. split; [done|]. split; [by rewrite ?Es|]. split; [done|].
    split; [|done]. by apply Sorted_cons_iff.
Qed.

Lemma nruns_app s t : (nruns (s ++ t) <= nruns s + nruns t)%nat.
Proof.
  induction s as [|a s IH]; [done|]. destruct s as [|b s]; simpl in *.
  - destruct t as [|b t]; [done|]. destruct (less b a); simpl; lia.
  - destruct (less b a); lia.
Qed.

Lemma nruns_sorted s : Sorted le s <-> (nruns s <= 1)%nat.
Proof.
  induction s as [|a s IH]; [split; [simpl; lia|constructor]|]. destruct s as [|b s].
  { split; [simpl; lia|]. intros _. by repeat constructor. }
  rewrite Sorted_cons_iff, IH. cbn [nruns]. destruct (less b a); [|tauto]. split; [naive_solver|].
  intros. assert (nruns (b :: s) <> 0)%nat; [|simpl in *; lia].
  clear. revert b. induction s as [|c s IHs]; intros b; [done|]. cbn [nruns].
  destruct (less c b); [lia|apply IHs].
Qed.

Lemma nruns_pos s : s <> [] -> (0 < nruns s)%nat.
Proof. intros Hs. destruct (run_split_spec s Hs) as (a & r & u & _ & _ & _ & _ & E). lia. Qed.

Lemma nruns_length s : (nruns s <= length s)%nat.
Proof.
  induction s as [|a s IH]; [done|]. destruct s as [|b s]; [done|]. cbn [nruns length] in *.
  destruct (less b a); lia.
Qed.

Lemma merge_sorted s t : Sorted le s -> Sorted le t -> Sorted le (list_merge le s t).
Proof. intros. apply Sorted_list_merge; try done. apply _. Qed.

(** Elements that compare equal to [x]. *)
Definition equiv (x y : Z) : Prop := less x y = false /\ less y x = false.

#[export] Instance equiv_dec x y : Decision (equiv x y).
Proof. unfold equiv. apply _. Defined.

Lemma sorted_head_equiv x a s : Sorted le (a :: s) -> less x a = true -> filter (equiv x) (a :: s) = [].
Proof.
  intros Hs%Sorted_StronglySorted Hx; [|apply _]. apply StronglySorted_cons in Hs as [Ha _].
  rewrite Forall_forall in Ha. apply elem_of_nil_inv.
  intros y [[Hxy _] [->|Hy]%elem_of_cons]%list_elem_of_filter; [congruence|].
  specialize (Ha y Hy). rewrite (less_neg_trans a y x) in Hx; done.
Qed.

(** Merging is stable: equal elements keep their order, those of [s] first. *)
Lemma merge_stable x s t : Sorted le s -> Sorted le t ->
  filter (equiv x) (list_merge le s t) = filter (equiv x) s ++ filter (equiv x) t.
Proof.
  revert t. induction s as [|a s IHs]; intros t Hs Ht; [by rewrite list_merge_nil_l|].
  induction t as [|b t IHt]; [by rewrite list_merge_nil_r, app_nil_r|].
  rewrite list_merge_cons. case_decide as Hab.
  - rewrite !(filter_cons _ a), IHs by (done || by apply Sorted_inv in Hs as [? _]). by case_decide.
  - rewrite filter_cons, IHt by (by apply Sorted_inv in Ht as [? _]).
    rewrite (filter_cons _ b). case_decide as Hb; [|done].
    rewrite (sorted_head_equiv x a s); [done|done|]. apply not_false_is_true. intros Hxa.
    destruct Hb as [_ Hbx]. apply Hab. unfold le. by apply (less_neg_trans a x b).
Qed.
End Order.

(** ** Natural merge sort *)
Section Sort.
Context (less : Z -> Z -> bool) `{!WeakOrder less}.
Implicit Types (h : heap) (s t es r k A B : list Z) (a b x y l : Z).
Local Abbreviation le := (le less).
Local Abbreviation nruns := (nruns less).
Local Abbreviation run_split := (run_split less).

Lemma Sorted_snoc_mid k x y r : Sorted le (k ++ [x]) ->
  (Sorted le (k ++ x :: y :: r) -> less y x = false) /\
  (less y x = false -> Sorted le ((k ++ [x]) ++ [y])).
Proof.
  intros Hs. split.
  - clear Hs. induction k as [|c k IH]; simpl; [by intros [? _]%Sorted_cons_iff|].
    intros [H _]%Sorted_inv. by apply IH.
  - intros Hyx. apply Sorted_snoc; [done|]. by constructor.
Qed.

Lemma is_sorted_spec h l es1 k es2 :
  is_list h l (es1 ++ k ++ es2) ->
  returns (is_sorted less h (after_of l (k ++ es2)) (after_of l es2)) (fun ok => ok = true <-> Sorted le k).
Proof.
  intros Hl. unfold is_sorted. rewrite (after_of_eqb h l es1 k es2 Hl).
  destruct k as [|x0 k0]; simpl; [split; [intros _; constructor|done]|].
  apply (returns_loop_ix (fun n a => exists k1 k2, x0 :: k0 = k1 ++ a :: k2 /\ n = length k2 /\
    Sorted le (k1 ++ [a]))) with (n := length k0).
  - intros n x (k1 & k2 & Ek & -> & Hs). rewrite Ek in Hl |- *.
    assert (Hl1 := Hl). rewrite <- app_assoc, app_assoc in Hl1. simpl in Hl1.
    rewrite (list_next_spec h l (es1 ++ k1) x (k2 ++ es2) Hl1). simpl.
    assert (Hl2 := Hl1). rewrite cons_middle, app_assoc in Hl2.
    rewrite (after_of_eqb h l ((es1 ++ k1) ++ [x]) k2 es2 Hl2).
    destruct k2 as [|y k2]; simpl; [done|]. rewrite after_of_cons.
    pose proof (list_prev_spec h l _ _ Hl2) as Hp. rewrite before_of_snoc in Hp. simpl in Hp.
    rewrite after_of_cons in Hp. rewrite Hp. simpl.
    destruct (Sorted_snoc_mid k1 x y k2 Hs) as [H1 H2]. destruct (less y x); simpl.
    + split; [done|]. intros H%H1. done.
    + exists (length k2). split; [lia|]. exists (k1 ++ [x]), k2. rewrite <- app_assoc. auto.
  - exists [], k0. split_and!; try done. by repeat constructor.
  - pose proof (is_list_fuel h l _ Hl) as Hf. rewrite !length_app in Hf. simpl in Hf. lia.
Qed.

Lemma find_end_of_run_spec h l es1 es2 :
  is_list h l (es1 ++ es2) -> es2 <> [] ->
  find_end_of_run less h (after_of l es2) (tail_of l) = Ok (after_of l (run_split es2).2).
Proof.
  intros Hl Hne. apply returns_eq. unfold find_end_of_run.
  destruct (position_links h l es1 es2 Hl) as (_ & _ & _ & Ha). rewrite Ha. simpl.
  assert (Ht : (tail_of l =? NULL) = false) by (eapply whole_nonnull; [done|]; unfold whole; set_solver +).
  rewrite Ht. simpl. rewrite (after_of_end h l es1 es2 Hl), bool_decide_false by done. simpl.
  apply (returns_loop_ix (fun n a => exists k1 k2, es1 ++ es2 = k1 ++ a :: k2 /\ n = length k2 /\
    (run_split (a :: k2)).2 = (run_split es2).2)) with (n := length (tl es2)).
  - intros n x (k1 & k2 & Ek & -> & <-). rewrite Ek in Hl.
    rewrite (list_next_spec h l k1 x k2 Hl). simpl.
    assert (Hl2 := Hl). rewrite cons_middle, app_assoc in Hl2.
    rewrite (after_of_end h l (k1 ++ [x]) k2 Hl2). destruct k2 as [|y k2]; [done|].
    rewrite bool_decide_false, after_of_cons by done.
    pose proof (list_prev_spec h l _ _ Hl2) as Hp. rewrite before_of_snoc, after_of_cons in Hp.
    rewrite Hp. cbn [mbind res_bind]. destruct (less y x); simpl; [done|].
    exists (length k2). split; [lia|]. exists (k1 ++ [x]), k2. rewrite <- app_assoc.
    split; [done|]. split; [done|]. by destruct (match k2 with [] => _ | _ => _ end).
  - destruct es2 as [|x es2]; [done|]. by exists es1, es2.
  - pose proof (is_list_fuel h l _ Hl) as Hf. rewrite !length_app in Hf. destruct es2; simpl in *; lia.
Qed.

Lemma frame_perm s t h h' : frame s h h' -> s ≡ₚ t -> frame t h h'.
Proof. intros Hf Hp. apply (frame_mono s); [done|]. intros x. by rewrite Hp. Qed.

Lemma whole_perm l es es' : es ≡ₚ es' -> whole l es ≡ₚ whole l es'.
Proof. intros E. unfold whole. by rewrite E. Qed.

Lemma snoc_shift (s t k : list Z) x : (s ++ t ++ [x]) ++ k = (s ++ t) ++ x :: k.
Proof. by rewrite <- !app_assoc. Qed.

(** The state of the merging loop: [D] has been output, [A] and [B] remain. *)
Definition merging h0 l es1 es2 A0 B0 (h : heap) (a0 a1b0 : Z) D A B : Prop :=
  a0 = after_of l (A ++ B ++ es2) /\ a1b0 = after_of l (B ++ es2) /\
  is_list h l ((es1 ++ D) ++ A ++ B ++ es2) /\ D ++ list_merge le A B = list_merge le A0 B0 /\
  frame (whole l (es1 ++ A0 ++ B0 ++ es2)) h0 h.

Lemma merging_perm h0 l es1 es2 A0 B0 h a0 a1b0 D A B :
  merging h0 l es1 es2 A0 B0 h a0 a1b0 D A B ->
  whole l ((es1 ++ D) ++ A ++ B ++ es2) ≡ₚ whole l (es1 ++ A0 ++ B0 ++ es2).
Proof.
  intros (_ & _ & _ & E & _). apply whole_perm. rewrite <- app_assoc. f_equiv.
  rewrite (app_assoc A0), (app_assoc A), (app_assoc D). f_equiv.
  rewrite <- (merge_Permutation le A B), E. apply merge_Permutation.
Qed.

(** One round of the loop. *)
Lemma merging_step h0 l es1 es2 A0 B0 h x y D A B :
  merging h0 l es1 es2 A0 B0 h x y D (x :: A) (y :: B) ->
  returns (if negb (less y x) then a0 ← list_next h x; Ok (inl (h, a0, y))
           else
             a1b0 ← list_next h y;
             p ← list_prev h a1b0;
             h ← list_splice h x p a1b0;
             Ok (inl (h, x, a1b0)))
    (fun r : heap * Z * Z + heap => exists h' a0 a1b0, r = inl (h', a0, a1b0) /\
       (merging h0 l es1 es2 A0 B0 h' a0 a1b0 (D ++ [x]) A (y :: B) \/
        merging h0 l es1 es2 A0 B0 h' a0 a1b0 (D ++ [y]) (x :: A) B)).
Proof.
  intros Hm. pose proof (merging_perm _ _ _ _ _ _ _ _ _ _ _ _ Hm) as Hp.
  destruct Hm as (_ & _ & Hl & E & Hfr). rewrite list_merge_cons in E.
  destruct (less y x) eqn:Hyx; simpl.
  - assert (Hl1 := Hl). rewrite (app_assoc (es1 ++ D)) in Hl1. simpl in Hl1.
    rewrite (list_next_spec h l _ y _ Hl1). simpl.
    assert (Hl2 := Hl1). rewrite cons_middle, app_assoc in Hl2.
    rewrite (list_prev_spec h l _ _ Hl2), before_of_snoc. simpl. apply returns_bind.
    eapply returns_mono; [by apply (list_splice_back h l (es1 ++ D) x A [y] (B ++ es2))|].
    intros h' [Hl' Hfr']. simpl. eexists _, _, _. split; [done|]. right.
    split; [done|]. split; [done|]. split; [by rewrite snoc_shift|].
    split; [rewrite <- app_assoc, <- E; rewrite decide_False; [done|]; unfold KListSort.le; congruence|].
    apply (frame_trans _ _ h); [done|]. by eapply frame_perm.
  - rewrite <- app_comm_cons in Hl. rewrite (list_next_spec h l _ x _ Hl). simpl.
    eexists _, _, _. split; [done|]. left. split; [done|]. split; [done|].
    split; [by rewrite snoc_shift|]. split; [|done].
    rewrite <- app_assoc, <- E, decide_True by done. done.
Qed.

Lemma inplace_merge_spec h l es1 A B es2 :
  is_list h l (es1 ++ A ++ B ++ es2) -> Sorted le A -> Sorted le B ->
  returns (inplace_merge less h (after_of l (A ++ B ++ es2)) (after_of l (B ++ es2)) (after_of l es2))
    (fun h' => is_list h' l (es1 ++ list_merge le A B ++ es2) /\
       frame (whole l (es1 ++ A ++ B ++ es2)) h h').
Proof.
  intros Hl HA HB. unfold inplace_merge.
  assert (Hl1 := Hl). rewrite app_assoc in Hl1. assert (Hl2 := Hl1). rewrite app_assoc in Hl2.
  destruct (position_links h l _ _ Hl) as (_ & _ & _ & ->).
  destruct (position_links h l _ _ Hl1) as (_ & _ & _ & ->).
  destruct (position_links h l _ _ Hl2) as (_ & _ & _ & ->). simpl.
  destruct (returns_inv _ _ (is_sorted_spec h l es1 A (B ++ es2) Hl)) as (ok1 & -> & [_ ->]); [|done]. simpl.
  destruct (returns_inv _ _ (is_sorted_spec h l _ B es2 Hl1)) as (ok2 & -> & [_ ->]); [|done]. simpl.
  apply (returns_loop_ix (fun n '(h1, a0, a1b0) => exists D A' B',
    merging h l es1 es2 A B h1 a0 a1b0 D A' B' /\ n = (length A' + length B')%nat))
    with (n := (length A + length B)%nat).
  - intros n [[h1 a0] a1b0] (D & A' & B' & Hm & ->). pose proof Hm as (-> & -> & Hm1 & E & Hfr).
    rewrite (after_of_eqb h1 l _ A' (B' ++ es2) Hm1).
    assert (Hm2 := Hm1). rewrite app_assoc in Hm2. rewrite (after_of_eqb h1 l _ B' es2 Hm2).
    destruct A' as [|x A'].
    { simpl. rewrite list_merge_nil_l in E. rewrite <- E. split; [|done]. simpl in Hm1. by rewrite <- !app_assoc in Hm1 |- *. }
    destruct B' as [|y B'].
    { simpl. rewrite list_merge_nil_r in E. rewrite <- E. split; [|done]. simpl in Hm1. by rewrite <- !app_assoc in Hm1 |- *. }
    rewrite !bool_decide_false by done. cbn [orb]. rewrite <- !app_comm_cons, !after_of_cons.
    eapply returns_mono; [by apply (merging_step h l es1 es2 A B h1 x y D A' B')|].
    intros ? (h' & a0 & a1b0 & -> & [Hm'|Hm']); eexists; (split; [|by eexists _, _, _]); simpl; lia.
  - exists [], A, B. split; [|done]. split; [done|]. split; [done|]. by rewrite app_nil_r.
  - pose proof (is_list_fuel h l _ Hl) as Hf. rewrite !length_app in Hf. lia.
Qed.

(** [es'] holds the elements of [es]; those that compare equal are in the same order. *)
Definition stable_perm (es es' : list Z) : Prop :=
  es' ≡ₚ es /\ forall x, filter (equiv less x) es' = filter (equiv less x) es.

Lemma stable_perm_trans es es' es'' :
  stable_perm es es' -> stable_perm es' es'' -> stable_perm es es''.
Proof. intros [P1 F1] [P2 F2]. split; [by rewrite P2|]. intros x. by rewrite F2. Qed.

Lemma stable_perm_merge D A B R : Sorted le A -> Sorted le B ->
  stable_perm (D ++ A ++ B ++ R) ((D ++ list_merge le A B) ++ R).
Proof.
  intros HA HB. split.
  - rewrite (merge_Permutation le A B). by rewrite <- !app_assoc.
  - intros x. rewrite !filter_app, merge_stable by done. by rewrite <- !app_assoc.
Qed.

(** The state of a pass: [D] is output as [c] runs, [R] remains. *)
Definition passing h0 l es (h : heap) (a0 cnt : Z) D R : Prop :=
  a0 = after_of l R /\ is_list h l (D ++ R) /\ stable_perm es (D ++ R) /\
  frame (whole l es) h0 h /\ 0 <= cnt /\ Z.of_nat (nruns D) <= cnt /\
  2 * cnt + Z.of_nat (nruns R) <= Z.of_nat (nruns es).

Definition passed h0 l es (r : heap * Z) : Prop :=
  exists es', is_list r.1 l es' /\ stable_perm es es' /\ frame (whole l es) h0 r.1 /\
    Z.of_nat (nruns es') <= r.2 /\ 2 * r.2 <= Z.of_nat (nruns es) + 1.

(** One round of a pass: a run is left over, or two runs are merged. *)
Lemma passing_step h0 l es h cnt D R :
  passing h0 l es h (after_of l R) cnt D R -> R <> [] -> Z.of_nat (nruns es) < 2 ^ 32 ->
  returns (
      let output_run_cnt := u32 (cnt + 1) in
      a1b0 ← find_end_of_run less h (after_of l R) (tail_of l);
      if a1b0 =? tail_of l then Ok (inr (h, output_run_cnt))
      else
        b1 ← find_end_of_run less h a1b0 (tail_of l);
        h ← inplace_merge less h (after_of l R) a1b0 b1;
        Ok (inl (h, b1, output_run_cnt)))
    (fun res => match res with
              | inr out => passed h0 l es out
              | inl (h', a0, cnt') => exists D' R', passing h0 l es h' a0 cnt' D' R' /\
                  (length R' < length R)%nat
              end).
Proof.
  intros (_ & Hl & Hst & Hfr & H0 & HD & HR) HRne Hbig.
  destruct (run_split_spec less R HRne) as (a & r & R1 & Er & ER & _ & Hs1 & Hn1).
  rewrite Hn1 in HR. rewrite (find_end_of_run_spec h l D R Hl HRne), Er. simpl. rewrite u32_small by lia.
  rewrite ER in Hl, Hst. assert (Hl1 := Hl). rewrite app_assoc in Hl1.
  rewrite (after_of_end h l _ R1 Hl1). case_bool_decide as HR1; simpl.
  { subst R1. rewrite app_nil_r in Hl, Hst. exists (D ++ a :: r). simpl. split_and!; try done.
    - pose proof (nruns_app less D (a :: r)). apply nruns_sorted in Hs1. lia.
    - lia. }
  destruct (run_split_spec less R1 HR1) as (b & r2 & R2 & Er2 & ER2 & _ & Hs2 & Hn2).
  rewrite (find_end_of_run_spec h l _ R1 Hl1 HR1), Er2. simpl. rewrite ER, ER2. rewrite ER2 in Hl, Hst.
  apply returns_bind. eapply returns_mono; [by apply (inplace_merge_spec h l D (a :: r) (b :: r2) R2)|].
  intros h' [Hl' Hfr']. simpl. exists (D ++ list_merge le (a :: r) (b :: r2)), R2.
  split; [|repeat (rewrite length_app || simpl); lia]. split; [done|]. split; [by rewrite <- app_assoc|].
  split; [eapply stable_perm_trans; [exact Hst|]; by apply stable_perm_merge|].
  split; [apply (frame_trans _ _ h); [done|]; eapply frame_perm; [done|]; apply whole_perm, Hst|].
  pose proof (nruns_app less D (list_merge le (a :: r) (b :: r2))).
  pose proof (merge_sorted less _ _ Hs1 Hs2) as Hms. apply nruns_sorted in Hms. lia.
Qed.

Lemma sort_pass_spec h l es : is_list h l es -> returns (sort_pass less h l) (passed h l es).
Proof.
  intros Hl. pose proof (is_list_length h l es Hl) as Hlen. pose proof (nruns_length less es) as Hnl.
  unfold sort_pass. rewrite (list_begin_spec h l es Hl). cbn [mbind res_bind].
  apply (returns_loop_ix (fun n '(h1, a0, cnt) => exists D R,
    passing h l es h1 a0 cnt D R /\ n = length R)) with (n := length es).
  - intros n [[h1 a0] cnt] (D & R & Hp & ->). pose proof Hp as (-> & Hl1 & Hst & Hfr & H0 & HD & HR).
    rewrite (list_end_spec h l es Hl). cbn [mbind res_bind]. rewrite (after_of_end h1 l D R Hl1).
    case_bool_decide as Hnil.
    { subst R. simpl in *. rewrite app_nil_r in *. exists D. simpl. split_and!; done || lia. }
    eapply returns_mono; [apply (passing_step h l es h1 cnt D R Hp Hnil); lia|].
    intros [[[h' a0'] cnt']|out]; [|done]. intros (D' & R' & Hp' & Hlt). eauto 8.
  - exists [], es. split; [|done]. by split_and!; simpl; try done; try lia.
  - pose proof (is_list_fuel h l es Hl). lia.
Qed.

Lemma list_sort_spec h l es : is_list h l es ->
  returns (list_sort less h l) (fun h' => exists es', is_list h' l es' /\
    Sorted le es' /\ stable_perm es es' /\ frame (whole l es) h h').
Proof.
  intros Hl. unfold list_sort. rewrite (list_nonnull h l es Hl). simpl. apply returns_bind.
  eapply (returns_mono _ (fun h' => exists es', is_list h' l es' /\ Sorted le es' /\ stable_perm es es' /\
    frame (whole l es) h h')).
  - apply (returns_loop_ix (fun n h1 => exists es1, is_list h1 l es1 /\ stable_perm es es1 /\
      frame (whole l es) h h1 /\ n = nruns es1)) with (n := nruns es).
    + intros n h1 (es1 & Hl1 & Hst & Hfr & ->). apply returns_bind.
      eapply returns_mono; [by apply sort_pass_spec|].
      intros [h2 cnt] (es2 & Hl2 & Hst2 & Hfr2 & Hn & Hc). simpl in *.
      assert (Hst' : stable_perm es es2) by (by eapply stable_perm_trans).
      assert (Hfr' : frame (whole l es) h h2).
      { apply (frame_trans _ _ h1); [done|]. eapply frame_perm; [done|]. apply whole_perm, Hst. }
      destruct (Z.ltb_spec 1 cnt); simpl.
      * exists (nruns es2). split; [lia|]. eauto 8.
      * exists es2. split; [done|]. split; [apply nruns_sorted; lia|done].
    + by exists es.
    + pose proof (is_list_fuel h l es Hl). pose proof (nruns_length less es). lia.
  - intros h' (es' & Hl' & Hs & Hst & Hfr). rewrite (list_begin_spec h' l es' Hl'). simpl.
    rewrite (list_end_spec h' l es' Hl'). simpl.
    pose proof (is_sorted_spec h' l [] es' []) as Hsp. rewrite app_nil_r in Hsp.
    destruct (returns_inv _ _ (Hsp Hl')) as (ok & Hok & [_ Ht]). rewrite after_of_nil in Hok.
    rewrite Hok, Ht by done. simpl. eauto.
Qed.
End Sort.

(** ** Ordered insertion, duplicates, extrema *)
Section Search.
Context (less : Z -> Z -> bool) `{!WeakOrder less}.
Implicit Types (h : heap) (s t es k : list Z) (a b x y l : Z).
Local Abbreviation le := (le less).

(** Where [list_insert_ordered] stops: after the elements that [x] is not less than. *)
Lemma insert_position_spec h l es x : is_list h l es ->
  returns (loop (list_fuel h) (fun e =>
      stop ← list_end l;
      if e =? stop then Ok (inr e)
      else if less x e then Ok (inr e)
      else n ← list_next h e; Ok (inl n)) (after_of l es))
    (fun e => exists es1 es2, es = es1 ++ es2 /\ e = after_of l es2 /\
       Forall (fun y => less x y = false) es1 /\ (forall y, head es2 = Some y -> less x y = true)).
Proof.
  intros Hl. apply (returns_loop_ix (fun n e => exists es1 es2, es = es1 ++ es2 /\ e = after_of l es2 /\
    n = length es2 /\ Forall (fun y => less x y = false) es1)) with (n := length es).
  - intros n e (es1 & es2 & -> & -> & -> & Hall). rewrite (list_end_spec h l _ Hl). simpl.
    rewrite (after_of_end h l es1 es2 Hl). destruct es2 as [|y es2]; simpl; [by exists es1, []|].
    rewrite after_of_cons. destruct (less x y) eqn:E; simpl.
    { exists es1, (y :: es2). split_and!; try done. by intros ? [= <-]. }
    rewrite (list_next_spec h l es1 y es2 Hl). simpl. exists (length es2). split; [lia|].
    exists (es1 ++ [y]), es2. rewrite <- app_assoc. split_and!; try done. by apply Forall_app_2; [|constructor].
  - by exists [], es.
  - pose proof (is_list_fuel h l es Hl). lia.
Qed.

Lemma sorted_insert es1 es2 x : Sorted le (es1 ++ es2) ->
  Forall (fun y => less x y = false) es1 -> (forall y, head es2 = Some y -> less x y = true) ->
  Sorted le (es1 ++ x :: es2).
Proof.
  intros Hs Hall Hhd. induction es1 as [|a es1 IH]; simpl in *.
  - constructor; [done|]. destruct es2 as [|y es2]; constructor. by apply less_asym, Hhd.
  - apply Sorted_inv in Hs as [Hs Ha]. apply Forall_cons in Hall as [Hxa Hall].
    constructor; [by apply IH|]. destruct es1 as [|b es1]; simpl; constructor; [done|].
    by apply HdRel_inv in Ha.
Qed.

Lemma list_insert_ordered_spec h l es x :
  is_list h l es -> allocated h x -> x ∉ whole l es ->
  returns (list_insert_ordered less h l x) (fun h' => exists es1 es2, es = es1 ++ es2 /\
    is_list h' l (es1 ++ x :: es2) /\ frame (x :: whole l es) h h' /\
    Forall (fun y => less x y = false) es1 /\ (forall y, head es2 = Some y -> less x y = true)).
Proof.
  intros Hl Hx Hni. unfold list_insert_ordered. rewrite (list_nonnull h l es Hl). simpl.
  pose proof Hx as (Hr & _).
  replace (x =? NULL) with false by (symmetry; apply Z.eqb_neq; unfold NULL; lia). simpl.
  rewrite (list_begin_spec h l es Hl). simpl. apply returns_bind.
  eapply returns_mono; [by apply insert_position_spec|].
  intros e (es1 & es2 & -> & -> & Hall & Hhd).
  eapply returns_mono; [by apply list_insert_spec|]. intros h' [? ?]. by exists es1, es2.
Qed.

(** [list_unique] on sequences: what stays and what is removed. *)
Fixpoint unique_from (x : Z) (s : list Z) : list Z * list Z :=
  match s with
  | [] => ([], [])
  | y :: t => if negb (less x y) && negb (less y x) then
                let '(kept, dups) := unique_from x t in (kept, y :: dups)
              else let '(kept, dups) := unique_from y t in (y :: kept, dups)
  end.

Definition unique (s : list Z) : list Z * list Z :=
  match s with [] => ([], []) | x :: t => let '(kept, dups) := unique_from x t in (x :: kept, dups) end.

(** Adjacent elements that remain are not equal. *)
Fixpoint distinct_from (x : Z) (s : list Z) : Prop :=
  match s with [] => True | y :: t => ~ equiv less x y /\ distinct_from y t end.

Lemma unique_from_spec x s : let '(kept, dups) := unique_from x s in
  kept ++ dups ≡ₚ s /\ distinct_from x kept /\
  (Sorted le (x :: s) -> Forall (fun d => exists y, y ∈ x :: kept /\ equiv less y d) dups).
Proof.
  revert x. induction s as [|y s IH]; intros x; simpl; [split_and!; try done; by constructor|].
  destruct (negb (less x y) && negb (less y x)) eqn:E.
  - specialize (IH x). destruct (unique_from x s) as [kept dups]. destruct IH as (Hp & Hd & Hs).
    apply andb_true_iff in E as [E1%negb_true_iff E2%negb_true_iff].
    split; [by rewrite <- Permutation_middle, Hp|]. split; [done|]. intros Hsort.
    constructor; [exists x; split; [set_solver|done]|]. apply Hs.
    apply Sorted_cons_iff in Hsort as [Hxy Hsort].
    destruct s as [|z s]; [by repeat constructor|]. apply Sorted_cons_iff in Hsort as [Hyz Hsort].
    apply Sorted_cons_iff. split; [by apply (less_neg_trans x y z)|done].
  - specialize (IH y). destruct (unique_from y s) as [kept dups]. destruct IH as (Hp & Hd & Hs).
    split; [simpl; by rewrite Hp|]. split.
    + split; [|done]. intros [E1 E2]. by rewrite E1, E2 in E.
    + intros [_ Hsort]%Sorted_cons_iff. specialize (Hs Hsort). eapply Forall_impl; [exact Hs|].
      intros d (z & Hz & Hzd). exists z. split; [set_solver|done].
Qed.

(** The elements of the list of duplicates, none for a null pointer. *)
Definition dup_elems (dup : Z) (ds : list Z) : list Z := if dup =? NULL then [] else whole dup ds.

(** A list and the list that receives its duplicates, sharing no element. *)
Definition two_lists h l es dup ds : Prop :=
  is_list h l es /\ (dup <> NULL -> is_list h dup ds) /\
  (forall e, e ∈ whole l es -> e ∉ dup_elems dup ds).

(** Removing [y] from the list and appending it to the duplicates. *)
Lemma unique_remove h l es1 y es2 dup ds :
  two_lists h l (es1 ++ y :: es2) dup ds ->
  returns ('(_, h) ← list_remove h y;
           if negb (dup =? NULL) then list_push_back h dup y else Ok h)
    (fun h' => two_lists h' l (es1 ++ es2) dup (ds ++ [y]) /\
       frame (whole l (es1 ++ y :: es2) ++ dup_elems dup ds) h h').
Proof.
  intros (Hl & Hd & Hdis). apply returns_bind.
  eapply returns_mono; [by apply list_remove_spec|]. intros [n h1] (_ & Hl1 & Hy & Hfr). cbn beta iota.
  assert (Hsub : whole l (es1 ++ y :: es2) ≡ₚ y :: whole l (es1 ++ es2)).
  { unfold whole. rewrite <- (Permutation_middle es1 es2 y). apply perm_swap. }
  assert (Hynot : y ∉ whole l (es1 ++ es2)).
  { destruct Hl as [_ Hnd _]. rewrite Hsub in Hnd. by apply NoDup_cons in Hnd as [? _]. }
  unfold two_lists, dup_elems in *. destruct (Z.eqb_spec dup NULL) as [->|Hne]; cbn [negb returns].
  - split; [|by rewrite app_nil_r]. split; [done|]. split; [done|]. set_solver +.
  - assert (Hd1 : is_list h1 dup ds).
    { eapply is_list_frame; [by apply Hd|done|]. intros e He He'. by apply (Hdis e). }
    assert (Hyd : y ∉ whole dup ds) by (apply Hdis; rewrite Hsub; set_solver +).
    eapply returns_mono; [by apply list_push_back_spec|]. intros h2 [Hd2 Hfr2]. split; [split_and!|].
    + eapply is_list_frame; [done|done|]. intros e He He2.
      apply elem_of_cons in He2 as [->|He2]; [done|]. apply (Hdis e); [rewrite Hsub; set_solver + He|done].
    + done.
    + intros e He He2. assert (e ∉ whole dup ds) by (apply Hdis; rewrite Hsub; set_solver + He).
      assert (e <> y) by (by intros ->). unfold whole in *. set_solver.
    + apply (frame_trans _ _ h1).
      * apply (frame_mono _ _ _ _ Hfr). set_solver +.
      * apply (frame_mono _ _ _ _ Hfr2). intros e He. rewrite Hsub. set_solver + He.
Qed.

Lemma uniq_subset l D x y R dup ds E W :
  whole l (D ++ x :: y :: R) ++ dup_elems dup (ds ++ E) ⊆ W ->
  whole l (D ++ x :: R) ++ dup_elems dup (ds ++ E ++ [y]) ⊆ W.
Proof. unfold dup_elems, whole. destruct (dup =? NULL); set_solver. Qed.

Lemma list_unique_spec h l es dup ds :
  two_lists h l es dup ds ->
  returns (list_unique less h l dup) (fun h' =>
    two_lists h' l (unique es).1 dup (ds ++ (unique es).2) /\
    frame (whole l es ++ dup_elems dup ds) h h').
Proof.
  intros Ht. pose proof Ht as (Hl & _). unfold list_unique. rewrite (list_nonnull h l es Hl). cbn [negb mbind res_bind ASSERT].
  rewrite (list_empty_spec h l es Hl). cbn [mbind res_bind]. destruct es as [|x0 es0].
  { cbn. rewrite app_nil_r. done. }
  rewrite bool_decide_false by done. rewrite (list_begin_spec h l _ Hl). cbn [mbind res_bind].
  rewrite after_of_cons. set (W := whole l (x0 :: es0) ++ dup_elems dup ds).
  apply (returns_loop_ix (fun n '(h1, x) => exists D R E, two_lists h1 l (D ++ x :: R) dup (ds ++ E) /\
    D ++ x :: (unique_from x R).1 = (unique (x0 :: es0)).1 /\ E ++ (unique_from x R).2 = (unique (x0 :: es0)).2 /\
    frame W h h1 /\ whole l (D ++ x :: R) ++ dup_elems dup (ds ++ E) ⊆ W /\ n = length R)) with (n := length es0).
  - intros n [h1 x] (D & R & E & Ht1 & E1 & E2 & Hfr & Hsub & ->). pose proof Ht1 as (Hl1 & _).
    rewrite (list_next_spec h1 l D x R Hl1). cbn [mbind res_bind].
    rewrite (list_end_spec h1 l _ Hl1). cbn [mbind res_bind].
    assert (Hl2 := Hl1). rewrite cons_middle, app_assoc in Hl2. rewrite (after_of_end h1 l _ R Hl2).
    destruct R as [|y R].
    { cbn in E1, E2 |- *. by rewrite <- E1, <- E2, app_nil_r. }
    rewrite bool_decide_false, after_of_cons by done. cbn [unique_from] in E1, E2.
    destruct (negb (less x y) && negb (less y x)).
    + destruct (unique_from x R) as [kept dups] eqn:EU. cbn in E1, E2.
      pose proof (unique_remove h1 l (D ++ [x]) y R dup (ds ++ E)) as Hr.
      rewrite <- !app_assoc in Hr. cbn [app] in Hr.
      destruct (returns_inv _ _ (Hr Ht1)) as (h3 & Eq & Ht3 & Hfr3).
      destruct (list_remove h1 y) as [[n' h2]|]; [|done]. cbn in Eq |- *.
      destruct (negb (dup =? NULL)); [rewrite Eq|simplify_eq]; cbn.
      all: exists (length R); split; [lia|]; exists D, R, (E ++ [y]); rewrite EU, <- app_assoc.
      all: split_and!; try done; [eapply frame_trans; [done|]; by eapply frame_mono|].
      all: by eapply uniq_subset.
    + destruct (unique_from y R) as [kept dups] eqn:EU. cbn in E1, E2 |- *. exists (length R).
      split; [lia|]. exists (D ++ [x]), R, E. rewrite EU, <- !app_assoc. done.
  - exists [], es0, []. rewrite !app_nil_r. cbn [unique app]. destruct (unique_from x0 es0). by split_and!.
  - pose proof (is_list_fuel h l _ Hl) as Hf. simpl in Hf. lia.
Qed.
End Search.

(** ** Maximum and minimum *)

#[export] Instance weak_order_flip less : WeakOrder less -> WeakOrder (fun a b => less b a).
Proof. intros [Ha Ht]. split; [naive_solver|]. intros a b c H1 H2. by apply (Ht c b a). Qed.

Section Extrema.
Context (better : Z -> Z -> bool) `{!WeakOrder better}.
Implicit Types (h : heap) (s es : list Z) (m x y l : Z).

(** [m] is the first of the best elements of [s]. *)
Definition first_best (m : Z) (s : list Z) : Prop :=
  exists s1 s2, s = s1 ++ m :: s2 /\ Forall (fun e => better e m = false) s /\
    Forall (fun e => better m e = true) s1.

Lemma first_best_step m s y : first_best m s ->
  first_best (if better y m then y else m) (s ++ [y]).
Proof.
  intros (s1 & s2 & E & Hall & Hfst). destruct (better y m) eqn:Hy.
  - exists s, []. split; [done|]. pose proof (less_asym _ _ Hy) as Hmy. rewrite Forall_forall in Hall. split.
    + apply Forall_app_2; [|by constructor; [destruct (better y y) eqn:Hyy; [by rewrite (less_asym _ _ Hyy) in Hyy|]|]].
      rewrite Forall_forall. intros e He. by apply (less_neg_trans y m e), Hall.
    + rewrite Forall_forall. intros e He. apply not_false_is_true. intros Hye.
      rewrite (less_neg_trans m e y) in Hy; [done|by apply Hall|done].
  - exists s1, (s2 ++ [y]). split; [by rewrite E, <- app_assoc|]. split; [|done].
    apply Forall_app_2; [done|]. by constructor.
Qed.

Lemma list_best_spec h l es : is_list h l es ->
  returns (list_best better h l) (fun m =>
    match es with [] => m = tail_of l | _ => first_best m es end).
Proof.
  intros Hl. unfold list_best. rewrite (list_begin_spec h l es Hl). simpl.
  rewrite (list_end_spec h l es Hl). simpl. rewrite (after_of_end h l [] es Hl).
  destruct es as [|x0 es0]; [done|]. rewrite bool_decide_false by done. rewrite after_of_cons. simpl.
  rewrite (list_next_spec h l [] x0 es0 Hl). simpl.
  apply (returns_loop_ix (fun n '(m, e) => exists s1 s2, x0 :: es0 = s1 ++ s2 /\ e = after_of l s2 /\
    n = length s2 /\ first_best m s1)) with (n := length es0).
  - intros n [m e] (s1 & s2 & E & -> & -> & Hb). rewrite E in Hl |- *. clear E.
    rewrite (after_of_end h l s1 s2 Hl).
    destruct s2 as [|y s2]; simpl.
    + rewrite app_nil_r. destruct s1 as [|a s1]; [|done]. by destruct Hb as ([] & ? & [=] & _).
    + rewrite after_of_cons, (list_next_spec h l s1 y s2 Hl). simpl. exists (length s2).
      split; [lia|]. exists (s1 ++ [y]), s2. rewrite <- app_assoc. split_and!; try done.
      by apply first_best_step.
  - exists [x0], es0. split_and!; try done. exists [], []. split_and!; try done.
    constructor; [|done]. destruct (better x0 x0) eqn:Hx; [by rewrite (less_asym _ _ Hx) in Hx|done].
  - pose proof (is_list_fuel h l _ Hl) as Hf. simpl in Hf. lia.
Qed.
End Extrema.

(** The first maximum under [less], and the first minimum; an empty list gives its
    tail. *)
Lemma list_max_spec less `{!WeakOrder less} h l es : is_list h l es ->
  returns (list_max less h l) (fun m =>
    match es with [] => m = tail_of l | _ => first_best (fun a b => less b a) m es end).
Proof. intros Hl. by apply list_best_spec; [apply _|]. Qed.

Lemma list_min_spec less `{!WeakOrder less} h l es : is_list h l es ->
  returns (list_min less h l) (fun m =>
    match es with [] => m = tail_of l | _ => first_best less m es end).
Proof. intros Hl. by apply list_best_spec. Qed.
