(* ===== verification/Hash.v ===== *)
(** * Hash tables

    lib/kernel/hash.c over the linked lists of lib/kernel/list.c.  The table keeps its
    buckets, an array of [struct list], in a block of the allocator it is given through
    [BlockOps]; elements are the caller's and only their links are touched.  The hash and
    comparison functions are the caller's as well: they read the contents of an element,
    which the table does not change.  [list_elem_to_hash_elem] is the identity on
    addresses, since [list_elem] is the first member of [struct hash_elem]. *)

From stdpp Require Import base list gmap numbers.
From Stdlib Require Import ZArith Lia.
From S2P Require Import Prelude.
From S2P Require Import CString.
From S2P Require Import Interfaces.
From S2P Require Import KList.
From S2P Require Import KLists.
From S2P Require Import KListSort.

Local Open Scope Z_scope.

Record hash := mk_hash { elem_cnt : Z; bucket_cnt : Z; buckets : Z }.

Record hash_iterator := mk_iterator { it_bucket : Z; it_elem : Z }.

(** [sizeof(struct list)] *)
Definition sizeof_list : Z := 16.

(** [&buckets[i]] *)
Definition bucket (p i : Z) : Z := u32 (p + sizeof_list * i).

(** The members of the lists in a block of [n] lists at [p]: both elements of every
    list appear in the heap with whatever the block contains, and disappear with it. *)
Section Memory.
Variable junk : Z * link -> Z.

Definition bucket_links (p : Z) (n : nat) : list (Z * link) :=
  flat_map (fun k => [(p + 8 * Z.of_nat k, Prev); (p + 8 * Z.of_nat k, Next)]) (seq 0 (2 * n)).

Definition new_links (h : heap) (p : Z) (n : nat) : heap :=
  foldr (fun c h => <[c := junk c]> h) h (bucket_links p n).

Definition drop_links (h : heap) (p : Z) (n : nat) : heap := foldr (fun c h => delete c h) h (bucket_links p n).
End Memory.

Section Hash.
Context {A : Type} `{!BlockOps A}.
Variable junk : Z * link -> Z.
Variable hash_func : Z -> Z.
Variable less : Z -> Z -> bool.

(** ** Buckets and elements *)

Definition find_bucket (h : hash) (e : Z) : Z :=
  let bucket_idx := Z.land (hash_func e) (bucket_cnt h - 1) in
  bucket (buckets h) bucket_idx.

Definition find_elem (hp : heap) (b e : Z) : res Z :=
  i ← list_begin hp b;
  loop (list_fuel hp) (fun i =>
    stop ← list_end b;
    if i =? stop then Ok (inr NULL)
    else if negb (less i e) && negb (less e i) then Ok (inr i)
    else n ← list_next hp i; Ok (inl n)) i.

Definition insert_elem (h : hash) (hp : heap) (b e : Z) : res (hash * heap) :=
  let h := mk_hash (u32 (elem_cnt h + 1)) (bucket_cnt h) (buckets h) in
  hp ← list_push_front hp b e;
  Ok (h, hp).

Definition remove_elem (h : hash) (hp : heap) (e : Z) : res (hash * heap) :=
  let h := mk_hash (u32 (elem_cnt h - 1)) (bucket_cnt h) (buckets h) in
  '(_, hp) ← list_remove hp e;
  Ok (h, hp).

Definition turn_off_least_1bit (x : Z) : Z := Z.land x (u32 (x - 1)).

Definition is_power_of_2 (x : Z) : bool := negb (x =? 0) && (turn_off_least_1bit x =? 0).

Definition MIN_ELEMS_PER_BUCKET : Z := 1.
Definition BEST_ELEMS_PER_BUCKET : Z := 2.
Definition MAX_ELEMS_PER_BUCKET : Z := 4.

(** ** Rehashing *)

Definition power_step (n : Z) : res (Z + Z) :=
  if negb (is_power_of_2 n) then Ok (inl (turn_off_least_1bit n)) else Ok (inr n).

(** Initialises the lists [i, i+1, ...] of the [cnt] lists at [p]. *)
Definition init_buckets (hp : heap) (p cnt : Z) : res heap :=
  loop (S (Z.to_nat cnt)) (fun '(i, hp) =>
    if i <? cnt then hp ← list_init hp (bucket p i); Ok (inl (i + 1, hp)) else Ok (inr hp)) (0, hp).

(** Moves the elements of one old bucket to the buckets of [h]. *)
Definition move_bucket (h : hash) (hp : heap) (old_bucket : Z) : res heap :=
  elem ← list_begin hp old_bucket;
  loop (list_fuel hp) (fun '(hp, elem) =>
    stop ← list_end old_bucket;
    if elem =? stop then Ok (inr hp)
    else
      let new_bucket := find_bucket h elem in
      next ← list_next hp elem;
      '(_, hp) ← list_remove hp elem;
      hp ← list_push_front hp new_bucket elem;
      Ok (inl (hp, next))) (hp, elem).

Definition rehash (h : hash) (hp : heap) (w : A) : res (hash * heap * A) :=
  let old_buckets := buckets h in
  let old_bucket_cnt := bucket_cnt h in
  let new_bucket_cnt := elem_cnt h / BEST_ELEMS_PER_BUCKET in
  let new_bucket_cnt := if new_bucket_cnt <? 4 then 4 else new_bucket_cnt in
  new_bucket_cnt ← while power_step new_bucket_cnt;
  if new_bucket_cnt =? old_bucket_cnt then Ok (h, hp, w) else
  '(new_buckets, w) ← bo_malloc w (u32 (sizeof_list * new_bucket_cnt));
  if new_buckets =? NULL then Ok (h, hp, w) else
  let hp := new_links junk hp new_buckets (Z.to_nat new_bucket_cnt) in
  hp ← init_buckets hp new_buckets new_bucket_cnt;
  let h := mk_hash (elem_cnt h) new_bucket_cnt new_buckets in
  hp ← loop (S (Z.to_nat old_bucket_cnt)) (fun '(i, hp) =>
    if i <? old_bucket_cnt then hp ← move_bucket h hp (bucket old_buckets i); Ok (inl (i + 1, hp))
    else Ok (inr hp)) (0, hp);
  w ← bo_free w old_buckets;
  Ok (h, drop_links hp old_buckets (Z.to_nat old_bucket_cnt), w).

(** ** Search, insertion, deletion *)

Definition hash_insert (h : hash) (hp : heap) (w : A) (new : Z) : res (Z * hash * heap * A) :=
  let b := find_bucket h new in
  old ← find_elem hp b new;
  '(h, hp) ← if old =? NULL then insert_elem h hp b new else Ok (h, hp);
  '(h, hp, w) ← rehash h hp w;
  Ok (old, h, hp, w).

Definition hash_replace (h : hash) (hp : heap) (w : A) (new : Z) : res (Z * hash * heap * A) :=
  let b := find_bucket h new in
  old ← find_elem hp b new;
  '(h, hp) ← if negb (old =? NULL) then remove_elem h hp old else Ok (h, hp);
  '(h, hp) ← insert_elem h hp b new;
  '(h, hp, w) ← rehash h hp w;
  Ok (old, h, hp, w).

Definition hash_find (h : hash) (hp : heap) (e : Z) : res Z := find_elem hp (find_bucket h e) e.

Definition hash_delete (h : hash) (hp : heap) (w : A) (e : Z) : res (Z * hash * heap * A) :=
  found ← find_elem hp (find_bucket h e) e;
  if negb (found =? NULL) then
    '(h, hp) ← remove_elem h hp found;
    '(h, hp, w) ← rehash h hp w;
    Ok (found, h, hp, w)
  else Ok (found, h, hp, w).

(** ** Life cycle

    A destructor or an action is the caller's function on the caller's state, which
    includes the allocator. *)

Definition empty_bucket (destructor : Z -> A -> res A) (hp : heap) (w : A) (b : Z) : res (heap * A) :=
  loop (list_fuel hp) (fun '(hp, w) =>
    empty ← list_empty hp b;
    if negb empty then
      '(e, hp) ← list_pop_front hp b;
      w ← destructor e w;
      Ok (inl (hp, w))
    else Ok (inr (hp, w))) (hp, w).

Definition hash_clear (h : hash) (hp : heap) (w : A) (destructor : option (Z -> A -> res A)) : res (hash * heap * A) :=
  '(hp, w) ← loop (S (Z.to_nat (bucket_cnt h))) (fun '(i, hp, w) =>
    if i <? bucket_cnt h then
      let b := bucket (buckets h) i in
      '(hp, w) ← match destructor with Some d => empty_bucket d hp w b | None => Ok (hp, w) end;
      hp ← list_init hp b;
      Ok (inl (i + 1, hp, w))
    else Ok (inr (hp, w))) (0, hp, w);
  Ok (mk_hash 0 (bucket_cnt h) (buckets h), hp, w).

Definition hash_init (hp : heap) (w : A) : res (bool * hash * heap * A) :=
  '(p, w) ← bo_malloc w (u32 (sizeof_list * 4));
  let h := mk_hash 0 4 p in
  if negb (p =? NULL) then
    '(h, hp, w) ← hash_clear h (new_links junk hp p 4) w None;
    Ok (true, h, hp, w)
  else Ok (false, h, hp, w).

Definition hash_destroy (h : hash) (hp : heap) (w : A) (destructor : option (Z -> A -> res A)) : res (hash * heap * A) :=
  '(h, hp, w) ← match destructor with Some _ => hash_clear h hp w destructor | None => Ok (h, hp, w) end;
  w ← bo_free w (buckets h);
  Ok (h, drop_links hp (buckets h) (Z.to_nat (bucket_cnt h)), w).

(** ** Iteration *)

Definition apply_bucket (action : Z -> A -> res A) (hp : heap) (w : A) (b : Z) : res A :=
  elem ← list_begin hp b;
  loop (list_fuel hp) (fun '(w, elem) =>
    stop ← list_end b;
    if elem =? stop then Ok (inr w)
    else
      next ← list_next hp elem;
      w ← action elem w;
      Ok (inl (w, next))) (w, elem).

(** [ASSERT(action != NULL)] holds by typing. *)
Definition hash_apply (h : hash) (hp : heap) (w : A) (action : Z -> A -> res A) : res A :=
  loop (S (Z.to_nat (bucket_cnt h))) (fun '(i, w) =>
    if i <? bucket_cnt h then
      w ← apply_bucket action hp w (bucket (buckets h) i); Ok (inl (i + 1, w))
    else Ok (inr w)) (0, w).

Definition hash_first (h : hash) : res hash_iterator :=
  e ← list_head (buckets h);
  Ok (mk_iterator (buckets h) e).

Definition hash_next (h : hash) (hp : heap) (it : hash_iterator) : res (Z * hash_iterator) :=
  elem ← list_next hp (it_elem it);
  loop (S (Z.to_nat (bucket_cnt h))) (fun it =>
    stop ← list_end (it_bucket it);
    if it_elem it =? stop then
      let b := u32 (it_bucket it + sizeof_list) in
      if bucket (buckets h) (bucket_cnt h) <=? b then Ok (inr (NULL, mk_iterator b NULL))
      else e ← list_begin hp b; Ok (inl (mk_iterator b e))
    else Ok (inr (it_elem it, it))) (mk_iterator (it_bucket it) elem).

Definition hash_cur (it : hash_iterator) : Z := it_elem it.

Definition hash_size (h : hash) : Z := elem_cnt h.

Definition hash_empty (h : hash) : bool := elem_cnt h =? 0.
End Hash.

(** ** Hash functions *)

Definition FNV_32_PRIME : Z := 16777619.
Definition FNV_32_BASIS : Z := 2166136261.

Definition hash_bytes (m : mem) (buf size : Z) : res Z :=
  ASSERT (negb (buf =? NULL));;
  loop (S (Z.to_nat size)) (fun '(buf, size, hash) =>
    if 0 <? size then Ok (inl (u32 (buf + 1), size - 1, Z.lxor (u32 (hash * FNV_32_PRIME)) (m buf)))
    else Ok (inr hash)) (buf, size, FNV_32_BASIS).

Definition hash_string_step (m : mem) : Z * Z -> res (Z * Z + Z) := fun '(s, hash) =>
  if negb (m s =? 0) then Ok (inl (u32 (s + 1), Z.lxor (u32 (hash * FNV_32_PRIME)) (m s))) else Ok (inr hash).

Definition hash_string (m : mem) (s : Z) : res Z :=
  ASSERT (negb (s =? NULL));;
  while (hash_string_step m) (s, FNV_32_BASIS).

(** The argument [i] is on the stack, at an address of the caller's. *)
Definition hash_int (m : mem) (at_i : Z) (i : Z) : res Z :=
  let m := store m at_i (u8 i) in
  let m := store m (u32 (at_i + 1)) (u8 (Z.shiftr i 8)) in
  let m := store m (u32 (at_i + 2)) (u8 (Z.shiftr i 16)) in
  let m := store m (u32 (at_i + 3)) (u8 (Z.shiftr i 24)) in
  hash_bytes m at_i 4.
