(* ===== verification/HashSpec.v ===== *)
(** * Hash tables: correctness

    The buckets partition the elements by hash value, no two elements are equal, and the
    operations of lib/kernel/hash.c act on the table as the corresponding operations on a
    set, through any growing and shrinking of the bucket array and any failure to
    allocate a new one. *)

From stdpp Require Import base list gmap numbers.
From Stdlib Require Import ZArith Lia.
From S2P Require Import Prelude.
From S2P Require Import CString.
From S2P Require Import StringLib.
From S2P Require Import Interfaces.
From S2P Require Import KList.
From S2P Require Import KLists.
From S2P Require Import KListSort.
From S2P Require Import Hash.

Local Open Scope Z_scope.

(** ** Powers of two *)

Lemma land_le_r a b : 0 <= b -> Z.land a b <= b.
Proof.
  intros Hb. rewrite Z.land_comm. pose proof (Z.add_lor_land (Z.ldiff b a) (Z.land b a)) as E.
  rewrite Z.lor_ldiff_and in E. assert (Z.land (Z.ldiff b a) (Z.land b a) = 0) as E0.
  { apply Z.bits_inj'. intros n Hn. rewrite !Z.land_spec, Z.ldiff_spec, Z.bits_0.
    by destruct (Z.testbit b n), (Z.testbit a n). }
  assert (0 <= Z.ldiff b a) by (apply Z.ldiff_nonneg; auto). lia.
Qed.

(** A number with bit [k] set is at least [2 ^ k]. *)
Lemma testbit_le n k : 0 <= n -> 0 <= k -> Z.testbit n k = true -> 2 ^ k <= n.
Proof.
  intros Hn Hk Ht. destruct (Z.le_gt_cases (2 ^ k) n) as [|Hlt]; [done|].
  destruct (Z.eq_dec n 0) as [->|Hne]; [by rewrite Z.bits_0 in Ht|].
  rewrite Z.bits_above_log2 in Ht; [done|done|]. apply Z.log2_lt_pow2; lia.
Qed.

(** The top bit of a number that is not a power of two survives. *)
Lemma turn_off_bounds n k : 0 <= k -> 2 ^ k < n < 2 ^ Z.succ k -> n < 2 ^ 32 -> 2 ^ k <= turn_off_least_1bit n < n.
Proof.
  intros Hk Hn Hw. unfold turn_off_least_1bit. pose proof (Z.pow_pos_nonneg 2 k ltac:(lia) Hk) as Hpos.
  rewrite u32_small by lia. split; [|pose proof (land_le_r n (n - 1)); lia].
  apply testbit_le; [apply Z.land_nonneg; lia|done|]. rewrite Z.land_spec.
  assert (Hbit : forall x, 2 ^ k <= x < 2 ^ Z.succ k -> Z.testbit x k = true).
  { intros x Hx. rewrite <- (Z.log2_unique x k Hk Hx). apply Z.bit_log2. lia. }
  by rewrite !Hbit by lia.
Qed.

Lemma turn_off_power k : 0 <= k < 32 -> turn_off_least_1bit (2 ^ k) = 0.
Proof.
  intros Hk. unfold turn_off_least_1bit. pose proof (Z.pow_pos_nonneg 2 k ltac:(lia) ltac:(lia)) as Hpos.
  pose proof (Z.pow_lt_mono_r 2 k 32 ltac:(lia) ltac:(lia) ltac:(lia)). rewrite u32_small by lia.
  replace (2 ^ k - 1) with (Z.ones k) by (rewrite Z.ones_equiv; lia). rewrite Z.land_ones by lia. by apply Z.mod_same; lia.
Qed.

(** The loop of [rehash] rounds down to a power of two. *)
Lemma power_loop n : 0 < n < 2 ^ 32 -> returns (while power_step n) (fun r => r = 2 ^ Z.log2 n).
Proof.
  intros Hn. set (k := Z.log2 n). pose proof (Z.log2_nonneg n) as Hk. pose proof (Z.log2_spec n ltac:(lia)) as Hs.
  assert (Hk32 : k < 32) by (apply Z.log2_lt_pow2; lia). fold k in Hk, Hs.
  apply (returns_while (fun x => 2 ^ k <= x <= n) (fun x => x - 2 ^ k)); [|lia|lia].
  intros x Hx. split; [lia|]. unfold power_step, is_power_of_2. destruct (Z.eq_dec x (2 ^ k)) as [->|Hne].
  - rewrite turn_off_power by lia. rewrite (proj2 (Z.eqb_neq (2 ^ k) 0)) by lia. by apply returns_ok.
  - pose proof (turn_off_bounds x k Hk ltac:(lia) ltac:(lia)) as Hb.
    pose proof (Z.pow_pos_nonneg 2 k ltac:(lia) Hk). rewrite (proj2 (Z.eqb_neq (turn_off_least_1bit x) 0)) by lia.
    rewrite andb_false_r. apply returns_ok. lia.
Qed.

(** The bucket index is the hash value modulo the number of buckets. *)
Lemma bucket_index e k : 0 <= k -> Z.land e (2 ^ k - 1) = e mod 2 ^ k.
Proof. intros Hk. replace (2 ^ k - 1) with (Z.ones k) by (rewrite Z.ones_equiv; lia). by rewrite Z.land_ones. Qed.

(** ** The block of buckets *)

Definition bucket_addr (p : Z) (i : nat) : Z := p + 16 * Z.of_nat i.

Lemma bucket_addr_eq p i : 0 <= p -> 0 <= i -> p + 16 * i < 2 ^ 32 -> bucket p i = bucket_addr p (Z.to_nat i).
Proof. intros. unfold bucket, bucket_addr, sizeof_list. rewrite u32_small; lia. Qed.

(** The elements inside the lists of the block: its heads and tails. *)
Definition ends (p : Z) (n : nat) : list Z := (fun k => p + 8 * Z.of_nat k) <$> seq 0 (2 * n).

Lemma elem_ends p n x : x ∈ ends p n <-> exists k, (k < 2 * n)%nat /\ x = p + 8 * Z.of_nat k.
Proof.
  unfold ends. rewrite list_elem_of_fmap. setoid_rewrite elem_of_seq. split; intros (k & H1 & H2); exists k; split; lia || done.
Qed.

Lemma ends_range p n x : x ∈ ends p n -> p <= x < p + 16 * Z.of_nat n.
Proof. intros (k & Hk & ->)%elem_ends. lia. Qed.

Lemma ends_whole p n i : (i < n)%nat -> forall x, x ∈ whole (bucket_addr p i) [] -> x ∈ ends p n.
Proof.
  intros Hi x. unfold whole, bucket_addr, head_of, tail_of. simpl. rewrite elem_of_cons, list_elem_of_singleton, elem_ends.
  intros [-> | ->]; [exists (2 * i)%nat|exists (2 * i + 1)%nat]; lia.
Qed.

(** Every head or tail in the block belongs to one of its lists. *)
Lemma ends_of p (bs : list (list Z)) x : x ∈ ends p (length bs) -> ~ outside (bucket_addr p) bs x.
Proof.
  intros (k & Hk & ->)%elem_ends Ho.
  destruct (lookup_lt_is_Some_2 bs (k / 2)) as [es Hes]; [apply Nat.Div0.div_lt_upper_bound; lia|].
  apply (Ho (k / 2)%nat es Hes). unfold whole, bucket_addr, head_of, tail_of.
  rewrite elem_of_cons, elem_of_app, list_elem_of_singleton.
  pose proof (Nat.div_mod_eq k 2). pose proof (Nat.mod_upper_bound k 2).
  destruct (k mod 2)%nat as [|[|]] eqn:E; [left|right; right|]; lia.
Qed.

Lemma elem_bucket_links p n x f : (x, f) ∈ bucket_links p n <-> x ∈ ends p n.
Proof.
  unfold bucket_links. rewrite list_elem_of_In, in_flat_map, elem_ends. setoid_rewrite in_seq. split.
  - intros (k & Hk & [[= <- <-]|[[= <- <-]|[]]]); exists k; lia.
  - intros (k & Hk & ->). exists k. split; [lia|]. destruct f; simpl; auto.
Qed.

Lemma foldr_insert_lookup (junk : Z * link -> Z) (h : heap) cs c :
  foldr (fun c h => <[c := junk c]> h) h cs !! c = if decide (c ∈ cs) then Some (junk c) else h !! c.
Proof.
  induction cs as [|c' cs IH]; cbn [foldr]; [by rewrite decide_False by set_solver|].
  destruct (decide (c' = c)) as [->|Hne].
  - rewrite lookup_insert_eq. by rewrite decide_True by set_solver.
  - rewrite lookup_insert_ne, IH by done. apply decide_ext. set_solver.
Qed.

Lemma foldr_delete_lookup (h : heap) cs c :
  foldr (fun c h => delete c h) h cs !! c = if decide (c ∈ cs) then None else h !! c.
Proof.
  induction cs as [|c' cs IH]; cbn [foldr]; [by rewrite decide_False by set_solver|].
  destruct (decide (c' = c)) as [->|Hne].
  - rewrite lookup_delete_eq. by rewrite decide_True by set_solver.
  - rewrite lookup_delete_ne, IH by done. apply decide_ext. set_solver.
Qed.

Lemma new_links_lookup junk h p n x f :
  new_links junk h p n !! (x, f) = if decide (x ∈ ends p n) then Some (junk (x, f)) else h !! (x, f).
Proof. unfold new_links. rewrite foldr_insert_lookup. apply decide_ext, elem_bucket_links. Qed.

Lemma drop_links_lookup h p n x f :
  drop_links h p n !! (x, f) = if decide (x ∈ ends p n) then None else h !! (x, f).
Proof. unfold drop_links. rewrite foldr_delete_lookup. apply decide_ext, elem_bucket_links. Qed.

(** ** Fresh buckets *)

Lemma empty_outside p i j : i <> j -> forall x, x ∈ whole (bucket_addr p i) [] -> x ∉ whole (bucket_addr p j) [].
Proof.
  intros Hij x. unfold whole, bucket_addr, head_of, tail_of. simpl. rewrite !elem_of_cons, !elem_of_nil. lia.
Qed.

(** The first [i] lists of the block are empty lists. *)
Definition emptied (h : heap) (p : Z) (n : nat) (i : Z) (h1 : heap) : Prop :=
  0 <= i <= Z.of_nat n /\ lists h1 (bucket_addr p) (replicate (Z.to_nat i) []) /\ frame (ends p n) h h1.

Lemma emptied_step h p n i h1 : 0 < p -> p + 16 * Z.of_nat n < 2 ^ 32 -> (forall x, x ∈ ends p n -> allocated h x) ->
  emptied h p n i h1 -> i < Z.of_nat n -> returns (list_init h1 (bucket p i)) (emptied h p n (i + 1)).
Proof.
  intros Hp He Ha (Hi & Hl & Hf) Hlt. rewrite bucket_addr_eq by lia.
  assert (Hin : forall x, x ∈ whole (bucket_addr p (Z.to_nat i)) [] -> x ∈ ends p n) by (apply ends_whole; lia).
  eapply returns_mono; [apply list_init_spec; apply (allocated_frame (ends p n) h); try done; apply Ha, Hin; unfold whole; set_solver|].
  intros h2 [Hn Hf2]. split; [lia|]. split.
  - replace (Z.to_nat (i + 1)) with (Z.to_nat i + 1)%nat by lia. rewrite replicate_add.
    assert (Hout : forall x, x ∈ whole (bucket_addr p (Z.to_nat i)) [] -> outside (bucket_addr p) (replicate (Z.to_nat i) []) x).
    { intros x Hx j es [-> Hj]%lookup_replicate_1. apply (empty_outside p (Z.to_nat i) j); [lia|done]. }
    apply lists_snoc; rewrite ?length_replicate; [|done|done]. by eapply lists_frame.
  - eapply frame_trans; [done|]. by eapply frame_mono.
Qed.

Lemma emptied_start h p n : emptied h p n 0 h.
Proof. split; [lia|]. split; [by split|apply frame_refl]. Qed.

Lemma init_buckets_spec h p n : 0 < p -> p + 16 * Z.of_nat n < 2 ^ 32 -> (forall x, x ∈ ends p n -> allocated h x) ->
  returns (init_buckets h p (Z.of_nat n)) (fun h' => lists h' (bucket_addr p) (replicate n []) /\ frame (ends p n) h h').
Proof.
  intros Hp He Ha. unfold init_buckets.
  apply (returns_loop (fun '(i, h1) => emptied h p n i h1) (fun '(i, _) => Z.to_nat (Z.of_nat n - i))).
  - intros [i h1] Hi. destruct (Z.ltb_spec i (Z.of_nat n)).
    + apply returns_bind. eapply returns_mono; [by apply (emptied_step h p n)|]. intros h2 H2. apply returns_ok. split; [done|lia].
    + apply returns_ok. destruct Hi as (Hi & ? & ?). replace (Z.to_nat i) with n in * by lia. done.
  - apply emptied_start.
  - lia.
Qed.

(** ** Moving elements between two families *)

Definition apart (a : nat -> Z) (bs : list (list Z)) (a' : nat -> Z) (bs' : list (list Z)) : Prop :=
  forall x, outside a bs x \/ outside a' bs' x.

(** The front element of an old bucket goes to the front of a new one. *)
Lemma move_front h ao os an ns i x es j es' :
  lists h ao os -> lists h an ns -> apart ao os an ns -> os !! i = Some (x :: es) -> ns !! j = Some es' ->
  returns ('(_, h) ← list_remove h x; list_push_front h (an j) x) (fun h' =>
    lists h' ao (<[i := es]> os) /\ lists h' an (<[j := x :: es']> ns) /\
    apart ao (<[i := es]> os) an (<[j := x :: es']> ns) /\ dom h' = dom h).
Proof.
  intros Ho Hn Hap Hi Hj.
  assert (Hx : outside an ns x).
  { destruct (Hap x) as [Hx|]; [|done]. destruct (Hx i _ Hi). unfold whole. set_solver. }
  apply returns_bind. eapply returns_mono; [by apply (lists_remove h ao os i [] x es)|].
  intros [n h1] (_ & Ho1 & Ha & Hout & Hf1). simpl in Ho1, Hout.
  assert (Hold : forall y, ~ outside ao os y -> outside an ns y) by (intros y Hy; by destruct (Hap y)).
  assert (Hn1 : lists h1 an ns).
  { eapply lists_frame; [done..|]. intros y Hy. apply Hold. intros Hc. by apply (Hc i _ Hi). }
  eapply returns_mono; [by apply lists_push_front|]. intros h2 [Hn2 Hf2].
  assert (Hnew : forall y, ~ outside an ns y -> outside ao (<[i := es]> os) y).
  { intros y Hy. destruct (Hap y) as [Hy'|]; [|done]. intros k e [(<- & <- & _)|[_ Hk]]%list_lookup_insert_Some; [|by apply Hy'].
    specialize (Hy' i _ Hi). unfold whole in *. set_solver. }
  assert (Hmoved : forall y, y ∈ x :: whole (an j) es' -> outside ao (<[i := es]> os) y).
  { intros y [-> | Hy]%elem_of_cons; [done|]. apply Hnew. intros Hc. by apply (Hc j es'). }
  split_and!.
  - by eapply lists_frame.
  - done.
  - intros y. destruct (decide (y ∈ members an (<[j := x :: es']> ns))) as [Hy|Hy]; [left|right; by apply outside_members].
    apply elem_members in Hy as (k & e & [(<- & <- & _)|[_ Hk]]%list_lookup_insert_Some & Hy).
    + apply Hmoved. unfold whole in *. set_solver.
    + apply Hnew. intros Hc. by apply (Hc k e).
  - destruct Hf1 as [_ ->%eq_sym], Hf2 as [_ ->]. done.
Qed.

Lemma concat_move (os ns : list (list Z)) i x es j es' : os !! i = Some (x :: es) -> ns !! j = Some es' ->
  concat (<[i := es]> os) ++ concat (<[j := x :: es']> ns) ≡ₚ concat os ++ concat ns.
Proof.
  intros Hi Hj. destruct (concat_insert os i (x :: es) es Hi) as (r & -> & ->).
  destruct (concat_insert ns j es' (x :: es') Hj) as (r' & -> & ->). simpl.
  by rewrite <- Permutation_middle.
Qed.

Section Spec.
Context {A : Type} `{!BlockOps A}.
Variable junk : Z * link -> Z.
Variable hash_func : Z -> Z.
Variable less : Z -> Z -> bool.
Implicit Types (hp : heap) (bs os ns : list (list Z)) (w : A).

(** Every element is in the bucket of its hash value. *)
Definition placed (n : Z) ns : Prop :=
  forall j es e, ns !! j = Some es -> e ∈ es -> Z.land (hash_func e) (n - 1) = Z.of_nat j.

(** ** Rehashing *)

(** The state while the elements [C] move from the old family to [2 ^ k] new buckets at [p];
    no link appears or disappears. *)
Record moving (ao : nat -> Z) (p k : Z) (C : list Z) (D : gset (Z * link)) hp os ns : Prop := {
  mv_old : lists hp ao os;
  mv_new : lists hp (bucket_addr p) ns;
  mv_apart : apart ao os (bucket_addr p) ns;
  mv_len : length ns = Z.to_nat (2 ^ k);
  mv_placed : placed (2 ^ k) ns;
  mv_perm : concat os ++ concat ns ≡ₚ C;
  mv_dom : dom hp = D
}.

Lemma placed_insert n ns j es e : placed n ns -> ns !! j = Some es -> Z.land (hash_func e) (n - 1) = Z.of_nat j ->
  placed n (<[j := e :: es]> ns).
Proof.
  intros Hp Hj He i es' x [(<- & <- & _)|[_ Hi]]%list_lookup_insert_Some Hx; [|by eapply Hp].
  apply elem_of_cons in Hx as [-> | Hx]; [done|by eapply Hp].
Qed.

(** The bucket that [find_bucket] returns. *)
Lemma find_bucket_eq h k e : bucket_cnt h = 2 ^ k -> 0 <= k -> 0 <= buckets h -> buckets h + 16 * 2 ^ k < 2 ^ 32 ->
  exists j, (j < Z.to_nat (2 ^ k))%nat /\ Z.land (hash_func e) (2 ^ k - 1) = Z.of_nat j /\
    find_bucket hash_func h e = bucket_addr (buckets h) j.
Proof.
  intros Hc Hk Hp He. unfold find_bucket. rewrite Hc, bucket_index by done.
  pose proof (Z.mod_pos_bound (hash_func e) (2 ^ k) ltac:(lia)). exists (Z.to_nat (hash_func e mod 2 ^ k)).
  split; [lia|]. split; [lia|]. apply bucket_addr_eq; lia.
Qed.

Lemma moving_step ao h k C D hp os ns i x es : bucket_cnt h = 2 ^ k -> 0 <= k -> 0 <= buckets h -> buckets h + 16 * 2 ^ k < 2 ^ 32 ->
  moving ao (buckets h) k C D hp os ns -> os !! i = Some (x :: es) ->
  returns ('(_, hp) ← list_remove hp x; list_push_front hp (find_bucket hash_func h x) x) (fun hp' =>
    exists ns', moving ao (buckets h) k C D hp' (<[i := es]> os) ns').
Proof.
  intros Hc Hk Hp He [Ho Hn Ha Hl Hpl Hperm Hd] Hi.
  destruct (find_bucket_eq h k x Hc Hk Hp He) as (j & Hj & Ej & ->).
  destruct (lookup_lt_is_Some_2 ns j) as [es' Hj']; [lia|].
  eapply returns_mono; [by apply (move_front hp ao os (bucket_addr (buckets h)) ns i x es j es')|].
  intros hp' (Ho' & Hn' & Ha' & Hd'). exists (<[j := x :: es']> ns). split; try done.
  - by rewrite length_insert.
  - by apply placed_insert.
  - by rewrite concat_move.
  - congruence.
Qed.

Lemma move_bucket_spec ao h k C D hp os ns i es : bucket_cnt h = 2 ^ k -> 0 <= k -> 0 <= buckets h ->
  buckets h + 16 * 2 ^ k < 2 ^ 32 -> moving ao (buckets h) k C D hp os ns -> os !! i = Some es ->
  returns (move_bucket hash_func h hp (ao i)) (fun hp' => exists ns', moving ao (buckets h) k C D hp' (<[i := []]> os) ns').
Proof.
  intros Hc Hk Hp He Hmv Hi. assert (Hlt := lookup_lt_Some _ _ _ Hi). unfold move_bucket.
  pose proof (ls_list _ _ _ (mv_old _ _ _ _ _ _ _ _ Hmv) i es Hi) as Hes.
  rewrite (list_begin_spec hp (ao i) es Hes), bind_ok.
  apply (returns_loop_ix (fun n '(hp1, e) => exists es1 ns1, moving ao (buckets h) k C D hp1 (<[i := es1]> os) ns1 /\
    n = length es1 /\ e = after_of (ao i) es1)) with (length es).
  - intros n [hp1 e] (es1 & ns1 & Hm & -> & ->).
    assert (Hi1 : <[i := es1]> os !! i = Some es1) by (by apply list_lookup_insert_eq).
    pose proof (ls_list _ _ _ (mv_old _ _ _ _ _ _ _ _ Hm) i es1 Hi1) as Hes1.
    rewrite (list_end_spec hp1 (ao i) es1 Hes1), bind_ok, (after_of_end hp1 (ao i) [] es1 Hes1).
    destruct es1 as [|x es1].
    + rewrite bool_decide_true by done. apply returns_ok. eauto.
    + rewrite bool_decide_false, after_of_cons by done. cbv zeta.
      rewrite (list_next_spec hp1 (ao i) [] x es1 Hes1), bind_ok.
      pose proof (moving_step ao h k C D hp1 _ ns1 i x es1 Hc Hk Hp He Hm Hi1) as Hs.
      apply returns_inv in Hs as (hp2 & E & ns2 & Hm2). rewrite list_insert_insert_eq in Hm2.
      destruct (list_remove hp1 x) as [[n' hp']|]; [|done]. simpl in E. rewrite bind_ok, E, bind_ok.
      apply returns_ok. exists (length es1). simpl. split; [lia|]. eauto.
  - exists es, ns. rewrite list_insert_id by done. done.
  - pose proof (is_list_fuel hp (ao i) es Hes). lia.
Qed.

Lemma move_all h k C D hp old os ns : bucket_cnt h = 2 ^ k -> 0 <= k -> 0 <= buckets h -> buckets h + 16 * 2 ^ k < 2 ^ 32 ->
  0 <= old -> old + 16 * Z.of_nat (length os) < 2 ^ 32 -> moving (bucket_addr old) (buckets h) k C D hp os ns ->
  returns (loop (S (length os)) (fun '(i, hp) =>
    if i <? Z.of_nat (length os) then hp ← move_bucket hash_func h hp (bucket old i); Ok (inl (i + 1, hp))
    else Ok (inr hp)) (0, hp)) (fun hp' => exists os' ns', moving (bucket_addr old) (buckets h) k C D hp' os' ns' /\
      length os' = length os /\ concat os' = []).
Proof.
  intros Hc Hk Hp He Hold Holde Hmv.
  apply (returns_loop (fun '(i, hp1) => exists os1 ns1, 0 <= i <= Z.of_nat (length os) /\
      moving (bucket_addr old) (buckets h) k C D hp1 os1 ns1 /\ length os1 = length os /\
      forall j, (j < Z.to_nat i)%nat -> os1 !! j = Some []) (fun '(i, _) => Z.to_nat (Z.of_nat (length os) - i))).
  - intros [i hp1] (os1 & ns1 & Hi & Hm & Hl & Hdone). destruct (Z.ltb_spec i (Z.of_nat (length os))).
    + rewrite bucket_addr_eq by lia. destruct (lookup_lt_is_Some_2 os1 (Z.to_nat i)) as [es Hes]; [lia|].
      apply returns_bind. eapply returns_mono; [by apply (move_bucket_spec _ h k C D hp1 os1 ns1 (Z.to_nat i) es)|].
      intros hp2 (ns2 & Hm2). apply returns_ok. split; [|lia]. exists (<[Z.to_nat i := []]> os1), ns2.
      split; [lia|]. split; [done|]. rewrite length_insert. split; [done|]. intros j Hj.
      destruct (decide (j = Z.to_nat i)) as [->|]; [apply list_lookup_insert_eq; lia|].
      rewrite list_lookup_insert_ne by done. apply Hdone. lia.
    + apply returns_ok. exists os1, ns1. split; [done|]. split; [done|]. apply concat_nil_Forall, Forall_forall.
      intros es [j Hj]%list_elem_of_In%list_elem_of_lookup. assert (Hlt := lookup_lt_Some _ _ _ Hj).
      rewrite Hdone in Hj by lia. congruence.
  - exists os, ns. split; [lia|]. split; [done|]. split; [done|]. intros j Hj. simpl in Hj. lia.
  - lia.
Qed.

(** ** The representation *)

Definition same (x y : Z) : bool := negb (less x y) && negb (less y x).

(** [e] lies in memory that the allocator will not hand out: memory it does not manage, or
    a block in use other than [b]. *)
Definition owned w (b e : Z) : Prop :=
  ~ managed w e \/ exists q sz, q <> b /\ blocks w !! q = Some sz /\ q <= e /\ e + 8 <= q + sz.

(** An element that the table may take. *)
Definition elem_ok hp w (h : hash) (u : Z) : Prop :=
  allocated hp u /\ owned w (buckets h) u /\ u ∉ ends (buckets h) (Z.to_nat (bucket_cnt h)).

(** [h] holds the elements [concat bs], all from the caller's elements [U]. *)
Record hash_rep (U : gset Z) hp w (h : hash) bs : Prop := {
  hr_shape : exists k, 2 <= k <= 26 /\ bucket_cnt h = 2 ^ k;
  hr_len : length bs = Z.to_nat (bucket_cnt h);
  hr_lists : lists hp (bucket_addr (buckets h)) bs;
  hr_placed : placed (bucket_cnt h) bs;
  hr_count : elem_cnt h = Z.of_nat (length (concat bs));
  hr_keys : forall x y, x ∈ concat bs -> y ∈ concat bs -> same x y = true -> x = y;
  hr_heap : heap_ok w;
  hr_block : exists sz, blocks w !! buckets h = Some sz /\ 16 * bucket_cnt h <= sz;
  hr_range : 0 < buckets h /\ buckets h + 16 * bucket_cnt h < 2 ^ 32;
  hr_elems : forall u, u ∈ U -> elem_ok hp w h u;
  hr_sub : forall x, x ∈ concat bs -> x ∈ U
}.

(** The table is insensitive to changes of the allocator that keep its blocks. *)
Lemma rep_world U hp w w' h bs : hash_rep U hp w h bs -> heap_ok w' -> blocks w' = blocks w ->
  (forall x, managed w' x <-> managed w x) -> hash_rep U hp w' h bs.
Proof.
  intros [] Hw Hb Hm. split; try done.
  - by rewrite Hb.
  - intros u Hu. destruct (hr_elems0 u Hu) as (Ha & Ho & He). split; [done|]. split; [|done].
    unfold owned in *. rewrite Hm, Hb. done.
Qed.

(** Members of the family are ends of its lists or elements. *)
Lemma member_cases U hp w h bs x : hash_rep U hp w h bs -> ~ outside (bucket_addr (buckets h)) bs x ->
  x ∈ ends (buckets h) (Z.to_nat (bucket_cnt h)) \/ x ∈ U.
Proof.
  intros Hr Hx. destruct (decide (x ∈ members (bucket_addr (buckets h)) bs)) as [Hm|Hm];
    [|by destruct Hx; apply outside_members].
  apply elem_members in Hm as (i & es & Hi & Hx'). destruct (decide (x ∈ es)) as [He|He].
  - right. apply (hr_sub _ _ _ _ _ Hr), elem_concat. eauto.
  - left. apply (ends_whole _ _ i); [rewrite <- (hr_len _ _ _ _ _ Hr); by eapply lookup_lt_Some|]. unfold whole in *. set_solver.
Qed.

(** A block that the allocator has just handed out holds no element of the caller. *)
Lemma fresh_owned w b p sz u : owned w b u -> fresh_block (blocks w) p sz -> (forall x, p <= x < p + sz -> managed w x) ->
  ~ (p <= u < p + sz).
Proof.
  intros [Ho|(q & sq & Hne & Hq & Hu)] (_ & _ & _ & Hd) Hm Hr; [by apply Ho, Hm|]. destruct (Hd q sq Hq); lia.
Qed.

Lemma fresh_apart U hp w h bs p sz n : hash_rep U hp w h bs -> fresh_block (blocks w) p sz -> 16 * Z.of_nat n <= sz ->
  (forall x, p <= x < p + sz -> managed w x) ->
  (forall x, ~ outside (bucket_addr (buckets h)) bs x -> x ∉ ends p n) /\ (forall u, u ∈ U -> u ∉ ends p n) /\
  (forall x, x ∈ ends p n -> x ∉ ends (buckets h) (Z.to_nat (bucket_cnt h))).
Proof.
  intros Hr Hf Hn Hm.
  assert (HU : forall u, u ∈ U -> u ∉ ends p n).
  { intros u Hu Hx%ends_range. destruct (hr_elems _ _ _ _ _ Hr u Hu) as (_ & Ho & _). eapply (fresh_owned w _ p sz u); [done..|lia]. }
  assert (HE : forall x, x ∈ ends p n -> x ∉ ends (buckets h) (Z.to_nat (bucket_cnt h))).
  { intros x Hx%ends_range Hb%ends_range. destruct (hr_block _ _ _ _ _ Hr) as (s & Hs & Hle).
    destruct (hr_shape _ _ _ _ _ Hr) as (k & Hk & Hc). pose proof (Z.pow_pos_nonneg 2 k). 
    destruct Hf as (_ & _ & _ & Hd). destruct (Hd _ _ Hs); lia. }
  split_and!; [|done..]. intros x Hx He. destruct (member_cases _ _ _ _ _ _ Hr Hx) as [Hb|Hu]; [by eapply HE|by eapply HU].
Qed.

Lemma allocated_new hp p n x : 0 < p -> p + 16 * Z.of_nat n < 2 ^ 32 -> x ∈ ends p n \/ allocated hp x ->
  allocated (new_links junk hp p n) x.
Proof.
  intros Hp He Hx. unfold allocated. rewrite !new_links_lookup. destruct (decide (x ∈ ends p n)) as [Hin|Hin].
  - apply ends_range in Hin. split; [lia|]. split; by eexists.
  - destruct Hx as [?|(? & ? & ?)]; [done|]. done.
Qed.

(** The new buckets, ready to take the elements. *)
Lemma new_buckets_ready U hp w h bs p sz k : hash_rep U hp w h bs -> fresh_block (blocks w) p sz -> 0 <= k ->
  16 * 2 ^ k <= sz -> (forall x, p <= x < p + sz -> managed w x) ->
  returns (init_buckets (new_links junk hp p (Z.to_nat (2 ^ k))) p (2 ^ k)) (fun hp2 =>
    moving (bucket_addr (buckets h)) p k (concat bs) (dom (new_links junk hp p (Z.to_nat (2 ^ k)))) hp2 bs
      (replicate (Z.to_nat (2 ^ k)) [])).
Proof.
  intros Hr Hf Hk Hsz Hm. pose proof (Z.pow_pos_nonneg 2 k ltac:(lia) Hk) as Hpos. pose proof Hf as (Hp & He & _).
  set (n := Z.to_nat (2 ^ k)) in *. replace (2 ^ k) with (Z.of_nat n) in Hsz |- * at 1 by lia.
  destruct (fresh_apart U hp w h bs p sz n Hr Hf Hsz Hm) as (Hmem & _ & _).
  eapply returns_mono; [apply init_buckets_spec; [lia|lia|intros x Hx; apply allocated_new; auto; lia]|].
  intros hp2 [Hnew Hfr]. split; try done.
  - eapply lists_frame; [|exact Hfr|].
    + eapply lists_ext; [apply (hr_lists _ _ _ _ _ Hr)|]. intros x f Hx. rewrite new_links_lookup.
      by rewrite decide_False by (by apply Hmem).
    + intros x Hx. apply outside_members. intros Hc. apply (Hmem x); [|done]. rewrite outside_members. naive_solver.
  - intros x. destruct (decide (x ∈ members (bucket_addr (buckets h)) bs)) as [Hx|Hx]; [right|left; by apply outside_members].
    intros i es [-> Hi]%lookup_replicate_1 Hw. apply (Hmem x); [rewrite outside_members; naive_solver|].
    by apply (ends_whole p n i).
  - by rewrite length_replicate.
  - intros j es e [-> _]%lookup_replicate_1 Hx. set_solver.
  - replace (concat (replicate n [])) with (@nil Z); [by rewrite app_nil_r|]. clear. induction n; simpl; done.
  - apply Hfr.
Qed.

(** All elements have moved and the old block is gone: the new buckets are the table. *)
Lemma rep_moved U hp w h bs p sz k hp' os ns w2 : hash_rep U hp w h bs -> fresh_block (blocks w) p sz -> 2 <= k <= 26 ->
  16 * 2 ^ k <= sz -> (forall x, p <= x < p + sz -> managed w x) ->
  moving (bucket_addr (buckets h)) p k (concat bs) (dom (new_links junk hp p (Z.to_nat (2 ^ k)))) hp' os ns ->
  length os = length bs -> concat os = [] ->
  heap_ok w2 -> blocks w2 = delete (buckets h) (<[p := sz]> (blocks w)) -> (forall x, managed w2 x <-> managed w x) ->
  hash_rep U (drop_links hp' (buckets h) (Z.to_nat (bucket_cnt h))) w2 (mk_hash (elem_cnt h) (2 ^ k) p) ns.
Proof.
  intros Hr Hf Hk Hsz Hm [Ho Hn Hap Hl Hpl Hperm Hd] Hlo Hemp Hw Hb Hman. rewrite Hemp in Hperm. simpl in Hperm.
  pose proof (Z.pow_pos_nonneg 2 k ltac:(lia) ltac:(lia)) as Hpos. pose proof Hf as (Hp & He & _ & Hfresh).
  destruct (fresh_apart U hp w h bs p sz (Z.to_nat (2 ^ k)) Hr Hf ltac:(lia) Hm) as (_ & HU & _).
  destruct (hr_block _ _ _ _ _ Hr) as (s & Hs & Hle). destruct (hr_shape _ _ _ _ _ Hr) as (k0 & Hk0 & Hc0).
  pose proof (Z.pow_pos_nonneg 2 k0 ltac:(lia) ltac:(lia)) as Hpos0.
  assert (Hne : p <> buckets h) by (destruct (Hfresh _ _ Hs); lia).
  split; simpl; try done.
  - by exists k.
  - eapply lists_ext; [exact Hn|]. intros x f Hx. rewrite drop_links_lookup, decide_False; [done|].
    intros Hin. destruct (Hap x) as [Hout|]; [|done]. rewrite <- (hr_len _ _ _ _ _ Hr), <- Hlo in Hin. by apply ends_of in Hin.
  - by rewrite Hperm, (hr_count _ _ _ _ _ Hr).
  - intros x y. rewrite !Hperm. apply (hr_keys _ _ _ _ _ Hr).
  - exists sz. split; [|lia]. by rewrite Hb, lookup_delete_ne, lookup_insert_eq by done.
  - lia.
  - intros u Hu. destruct (hr_elems _ _ _ _ _ Hr u Hu) as (Ha & Hown & Hends). split; [|split; [|by apply HU]].
    + assert (Ha' : allocated hp' u) by (eapply allocated_dom; [exact Hd|]; apply allocated_new; auto; lia).
      destruct Ha' as (? & ? & ?). unfold allocated. by rewrite !drop_links_lookup, !decide_False by done.
    + destruct Hown as [Hnm|(q & sq & Hq & Hbq & Hrq)]; [left; by rewrite Hman|right]. exists q, sq.
      assert (q <> p) by (intros ->; destruct (Hfresh _ _ Hbq); lia). simpl. split; [done|].
      by rewrite Hb, lookup_delete_ne, lookup_insert_ne by done.
  - intros x. rewrite Hperm. apply (hr_sub _ _ _ _ _ Hr).
Qed.

Lemma rehash_spec U hp w h bs : hash_rep U hp w h bs -> elem_cnt h < 2 ^ 27 ->
  returns (rehash junk hash_func h hp w) (fun '(h', hp', w') => exists bs', hash_rep U hp' w' h' bs' /\ concat bs' ≡ₚ concat bs).
Proof.
  intros Hr Hcnt. unfold rehash, BEST_ELEMS_PER_BUCKET. cbv zeta. pose proof (hr_count _ _ _ _ _ Hr) as Hc0.
  set (n0 := if elem_cnt h / 2 <? 4 then 4 else elem_cnt h / 2).
  assert (Hn0 : 4 <= n0 < 2 ^ 26) by (unfold n0; destruct (Z.ltb_spec (elem_cnt h / 2) 4); [lia|split; [lia|apply Z.div_lt_upper_bound; lia]]).
  apply returns_bind. eapply returns_mono; [apply power_loop; lia|]. intros cnt ->. set (k := Z.log2 n0).
  assert (Hk : 2 <= k <= 26).
  { unfold k. split; [apply (Z.log2_le_mono 4); lia|]. pose proof (Z.log2_lt_pow2 n0 26 ltac:(lia)). lia. }
  clearbody k n0. pose proof (Z.pow_le_mono_r 2 k 26 ltac:(lia) ltac:(lia)) as Hk26. pose proof (Z.pow_pos_nonneg 2 k ltac:(lia) ltac:(lia)).
  destruct (2 ^ k =? bucket_cnt h); [apply returns_ok; by exists bs|].
  rewrite u32_small by (unfold sizeof_list; lia). apply returns_bind.
  eapply returns_mono; [apply malloc_law; [apply (hr_heap _ _ _ _ _ Hr)|unfold sizeof_list; lia]|].
  intros [p w1] (Hw1 & Hman1 & [[-> Hb1]|(sz & Hsz & Hf & Hb1 & Hman)]).
  { simpl. exists bs. split; [by apply (rep_world U hp w)|done]. }
  pose proof Hf as (Hp & He & _). rewrite (proj2 (Z.eqb_neq p NULL)) by (unfold NULL; lia). unfold sizeof_list in Hsz.
  apply returns_bind. eapply returns_mono; [apply (new_buckets_ready U hp w h bs p sz k); done || lia|].
  intros hp2 Hmv. pose proof (hr_len _ _ _ _ _ Hr) as Hlen. destruct (hr_range _ _ _ _ _ Hr) as [Hb0 Hbe].
  destruct (hr_shape _ _ _ _ _ Hr) as (k0 & Hk0 & Hsh). pose proof (Z.pow_pos_nonneg 2 k0 ltac:(lia) ltac:(lia)).
  apply returns_bind. replace (bucket_cnt h) with (Z.of_nat (length bs)) by lia. rewrite Nat2Z.id.
  eapply returns_mono; [eapply (move_all (mk_hash (elem_cnt h) (2 ^ k) p) k); [done|simpl; lia..|exact Hmv]|].
  intros hp3 (os & ns & Hmv3 & Hl3 & Hemp). simpl in Hmv3.
  apply returns_bind. eapply returns_mono; [apply free_law; [done|]|].
  { rewrite Hb1. destruct (hr_block _ _ _ _ _ Hr) as (s & Hs & _). destruct (decide (p = buckets h)) as [->|];
      [rewrite lookup_insert_eq; eauto|rewrite lookup_insert_ne by done; eauto]. }
  intros w2 (Hw2 & Hb2 & Hman2). apply returns_ok. exists ns. split.
  - rewrite Hlen. apply (rep_moved U hp w h bs p sz k hp3 os ns w2); try done; [by rewrite Hb2, Hb1|]. intros x. by rewrite Hman2, Hman1.
  - pose proof (mv_perm _ _ _ _ _ _ _ _ Hmv3) as Hperm. by rewrite Hemp in Hperm.
Qed.

(** ** Search *)

Definition first_same (e : Z) (es : list Z) : Z :=
  match find (fun i => same i e) es with Some i => i | None => NULL end.

Lemma find_elem_spec hp b es e : is_list hp b es -> find_elem less hp b e = Ok (first_same e es).
Proof.
  intros Hl. unfold find_elem. rewrite (list_begin_spec hp b es Hl), bind_ok. apply returns_eq.
  apply (returns_loop_ix (fun n i => exists es1 es2, es = es1 ++ es2 /\ i = after_of b es2 /\ n = length es2 /\
    first_same e es2 = first_same e es)) with (length es).
  - intros n i (es1 & es2 & -> & -> & -> & Hf). rewrite (list_end_spec hp b _ Hl), bind_ok, (after_of_end hp b es1 es2 Hl).
    destruct es2 as [|x es2].
    + rewrite bool_decide_true by done. apply returns_ok. by rewrite <- Hf.
    + rewrite bool_decide_false, after_of_cons by done. fold (same x e).
      unfold first_same in Hf at 1. simpl in Hf. destruct (same x e); [by apply returns_ok|].
      rewrite (list_next_spec hp b es1 x es2 Hl), bind_ok. apply returns_ok. exists (length es2). split; [simpl; lia|].
      exists (es1 ++ [x]), es2. rewrite <- app_assoc. done.
  - by exists [], es.
  - pose proof (is_list_fuel hp b es Hl). lia.
Qed.

Context `{!WeakOrder less}.
Hypothesis hash_same : forall x y, same x y = true -> hash_func x = hash_func y.

Lemma same_sym x y : same x y = same y x.
Proof. unfold same. apply andb_comm. Qed.

Lemma same_refl x : same x x = true.
Proof. unfold same. destruct (less x x) eqn:E; [|done]. by rewrite (less_asym _ _ E) in E. Qed.

Lemma same_trans x y z : same x y = true -> same y z = true -> same x z = true.
Proof.
  unfold same. rewrite !andb_true_iff, !negb_true_iff. intros [H1 H2] [H3 H4].
  split; [by apply (less_neg_trans z y x)|by apply (less_neg_trans x y z)].
Qed.

(** What a search in the right bucket finds is what the table holds. *)
Definition found (e : Z) (C : list Z) (r : Z) : Prop :=
  (r = NULL /\ forall x, x ∈ C -> same x e = false) \/ (r ∈ C /\ same r e = true /\ r <> NULL).

Lemma elem_nonnull U hp w h bs x : hash_rep U hp w h bs -> x ∈ concat bs -> x <> NULL.
Proof.
  intros Hr Hx. destruct (hr_elems _ _ _ _ _ Hr x (hr_sub _ _ _ _ _ Hr x Hx)) as ((H & _) & _). unfold NULL. lia.
Qed.

(** The bucket of [e] in the family. *)
Lemma bucket_of U hp w h bs e : hash_rep U hp w h bs -> exists j es, bs !! j = Some es /\
  find_bucket hash_func h e = bucket_addr (buckets h) j /\ Z.land (hash_func e) (bucket_cnt h - 1) = Z.of_nat j.
Proof.
  intros Hr. destruct (hr_shape _ _ _ _ _ Hr) as (k & Hk & Hc). destruct (hr_range _ _ _ _ _ Hr) as [Hp He].
  destruct (find_bucket_eq h k e Hc) as (j & Hj & Ej & Eb); [lia|lia|by rewrite <- Hc|].
  destruct (lookup_lt_is_Some_2 bs j) as [es Hes]; [rewrite (hr_len _ _ _ _ _ Hr), Hc; lia|].
  exists j, es. rewrite Hc. done.
Qed.

Lemma find_elem_rep U hp w h bs e j es : hash_rep U hp w h bs -> bs !! j = Some es ->
  Z.land (hash_func e) (bucket_cnt h - 1) = Z.of_nat j ->
  exists r, find_elem less hp (bucket_addr (buckets h) j) e = Ok r /\ found e (concat bs) r /\ (r <> NULL -> r ∈ es).
Proof.
  intros Hr Hj Ej. exists (first_same e es). split; [by apply find_elem_spec, (ls_list _ _ _ (hr_lists _ _ _ _ _ Hr))|].
  unfold first_same. destruct (find (fun i => same i e) es) as [x|] eqn:E.
  - apply find_some in E as [Hx%list_elem_of_In Hs].
    assert (Hc : x ∈ concat bs) by (apply elem_concat; eauto). split; [right|done]. eauto using elem_nonnull.
  - split; [left|done]. split; [done|]. intros x Hx. apply elem_concat in Hx as (i & es' & Hi & Hx).
    destruct (same x e) eqn:Hs; [|done]. apply hash_same in Hs as Eh.
    pose proof (hr_placed _ _ _ _ _ Hr i es' x Hi Hx) as Hp. rewrite Eh, Ej in Hp.
    replace i with j in Hi by lia. simplify_eq. apply list_elem_of_In in Hx.
    by rewrite (find_none _ _ E x Hx) in Hs.
Qed.

(** ** Insertion and removal of one element *)

(** A change of one bucket. *)
Lemma rep_update U hp hp' w h bs j es es' cnt : hash_rep U hp w h bs -> bs !! j = Some es ->
  lists hp' (bucket_addr (buckets h)) (<[j := es']> bs) -> dom hp' = dom hp ->
  (forall x, x ∈ es' -> x ∈ U /\ Z.land (hash_func x) (bucket_cnt h - 1) = Z.of_nat j) ->
  cnt = Z.of_nat (length (concat (<[j := es']> bs))) ->
  (forall x y, x ∈ concat (<[j := es']> bs) -> y ∈ concat (<[j := es']> bs) -> same x y = true -> x = y) ->
  hash_rep U hp' w (mk_hash cnt (bucket_cnt h) (buckets h)) (<[j := es']> bs).
Proof.
  intros Hr Hj Hl Hd Hes Hcnt Hk. pose proof Hr as []. split; simpl; try done.
  - by rewrite length_insert.
  - intros i e x [(<- & <- & _)|[_ Hi]]%list_lookup_insert_Some Hx; [by apply Hes|by eapply hr_placed0].
  - intros u Hu. destruct (hr_elems0 u Hu) as (Ha & Ho & He). split; [by eapply allocated_dom|done].
  - intros x (i & e & [(<- & <- & _)|[_ Hi]]%list_lookup_insert_Some & Hx)%elem_concat; [by apply Hes|].
    apply hr_sub0, elem_concat. eauto.
Qed.

Lemma rep_outside U hp w h bs u : hash_rep U hp w h bs -> u ∈ U -> u ∉ concat bs -> outside (bucket_addr (buckets h)) bs u.
Proof.
  intros Hr Hu Hc i es Hi Hw. destruct (hr_elems _ _ _ _ _ Hr u Hu) as (_ & _ & He). apply He.
  apply (ends_whole _ _ i); [rewrite <- (hr_len _ _ _ _ _ Hr); by eapply lookup_lt_Some|].
  assert (u ∉ es) by (intros Hx; apply Hc, elem_concat; eauto). unfold whole in *. set_solver.
Qed.

Lemma insert_elem_rep U hp w h bs j es e : hash_rep U hp w h bs -> bs !! j = Some es -> elem_cnt h < 2 ^ 27 ->
  Z.land (hash_func e) (bucket_cnt h - 1) = Z.of_nat j -> e ∈ U ->
  (forall x, x ∈ concat bs -> same x e = false) ->
  returns (insert_elem h hp (bucket_addr (buckets h) j) e) (fun '(h', hp') =>
    exists bs', hash_rep U hp' w h' bs' /\ concat bs' ≡ₚ e :: concat bs /\ elem_cnt h' = elem_cnt h + 1).
Proof.
  intros Hr Hj Hcnt Ej HU Hnew.
  assert (Hni : e ∉ concat bs) by (intros He; specialize (Hnew e He); by rewrite same_refl in Hnew). pose proof (hr_count _ _ _ _ _ Hr) as Hc. unfold insert_elem.
  destruct (hr_elems _ _ _ _ _ Hr e HU) as (Ha & _).
  apply returns_bind. eapply returns_mono; [apply lists_push_front; eauto using hr_lists, rep_outside|].
  intros hp' [Hl Hf]. apply returns_ok. exists (<[j := e :: es]> bs).
  destruct (concat_insert bs j es (e :: es) Hj) as (r & H1 & H).
  assert (H2 : concat (<[j := e :: es]> bs) ≡ₚ e :: concat bs) by (by rewrite H, H1). clear H.
  rewrite u32_small by lia. split; [|done]. eapply rep_update; try done; [apply Hf| | |].
  - intros x [-> | Hx]%elem_of_cons; [done|]. split; [apply (hr_sub _ _ _ _ _ Hr), elem_concat; eauto|by eapply (hr_placed _ _ _ _ _ Hr)].
  - rewrite H2. simpl. lia.
  - intros x y. rewrite !H2, !elem_of_cons. intros [-> | Hx] [-> | Hy] Hs; [done| | |by apply (hr_keys _ _ _ _ _ Hr)].
    + rewrite same_sym, Hnew in Hs by done. done.
    + by rewrite Hnew in Hs.
Qed.

Lemma remove_elem_rep U hp w h bs e : hash_rep U hp w h bs -> elem_cnt h < 2 ^ 27 -> e ∈ concat bs ->
  returns (remove_elem h hp e) (fun '(h', hp') =>
    exists bs', hash_rep U hp' w h' bs' /\ concat bs ≡ₚ e :: concat bs' /\ bucket_cnt h' = bucket_cnt h /\
      buckets h' = buckets h /\ elem_cnt h' < elem_cnt h).
Proof.
  intros Hr Hcnt He. pose proof (hr_count _ _ _ _ _ Hr) as Hc. unfold remove_elem.
  apply elem_concat in He as (j & es & Hj & (es1 & es2 & ->)%list_elem_of_split).
  apply returns_bind. eapply returns_mono; [apply lists_remove; eauto using hr_lists|].
  intros [n hp'] (_ & Hl & _ & _ & Hf). apply returns_ok. exists (<[j := es1 ++ es2]> bs).
  destruct (concat_insert bs j _ (es1 ++ es2) Hj) as (r & H1 & H).
  assert (H2 : concat bs ≡ₚ e :: concat (<[j := es1 ++ es2]> bs)) by (by rewrite H, H1, <- !app_assoc, Permutation_middle).
  apply Permutation_length in H2 as Hlen. simpl in Hlen. rewrite u32_small by lia.
  split; [|split; [done|simpl; lia]]. eapply rep_update; try done; [apply Hf| |lia|].
  - intros x Hx. assert (x ∈ es1 ++ e :: es2) by set_solver.
    split; [apply (hr_sub _ _ _ _ _ Hr), elem_concat; eauto|by eapply (hr_placed _ _ _ _ _ Hr)].
  - intros x y Hx Hy. apply (hr_keys _ _ _ _ _ Hr); rewrite H2; set_solver.
Qed.

(** ** The operations *)

Lemma hash_find_spec U hp w h bs e : hash_rep U hp w h bs ->
  returns (hash_find hash_func less h hp e) (found e (concat bs)).
Proof.
  intros Hr. unfold hash_find. destruct (bucket_of U hp w h bs e Hr) as (j & es & Hj & -> & Ej).
  destruct (find_elem_rep U hp w h bs e j es Hr Hj Ej) as (r & -> & Hf & _). by apply returns_ok.
Qed.

Lemma hash_insert_spec U hp w h bs e : hash_rep U hp w h bs -> elem_cnt h + 1 < 2 ^ 27 -> e ∈ U ->
  returns (hash_insert junk hash_func less h hp w e) (fun '(old, h', hp', w') =>
    found e (concat bs) old /\ exists bs', hash_rep U hp' w' h' bs' /\
      concat bs' ≡ₚ if old =? NULL then e :: concat bs else concat bs).
Proof.
  intros Hr Hcnt HU. unfold hash_insert. cbv zeta. destruct (bucket_of U hp w h bs e Hr) as (j & es & Hj & -> & Ej).
  destruct (find_elem_rep U hp w h bs e j es Hr Hj Ej) as (r & -> & Hf & _). rewrite bind_ok. apply returns_bind.
  destruct Hf as [[-> Hnone]|(Hin & Hs & Hne)].
  - rewrite Z.eqb_refl. eapply returns_mono; [apply (insert_elem_rep U hp w h bs j es e); done || lia|]. intros [h1 hp1] (bs1 & Hr1 & Hp1 & Hc1).
    apply returns_bind. eapply returns_mono; [apply rehash_spec; [exact Hr1|lia]|].
    intros [[h2 hp2] w2] (bs2 & Hr2 & Hp2). apply returns_ok. split; [by left|]. exists bs2. split; [done|].
    by rewrite Z.eqb_refl, Hp2.
  - rewrite (proj2 (Z.eqb_neq r NULL)) by done. apply returns_ok.
    apply returns_bind. eapply returns_mono; [apply rehash_spec; [exact Hr|lia]|].
    intros [[h2 hp2] w2] (bs2 & Hr2 & Hp2). apply returns_ok. split; [by right|]. exists bs2. split; [done|].
    by rewrite (proj2 (Z.eqb_neq r NULL)) by done.
Qed.

Lemma hash_delete_spec U hp w h bs e : hash_rep U hp w h bs -> elem_cnt h < 2 ^ 27 ->
  returns (hash_delete junk hash_func less h hp w e) (fun '(r, h', hp', w') =>
    found e (concat bs) r /\ exists bs', hash_rep U hp' w' h' bs' /\
      concat bs ≡ₚ if r =? NULL then concat bs' else r :: concat bs').
Proof.
  intros Hr Hcnt. unfold hash_delete. destruct (bucket_of U hp w h bs e Hr) as (j & es & Hj & -> & Ej).
  destruct (find_elem_rep U hp w h bs e j es Hr Hj Ej) as (r & -> & Hf & _). rewrite bind_ok.
  destruct Hf as [[-> Hnone]|(Hin & Hs & Hne)].
  - rewrite Z.eqb_refl. apply returns_ok. split; [by left|]. exists bs. by rewrite Z.eqb_refl.
  - rewrite (proj2 (Z.eqb_neq r NULL)) by done. simpl. apply returns_bind.
    eapply returns_mono; [by apply (remove_elem_rep U hp w h bs r)|]. intros [h1 hp1] (bs1 & Hr1 & Hp1 & _ & _ & Hc1).
    apply returns_bind. eapply returns_mono; [apply rehash_spec; [exact Hr1|lia]|].
    intros [[h2 hp2] w2] (bs2 & Hr2 & Hp2). apply returns_ok. split; [by right|]. exists bs2. split; [done|].
    by rewrite (proj2 (Z.eqb_neq r NULL)), Hp2 by done.
Qed.

Lemma hash_replace_spec U hp w h bs e : hash_rep U hp w h bs -> elem_cnt h + 1 < 2 ^ 27 -> e ∈ U ->
  returns (hash_replace junk hash_func less h hp w e) (fun '(old, h', hp', w') =>
    found e (concat bs) old /\ exists bs' rest, hash_rep U hp' w' h' bs' /\ concat bs' ≡ₚ e :: rest /\
      concat bs ≡ₚ if old =? NULL then rest else old :: rest).
Proof.
  intros Hr Hcnt HU. unfold hash_replace. cbv zeta. destruct (bucket_of U hp w h bs e Hr) as (j & es & Hj & -> & Ej).
  destruct (find_elem_rep U hp w h bs e j es Hr Hj Ej) as (r & -> & Hf & _). rewrite bind_ok.
  apply returns_bind. destruct Hf as [[-> Hnone]|(Hin & Hs & Hne)].
  - rewrite Z.eqb_refl. apply returns_ok. apply returns_bind.
    eapply returns_mono; [apply (insert_elem_rep U hp w h bs j es e); done || lia|]. intros [h1 hp1] (bs1 & Hr1 & Hp1 & Hc1).
    apply returns_bind. eapply returns_mono; [apply rehash_spec; [exact Hr1|lia]|].
    intros [[h2 hp2] w2] (bs2 & Hr2 & Hp2). apply returns_ok. split; [by left|]. exists bs2, (concat bs). split; [done|].
    by rewrite Z.eqb_refl, Hp2.
  - rewrite (proj2 (Z.eqb_neq r NULL)) by done. simpl.
    eapply returns_mono; [apply (remove_elem_rep U hp w h bs r); done || lia|].
    intros [h1 hp1] (bs1 & Hr1 & Hp1 & Hb1 & Ha1 & Hc1). apply returns_bind.
    assert (Hnone : forall x, x ∈ concat bs1 -> same x e = false).
    { intros x Hx. destruct (same x e) eqn:E; [|done]. pose proof (lists_nodup _ _ _ (hr_lists _ _ _ _ _ Hr)) as Hnd.
      rewrite Hp1 in Hnd. apply list.NoDup_cons in Hnd as [Hnr _]. destruct Hnr.
      replace r with x; [done|]. apply (hr_keys _ _ _ _ _ Hr); [rewrite Hp1; set_solver|done|].
      apply (same_trans _ e); [done|]. by rewrite same_sym. }
    destruct (bucket_of U hp1 w h1 bs1 e Hr1) as (j1 & es1 & Hj1 & Eb & Ej1).
    replace (bucket_addr (buckets h) j) with (bucket_addr (buckets h1) j1) by (rewrite Ha1; f_equal; rewrite Hb1, Ej in Ej1; lia).
    eapply returns_mono; [apply (insert_elem_rep U hp1 w h1 bs1 j1 es1 e); try done; lia|].
    intros [h2 hp2] (bs2 & Hr2 & Hp2 & Hc2).
    apply returns_bind. eapply returns_mono; [apply rehash_spec; [exact Hr2|lia]|].
    intros [[h3 hp3] w3] (bs3 & Hr3 & Hp3). apply returns_ok. split; [by right|]. exists bs3, (concat bs1). split; [done|].
    by rewrite (proj2 (Z.eqb_neq r NULL)), Hp3 by done.
Qed.

(** ** Life cycle *)

(** Without a destructor, [hash_clear] just makes every bucket an empty list. *)
Lemma hash_clear_none hp w h n : bucket_cnt h = Z.of_nat n -> 0 < buckets h -> buckets h + 16 * Z.of_nat n < 2 ^ 32 ->
  (forall x, x ∈ ends (buckets h) n -> allocated hp x) ->
  returns (hash_clear h hp w None) (fun '(h', hp', w') => h' = mk_hash 0 (bucket_cnt h) (buckets h) /\ w' = w /\
    lists hp' (bucket_addr (buckets h)) (replicate n []) /\ frame (ends (buckets h) n) hp hp').
Proof.
  intros Hn Hp He Ha. unfold hash_clear. rewrite Hn, Nat2Z.id. apply returns_bind.
  apply (returns_loop (fun '(i, h1, w1) => emptied hp (buckets h) n i h1 /\ w1 = w) (fun '(i, _, _) => Z.to_nat (Z.of_nat n - i))).
  - intros [[i h1] w1] [Hi ->]. destruct (Z.ltb_spec i (Z.of_nat n)).
    + cbv zeta. rewrite bind_ok. apply returns_bind. eapply returns_mono; [by apply (emptied_step hp (buckets h) n)|].
      intros h2 H2. apply returns_ok. split; [done|lia].
    + apply returns_ok. apply returns_ok. destruct Hi as (Hi & ? & ?). replace (Z.to_nat i) with n in * by lia. done.
  - split; [apply emptied_start|done].
  - lia.
Qed.

Lemma concat_replicate_nil n : concat (replicate n []) = @nil Z.
Proof. by induction n. Qed.

Lemma replicate_rep U hp w h n : (exists k, 2 <= k <= 26 /\ bucket_cnt h = 2 ^ k) -> n = Z.to_nat (bucket_cnt h) ->
  elem_cnt h = 0 -> heap_ok w -> (exists sz, blocks w !! buckets h = Some sz /\ 16 * bucket_cnt h <= sz) ->
  0 < buckets h -> buckets h + 16 * bucket_cnt h < 2 ^ 32 -> (forall u, u ∈ U -> elem_ok hp w h u) ->
  lists hp (bucket_addr (buckets h)) (replicate n []) -> hash_rep U hp w h (replicate n []).
Proof.
  intros Hk -> Hc Hw Hb Hp He HU Hl. split; try done; rewrite ?concat_replicate_nil.
  - by rewrite length_replicate.
  - intros j es e [-> _]%lookup_replicate_1 []%not_elem_of_nil.
  - done.
  - by intros x y ?%not_elem_of_nil.
  - by intros x ?%not_elem_of_nil.
Qed.

(** A new table is empty; when there is no memory for the buckets nothing has changed. *)
Lemma hash_init_spec U hp w : heap_ok w -> (forall u, u ∈ U -> allocated hp u /\ owned w NULL u) ->
  returns (hash_init junk hp w) (fun '(ok, h', hp', w') =>
    if ok then exists bs, hash_rep U hp' w' h' bs /\ concat bs = []
    else heap_ok w' /\ blocks w' = blocks w /\ hp' = hp).
Proof.
  intros Hw HU. unfold hash_init. rewrite u32_small by (unfold sizeof_list; lia). apply returns_bind.
  eapply returns_mono; [apply malloc_law; [done|unfold sizeof_list; lia]|].
  intros [p w1] (Hw1 & Hman1 & [[-> Hb1]|(sz & Hsz & Hf & Hb1 & Hman)]); [by apply returns_ok|].
  pose proof Hf as (Hp & He & _ & Hd). cbv zeta. unfold sizeof_list in Hsz.
  rewrite (proj2 (Z.eqb_neq p NULL)) by (unfold NULL; lia). simpl. apply returns_bind.
  eapply returns_mono; [apply (hash_clear_none _ w1 (mk_hash 0 4 p) 4); simpl; try lia|].
  { intros x Hx. apply allocated_new; [lia|simpl; lia|auto]. }
  intros [[h' hp'] w'] (-> & -> & Hl & Hfr). apply returns_ok. exists (replicate 4 []). split; [|done].
  apply replicate_rep; simpl; try done; try lia.
  - by exists 2.
  - exists sz. rewrite Hb1, lookup_insert_eq. split; [done|lia].
  - intros u Hu. destruct (HU u Hu) as [Ha Ho]. simpl in Hfr.
    assert (Hnr : ~ (p <= u < p + sz)) by (by eapply (fresh_owned w)).
    split; [|split; simpl].
    + eapply allocated_frame; [|exact Hfr]. apply allocated_new; [lia|simpl; lia|auto].
    + destruct Ho as [Ho|(q & sq & Hq & Hbq & Hr)]; [left; by rewrite Hman1|right]. exists q, sq.
      assert (q <> p) by (intros ->; destruct (Hd _ _ Hbq); lia). split; [done|]. by rewrite Hb1, lookup_insert_ne by done.
    + intros Hx%ends_range. simpl in Hx. lia.
Qed.

Lemma ends_allocated U hp w h bs x : hash_rep U hp w h bs -> x ∈ ends (buckets h) (Z.to_nat (bucket_cnt h)) -> allocated hp x.
Proof.
  intros Hr Hx. rewrite <- (hr_len _ _ _ _ _ Hr) in Hx. apply ends_of in Hx. rewrite outside_members in Hx.
  destruct (decide (x ∈ members (bucket_addr (buckets h)) bs)) as [Hm|]; [|done].
  apply elem_members in Hm as (i & es & Hi & Hw). by eapply lists_allocated; [apply (hr_lists _ _ _ _ _ Hr)|..].
Qed.

Lemma hash_clear_rep U hp w h bs : hash_rep U hp w h bs ->
  returns (hash_clear h hp w None) (fun '(h', hp', w') => exists bs', hash_rep U hp' w' h' bs' /\ concat bs' = []).
Proof.
  intros Hr. destruct (hr_shape _ _ _ _ _ Hr) as (k & Hk & Hc). pose proof (Z.pow_pos_nonneg 2 k ltac:(lia) ltac:(lia)).
  destruct (hr_range _ _ _ _ _ Hr) as [Hp He]. set (n := Z.to_nat (bucket_cnt h)).
  eapply returns_mono; [apply (hash_clear_none hp w h n); try lia; intros x; by eapply ends_allocated|].
  intros [[h' hp'] w'] (-> & -> & Hl & Hf). exists (replicate n []). split; [|apply concat_replicate_nil].
  apply replicate_rep; simpl; eauto using hr_heap, hr_block, hr_shape.
  intros u Hu. destruct (hr_elems _ _ _ _ _ Hr u Hu) as (Ha & Ho & Hen). split; [by eapply allocated_frame|done].
Qed.

(** *** Visiting every element

    [I ds w] is what the caller knows of its state after the elements [ds] have been
    passed to its function, in that order. *)
Section Visit.
Variable I : list Z -> A -> Prop.
Variable f : Z -> A -> res A.
Variable C : list Z.
Hypothesis f_ok : forall ds e w, ds ++ [e] `prefix_of` C -> I ds w -> returns (f e w) (I (ds ++ [e])).

Lemma apply_bucket_spec hp w b es ds : is_list hp b es -> ds ++ es `prefix_of` C -> I ds w ->
  returns (apply_bucket f hp w b) (I (ds ++ es)).
Proof.
  intros Hl Hpre Hi. unfold apply_bucket. rewrite (list_begin_spec hp b es Hl), bind_ok.
  apply (returns_loop_ix (fun n '(w1, e) => exists es1 es2, es = es1 ++ es2 /\ e = after_of b es2 /\ n = length es2 /\
    I (ds ++ es1) w1)) with (length es).
  - intros n [w1 e] (es1 & es2 & -> & -> & -> & H1). rewrite (list_end_spec hp b _ Hl), bind_ok, (after_of_end hp b es1 es2 Hl).
    destruct es2 as [|x es2].
    + rewrite bool_decide_true by done. apply returns_ok. by rewrite app_nil_r.
    + rewrite bool_decide_false, after_of_cons by done. rewrite (list_next_spec hp b es1 x es2 Hl), bind_ok. apply returns_bind.
      eapply returns_mono; [apply (f_ok (ds ++ es1) x w1); [|done]|].
      { etransitivity; [|exact Hpre]. exists es2. by rewrite <- !app_assoc. }
      intros w2 H2. apply returns_ok. exists (length es2). split; [simpl; lia|].
      exists (es1 ++ [x]), es2. split_and!; [by rewrite <- app_assoc|done|done|by rewrite app_assoc].
  - exists [], es. by rewrite app_nil_r.
  - pose proof (is_list_fuel hp b es Hl). lia.
Qed.

Lemma empty_bucket_spec hp w addr bs i es ds : lists hp addr bs -> bs !! i = Some es -> ds ++ es `prefix_of` C -> I ds w ->
  returns (empty_bucket f hp w (addr i)) (fun '(hp', w') => I (ds ++ es) w' /\ lists hp' addr (<[i := []]> bs) /\ dom hp' = dom hp).
Proof.
  intros Hl Hi Hpre HI. assert (Hlt := lookup_lt_Some _ _ _ Hi). unfold empty_bucket.
  apply (returns_loop_ix (fun n '(hp1, w1) => exists es1 es2, es = es1 ++ es2 /\ n = length es2 /\
    lists hp1 addr (<[i := es2]> bs) /\ I (ds ++ es1) w1 /\ dom hp1 = dom hp)) with (length es).
  - intros n [hp1 w1] (es1 & es2 & -> & -> & H1 & HI1 & Hd).
    assert (Hi1 : <[i := es2]> bs !! i = Some es2) by (by apply list_lookup_insert_eq).
    rewrite (list_empty_spec hp1 (addr i) es2), bind_ok by (by apply (ls_list _ _ _ H1)).
    destruct es2 as [|x es2].
    + rewrite bool_decide_true by done. apply returns_ok. by rewrite app_nil_r.
    + rewrite bool_decide_false by done. simpl. apply returns_bind.
      eapply returns_mono; [by apply (lists_pop_front hp1 addr (<[i := x :: es2]> bs) i x es2)|]. intros [e hp2] (-> & H2 & _ & _ & [_ Hd2]).
      rewrite list_insert_insert_eq in H2. apply returns_bind. eapply returns_mono; [apply (f_ok (ds ++ es1) x w1); [|done]|].
      { etransitivity; [|exact Hpre]. exists es2. by rewrite <- !app_assoc. }
      intros w2 HI2. apply returns_ok. exists (length es2). split; [simpl; lia|].
      exists (es1 ++ [x]), es2. split_and!; [by rewrite <- app_assoc|done|done|by rewrite app_assoc|congruence].
  - exists [], es. rewrite app_nil_r, list_insert_id by done. done.
  - pose proof (is_list_fuel hp (addr i) es (ls_list _ _ _ Hl i es Hi)). lia.
Qed.
End Visit.

Lemma concat_take_drop_prefix bs i es : bs !! i = Some es -> concat (take i bs) ++ es `prefix_of` concat bs.
Proof.
  intros Hi. exists (concat (drop (S i) bs)). rewrite <- (take_drop_middle bs i es Hi) at 1. rewrite concat_app. simpl.
  by rewrite app_assoc.
Qed.

(** [hash_apply] passes every element to the action exactly once. *)
Lemma hash_apply_spec U hp w h bs (I : list Z -> A -> Prop) f : hash_rep U hp w h bs ->
  (forall ds e w, ds ++ [e] `prefix_of` concat bs -> I ds w -> returns (f e w) (I (ds ++ [e]))) -> I [] w ->
  returns (hash_apply h hp w f) (I (concat bs)).
Proof.
  intros Hr Hf HI. unfold hash_apply. pose proof (hr_len _ _ _ _ _ Hr) as Hl. destruct (hr_range _ _ _ _ _ Hr) as [Hp He].
  destruct (hr_shape _ _ _ _ _ Hr) as (k & Hk & Hc). pose proof (Z.pow_pos_nonneg 2 k ltac:(lia) ltac:(lia)).
  apply (returns_loop (fun '(i, w1) => 0 <= i <= bucket_cnt h /\ I (concat (take (Z.to_nat i) bs)) w1)
    (fun '(i, _) => Z.to_nat (bucket_cnt h - i))).
  - intros [i w1] [Hi H1]. destruct (Z.ltb_spec i (bucket_cnt h)).
    + rewrite bucket_addr_eq by lia. destruct (lookup_lt_is_Some_2 bs (Z.to_nat i)) as [es Hes]; [lia|]. apply returns_bind.
      eapply returns_mono; [eapply (apply_bucket_spec I f (concat bs) Hf); [by apply (ls_list _ _ _ (hr_lists _ _ _ _ _ Hr))| |exact H1]|].
      { by apply concat_take_drop_prefix. }
      intros w2 H2. apply returns_ok. split; [|lia]. split; [lia|]. replace (Z.to_nat (i + 1)) with (S (Z.to_nat i)) by lia.
      by rewrite (take_S_r _ _ es), concat_app, concat_cons, app_nil_r.
    + apply returns_ok. by rewrite take_ge in H1 by lia.
  - split; [lia|done].
  - lia.
Qed.

(** With a destructor, every element is passed to it exactly once. *)
Lemma hash_clear_some U hp w h bs (I : list Z -> A -> Prop) f : hash_rep U hp w h bs ->
  (forall ds e w, ds ++ [e] `prefix_of` concat bs -> I ds w -> returns (f e w) (I (ds ++ [e]))) -> I [] w ->
  returns (hash_clear h hp w (Some f)) (fun '(h', hp', w') => I (concat bs) w' /\ h' = mk_hash 0 (bucket_cnt h) (buckets h) /\
    dom hp' = dom hp /\ lists hp' (bucket_addr (buckets h)) (replicate (length bs) [])).
Proof.
  intros Hr Hf HI. unfold hash_clear. pose proof (hr_len _ _ _ _ _ Hr) as Hl. destruct (hr_range _ _ _ _ _ Hr) as [Hp He].
  destruct (hr_shape _ _ _ _ _ Hr) as (k & Hk & Hc). pose proof (Z.pow_pos_nonneg 2 k ltac:(lia) ltac:(lia)). apply returns_bind.
  apply (returns_loop (fun '(i, hp1, w1) => 0 <= i <= bucket_cnt h /\ I (concat (take (Z.to_nat i) bs)) w1 /\ dom hp1 = dom hp /\
      lists hp1 (bucket_addr (buckets h)) (replicate (Z.to_nat i) [] ++ drop (Z.to_nat i) bs))
    (fun '(i, _, _) => Z.to_nat (bucket_cnt h - i))).
  - intros [[i hp1] w1] (Hi & H1 & Hd1 & Hl1). destruct (Z.ltb_spec i (bucket_cnt h)).
    + cbv zeta. rewrite bucket_addr_eq by lia. destruct (lookup_lt_is_Some_2 bs (Z.to_nat i)) as [es Hes]; [lia|].
      set (bs1 := replicate (Z.to_nat i) [] ++ drop (Z.to_nat i) bs) in *.
      assert (Hi1 : bs1 !! Z.to_nat i = Some es).
      { unfold bs1. rewrite lookup_app_r, length_replicate, Nat.sub_diag, lookup_drop, Nat.add_0_r by (rewrite length_replicate; lia). done. }
      apply returns_bind. eapply returns_mono; [eapply (empty_bucket_spec I f (concat bs) Hf); [exact Hl1|exact Hi1| |exact H1]|].
      { by apply concat_take_drop_prefix. }
      intros [hp2 w2] (H2 & Hl2 & Hd2). apply returns_bind.
      assert (Hi2 : <[Z.to_nat i := []]> bs1 !! Z.to_nat i = Some []) by (apply list_lookup_insert_eq; by eapply lookup_lt_Some).
      eapply returns_mono; [apply list_init_spec; (eapply lists_allocated; [exact Hl2|exact Hi2|]; unfold whole; set_solver)|].
      intros hp3 [Hn Hf3]. apply returns_ok. split; [|lia]. split; [lia|].
      replace (Z.to_nat (i + 1)) with (S (Z.to_nat i)) by lia. split; [by rewrite (take_S_r _ _ es), concat_app, concat_cons, app_nil_r|].
      split; [destruct Hf3; congruence|].
      pose proof (lists_update _ _ _ _ _ _ _ Hl2 Hi2 Hn ltac:(set_solver) ltac:(exists (whole (bucket_addr (buckets h) (Z.to_nat i)) []); auto)) as Hl3.
      rewrite list_insert_insert_eq in Hl3. unfold bs1 in Hl3.
      rewrite (drop_S _ es) in Hl3 by done. rewrite insert_app_r_alt, length_replicate, Nat.sub_diag in Hl3 by (rewrite length_replicate; lia).
      simpl in Hl3. replace (S (Z.to_nat i)) with (Z.to_nat i + 1)%nat by lia. rewrite replicate_add, <- app_assoc.
      by replace (Z.to_nat i + 1)%nat with (S (Z.to_nat i)) by lia.
    + apply returns_ok. apply returns_ok. replace (Z.to_nat i) with (length bs) in * by lia.
      rewrite drop_ge, app_nil_r in Hl1 by lia. rewrite take_ge in H1 by lia. done.
  - split; [lia|]. split; [done|]. split; [done|]. apply (hr_lists _ _ _ _ _ Hr).
  - lia.
Qed.

(** The buckets go back to the allocator. *)
Lemma hash_destroy_none U hp w h bs : hash_rep U hp w h bs ->
  returns (hash_destroy h hp w None) (fun '(_, hp', w') => heap_ok w' /\ blocks w' = delete (buckets h) (blocks w) /\
    forall u, u ∈ U -> allocated hp' u).
Proof.
  intros Hr. unfold hash_destroy. rewrite bind_ok. apply returns_bind.
  destruct (hr_block _ _ _ _ _ Hr) as (sz & Hsz & _).
  eapply returns_mono; [apply free_law; [apply (hr_heap _ _ _ _ _ Hr)|by eexists]|].
  intros w' (Hw & Hb & _). apply returns_ok. split; [done|]. split; [done|]. intros u Hu.
  destruct (hr_elems _ _ _ _ _ Hr u Hu) as ((H1 & H2 & H3) & _ & He). unfold allocated.
  by rewrite !drop_links_lookup, !decide_False by done.
Qed.

Lemma hash_destroy_some U hp w h bs (I : list Z -> A -> Prop) f : hash_rep U hp w h bs ->
  (forall ds e w, ds ++ [e] `prefix_of` concat bs -> I ds w -> returns (f e w) (I (ds ++ [e]))) -> I [] w ->
  (forall w, I (concat bs) w -> heap_ok w /\ is_Some (blocks w !! buckets h)) ->
  returns (hash_destroy h hp w (Some f)) (fun '(_, _, w') => exists w1, I (concat bs) w1 /\
    heap_ok w' /\ blocks w' = delete (buckets h) (blocks w1)).
Proof.
  intros Hr Hf HI Hw. unfold hash_destroy. apply returns_bind. eapply returns_mono; [by apply (hash_clear_some U hp w h bs I f)|].
  intros [[h1 hp1] w1] (H1 & -> & _). destruct (Hw w1 H1) as [Hok Hb]. simpl. apply returns_bind.
  eapply returns_mono; [by apply free_law|]. intros w2 (Hok2 & Hb2 & _). apply returns_ok. eauto.
Qed.

(** ** Iteration *)

(** The iterator stands after the elements [pre]; [rest] are still to come. *)
Definition iter_at (h : hash) bs (it : hash_iterator) (pre rest : list Z) : Prop :=
  exists i es1 es2, bs !! i = Some (es1 ++ es2) /\ it_bucket it = bucket_addr (buckets h) i /\
    it_elem it = before_of (bucket_addr (buckets h) i) es1 /\
    pre = concat (take i bs) ++ es1 /\ rest = es2 ++ concat (drop (S i) bs).

Lemma list_next_before hp l es1 es2 : is_list hp l (es1 ++ es2) -> list_next hp (before_of l es1) = Ok (after_of l es2).
Proof.
  intros Hl. destruct es1 as [|x es1 _] using rev_ind.
  - destruct (head_links hp l es2 Hl) as (Hn & _ & Eh). rewrite before_of_nil. unfold list_next, or_else. rewrite Eh. simpl.
    by apply load_some.
  - rewrite before_of_snoc. rewrite <- app_assoc in Hl. by apply (list_next_spec hp l es1 x es2).
Qed.

Lemma hash_first_spec U hp w h bs : hash_rep U hp w h bs -> returns (hash_first h) (fun it => iter_at h bs it [] (concat bs)).
Proof.
  intros Hr. destruct (hr_range _ _ _ _ _ Hr) as [Hp _]. destruct (hr_shape _ _ _ _ _ Hr) as (k & Hk & Hc).
  pose proof (Z.pow_pos_nonneg 2 k ltac:(lia) ltac:(lia)). pose proof (hr_len _ _ _ _ _ Hr) as Hl.
  unfold hash_first, list_head. rewrite (proj2 (Z.eqb_neq (buckets h) NULL)) by (unfold NULL; lia). simpl.
  destruct bs as [|es bs]; [simpl in Hl; lia|]. exists 0%nat, [], es. simpl. split; [done|].
  unfold bucket_addr. rewrite Z.mul_0_r, Z.add_0_r. done.
Qed.

(** A step of the iteration returns the next element, and a null pointer after the last. *)
Lemma hash_next_spec U hp w h bs it pre rest : hash_rep U hp w h bs -> iter_at h bs it pre rest ->
  returns (hash_next h hp it) (fun '(r, it') =>
    match rest with
    | x :: rest' => r = x /\ hash_cur it' = x /\ iter_at h bs it' (pre ++ [x]) rest'
    | [] => r = NULL /\ hash_cur it' = NULL
    end).
Proof.
  intros Hr (i & es1 & es2 & Hi & Eb & Ee & -> & ->). pose proof (hr_lists _ _ _ _ _ Hr) as Hl.
  pose proof (hr_len _ _ _ _ _ Hr) as Hlen. destruct (hr_range _ _ _ _ _ Hr) as [Hp He].
  destruct (hr_shape _ _ _ _ _ Hr) as (k & Hk & Hc). pose proof (Z.pow_pos_nonneg 2 k ltac:(lia) ltac:(lia)) as Hpos.
  unfold hash_next. rewrite Ee, Eb, (list_next_before hp _ es1 es2), bind_ok by (by apply (ls_list _ _ _ Hl)).
  assert (Hlt := lookup_lt_Some _ _ _ Hi).
  apply (returns_loop_ix (fun n it1 => exists j fs1 fs2, bs !! j = Some (fs1 ++ fs2) /\ n = (length bs - j)%nat /\
      it_bucket it1 = bucket_addr (buckets h) j /\ it_elem it1 = after_of (bucket_addr (buckets h) j) fs2 /\
      concat (take j bs) ++ fs1 = concat (take i bs) ++ es1 /\
      fs2 ++ concat (drop (S j) bs) = es2 ++ concat (drop (S i) bs))) with (length bs - i)%nat.
  - clear Hi Eb Ee Hlt. intros n it1 (j & fs1 & fs2 & Hj & -> & Eb & Ee & Hpre & Hrest). assert (Hlt := lookup_lt_Some _ _ _ Hj).
    pose proof (ls_list _ _ _ Hl j _ Hj) as Hls.
    rewrite Eb, Ee, (list_end_spec hp _ _ Hls), bind_ok, (after_of_end hp _ fs1 fs2 Hls).
    destruct fs2 as [|x fs2].
    + rewrite bool_decide_true by done. cbv zeta. rewrite bucket_addr_eq by lia.
      replace (u32 (bucket_addr (buckets h) j + sizeof_list)) with (bucket_addr (buckets h) (S j))
        by (unfold bucket_addr, sizeof_list; rewrite u32_small; lia).
      destruct (decide (S j < length bs)%nat) as [Hs|Hs].
      * replace (_ <=? _) with false by (symmetry; apply Z.leb_gt; unfold bucket_addr; lia).
        destruct (lookup_lt_is_Some_2 bs (S j) Hs) as [gs Hgs].
        rewrite (list_begin_spec hp _ gs), bind_ok by (by apply (ls_list _ _ _ Hl)). apply returns_ok.
        exists (length bs - S j)%nat. split; [lia|]. exists (S j), [], gs. split_and!; try done.
        -- rewrite app_nil_r, (take_S_r _ _ _ Hj), concat_app. simpl. by rewrite !app_nil_r in *.
        -- rewrite <- Hrest. simpl. by rewrite (drop_S bs gs (S j) Hgs).
      * replace (_ <=? _) with true by (symmetry; apply Z.leb_le; unfold bucket_addr; lia). apply returns_ok.
        rewrite drop_ge in Hrest by lia. simpl in Hrest. by rewrite <- Hrest.
    + rewrite bool_decide_false, after_of_cons by done. apply returns_ok. rewrite <- Hrest. simpl.
      split; [done|]. split; [by rewrite after_of_cons in Ee|]. exists j, (fs1 ++ [x]), fs2.
      rewrite <- app_assoc, before_of_snoc. rewrite after_of_cons in Ee. rewrite <- Hpre. split_and!; try done. by rewrite <- app_assoc.
  - exists i, es1, es2. done.
  - lia.
Qed.
End Spec.

(** ** Hash functions *)

(** The FNV-1 hash of a sequence of bytes. *)
Definition fnv (bs : list Z) : Z := fold_left (fun h b => Z.lxor (u32 (h * FNV_32_PRIME)) b) bs FNV_32_BASIS.

(** [hash_bytes] is FNV-1 of the bytes in the buffer, [hash_string] that of the characters. *)
Lemma hash_bytes_spec m buf size : 0 < buf < 2 ^ 32 -> 0 <= size -> buf + size <= 2 ^ 32 ->
  hash_bytes m buf size = Ok (fnv (map m (seqZ buf size))).
Proof.
  intros Hb Hs He. unfold hash_bytes. rewrite (proj2 (Z.eqb_neq buf NULL)) by (unfold NULL; lia). simpl negb. rewrite assert_bind by done.
  apply returns_eq. apply (returns_loop (fun '(p, n, h) => 0 <= n <= size /\ (0 < n -> p = buf + (size - n)) /\
    h = fnv (map m (seqZ buf (size - n)))) (fun '(_, n, _) => Z.to_nat n)).
  - intros [[p n] h] (Hn & Hp & ->). destruct (Z.ltb_spec 0 n); apply returns_ok.
    + rewrite Hp by done. split; [|lia]. split; [lia|]. split; [intros; rewrite u32_small; lia|].
      replace (size - (n - 1)) with (size - n + 1) by lia. rewrite seqZ_app, map_app by lia. unfold fnv. by rewrite fold_left_app.
    + by replace (size - n) with size by lia.
  - split; [lia|]. split; [lia|]. by replace (size - size) with 0 by lia.
  - lia.
Qed.

Lemma hash_string_spec m p s : cstring m p s -> hash_string m p = Ok (fnv s).
Proof.
  intros Hs. unfold hash_string. rewrite (cstring_nonnull m p s), assert_bind by done. apply returns_eq.
  apply (walk s (fun pre => (past p pre, fnv pre)) (fun _ => True)); [by eapply cstring_length|by rewrite past_nil|done|..].
  - intros pre c r E _. unfold hash_string_step. destruct (cstring_char m p s Hs pre c r E) as [-> Hc].
    rewrite (proj2 (Z.eqb_neq c 0)) by lia. apply returns_ok. split; [|done]. f_equal; [by eapply cstring_next|].
    unfold fnv. by rewrite fold_left_app.
  - intros _. unfold hash_string_step. rewrite (cstring_null m p s) by done. by apply returns_ok.
Qed.

Lemma hash_int_spec m at_i i : 0 < at_i -> at_i + 4 <= 2 ^ 32 ->
  hash_int m at_i i = Ok (fnv [u8 i; u8 (Z.shiftr i 8); u8 (Z.shiftr i 16); u8 (Z.shiftr i 24)]).
Proof.
  intros Hp He. unfold hash_int. cbv zeta. rewrite hash_bytes_spec by lia. do 2 f_equal.
  replace (seqZ at_i 4) with [at_i; at_i + 1; at_i + 2; at_i + 3].
  - simpl. unfold store. rewrite !u32_small by lia.
    rewrite !Z.eqb_refl, !(proj2 (Z.eqb_neq _ _)) by lia. done.
  - unfold seqZ. simpl. repeat (f_equal; try lia).
Qed.

(** ** The table as a set

    A client's calls, run on the table and on a plain list of elements. *)
Inductive hash_op := OpInsert (e : Z) | OpReplace (e : Z) | OpDelete (e : Z) | OpFind (e : Z).

Section Refinement.
Context {A : Type} `{!BlockOps A}.
Variable junk : Z * link -> Z.
Variable hash_func : Z -> Z.
Variable less : Z -> Z -> bool.

Definition run_op (st : hash * heap * A) (op : hash_op) : res (Z * (hash * heap * A)) :=
  let '(h, hp, w) := st in
  match op with
  | OpInsert e => '(r, h, hp, w) ← hash_insert junk hash_func less h hp w e; Ok (r, (h, hp, w))
  | OpReplace e => '(r, h, hp, w) ← hash_replace junk hash_func less h hp w e; Ok (r, (h, hp, w))
  | OpDelete e => '(r, h, hp, w) ← hash_delete junk hash_func less h hp w e; Ok (r, (h, hp, w))
  | OpFind e => r ← hash_find hash_func less h hp e; Ok (r, (h, hp, w))
  end.

Fixpoint run_ops (st : hash * heap * A) (ops : list hash_op) : res (list Z * (hash * heap * A)) :=
  match ops with
  | [] => Ok ([], st)
  | op :: ops =>
      '(r, st) ← run_op st op;
      '(rs, st) ← run_ops st ops;
      Ok (r :: rs, st)
  end.

(** The specification, on a list without equal elements: the result is the member equal
    to [e], or a null pointer.  An insertion adds [e] when there is no such member; a
    replacement puts [e] in its place. *)
Definition spec_op (X : list Z) (op : hash_op) : Z * list Z :=
  match op with
  | OpInsert e => let r := first_same less e X in (r, if r =? NULL then e :: X else X)
  | OpReplace e => let r := first_same less e X in (r, e :: filter (fun x => x <> r) X)
  | OpDelete e => let r := first_same less e X in (r, filter (fun x => x <> r) X)
  | OpFind e => (first_same less e X, X)
  end.

Fixpoint spec_ops (X : list Z) (ops : list hash_op) : list Z * list Z :=
  match ops with
  | [] => ([], X)
  | op :: ops => let '(r, X) := spec_op X op in let '(rs, X) := spec_ops X ops in (r :: rs, X)
  end.

Definition op_elem (op : hash_op) : option Z :=
  match op with OpInsert e | OpReplace e => Some e | _ => None end.

(** The table [h] represents the set of elements [X]. *)
Definition table (U : gset Z) (X : list Z) (st : hash * heap * A) : Prop :=
  let '(h, hp, w) := st in exists bs, hash_rep hash_func less U hp w h bs /\ concat bs ≡ₚ X.

Context `{!WeakOrder less}.
Hypothesis hash_same : forall x y, same less x y = true -> hash_func x = hash_func y.

Lemma first_same_cases e X : (first_same less e X = NULL /\ forall x, x ∈ X -> same less x e = false) \/
  (first_same less e X ∈ X /\ same less (first_same less e X) e = true).
Proof.
  unfold first_same. destruct (find _ X) as [x|] eqn:E.
  - apply find_some in E as [Hx%list_elem_of_In Hs]. by right.
  - left. split; [done|]. intros x Hx%list_elem_of_In. by apply (find_none _ _ E).
Qed.

(** Since no two members are equal, what the table finds is what the list has. *)
Lemma found_first U X h hp w bs e r : hash_rep hash_func less U hp w h bs -> concat bs ≡ₚ X -> found less e (concat bs) r ->
  r = first_same less e X /\ ((r =? NULL) = true -> r ∉ X).
Proof.
  intros Hr HX Hf. assert (Hel : forall x, x ∈ concat bs <-> x ∈ X) by (intros x; by rewrite HX).
  assert (Hnn : forall x, x ∈ X -> x <> NULL) by (intros x Hx; eapply (elem_nonnull hash_func less); [exact Hr|by apply Hel]).
  split; [|intros ->%Z.eqb_eq Hx; by apply (Hnn _ Hx)].
  destruct (first_same_cases e X) as [[-> Hn]|[Hx Hs]], Hf as [[-> Hn']|(Hin & Hs' & Hne)]; [done| | |].
  - apply Hel in Hin. by rewrite Hn in Hs'.
  - apply Hel in Hx. by rewrite Hn' in Hs.
  - apply (hr_keys _ _ _ _ _ _ _ Hr); [done|by apply Hel|]. apply (same_trans less _ e); [done|]. by rewrite same_sym.
Qed.

Lemma filter_ne_id (X : list Z) r : r ∉ X -> filter (fun x => x <> r) X = X.
Proof. intros Hr. (induction X as [|x X IH]; [done|]; rewrite filter_cons_True by set_solver; f_equal; set_solver). Qed.

Lemma filter_ne_cons (X Y : list Z) r : X ≡ₚ r :: Y -> NoDup X -> filter (fun x => x <> r) X ≡ₚ Y.
Proof.
  intros HX Hnd. rewrite HX in Hnd |- *. apply list.NoDup_cons in Hnd as [Hr _].
  rewrite filter_cons_False by naive_solver. by rewrite filter_ne_id.
Qed.

Lemma table_size U X h hp w : table U X (h, hp, w) -> elem_cnt h = Z.of_nat (length X).
Proof. intros (bs & Hr & HX). by rewrite (hr_count _ _ _ _ _ _ _ Hr), HX. Qed.

Lemma run_op_refines U X st op r X' : table U X st -> Z.of_nat (length X) + 1 < 2 ^ 27 ->
  (forall e, op_elem op = Some e -> e ∈ U) -> spec_op X op = (r, X') ->
  returns (run_op st op) (fun '(r', st') => r' = r /\ table U X' st').
Proof.
  destruct st as [[h hp] w]. intros Ht Hsz HU Hspec. pose proof (table_size U X h hp w Ht) as Hc. destruct Ht as (bs & Hr & HX).
  pose proof (lists_nodup _ _ _ (hr_lists _ _ _ _ _ _ _ Hr)) as Hnd. rewrite HX in Hnd.
  destruct op as [e|e|e|e]; simpl in *.
  - simplify_eq. apply returns_bind.
    eapply returns_mono; [apply (hash_insert_spec junk hash_func less hash_same U hp w h bs e Hr); [lia|by apply HU]|].
    intros [[[r' h'] hp'] w'] (Hf & bs' & Hr' & Hp'). apply returns_ok.
    destruct (found_first U X h hp w bs e r' Hr HX Hf) as [-> _]. split; [done|]. exists bs'. split; [done|]. rewrite Hp'.
    case_match; by rewrite HX.
  - simplify_eq. apply returns_bind.
    eapply returns_mono; [apply (hash_replace_spec junk hash_func less hash_same U hp w h bs e Hr); [lia|by apply HU]|].
    intros [[[r' h'] hp'] w'] (Hf & bs' & rest & Hr' & Hp' & Hrest). apply returns_ok.
    destruct (found_first U X h hp w bs e r' Hr HX Hf) as [-> Hnull]. split; [done|]. exists bs'. split; [done|]. rewrite Hp'. f_equiv.
    symmetry. destruct (_ =? NULL).
    + rewrite filter_ne_id by auto. by etransitivity; [symmetry|].
    + apply filter_ne_cons; [by etransitivity; [symmetry|]|done].
  - simplify_eq. apply returns_bind.
    eapply returns_mono; [apply (hash_delete_spec junk hash_func less hash_same U hp w h bs e Hr); lia|].
    intros [[[r' h'] hp'] w'] (Hf & bs' & Hr' & Hp'). apply returns_ok.
    destruct (found_first U X h hp w bs e r' Hr HX Hf) as [-> Hnull]. split; [done|]. exists bs'. split; [done|].
    symmetry. destruct (_ =? NULL).
    + rewrite filter_ne_id by auto. by etransitivity; [symmetry|].
    + apply filter_ne_cons; [by etransitivity; [symmetry|]|done].
  - simplify_eq. apply returns_bind. eapply returns_mono; [by apply (hash_find_spec hash_func less hash_same U hp w h bs e Hr)|].
    intros r' Hf. apply returns_ok. destruct (found_first U _ h hp w bs e r' Hr HX Hf) as [-> _]. split; [done|]. by exists bs.
Qed.

Lemma spec_op_size X op r X' : spec_op X op = (r, X') -> (length X' <= length X + 1)%nat.
Proof.
  destruct op as [e|e|e|e]; simpl; repeat case_decide; intros; simplify_eq; simpl; repeat case_match; simpl; try lia;
    pose proof (length_filter (fun x => x <> first_same less e X) X); simpl in *; lia.
Qed.

Lemma run_ops_refines U ops : forall X st rs X', table U X st -> Z.of_nat (length X + length ops) < 2 ^ 27 ->
  Forall (fun op => forall e, op_elem op = Some e -> e ∈ U) ops -> spec_ops X ops = (rs, X') ->
  returns (run_ops st ops) (fun '(rs', st') => rs' = rs /\ table U X' st').
Proof.
  induction ops as [|op ops IH]; intros X st rs X' Ht Hsz HU Hs; simpl in Hs |- *; [simplify_eq; by apply returns_ok|].
  destruct (spec_op X op) as [r X1] eqn:E1. destruct (spec_ops X1 ops) as [rs1 X2] eqn:E2. simplify_eq.
  apply list.Forall_cons in HU as [HU1 HU]. apply returns_bind. simpl in Hsz.
  eapply returns_mono; [apply (run_op_refines U X st op r X1 Ht ltac:(lia) HU1 E1)|].
  intros [r' st1] [-> Ht1]. apply returns_bind. pose proof (spec_op_size X op r X1 E1).
  eapply returns_mono; [apply (IH X1 st1 rs1 X' Ht1 ltac:(lia) HU E2)|]. intros [rs' st2] [-> Ht2]. by apply returns_ok.
Qed.
End Refinement.
