(* ===== verification/Malloc.v ===== *)
(** * The block allocator (threads/malloc.c)

    Descriptors, arenas and free lists, over the page allocator of [Palloc] and the lists
    of [KList].  An arena header and the links of a free block live in pages of the
    allocator: the headers are kept in a map by page address, the links in a heap of list
    elements, and the bytes that callers store in the memory of [Palloc].  A pointer to a
    descriptor is its index in the array. *)

From stdpp Require Import base list gmap numbers.
From Stdlib Require Import ZArith Lia.
From S2P Require Import Prelude.
From S2P Require Import Vaddr.
From S2P Require Import Bitmap.
From S2P Require Import CString.
From S2P Require Import Interfaces.
From S2P Require Import Palloc.
From S2P Require Import KList.
Import Round Vaddr.

Local Open Scope Z_scope.

(** ** Data *)

Record desc {L : Type} := mk_desc {
  block_size_of : Z;
  blocks_per_arena : Z;
  desc_lock : L
}.
Arguments desc : clear implicits.
Arguments mk_desc {L} _ _ _.

Definition ARENA_MAGIC : Z := 0x9a548eed.

(** [desc] is the owning descriptor, null for a big block. *)
Record arena := mk_arena { magic : Z; owner : option nat; free_cnt : Z }.

Definition sizeof_arena : Z := 12.

(** The static variables of malloc.c, with the pages behind them. *)
Record malloc_state {K L B : Type} := mk_malloc {
  descs : list (desc L);
  desc_cnt : Z;
  arenas : gmap Z arena;
  links : heap;
  pages : palloc_state K L B
}.
Arguments malloc_state : clear implicits.
Arguments mk_malloc {K L B} _ _ _ _ _.

(** The links that the elements [bs] have in memory that nobody has written links to. *)
Definition raw_links (m : mem) (bs : list Z) (h : heap) : heap :=
  foldr (fun b h => <[(b, Prev) := load32 m b]> (<[(b, Next) := load32 m (u32 (b + 4))]> h)) h bs.

Definition lose_links (bs : list Z) (h : heap) : heap :=
  foldr (fun b h => delete (b, Prev) (delete (b, Next) h)) h bs.

Section Malloc.
Context {K L B : Type} `{!LockOps K L, !BitArray B}.
Abbreviation stateT := (malloc_state K L B).
Abbreviation descT := (desc L).

(** The address of the array of descriptors and, in it, of the free list of the [i]-th
    one: a descriptor is two sizes, a list and a lock. *)
Variable descs_at : Z.
Definition sizeof_desc : Z := 48.
Definition free_list (i : nat) : Z := descs_at + sizeof_desc * Z.of_nat i + 8.

Definition put_descs (st : stateT) (ds : list descT) (n : Z) : stateT := mk_malloc ds n (arenas st) (links st) (pages st).
Definition put_arenas (st : stateT) (a : gmap Z arena) : stateT := mk_malloc (descs st) (desc_cnt st) a (links st) (pages st).
Definition put_links (st : stateT) (h : heap) : stateT := mk_malloc (descs st) (desc_cnt st) (arenas st) h (pages st).
Definition put_pages (st : stateT) (p : palloc_state K L B) : stateT := mk_malloc (descs st) (desc_cnt st) (arenas st) (links st) p.

(** Locks are in the kernel state behind the page allocator. *)
Definition acquire (st : stateT) (l : L) : res stateT :=
  k ← lock_acquire l (ksync (pages st)); Ok (put_pages st (put_ksync (pages st) k)).
Definition release (st : stateT) (l : L) : res stateT :=
  k ← lock_release l (ksync (pages st)); Ok (put_pages st (put_ksync (pages st) k)).

(** [descs[i]] and the header of the arena at [a]. *)
Definition get_desc (st : stateT) (i : nat) : res descT :=
  match descs st !! i with Some d => Ok d | None => Err BadAccess end.
Definition get_arena (st : stateT) (a : Z) : res arena :=
  match arenas st !! a with Some r => Ok r | None => Err BadAccess end.
Definition set_arena (st : stateT) (a : Z) (r : arena) : stateT := put_arenas st (<[a := r]> (arenas st)).

(** ** Initialisation *)

Definition malloc_init_step : Z * stateT -> res (Z * stateT + stateT) := fun '(block_size, st) =>
  if block_size <? PGSIZE / 2 then
    let i := desc_cnt st in
    let st := put_descs st (descs st) (u32 (desc_cnt st + 1)) in
    ASSERT (desc_cnt st <=? 10);;
    d ← rd (descs st) i;
    ds ← wr (descs st) i (mk_desc block_size ((PGSIZE - sizeof_arena) / block_size) (desc_lock d));
    let st := put_descs st ds (desc_cnt st) in
    h ← list_init (links st) (free_list (Z.to_nat i));
    let st := put_links st h in
    let st := put_pages st (put_ksync (pages st) (lock_init (desc_lock d) (ksync (pages st)))) in
    Ok (inl (u32 (block_size * 2), st))
  else Ok (inr st).

Definition malloc_init (st : stateT) : res stateT := loop 11 malloc_init_step (16, st).

(** ** Blocks and arenas *)

Definition block_to_arena (st : stateT) (b : Z) : res Z :=
  let a := pg_round_down b in
  ASSERT (negb (a =? NULL));;
  r ← get_arena st a;
  ASSERT (magic r =? ARENA_MAGIC);;
  match owner r with
  | Some i => d ← get_desc st i; ASSERT (u32 (pg_ofs b - sizeof_arena) mod block_size_of d =? 0)
  | None => Ok tt
  end;;
  ASSERT (match owner r with Some _ => true | None => false end || (pg_ofs b =? sizeof_arena));;
  Ok a.

Definition arena_to_block (st : stateT) (a idx : Z) : res Z :=
  ASSERT (negb (a =? NULL));;
  r ← get_arena st a;
  ASSERT (magic r =? ARENA_MAGIC);;
  match owner r with
  | Some i =>
      d ← get_desc st i;
      ASSERT (idx <? blocks_per_arena d);;
      Ok (u32 (a + sizeof_arena + idx * block_size_of d))
  | None => Err BadAccess
  end.

(** ** [malloc] *)

(** The smallest descriptor that satisfies a [size]-byte request, or [desc_cnt]. *)
Definition find_desc (st : stateT) (size : Z) : res nat :=
  loop (S (length (descs st))) (fun i =>
    if Z.of_nat i <? desc_cnt st then
      d ← get_desc st i;
      if size <=? block_size_of d then Ok (inr i) else Ok (inl (S i))
    else Ok (inr i)) 0%nat.

(** A new arena for descriptor [i] whose page is at [a]: its header, and its blocks at the
    end of the free list. *)
Definition new_arena (st : stateT) (i : nat) (d : descT) (a : Z) : res stateT :=
  let st := set_arena st a (mk_arena ARENA_MAGIC (Some i) (blocks_per_arena d)) in
  let bs := (fun k => a + sizeof_arena + k * block_size_of d) <$> seqZ 0 (blocks_per_arena d) in
  let st := put_links st (raw_links (memory (pages st)) bs (links st)) in
  loop (S (Z.to_nat (blocks_per_arena d))) (fun '(k, st) =>
    if k <? blocks_per_arena d then
      b ← arena_to_block st a k;
      h ← list_push_back (links st) (free_list i) b;
      Ok (inl (k + 1, put_links st h))
    else Ok (inr st)) (0, st).

Definition malloc (st : stateT) (size : Z) : res (Z * stateT) :=
  if size =? 0 then Ok (NULL, st) else
  i ← find_desc st size;
  if Z.of_nat i =? desc_cnt st then
    let page_cnt := DIV_ROUND_UP (u32 (size + sizeof_arena)) PGSIZE in
    '(a, p) ← palloc_get_multiple 0 page_cnt (pages st);
    let st := put_pages st p in
    if a =? NULL then Ok (NULL, st) else
    Ok (u32 (a + sizeof_arena), set_arena st a (mk_arena ARENA_MAGIC None page_cnt))
  else
  d ← get_desc st i;
  st ← acquire st (desc_lock d);
  empty ← list_empty (links st) (free_list i);
  '(failed, st) ←
    (if (empty : bool) then
       '(a, p) ← palloc_get_page 0 (pages st);
       let st := put_pages st p in
       if a =? NULL then st ← release st (desc_lock d); Ok (true, st)
       else st ← new_arena st i d a; Ok (false, st)
     else Ok (false, st));
  if (failed : bool) then Ok (NULL, st) else
  '(b, h) ← list_pop_front (links st) (free_list i);
  let st := put_links st h in
  a ← block_to_arena st b;
  r ← get_arena st a;
  let st := set_arena st a (mk_arena (magic r) (owner r) (u32 (free_cnt r - 1))) in
  st ← release st (desc_lock d);
  Ok (b, st).

Definition calloc (st : stateT) (a b : Z) : res (Z * stateT) :=
  let size := u32 (a * b) in
  if (size <? a) || (size <? b) then Ok (NULL, st) else
  '(p, st) ← malloc st size;
  if negb (p =? NULL) then
    m ← memset (memory (pages st)) p 0 size;
    Ok (p, put_pages st (put_memory (pages st) m))
  else Ok (p, st).

(** ** [free] *)

(** All blocks of the arena leave the free list. *)
Definition remove_blocks (st : stateT) (d : descT) (a : Z) : res stateT :=
  loop (S (Z.to_nat (blocks_per_arena d))) (fun '(k, st) =>
    if k <? blocks_per_arena d then
      b ← arena_to_block st a k;
      '(_, h) ← list_remove (links st) b;
      Ok (inl (k + 1, put_links st h))
    else Ok (inr st)) (0, st).

(** The arena page goes back to the page allocator, with what it holds. *)
Definition free_arena (st : stateT) (d : descT) (a : Z) : res stateT :=
  p ← palloc_free_page a (pages st);
  let bs := (fun k => a + sizeof_arena + k * block_size_of d) <$> seqZ 0 (blocks_per_arena d) in
  Ok (mk_malloc (descs st) (desc_cnt st) (delete a (arenas st)) (lose_links bs (links st)) p).

Definition free (st : stateT) (p : Z) : res stateT :=
  if p =? NULL then Ok st else
  a ← block_to_arena st p;
  r ← get_arena st a;
  match owner r with
  | Some i =>
      d ← get_desc st i;
      m ← memset (memory (pages st)) p 0xcc (block_size_of d);
      let st := put_pages st (put_memory (pages st) m) in
      let st := put_links st (raw_links m [p] (links st)) in
      st ← acquire st (desc_lock d);
      h ← list_push_front (links st) (free_list i) p;
      let st := put_links st h in
      r ← get_arena st a;
      let cnt := u32 (free_cnt r + 1) in
      let st := set_arena st a (mk_arena (magic r) (owner r) cnt) in
      st ←
        (if blocks_per_arena d <=? cnt then
           ASSERT (cnt =? blocks_per_arena d);;
           st ← remove_blocks st d a;
           free_arena st d a
         else Ok st);
      release st (desc_lock d)
  | None =>
      p ← palloc_free_multiple a (free_cnt r) (pages st);
      Ok (put_pages (put_arenas st (delete a (arenas st))) p)
  end.

(** ** [realloc] *)

Definition block_size (st : stateT) (block : Z) : res Z :=
  a ← block_to_arena st block;
  r ← get_arena st a;
  match owner r with
  | Some i => d ← get_desc st i; Ok (block_size_of d)
  | None => Ok (u32 (PGSIZE * free_cnt r - pg_ofs block))
  end.

Definition realloc (st : stateT) (old_block new_size : Z) : res (Z * stateT) :=
  if new_size =? 0 then
    st ← free st old_block;
    Ok (NULL, st)
  else
    '(new_block, st) ← malloc st new_size;
    if negb (old_block =? NULL) && negb (new_block =? NULL) then
      old_size ← block_size st old_block;
      let min_size := if new_size <? old_size then new_size else old_size in
      m ← memcpy (memory (pages st)) new_block old_block min_size;
      st ← free (put_pages st (put_memory (pages st) m)) old_block;
      Ok (new_block, st)
    else Ok (new_block, st).
End Malloc.
