(* ===== verification/MallocSpec.v ===== *)
(** * The block allocator: correctness

    The invariant of the arenas and free lists of threads/malloc.c, and that [malloc] and
    [free] keep it: the blocks in use never overlap, a block is at least as large as the
    request, and memory is handed back to the page allocator exactly when an arena is
    empty.  The allocator is then an instance of [BlockOps]. *)

From stdpp Require Import base list gmap numbers.
From Stdlib Require Import ZArith Lia.
From S2P Require Import Prelude.
From S2P Require Import Vaddr.
From S2P Require Import Bitmap.
From S2P Require Import CString.
From S2P Require Import Interfaces.
From S2P Require Import Palloc.
From S2P Require Import KList.
From S2P Require Import KLists.
From S2P Require Import Malloc.
Import Round Vaddr.

Local Open Scope Z_scope.

(** ** Geometry of an arena *)

(** The block size of descriptor [i], the number of blocks in its arenas, and the address
    of the [k]-th block of an arena at [a]. *)
Definition bsz (i : nat) : Z := 16 * 2 ^ Z.of_nat i.
Definition bpa (i : nat) : Z := (PGSIZE - sizeof_arena) / bsz i.
Definition slot (a : Z) (i : nat) (k : Z) : Z := a + sizeof_arena + k * bsz i.

Ltac geometry := unfold slot, bpa, sizeof_arena, bsz in *; change PGSIZE with 4096 in *; simpl in *; lia.

(** Case analysis on the seven descriptors. *)
Lemma desc_cases (P : nat -> Prop) : P 0%nat -> P 1%nat -> P 2%nat -> P 3%nat -> P 4%nat -> P 5%nat -> P 6%nat ->
  forall i, (i < 7)%nat -> P i.
Proof. intros ??????? i Hi. do 7 (destruct i as [|i]; [done|]). lia. Qed.

Lemma bsz_range i : (i < 7)%nat -> 16 <= bsz i <= 1024 /\ bsz i mod 4 = 0.
Proof. revert i. apply desc_cases; split; [geometry|reflexivity|geometry|reflexivity|geometry|reflexivity|geometry|reflexivity|geometry|reflexivity|geometry|reflexivity|geometry|reflexivity]. Qed.

Lemma bpa_range i : (i < 7)%nat -> 3 <= bpa i <= 255 /\ bpa i * bsz i <= 4080.
Proof. revert i. apply desc_cases; vm_compute; intuition discriminate. Qed.

Lemma slot_range a i k : (i < 7)%nat -> 0 <= k < bpa i -> a + 12 <= slot a i k /\ slot a i k + bsz i < a + 4096.
Proof.
  intros Hi Hk. destruct (bsz_range i Hi), (bpa_range i Hi). unfold slot, sizeof_arena. nia.
Qed.

Lemma slots_apart a i k k' : (i < 7)%nat -> k <> k' -> slot a i k + bsz i <= slot a i k' \/ slot a i k' + bsz i <= slot a i k.
Proof. intros Hi Hk. destruct (bsz_range i Hi). unfold slot. nia. Qed.

Lemma slot_inj a i k k' : (i < 7)%nat -> slot a i k = slot a i k' -> k = k'.
Proof. intros Hi E. destruct (bsz_range i Hi). unfold slot in E. nia. Qed.

(** A page address. *)
Definition page (a : Z) : Prop := pg_ofs a = 0 /\ 0 < a /\ a + 4096 <= 2 ^ 32.

Lemma page_of a o : page a -> 0 <= o < 4096 -> pg_round_down (a + o) = a /\ pg_ofs (a + o) = o.
Proof.
  intros (Ho & Hp & He) Hr. rewrite pg_round_down_div by (unfold in_u32; lia). rewrite pg_ofs_mod in *. change PGSIZE with 4096 in *.
  pose proof (Z.div_mod a 4096 ltac:(lia)). split.
  - replace (a + o) with (o + a / 4096 * 4096) at 1 by lia. rewrite Z.div_add, Z.div_small by lia. lia.
  - replace (a + o) with (o + a / 4096 * 4096) by lia. rewrite Z.mod_add, Z.mod_small by lia. done.
Qed.

Lemma page_slot a i k : page a -> (i < 7)%nat -> 0 <= k < bpa i ->
  pg_round_down (slot a i k) = a /\ pg_ofs (slot a i k) = sizeof_arena + k * bsz i.
Proof.
  intros Ha Hi Hk. pose proof (slot_range a i k Hi Hk). pose proof (bsz_range i Hi).
  replace (slot a i k) with (a + (sizeof_arena + k * bsz i)) by (unfold slot; lia).
  apply page_of; [done|]. unfold slot, sizeof_arena in *. nia.
Qed.

(** Two pages are the same or do not overlap. *)
Lemma pages_apart a a' : page a -> page a' -> a <> a' -> a + 4096 <= a' \/ a' + 4096 <= a.
Proof.
  intros (H1 & ? & ?) (H2 & ? & ?) Hne. rewrite pg_ofs_mod in *. change PGSIZE with 4096 in *.
  pose proof (Z.div_mod a 4096). pose proof (Z.div_mod a' 4096). lia.
Qed.

Lemma slot_page a i k a' i' k' : page a -> page a' -> (i < 7)%nat -> (i' < 7)%nat -> 0 <= k < bpa i -> 0 <= k' < bpa i' ->
  slot a i k = slot a' i' k' -> a = a'.
Proof.
  intros Ha Ha' Hi Hi' Hk Hk' E. destruct (page_slot a i k Ha Hi Hk) as [<- _], (page_slot a' i' k' Ha' Hi' Hk') as [<- _]. by rewrite E.
Qed.

(** ** Counting *)

Section Counting.
Context (P Q : Z -> Prop) `{!forall x, Decision (P x), !forall x, Decision (Q x)}.
Implicit Types (l : list Z) (k : Z).

Lemma filter_same l : (forall x, x ∈ l -> P x <-> Q x) -> filter P l = filter Q l.
Proof.
  induction l as [|x l IH]; intros HPQ; [done|]. rewrite !filter_cons, (IH ltac:(set_solver)).
  destruct (HPQ x ltac:(set_solver)) as [H1 H2]. repeat case_decide; tauto || done.
Qed.

(** Adding one member to a predicate adds one element to the filtered list. *)
Lemma filter_add l k : NoDup l -> k ∈ l -> ~ P k -> (forall x, x ∈ l -> Q x <-> x = k \/ P x) ->
  length (filter Q l) = S (length (filter P l)).
Proof.
  induction l as [|x l IH]; intros Hnd Hk HP HQ; [by apply not_elem_of_nil in Hk|].
  apply list.NoDup_cons in Hnd as [Hx Hnd]. pose proof (HQ x ltac:(set_solver)) as HQx. rewrite !filter_cons.
  destruct (decide (x = k)) as [->|Hne].
  - rewrite (decide_True (P := Q k)) by tauto. rewrite (decide_False (P := P k)) by done. simpl. f_equal.
    f_equal. symmetry. apply filter_same. intros y Hy. rewrite HQ by set_solver. split; [tauto|]. intros [->|]; done.
  - assert (k ∈ l) by set_solver. specialize (IH Hnd ltac:(done) HP ltac:(set_solver)).
    repeat case_decide; simpl; tauto || congruence.
Qed.

(** A filtered list that has kept every element. *)
Lemma filter_all l : length (filter P l) = length l -> forall x, x ∈ l -> P x.
Proof.
  intros Hl x Hx. destruct (decide (P x)) as [|Hn]; [done|]. pose proof (length_filter_lt P l x Hx Hn). lia.
Qed.

Lemma filter_id l : (forall x, x ∈ l -> P x) -> filter P l = l.
Proof.
  induction l as [|x l IH]; intros HP; [done|]. rewrite filter_cons_True by (apply HP; left). f_equal. apply IH. intros y Hy. apply HP. by right.
Qed.
End Counting.

(** ** The invariant of arenas and free lists *)

Definition npages (r : arena) : Z := match owner r with Some _ => 1 | None => free_cnt r end.

(** The free blocks of the arena at [a], by index. *)
Definition free_slots (es : list Z) (a : Z) (i : nat) : list Z := filter (fun k => slot a i k ∈ es) (seqZ 0 (bpa i)).

Section Arenas.
Variable descs_at : Z.
Implicit Types (ar : gmap Z arena) (h : heap) (fls : list (list Z)) (blk : gmap Z Z) (es : list Z) (a b k : Z) (i : nat).

(** [a] is an arena of descriptor [i] with [c] free blocks. *)
Definition small ar (a : Z) (i : nat) (c : Z) : Prop := ar !! a = Some (mk_arena ARENA_MAGIC (Some i) c).
(** [a] is the header of a big block of [n] pages. *)
Definition big ar (a n : Z) : Prop := ar !! a = Some (mk_arena ARENA_MAGIC None n).

(** The free lists hold exactly the free blocks of the arenas; every other block is in
    use, with the size of its descriptor; a header counts its arena's free blocks.  An
    arena has a block in use, except possibly the one at [x], which an operation is about
    to take a block from or to give back. *)
Record arenas_ok ar h fls blk (x : Z) : Prop := {
  ao_arena : forall a r, ar !! a = Some r -> page a /\ ((exists i, (i < 7)%nat /\ small ar a i (free_cnt r)) \/
    (0 < free_cnt r /\ a + 4096 * free_cnt r < 2 ^ 32 /\ big ar a (free_cnt r)));
  ao_apart : forall a r a' r', ar !! a = Some r -> ar !! a' = Some r' -> a <> a' ->
    a + 4096 * npages r <= a' \/ a' + 4096 * npages r' <= a;
  ao_len : length fls = 7%nat;
  ao_lists : lists h (free_list descs_at) fls;
  ao_free : forall i es b, fls !! i = Some es -> b ∈ es -> exists a c k, small ar a i c /\ 0 <= k < bpa i /\ b = slot a i k;
  ao_slot : forall a i c k es, small ar a i c -> 0 <= k < bpa i -> fls !! i = Some es ->
    (slot a i k ∈ es /\ blk !! slot a i k = None) \/ ((slot a i k ∉ es) /\ blk !! slot a i k = Some (bsz i));
  ao_big : forall a n, big ar a n -> blk !! (a + sizeof_arena) = Some (4096 * n - sizeof_arena);
  ao_blk : forall b sz, blk !! b = Some sz -> (exists a i c k, small ar a i c /\ 0 <= k < bpa i /\ b = slot a i k) \/
    (exists a n, big ar a n /\ b = a + sizeof_arena);
  ao_cnt : forall a i c es, small ar a i c -> fls !! i = Some es -> c = Z.of_nat (length (free_slots es a i));
  ao_some : forall a i c, small ar a i c -> a <> x -> c < bpa i;
  ao_cells : forall a i c k, small ar a i c -> 0 <= k < bpa i -> allocated h (slot a i k)
}.

Lemma small_big ar a i c n : small ar a i c -> big ar a n -> False.
Proof. unfold small, big. congruence. Qed.

Lemma small_fun ar a i c i' c' : small ar a i c -> small ar a i' c' -> i' = i /\ c' = c.
Proof. unfold small. intros H1 H2. rewrite H1 in H2. by simplify_eq. Qed.

Section Facts.
Context {ar h fls blk x} (Hok : arenas_ok ar h fls blk x).

Lemma small_ok a i c : small ar a i c -> (i < 7)%nat /\ page a.
Proof.
  intros Hs. destruct (ao_arena _ _ _ _ _ Hok a _ Hs) as [Hp [(j & Hj & H')|(_ & _ & H')]]; [|by destruct (small_big ar a i c (free_cnt (mk_arena ARENA_MAGIC (Some i) c)))].
  destruct (small_fun _ _ _ _ _ _ Hs H') as [-> _]. done.
Qed.

Lemma big_ok a n : big ar a n -> page a /\ 0 < n /\ a + 4096 * n < 2 ^ 32.
Proof.
  intros Hb. destruct (ao_arena _ _ _ _ _ Hok a _ Hb) as [Hp [(j & Hj & H')|(Hn & He & _)]]; [|done].
  by destruct (small_big ar a j _ n H').
Qed.

Lemma free_list_at i : (i < 7)%nat -> exists es, fls !! i = Some es.
Proof. intros Hi. apply lookup_lt_is_Some_2. by rewrite (ao_len _ _ _ _ _ Hok). Qed.

(** Where a block in use lies: in the pages of an arena, behind the header. *)
Lemma block_place b sz : blk !! b = Some sz -> exists a r, ar !! a = Some r /\ page a /\ a + sizeof_arena <= b /\ b + sz <= a + 4096 * npages r /\ 0 < sz.
Proof.
  intros Hb. destruct (ao_blk _ _ _ _ _ Hok b sz Hb) as [(a & i & c & k & Hs & Hk & ->)|(a & n & Hg & ->)].
  - destruct (small_ok a i c Hs) as [Hi Hp]. destruct (free_list_at i Hi) as [es Hes].
    destruct (ao_slot _ _ _ _ _ Hok a i c k es Hs Hk Hes) as [[_ E]|[_ E]]; rewrite E in Hb; simplify_eq.
    exists a. eexists. split; [exact Hs|]. split; [done|]. pose proof (slot_range a i k Hi Hk). pose proof (bsz_range i Hi).
    unfold npages, sizeof_arena. simpl. lia.
  - rewrite (ao_big _ _ _ _ _ Hok a n Hg) in Hb. simplify_eq. destruct (big_ok a n Hg) as (Hp & Hn & _).
    exists a. eexists. split; [exact Hg|]. split; [done|]. unfold npages, sizeof_arena. simpl. lia.
Qed.

(** A block of an arena overlaps no other block in use. *)
Lemma slot_fresh a i c k b sz : small ar a i c -> 0 <= k < bpa i -> blk !! b = Some sz -> b <> slot a i k ->
  slot a i k + bsz i <= b \/ b + sz <= slot a i k.
Proof.
  intros Hs Hk Hb Hne. destruct (small_ok a i c Hs) as [Hi Hp]. pose proof (slot_range a i k Hi Hk) as Hr.
  destruct (ao_blk _ _ _ _ _ Hok b sz Hb) as [(a' & i' & c' & k' & Hs' & Hk' & ->)|(a' & n & Hg & ->)].
  - destruct (small_ok a' i' c' Hs') as [Hi' Hp']. pose proof (slot_range a' i' k' Hi' Hk').
    destruct (free_list_at i' Hi') as [es Hes].
    destruct (ao_slot _ _ _ _ _ Hok a' i' c' k' es Hs' Hk' Hes) as [[_ E]|[_ E]]; rewrite E in Hb; simplify_eq.
    destruct (decide (a = a')) as [<-|Ha].
    + destruct (small_fun _ _ _ _ _ _ Hs Hs') as [-> ->]. apply slots_apart; [done|]. intros ->. done.
    + destruct (pages_apart a a' Hp Hp' Ha); lia.
  - rewrite (ao_big _ _ _ _ _ Hok a' n Hg) in Hb. simplify_eq. destruct (big_ok a' n Hg) as (Hp' & Hn & _).
    assert (Ha : a <> a') by (intros ->; by eapply small_big).
    pose proof (ao_apart _ _ _ _ _ Hok a _ a' _ Hs Hg Ha) as Hap. unfold npages in Hap. simpl in Hap. unfold sizeof_arena. lia.
Qed.

(** Pages that belong to no arena hold no block in use. *)
Lemma page_fresh a n b sz : (forall a' r, ar !! a' = Some r -> a + 4096 * n <= a' \/ a' + 4096 * npages r <= a) ->
  blk !! b = Some sz -> a + 4096 * n <= b \/ b + sz <= a.
Proof.
  intros Hd Hb. destruct (block_place b sz Hb) as (a' & r & Hr & _ & H1 & H2 & _). destruct (Hd a' r Hr); unfold sizeof_arena in *; lia.
Qed.

(** Two descriptors never share a block: the same address is the same block. *)
Lemma slot_same a i c k a' i' c' k' : small ar a i c -> small ar a' i' c' -> 0 <= k < bpa i -> 0 <= k' < bpa i' ->
  slot a i k = slot a' i' k' -> a' = a /\ i' = i /\ k' = k.
Proof.
  intros Hs Hs' Hk Hk' E. destruct (small_ok a i c Hs) as [Hi Hp], (small_ok a' i' c' Hs') as [Hi' Hp'].
  assert (a = a') as <- by (by eapply (slot_page a i k a' i' k')). destruct (small_fun _ _ _ _ _ _ Hs Hs') as [-> ->].
  split; [done|]. split; [done|]. symmetry. by eapply slot_inj.
Qed.
End Facts.

(** ** Taking and giving back a block *)

(** [es'] is the free list [es] with or without the block [b], and [c'] and [blk'] the
    count and the blocks in use that go with it. *)
Definition moved (b : Z) (i : nat) es es' (c c' : Z) blk blk' : Prop :=
  (forall y, y <> b -> y ∈ es' <-> y ∈ es) /\
  ((b ∈ es /\ (b ∉ es') /\ c' = c - 1 /\ blk' = <[b := bsz i]> blk) \/
   ((b ∉ es) /\ b ∈ es' /\ c' = c + 1 /\ blk' = delete b blk)).

Lemma moved_other b i es es' c c' blk blk' y : moved b i es es' c c' blk blk' -> y <> b -> blk' !! y = blk !! y.
Proof. intros [_ [(_ & _ & _ & ->)|(_ & _ & _ & ->)]] Hy; [by rewrite lookup_insert_ne|by rewrite lookup_delete_ne]. Qed.

Lemma moved_at b i es es' c c' blk blk' : moved b i es es' c c' blk blk' ->
  (b ∈ es' /\ blk' !! b = None) \/ ((b ∉ es') /\ blk' !! b = Some (bsz i)).
Proof. intros [_ [(_ & ? & _ & ->)|(_ & ? & _ & ->)]]; [right; by rewrite lookup_insert_eq|left; by rewrite lookup_delete_eq]. Qed.

Lemma moved_count a i k es es' c c' blk blk' : (i < 7)%nat -> 0 <= k < bpa i -> moved (slot a i k) i es es' c c' blk blk' ->
  c = Z.of_nat (length (free_slots es a i)) -> c' = Z.of_nat (length (free_slots es' a i)).
Proof.
  intros Hi Hk [Hy Hm] ->.
  assert (Hk' : k ∈ seqZ 0 (bpa i)) by (apply elem_of_seqZ; lia).
  assert (Hyk : forall k', k' <> k -> slot a i k' ∈ es' <-> slot a i k' ∈ es).
  { intros k' Hne. apply Hy. intros E. by apply Hne, (slot_inj a i k' k Hi). }
  destruct Hm as [(Hin & Hni & -> & _)|(Hni & Hin & -> & _)]; unfold free_slots.
  - rewrite (filter_add (fun k => slot a i k ∈ es') (fun k => slot a i k ∈ es) _ k (NoDup_seqZ _ _) Hk' Hni); [lia|].
    intros k' _. destruct (decide (k' = k)) as [->|Hne]; [tauto|]. rewrite Hyk by done. tauto.
  - rewrite (filter_add (fun k => slot a i k ∈ es) (fun k => slot a i k ∈ es') _ k (NoDup_seqZ _ _) Hk' Hni); [lia|].
    intros k' _. destruct (decide (k' = k)) as [->|Hne]; [tauto|]. rewrite Hyk by done. tauto.
Qed.

(** One block of an arena changes hands. *)
Lemma arenas_update ar h fls blk x a i c k es es' c' blk' h' x' :
  arenas_ok ar h fls blk x -> small ar a i c -> 0 <= k < bpa i -> fls !! i = Some es ->
  lists h' (free_list descs_at) (<[i := es']> fls) -> dom h' = dom h -> moved (slot a i k) i es es' c c' blk blk' ->
  (forall a0, page a0 -> a0 <> a -> a0 <> x' -> a0 <> x) -> (a <> x' -> c' < bpa i) ->
  arenas_ok (<[a := mk_arena ARENA_MAGIC (Some i) c']> ar) h' (<[i := es']> fls) blk' x'.
Proof.
  intros Hok Hs Hk Hes Hl Hd Hm Hx Hc'. destruct (small_ok Hok a i c Hs) as [Hi Hp].
  assert (Hlt : (i < length fls)%nat) by (by eapply lookup_lt_Some).
  set (ar' := <[a := mk_arena ARENA_MAGIC (Some i) c']> ar).
  assert (Hsmall : forall a0 i0 c0, small ar' a0 i0 c0 -> (a0 = a /\ i0 = i /\ c0 = c') \/ (a0 <> a /\ small ar a0 i0 c0)).
  { intros a0 i0 c0 [[<- E]|[Hne H]]%lookup_insert_Some; [left; by simplify_eq|right; split; [congruence|done]]. }
  assert (Hsmall' : forall a0 i0 c0, small ar a0 i0 c0 -> exists c1, small ar' a0 i0 c1).
  { intros a0 i0 c0 H0. destruct (decide (a0 = a)) as [->|Hne].
    - destruct (small_fun _ _ _ _ _ _ Hs H0) as [-> ->]. exists c'. apply lookup_insert_eq.
    - exists c0. unfold small, ar'. by rewrite lookup_insert_ne. }
  assert (Hbig : forall a0 n, big ar' a0 n <-> big ar a0 n).
  { intros a0 n. unfold big, ar'. destruct (decide (a0 = a)) as [->|Hne]; [|by rewrite lookup_insert_ne].
    rewrite lookup_insert_eq. split; [done|]. intros H0. by destruct (small_big ar a i c n Hs). }
  assert (Hfls : forall i0 es0, <[i := es']> fls !! i0 = Some es0 -> (i0 = i /\ es0 = es') \/ (i0 <> i /\ fls !! i0 = Some es0)).
  { intros i0 es0 [(<- & <- & _)|[Hne H0]]%list_lookup_insert_Some; [by left|right; split; [congruence|done]]. }
  split.
  - intros a0 r [[<- <-]|[Hne H0]]%lookup_insert_Some.
    + split; [done|]. left. exists i. split; [done|]. apply lookup_insert_eq.
    + destruct (ao_arena _ _ _ _ _ Hok a0 r H0) as [Hp0 [(j & Hj & Hsj)|(H1 & H2 & H3)]]; (split; [done|]).
      * left. exists j. split; [done|]. unfold small, ar'. by rewrite lookup_insert_ne.
      * right. split; [done|]. split; [done|]. by apply Hbig.
  - assert (Hnp : forall a0 r, ar' !! a0 = Some r -> exists r0, ar !! a0 = Some r0 /\ npages r0 = npages r).
    { intros a0 r [[<- <-]|[Hne H0]]%lookup_insert_Some; [eexists; split; [exact Hs|done]|eauto]. }
    intros a0 r a1 r1 H0 H1 Hne. destruct (Hnp _ _ H0) as (q0 & Hq0 & <-), (Hnp _ _ H1) as (q1 & Hq1 & <-).
    by apply (ao_apart _ _ _ _ _ Hok).
  - rewrite length_insert. apply (ao_len _ _ _ _ _ Hok).
  - done.
  - intros i0 es0 b [[-> ->]|[Hne H0]]%Hfls Hb.
    + destruct (decide (b = slot a i k)) as [->|Hbne]; [exists a, c', k; split; [apply lookup_insert_eq|done]|].
      apply (proj1 Hm) in Hb; [|done]. destruct (ao_free _ _ _ _ _ Hok i es b Hes Hb) as (a0 & c0 & k0 & H0 & Hk0 & ->).
      destruct (Hsmall' _ _ _ H0) as [c1 H1]. eauto 6.
    + destruct (ao_free _ _ _ _ _ Hok i0 es0 b H0 Hb) as (a0 & c0 & k0 & H1 & Hk0 & ->).
      destruct (Hsmall' _ _ _ H1) as [c1 H2]. eauto 6.
  - intros a0 i0 c0 k0 es0 H0 Hk0 He0.
    assert (exists c1, small ar a0 i0 c1) as [c1 H1] by (destruct (Hsmall _ _ _ H0) as [(-> & -> & _)|[_ ?]]; eauto).
    destruct (decide (slot a0 i0 k0 = slot a i k)) as [E|Hne].
    + destruct (slot_same Hok a i c k a0 i0 c1 k0 Hs H1 Hk Hk0 (eq_sym E)) as (-> & -> & ->).
      destruct (Hfls _ _ He0) as [[_ ->]|[? _]]; [|done]. by apply (moved_at _ _ _ _ _ _ _ _ Hm).
    + rewrite (moved_other _ _ _ _ _ _ _ _ _ Hm Hne). destruct (Hfls _ _ He0) as [[-> ->]|[_ He1]].
      * rewrite (proj1 Hm) by done. by apply (ao_slot _ _ _ _ _ Hok a0 i c1 k0 es).
      * by apply (ao_slot _ _ _ _ _ Hok a0 i0 c1 k0 es0).
  - intros a0 n Hg%Hbig. rewrite (moved_other _ _ _ _ _ _ _ _ _ Hm); [by apply (ao_big _ _ _ _ _ Hok)|]. intros E.
    destruct (big_ok Hok a0 n Hg) as (Hp0 & _). pose proof (slot_range a i k Hi Hk). pose proof (bsz_range i Hi).
    assert (a0 <> a) by (intros ->; by eapply small_big). destruct (pages_apart a a0 Hp Hp0 ltac:(done)); unfold sizeof_arena in *; lia.
  - intros b sz Hb. destruct (decide (b = slot a i k)) as [->|Hne].
    + left. exists a, i, c', k. split; [apply lookup_insert_eq|done].
    + rewrite (moved_other _ _ _ _ _ _ _ _ _ Hm Hne) in Hb.
      destruct (ao_blk _ _ _ _ _ Hok b sz Hb) as [(a0 & i0 & c0 & k0 & H0 & Hk0 & ->)|(a0 & n & Hg & ->)].
      * left. destruct (Hsmall' _ _ _ H0) as [c1 H1]. eauto 8.
      * right. exists a0, n. split; [by apply Hbig|done].
  - intros a0 i0 c0 es0 [(-> & -> & ->)|[Hne H0]]%Hsmall He0.
    + destruct (Hfls _ _ He0) as [[_ ->]|[? _]]; [|done]. eapply (moved_count a i k es es' c c'); try done. by apply (ao_cnt _ _ _ _ _ Hok a i).
    + destruct (Hfls _ _ He0) as [[-> ->]|[_ He1]]; [|by apply (ao_cnt _ _ _ _ _ Hok a0 i0)].
      rewrite (ao_cnt _ _ _ _ _ Hok a0 i c0 es H0 Hes). unfold free_slots. do 2 f_equal. apply filter_same.
      intros k0 Hk0%elem_of_seqZ. symmetry. apply (proj1 Hm). intros E.
      by destruct (slot_same Hok a i c k a0 i c0 k0 Hs H0 Hk ltac:(lia) (eq_sym E)) as (-> & _).
  - intros a0 i0 c0 [(-> & -> & ->)|[Hne H0]]%Hsmall Hx0; [by apply Hc'|]. apply (ao_some _ _ _ _ _ Hok a0 i0 c0 H0).
    apply Hx; [by eapply (small_ok Hok a0 i0 c0)|done..].
  - intros a0 i0 c0 k0 H0 Hk0. assert (exists c1, small ar a0 i0 c1) as [c1 H1] by (destruct (Hsmall _ _ _ H0) as [(-> & -> & _)|[_ ?]]; eauto).
    eapply allocated_dom; [exact Hd|]. by apply (ao_cells _ _ _ _ _ Hok a0 i0 c1).
Qed.

(** ** Adding and removing arenas *)

(** The [n] pages at [a] belong to no arena. *)
Definition unused ar a (n : Z) : Prop :=
  forall a' r, ar !! a' = Some r -> a + 4096 * n <= a' \/ a' + 4096 * npages r <= a.

Definition slots a i : list Z := slot a i <$> seqZ 0 (bpa i).

Lemma elem_slots a i b : b ∈ slots a i <-> exists k, 0 <= k < bpa i /\ b = slot a i k.
Proof.
  unfold slots. rewrite list_elem_of_fmap. setoid_rewrite elem_of_seqZ. split; intros (k & H1 & H2); exists k; split; lia || done.
Qed.

Lemma npages_pos ar h fls blk x a r : arenas_ok ar h fls blk x -> ar !! a = Some r -> 0 < npages r /\ page a.
Proof.
  intros Hok Hr. destruct (ao_arena _ _ _ _ _ Hok a r Hr) as [Hp [(i & _ & Hs)|(Hn & _ & Hb)]];
    [unfold small in Hs; rewrite Hr in Hs|unfold big in Hb; rewrite Hr in Hb]; simplify_eq; split; try done;
    unfold npages; destruct r; simplify_eq/=; rewrite ?H; lia || congruence.
Qed.

Lemma unused_none ar h fls blk x a n : arenas_ok ar h fls blk x -> 0 < n -> unused ar a n -> ar !! a = None.
Proof.
  intros Hok Hn Hu. destruct (ar !! a) as [r|] eqn:E; [|done]. destruct (npages_pos _ _ _ _ _ _ _ Hok E). destruct (Hu a r E); lia.
Qed.

(** A new entry for unused pages: what does not concern them stays. *)
Section Add.
Context {ar h fls blk x} (Hok : arenas_ok ar h fls blk x) (a : Z) (r0 : arena).
Hypothesis (Hn : 0 < npages r0) (Hu : unused ar a (npages r0)) (Hp : page a).

Lemma add_small a0 i c : small (<[a := r0]> ar) a0 i c -> (a0 = a /\ r0 = mk_arena ARENA_MAGIC (Some i) c) \/ (a0 <> a /\ small ar a0 i c).
Proof. intros [[<- E]|[Hne E]]%lookup_insert_Some; [by left|right; split; [congruence|done]]. Qed.

Lemma add_big a0 n : big (<[a := r0]> ar) a0 n -> (a0 = a /\ r0 = mk_arena ARENA_MAGIC None n) \/ (a0 <> a /\ big ar a0 n).
Proof. intros [[<- E]|[Hne E]]%lookup_insert_Some; [by left|right; split; [congruence|done]]. Qed.

Lemma add_old a0 r : ar !! a0 = Some r -> <[a := r0]> ar !! a0 = Some r.
Proof. intros H0. rewrite lookup_insert_ne; [done|]. intros ->. by rewrite (unused_none _ _ _ _ _ _ _ Hok Hn Hu) in H0. Qed.

Lemma add_arena : (exists i, (i < 7)%nat /\ small (<[a := r0]> ar) a i (free_cnt r0)) \/
    (0 < free_cnt r0 /\ a + 4096 * free_cnt r0 < 2 ^ 32 /\ big (<[a := r0]> ar) a (free_cnt r0)) ->
  forall a0 r, <[a := r0]> ar !! a0 = Some r -> page a0 /\ ((exists i, (i < 7)%nat /\ small (<[a := r0]> ar) a0 i (free_cnt r)) \/
    (0 < free_cnt r /\ a0 + 4096 * free_cnt r < 2 ^ 32 /\ big (<[a := r0]> ar) a0 (free_cnt r))).
Proof.
  intros H0 a0 r [[<- <-]|[Hne Hr]]%lookup_insert_Some; [done|].
  destruct (ao_arena _ _ _ _ _ Hok a0 r Hr) as [Hp0 [(i & Hi & Hs)|(H1 & H2 & H3)]]; (split; [done|]).
  - left. exists i. split; [done|]. by apply add_old.
  - right. split; [done|]. split; [done|]. by apply add_old.
Qed.

Lemma add_apart a0 r a1 r1 : <[a := r0]> ar !! a0 = Some r -> <[a := r0]> ar !! a1 = Some r1 -> a0 <> a1 ->
  a0 + 4096 * npages r <= a1 \/ a1 + 4096 * npages r1 <= a0.
Proof.
  intros [[<- <-]|[Hne H0]]%lookup_insert_Some [[<- <-]|[Hne1 H1]]%lookup_insert_Some Hd; [done|by apply Hu| |by apply (ao_apart _ _ _ _ _ Hok)].
  destruct (Hu a0 r H0); lia.
Qed.
End Add.

Lemma arenas_add_big ar h fls blk x a n : arenas_ok ar h fls blk x -> page a -> 0 < n -> a + 4096 * n < 2 ^ 32 -> unused ar a n ->
  arenas_ok (<[a := mk_arena ARENA_MAGIC None n]> ar) h fls (<[a + sizeof_arena := 4096 * n - sizeof_arena]> blk) x.
Proof.
  intros Hok Hp Hn He Hu. set (r0 := mk_arena ARENA_MAGIC None n).
  assert (Hother : forall b sz, blk !! b = Some sz -> b <> a + sizeof_arena).
  { intros b sz Hb ->. destruct (block_place Hok _ _ Hb) as (_ & _ & _ & _ & _ & _ & Hsz).
    destruct (page_fresh Hok a n _ sz Hu Hb); unfold sizeof_arena in *; lia. }
  assert (Hslot : forall a0 i c k, small ar a0 i c -> 0 <= k < bpa i -> slot a0 i k <> a + sizeof_arena).
  { intros a0 i c k Hs Hk E. destruct (small_ok Hok a0 i c Hs) as [Hi _]. pose proof (slot_range a0 i k Hi Hk). pose proof (bsz_range i Hi).
    destruct (Hu a0 _ Hs) as [|H1]; unfold npages, sizeof_arena in *; simpl in *; lia. }
  split.
  - apply (add_arena Hok a r0 Hn Hu Hp). right. split; [done|]. split; [done|]. apply lookup_insert_eq.
  - by apply (add_apart Hok).
  - apply (ao_len _ _ _ _ _ Hok).
  - apply (ao_lists _ _ _ _ _ Hok).
  - intros i es b Hes Hb. destruct (ao_free _ _ _ _ _ Hok i es b Hes Hb) as (a0 & c & k & Hs & Hk & ->).
    exists a0, c, k. split; [by apply (add_old Hok)|done].
  - intros a0 i c k es [[_ ?]|[Hne Hs]]%add_small Hk Hes; [done|]. rewrite lookup_insert_ne by (symmetry; by eapply Hslot).
    by apply (ao_slot _ _ _ _ _ Hok a0 i c).
  - intros a0 m [[-> E]|[Hne Hb]]%add_big; [simplify_eq; apply lookup_insert_eq|]. rewrite lookup_insert_ne by (unfold sizeof_arena; lia).
    by apply (ao_big _ _ _ _ _ Hok).
  - intros b sz [[<- <-]|[Hne Hb]]%lookup_insert_Some; [right; exists a, n; split; [apply lookup_insert_eq|done]|].
    destruct (ao_blk _ _ _ _ _ Hok b sz Hb) as [(a0 & i & c & k & Hs & Hk & ->)|(a0 & m & Hg & ->)].
    + left. exists a0, i, c, k. split; [by apply (add_old Hok)|done].
    + right. exists a0, m. split; [by apply (add_old Hok)|done].
  - intros a0 i c es [[_ ?]|[Hne Hs]]%add_small; [done|]. by apply (ao_cnt _ _ _ _ _ Hok).
  - intros a0 i c [[_ ?]|[Hne Hs]]%add_small; [done|]. by apply (ao_some _ _ _ _ _ Hok).
  - intros a0 i c k [[_ ?]|[Hne Hs]]%add_small; [done|]. by apply (ao_cells _ _ _ _ _ Hok a0 i c).
Qed.

Lemma free_slots_all es a i : (forall k, 0 <= k < bpa i -> slot a i k ∈ es) -> Z.of_nat (length (free_slots es a i)) = Z.max 0 (bpa i).
Proof.
  intros Hall. unfold free_slots. rewrite filter_id; [rewrite length_seqZ; lia|]. intros k Hk%elem_of_seqZ. apply Hall. lia.
Qed.

Lemma arenas_add_small ar h fls blk a i es h' : arenas_ok ar h fls blk NULL -> page a -> (i < 7)%nat -> unused ar a 1 ->
  fls !! i = Some es -> lists h' (free_list descs_at) (<[i := es ++ slots a i]> fls) ->
  (forall y, allocated h y -> allocated h' y) -> (forall k, 0 <= k < bpa i -> allocated h' (slot a i k)) ->
  arenas_ok (<[a := mk_arena ARENA_MAGIC (Some i) (bpa i)]> ar) h' (<[i := es ++ slots a i]> fls) blk a.
Proof.
  intros Hok Hp Hi Hu Hes Hl Hal Hnew. set (r0 := mk_arena ARENA_MAGIC (Some i) (bpa i)).
  assert (Hn : 0 < npages r0) by done. pose proof (bpa_range i Hi) as Hbpa.
  assert (Hfls : forall i0 es0, <[i := es ++ slots a i]> fls !! i0 = Some es0 -> (i0 = i /\ es0 = es ++ slots a i) \/ (i0 <> i /\ fls !! i0 = Some es0)).
  { intros i0 es0 [(<- & <- & _)|[Hne H0]]%list_lookup_insert_Some; [by left|right; split; [congruence|done]]. }
  assert (Hold : forall a0 i0 c0 k0, small ar a0 i0 c0 -> 0 <= k0 < bpa i0 -> slot a0 i0 k0 ∉ slots a i).
  { intros a0 i0 c0 k0 Hs Hk0 (k & Hk & E)%elem_slots. destruct (small_ok Hok a0 i0 c0 Hs) as [Hi0 Hp0].
    assert (a0 = a) as -> by (by eapply (slot_page a0 i0 k0 a i k)). destruct (Hu a _ Hs); unfold npages in *; simpl in *; lia. }
  assert (Hblk : forall k, 0 <= k < bpa i -> blk !! slot a i k = None).
  { intros k Hk. destruct (blk !! slot a i k) as [sz|] eqn:E; [|done]. pose proof (slot_range a i k Hi Hk).
    destruct (block_place Hok _ _ E) as (_ & _ & _ & _ & _ & _ & Hsz). pose proof (bsz_range i Hi). destruct (page_fresh Hok a 1 _ sz Hu E); lia. }
  assert (Hin : forall a0 c0 k0, small ar a0 i c0 -> 0 <= k0 < bpa i -> slot a0 i k0 ∈ es ++ slots a i <-> slot a0 i k0 ∈ es).
  { intros a0 c0 k0 Hs Hk0. rewrite elem_of_app. pose proof (Hold a0 i c0 k0 Hs Hk0). tauto. }
  split.
  - apply (add_arena Hok a r0 Hn Hu Hp). left. exists i. split; [done|]. apply lookup_insert_eq.
  - by apply (add_apart Hok).
  - rewrite length_insert. apply (ao_len _ _ _ _ _ Hok).
  - done.
  - intros i0 es0 b [[-> ->]|[Hne H0]]%Hfls Hb.
    + apply elem_of_app in Hb as [Hb|(k & Hk & ->)%elem_slots]; [|exists a, (bpa i), k; split; [apply lookup_insert_eq|done]].
      destruct (ao_free _ _ _ _ _ Hok i es b Hes Hb) as (a0 & c & k & Hs & Hk & ->). exists a0, c, k. split; [by apply (add_old Hok)|done].
    + destruct (ao_free _ _ _ _ _ Hok i0 es0 b H0 Hb) as (a0 & c & k & Hs & Hk & ->). exists a0, c, k. split; [by apply (add_old Hok)|done].
  - intros a0 i0 c k es0 [[-> E]|[Hne Hs]]%add_small Hk He0.
    + unfold r0 in E. simplify_eq. destruct (Hfls _ _ He0) as [[_ ->]|[? _]]; [|done]. left. split; [|by apply Hblk].
      apply elem_of_app. right. apply elem_slots. eauto.
    + destruct (Hfls _ _ He0) as [[-> ->]|[_ H0]]; [|by apply (ao_slot _ _ _ _ _ Hok a0 i0 c)].
      rewrite (Hin a0 c k Hs Hk). by apply (ao_slot _ _ _ _ _ Hok a0 i c).
  - intros a0 m [[-> E]|[Hne Hb]]%add_big; [done|]. by apply (ao_big _ _ _ _ _ Hok).
  - intros b sz Hb. destruct (ao_blk _ _ _ _ _ Hok b sz Hb) as [(a0 & i0 & c & k & Hs & Hk & ->)|(a0 & m & Hg & ->)].
    + left. exists a0, i0, c, k. split; [by apply (add_old Hok)|done].
    + right. exists a0, m. split; [by apply (add_old Hok)|done].
  - intros a0 i0 c es0 [[-> E]|[Hne Hs]]%add_small He0.
    + unfold r0 in E. simplify_eq. destruct (Hfls _ _ He0) as [[_ ->]|[? _]]; [|done]. rewrite free_slots_all; [lia|].
      intros k Hk. apply elem_of_app. right. apply elem_slots. eauto.
    + destruct (Hfls _ _ He0) as [[-> ->]|[_ H0]]; [|by apply (ao_cnt _ _ _ _ _ Hok)].
      rewrite (ao_cnt _ _ _ _ _ Hok a0 i c es Hs Hes). unfold free_slots. do 2 f_equal. apply filter_same.
      intros k Hk%elem_of_seqZ. symmetry. apply (Hin a0 c); [done|lia].
  - intros a0 i0 c [[-> E]|[Hne Hs]]%add_small Hx; [done|]. apply (ao_some _ _ _ _ _ Hok a0 i0 c Hs).
    destruct (small_ok Hok a0 i0 c Hs) as [_ (_ & ? & _)]. unfold NULL. lia.
  - intros a0 i0 c k [[-> E]|[Hne Hs]]%add_small Hk; [unfold r0 in E; simplify_eq; by apply Hnew|].
    apply Hal. by apply (ao_cells _ _ _ _ _ Hok a0 i0 c).
Qed.

Lemma del_entry ar a a0 r : delete a ar !! a0 = Some r -> a0 <> a /\ ar !! a0 = Some r.
Proof. intros [? ?]%lookup_delete_Some. done. Qed.

(** What remains when an arena is removed from the map. *)
Lemma del_arena ar h fls blk x a : arenas_ok ar h fls blk x ->
  forall a0 r, delete a ar !! a0 = Some r -> page a0 /\ ((exists i, (i < 7)%nat /\ small (delete a ar) a0 i (free_cnt r)) \/
    (0 < free_cnt r /\ a0 + 4096 * free_cnt r < 2 ^ 32 /\ big (delete a ar) a0 (free_cnt r))).
Proof.
  intros Hok a0 r [Hne Hr]%del_entry. destruct (ao_arena _ _ _ _ _ Hok a0 r Hr) as [Hp [(i & Hi & Hs)|(H1 & H2 & H3)]]; (split; [done|]).
  - left. exists i. split; [done|]. unfold small. by rewrite lookup_delete_ne.
  - right. split; [done|]. split; [done|]. unfold big. by rewrite lookup_delete_ne.
Qed.

Lemma arenas_remove_big ar h fls blk x a n : arenas_ok ar h fls blk x -> big ar a n ->
  arenas_ok (delete a ar) h fls (delete (a + sizeof_arena) blk) x.
Proof.
  intros Hok Hb. destruct (big_ok Hok a n Hb) as (Hp & Hn & He).
  assert (Hslot : forall a0 i c k, small ar a0 i c -> 0 <= k < bpa i -> a0 <> a /\ slot a0 i k <> a + sizeof_arena).
  { intros a0 i c k Hs Hk. destruct (small_ok Hok a0 i c Hs) as [Hi Hp0]. assert (Hne : a0 <> a) by (intros ->; by eapply small_big).
    split; [done|]. pose proof (slot_range a0 i k Hi Hk). pose proof (bsz_range i Hi).
    destruct (pages_apart a0 a Hp0 Hp Hne); unfold sizeof_arena; lia. }
  assert (Hkeep : forall a0 r, a0 <> a -> ar !! a0 = Some r -> delete a ar !! a0 = Some r) by (intros; by rewrite lookup_delete_ne).
  split.
  - by apply (del_arena ar h fls blk x).
  - intros a0 r a1 r1 [_ H0]%del_entry [_ H1]%del_entry. by apply (ao_apart _ _ _ _ _ Hok).
  - apply (ao_len _ _ _ _ _ Hok).
  - apply (ao_lists _ _ _ _ _ Hok).
  - intros i es b Hes Hb0. destruct (ao_free _ _ _ _ _ Hok i es b Hes Hb0) as (a0 & c & k & Hs & Hk & ->).
    exists a0, c, k. split; [apply Hkeep; [by eapply Hslot|done]|done].
  - intros a0 i c k es [_ Hs]%del_entry Hk Hes. rewrite lookup_delete_ne by (symmetry; by eapply Hslot). by apply (ao_slot _ _ _ _ _ Hok a0 i c).
  - intros a0 m [Hne Hg]%del_entry. rewrite lookup_delete_ne by (unfold sizeof_arena; lia). by apply (ao_big _ _ _ _ _ Hok).
  - intros b sz [Hne Hb0]%lookup_delete_Some. destruct (ao_blk _ _ _ _ _ Hok b sz Hb0) as [(a0 & i & c & k & Hs & Hk & ->)|(a0 & m & Hg & ->)].
    + left. exists a0, i, c, k. split; [apply Hkeep; [by eapply Hslot|done]|done].
    + right. exists a0, m. split; [apply Hkeep; [congruence|done]|done].
  - intros a0 i c es [_ Hs]%del_entry. by apply (ao_cnt _ _ _ _ _ Hok).
  - intros a0 i c [_ Hs]%del_entry. by apply (ao_some _ _ _ _ _ Hok).
  - intros a0 i c k [_ Hs]%del_entry. by apply (ao_cells _ _ _ _ _ Hok a0 i c).
Qed.

(** An arena all of whose blocks are free is given up. *)
Lemma arenas_remove_small ar h fls blk a i c es h' : arenas_ok ar h fls blk a -> small ar a i c -> fls !! i = Some es ->
  (forall k, 0 <= k < bpa i -> slot a i k ∈ es) ->
  lists h' (free_list descs_at) (<[i := filter (fun b => b ∉ slots a i) es]> fls) ->
  (forall y, y ∉ slots a i -> allocated h y -> allocated h' y) ->
  arenas_ok (delete a ar) h' (<[i := filter (fun b => b ∉ slots a i) es]> fls) blk NULL.
Proof.
  intros Hok Hs Hes Hall Hl Hal. destruct (small_ok Hok a i c Hs) as [Hi Hp].
  set (es' := filter (fun b => b ∉ slots a i) es) in *.
  assert (Hout : forall a0 i0 c0 k0, a0 <> a -> small ar a0 i0 c0 -> 0 <= k0 < bpa i0 -> slot a0 i0 k0 ∉ slots a i).
  { intros a0 i0 c0 k0 Hne H0 Hk0 (k & Hk & E)%elem_slots. by destruct (slot_same Hok a i c k a0 i0 c0 k0 Hs H0 Hk Hk0 (eq_sym E)) as (-> & _). }
  assert (Hfls : forall i0 es0, <[i := es']> fls !! i0 = Some es0 -> (i0 = i /\ es0 = es') \/ (i0 <> i /\ fls !! i0 = Some es0)).
  { intros i0 es0 [(<- & <- & _)|[Hne H0]]%list_lookup_insert_Some; [by left|right; split; [congruence|done]]. }
  assert (Hkeep : forall a0 r, a0 <> a -> ar !! a0 = Some r -> delete a ar !! a0 = Some r) by (intros; by rewrite lookup_delete_ne).
  assert (Hne_of : forall a0 i0 c0 k0, small ar a0 i0 c0 -> 0 <= k0 < bpa i0 -> i0 <> i \/ slot a0 i0 k0 ∉ slots a i -> a0 <> a).
  { intros a0 i0 c0 k0 H0 Hk0 Hor ->. destruct (small_fun _ _ _ _ _ _ Hs H0) as [-> _]. destruct Hor as [?|Hn]; [done|].
    apply Hn, elem_slots. eauto. }
  split.
  - by apply (del_arena ar h fls blk a).
  - intros a0 r a1 r1 [_ H0]%del_entry [_ H1]%del_entry. by apply (ao_apart _ _ _ _ _ Hok).
  - rewrite length_insert. apply (ao_len _ _ _ _ _ Hok).
  - done.
  - intros i0 es0 b [[-> ->]|[Hne H0]]%Hfls Hb.
    + apply list_elem_of_filter in Hb as [Hb Hin]. destruct (ao_free _ _ _ _ _ Hok i es b Hes Hin) as (a0 & c0 & k0 & H0 & Hk0 & ->).
      exists a0, c0, k0. split; [apply Hkeep; eauto|done].
    + destruct (ao_free _ _ _ _ _ Hok i0 es0 b H0 Hb) as (a0 & c0 & k0 & H1 & Hk0 & ->). exists a0, c0, k0. split; [apply Hkeep; eauto|done].
  - intros a0 i0 c0 k0 es0 [Hne H0]%del_entry Hk0 He0. destruct (Hfls _ _ He0) as [[-> ->]|[_ H1]]; [|by apply (ao_slot _ _ _ _ _ Hok a0 i0 c0)].
    unfold es'. rewrite list_elem_of_filter. pose proof (Hout a0 i c0 k0 Hne H0 Hk0).
    destruct (ao_slot _ _ _ _ _ Hok a0 i c0 k0 es H0 Hk0 Hes); tauto.
  - intros a0 m [Hne Hg]%del_entry. by apply (ao_big _ _ _ _ _ Hok).
  - intros b sz Hb. destruct (ao_blk _ _ _ _ _ Hok b sz Hb) as [(a0 & i0 & c0 & k0 & H0 & Hk0 & ->)|(a0 & m & Hg & ->)].
    + left. exists a0, i0, c0, k0. split; [|done]. apply Hkeep; [|done]. intros ->. destruct (small_fun _ _ _ _ _ _ Hs H0) as [-> ->].
      destruct (ao_slot _ _ _ _ _ Hok a i c k0 es Hs Hk0 Hes) as [[_ E]|[Hn _]]; [congruence|]. by apply Hn, Hall.
    + right. exists a0, m. split; [|done]. apply Hkeep; [|done]. intros ->. by eapply small_big.
  - intros a0 i0 c0 es0 [Hne H0]%del_entry He0. destruct (Hfls _ _ He0) as [[-> ->]|[_ H1]]; [|by apply (ao_cnt _ _ _ _ _ Hok)].
    rewrite (ao_cnt _ _ _ _ _ Hok a0 i c0 es H0 Hes). unfold free_slots. do 2 f_equal. apply filter_same.
    intros k Hk%elem_of_seqZ. unfold es'. rewrite list_elem_of_filter. pose proof (Hout a0 i c0 k Hne H0 ltac:(lia)). tauto.
  - intros a0 i0 c0 [Hne H0]%del_entry _. by apply (ao_some _ _ _ _ _ Hok a0 i0 c0).
  - intros a0 i0 c0 k0 [Hne H0]%del_entry Hk0. apply Hal; [by eapply Hout|]. by apply (ao_cells _ _ _ _ _ Hok a0 i0 c0).
Qed.
End Arenas.

(** ** The state of the allocator *)

Section Pages.
Context {K L B : Type} `{!LockOps K L, !BitArray B}.
Implicit Types (ps : palloc_state K L B).

(** The page allocator leaves alone the locks that are not its own. *)
Definition keeps_lock (l : L) ps ps' : Prop :=
  (lock_held l (ksync ps) -> lock_held l (ksync ps')) /\ (lock_free l (ksync ps) -> lock_free l (ksync ps')).

Lemma critical_keeps l l' (k k1 k2 : K) : lock_free l k -> l' <> l -> lock_acquire l k = Ok k1 -> lock_release l k1 = Ok k2 ->
  (lock_held l' k -> lock_held l' k2) /\ (lock_free l' k -> lock_free l' k2).
Proof.
  intros Hf Hne E1 E2. pose proof (lock_acquire_law l k Hf) as H1. rewrite E1 in H1. destruct H1 as [Hh Hk1].
  pose proof (lock_release_law l k1 Hh) as H2. rewrite E2 in H2. destruct H2 as [_ Hk2]. split; [|auto].
  intros H'. eapply lock_release_keeps; [exact Hh|exact E2|done|]. by eapply lock_acquire_keeps.
Qed.

Lemma palloc_get_keeps flags n ps a ps' l : state_wf ps -> 0 <= n -> (forall w, l <> pool_lock (get_pool ps w)) ->
  palloc_get_multiple flags n ps = Ok (a, ps') -> keeps_lock l ps ps'.
Proof.
  intros Hst Hn Hl E. unfold palloc_get_multiple in E. fold (pool_of flags) in E. set (w := pool_of flags) in *.
  destruct (Z.eqb_spec n 0); [by simplify_eq|]. destruct Hst as (Hw & _ & _ & Hlk).
  destruct (lock_acquire _ (ksync ps)) as [k1|] eqn:E1; [|done]. rewrite bind_ok in E.
  destruct (returns_inv _ _ (find_fit_placed (current_palloc_mode ps) (get_pool ps w) n (Hw w) ltac:(lia))) as ([idx p'] & Ef & Hpl).
  rewrite Ef, bind_ok in E.
  assert (El : pool_lock p' = pool_lock (get_pool ps w)) by (destruct Hpl as [(_ & _ & El & _)|(_ & -> & _)]; done).
  rewrite El in E. destruct (lock_release _ k1) as [k2|] eqn:E2; [|done]. rewrite bind_ok in E.
  pose proof (critical_keeps _ l _ _ _ (Hlk w) (Hl w) E1 E2) as Hk.
  assert (Ek : ksync ps' = k2).
  { repeat case_match; simplify_eq/=; try done. destruct (memset _ _ _ _); simplify_eq/=; try done. all: by destruct w. }
  unfold keeps_lock. by rewrite Ek.
Qed.

Lemma palloc_free_keeps ps a n ps' w idx l : state_wf ps -> in_use ps w idx n a -> (forall w, l <> pool_lock (get_pool ps w)) ->
  palloc_free_multiple a n ps = Ok ps' -> keeps_lock l ps ps'.
Proof.
  intros Hst Hu Hl E. destruct (in_use_address _ _ _ _ _ Hst Hu) as (Ho & Hnn & Hb & Es & Ei). pose proof Hst as (_ & _ & _ & Hlk).
  unfold palloc_free_multiple in E. rewrite Ho in E. simpl in E.
  destruct (_ || _); [by simplify_eq|].
  destruct (if page_from_pool (kernel_pool ps) a then _ else _) as [w'|]; [|done]. simpl in E.
  destruct (memset _ _ _ _) as [m|]; [|done]. simpl in E.
  destruct (lock_acquire _ (ksync ps)) as [k1|] eqn:E1; [|done]. simpl in E.
  destruct (ba_all _ _ _) as [all|]; [|done]. simpl in E. destruct all; [|done]. simpl in E.
  destruct (ba_set_multiple _ _ _ _) as [b|]; [|done]. simpl in E.
  destruct (lock_release _ k1) as [k2|] eqn:E2; [|done]. simpl in E. simplify_eq.
  exact (critical_keeps _ l _ _ _ (Hlk w') (Hl w') E1 E2).
Qed.
End Pages.

Section Ops.
Context {K L B : Type} `{!LockOps K L, !BitArray B}.
Variable descs_at : Z.
Implicit Types (st : malloc_state K L B) (ps : palloc_state K L B) (d : desc L) (hl : option nat) (i : nat).
Implicit Types (live blk : gmap Z Z) (fls : list (list Z)).

(** The kernel pool stays where it is, and the pools keep their locks. *)
Definition same_place ps ps' : Prop :=
  base (kernel_pool ps') = base (kernel_pool ps) /\ pool_end (kernel_pool ps') = pool_end (kernel_pool ps) /\
  forall w, pool_lock (get_pool ps' w) = pool_lock (get_pool ps w).

(** No byte changes. *)
Definition same_bytes ps ps' : Prop := forall y, memory ps' y = memory ps y.

(** The whole invariant.  [live] are the blocks of pages that the kernel holds, the
    arenas among them; [hl] is the descriptor whose lock the running thread holds. *)
Record heap_inv st hl live fls blk (x : Z) : Prop := {
  mo_cnt : Malloc.desc_cnt st = 7;
  mo_len : length (descs st) = 10%nat;
  mo_descs : forall i, (i < 7)%nat -> exists d, descs st !! i = Some d /\ block_size_of d = bsz i /\ blocks_per_arena d = bpa i;
  mo_client : client_ok (pages st, live);
  mo_live : forall a r, arenas st !! a = Some r -> live !! a = Some (npages r) /\
    base (kernel_pool (pages st)) <= a /\ a + 4096 * npages r <= pool_end (kernel_pool (pages st));
  mo_arenas : arenas_ok descs_at (arenas st) (links st) fls blk x;
  mo_static : 0 < descs_at /\ descs_at + 480 <= base (kernel_pool (pages st));
  mo_end : pool_end (kernel_pool (pages st)) < 2 ^ 32;
  mo_lock_ne : forall i d, (i < 7)%nat -> descs st !! i = Some d -> (forall w, desc_lock d <> pool_lock (get_pool (pages st) w)) /\
    forall j d', (j < 7)%nat -> descs st !! j = Some d' -> j <> i -> desc_lock d' <> desc_lock d;
  mo_locks : forall i d, (i < 7)%nat -> descs st !! i = Some d ->
    if decide (hl = Some i) then lock_held (desc_lock d) (ksync (pages st)) else lock_free (desc_lock d) (ksync (pages st))
}.

(** ** Locks *)

Lemma state_wf_ksync ps k : state_wf ps -> (forall w, lock_free (pool_lock (get_pool ps w)) k) -> state_wf (put_ksync ps k).
Proof. intros (Hw & Hd & Hne & _) Hk. split_and!; try done. all: intros w; by destruct w. Qed.

Lemma client_ok_ksync ps k live : client_ok (ps, live) -> (forall w, lock_free (pool_lock (get_pool ps w)) k) ->
  client_ok (put_ksync ps k, live).
Proof.
  intros Hc Hk. apply (client_ok_same ps); [done| |by intros []]. apply state_wf_ksync; [apply Hc|done].
Qed.

Lemma inv_acquire st live fls blk x i d : heap_inv st None live fls blk x -> (i < 7)%nat -> descs st !! i = Some d ->
  returns (acquire st (desc_lock d)) (fun st' => (exists k, st' = put_pages st (put_ksync (pages st) k)) /\ heap_inv st' (Some i) live fls blk x).
Proof.
  intros Hi Hlt Hd. unfold acquire. pose proof (mo_locks _ _ _ _ _ _ Hi i d Hlt Hd) as Hl. rewrite decide_False in Hl by done.
  apply returns_bind. pose proof (lock_acquire_law _ _ Hl) as HA. apply returns_inv in HA as (k & E & Hh & Hfr). rewrite E.
  apply returns_ok. apply returns_ok. split; [by eexists|]. pose proof Hi as []. destruct (mo_lock_ne0 i d Hlt Hd) as [Hpw Hdw].
  assert (Hpl : forall w, lock_free (pool_lock (get_pool (pages st) w)) k).
  { intros w. apply Hfr; [congruence|]. apply (proj1 mo_client0). }
  split; try done.
  - by apply client_ok_ksync.
  - intros j d' Hj Hd'. simpl in Hd'. destruct (decide (j = i)) as [->|Hne].
    + rewrite decide_True by done. rewrite Hd in Hd'. by simplify_eq.
    + rewrite decide_False by congruence. specialize (mo_locks0 j d' Hj Hd'). rewrite decide_False in mo_locks0 by done.
      simpl. apply Hfr; [|done]. by eapply Hdw.
Qed.

Lemma inv_release st live fls blk x i d : heap_inv st (Some i) live fls blk x -> (i < 7)%nat -> descs st !! i = Some d ->
  returns (release st (desc_lock d)) (fun st' => (exists k, st' = put_pages st (put_ksync (pages st) k)) /\ heap_inv st' None live fls blk x).
Proof.
  intros Hi Hlt Hd. unfold release. pose proof (mo_locks _ _ _ _ _ _ Hi i d Hlt Hd) as Hl. rewrite decide_True in Hl by done.
  apply returns_bind. pose proof (lock_release_law _ _ Hl) as HA. apply returns_inv in HA as (k & E & Hf & Hfr). rewrite E.
  apply returns_ok. apply returns_ok. split; [by eexists|]. pose proof Hi as []. destruct (mo_lock_ne0 i d Hlt Hd) as [Hpw Hdw].
  assert (Hpl : forall w, lock_free (pool_lock (get_pool (pages st) w)) k).
  { intros w. apply Hfr; [congruence|]. apply (proj1 mo_client0). }
  split; try done.
  - by apply client_ok_ksync.
  - intros j d' Hj Hd'. simpl in Hd'. rewrite decide_False by done. destruct (decide (j = i)) as [->|Hne].
    + rewrite Hd in Hd'. by simplify_eq.
    + specialize (mo_locks0 j d' Hj Hd'). rewrite decide_False in mo_locks0 by congruence.
      simpl. apply Hfr; [|done]. by eapply Hdw.
Qed.

(** ** Pages *)

Lemma live_page ps live a n : client_ok (ps, live) -> live !! a = Some n -> page a /\ 0 < n.
Proof.
  intros (Hst & Hl & _) Ha. destruct (Hl a n Ha) as (w & idx & Hu). pose proof Hu as (_ & Hn & _).
  destruct (in_use_address _ _ _ _ _ Hst Hu) as (Ho & Hnn & (Hr & _ & He & _) & _).
  split; [|done]. unfold page, NULL in *. change PGSIZE with 4096 in *. lia.
Qed.

(** Pages from the kernel pool: none left, or a new block of them. *)
Lemma get_pages ps live n : client_ok (ps, live) -> 0 < n ->
  returns (palloc_get_multiple 0 n ps) (fun '(a, ps') =>
    (same_place ps ps' /\ same_bytes ps ps') /\ (forall l, (forall w, l <> pool_lock (get_pool ps w)) -> keeps_lock l ps ps') /\
    ((a = NULL /\ client_ok (ps', live) /\ ~ exists idx, free_run (kernel_pool ps) idx n) \/
     (a <> NULL /\ client_ok (ps', <[a := n]> live) /\ live !! a = None /\ page a /\
      (forall a' m, live !! a' = Some m -> a + 4096 * n <= a' \/ a' + 4096 * m <= a) /\
      base (kernel_pool ps) <= a /\ a + 4096 * n <= pool_end (kernel_pool ps)))).
Proof.
  intros Hc Hn. pose proof Hc as (Hst & _). pose proof Hst as (Hw & _).
  assert (Hk : forall a ps', palloc_get_multiple 0 n ps = Ok (a, ps') ->
    forall l, (forall w, l <> pool_lock (get_pool ps w)) -> keeps_lock l ps ps').
  { intros a ps' E l Hl. by apply (palloc_get_keeps 0 n ps a ps' l Hst ltac:(lia) Hl). }
  destruct (free_run_dec (get_pool ps KernelPool) n (Hw KernelPool) Hn) as [Hf|Hnone].
  - destruct (returns_inv _ _ (palloc_get_multiple_spec 0 n ps Hst Hn Hf)) as ([a ps'] & E & Hst' & Hnn & Ht & Hmem).
    rewrite E. apply returns_ok. pose proof (client_ok_get _ _ _ _ _ _ Hc Hn Hst' Ht) as Hc'.
    pose proof Ht as (idx & (H0 & Hle & _) & _ & Hm & Ea & Eo & _). change (pool_of 0) with KernelPool in *. simpl in *.
    destruct Hm as (_ & Elk & Eb & Es & _). split; [|split; [by eapply Hk|right]].
    + split; [|exact Hmem]. split; [done|]. split; [unfold pool_end; by rewrite Eb, Es|]. intros [|]; simpl; [done|]. by rewrite Eo.
    + split; [done|]. split; [done|]. split; [by eapply taken_fresh|]. split; [apply (live_page ps' (<[a := n]> live) a n Hc'), lookup_insert_eq|].
      split; [|unfold pool_end; change PGSIZE with 4096 in *; lia].
      intros a' m Ha'. pose proof (taken_apart _ _ _ _ _ _ _ _ Hc Hn Ht Ha') as Hap. unfold Palloc.apart in Hap. change PGSIZE with 4096 in *. lia.
  - pose proof (palloc_get_multiple_none 0 n ps Hst Hn Hnone) as HN. change (flag_set 0 PAL_ASSERT) with false in HN. cbv iota in HN.
    apply returns_inv in HN as ([a ps'] & E & -> & Hst' & Hsame & Hmem & _). rewrite E. apply returns_ok.
    split; [|split; [by eapply Hk|left; split; [done|split; [by eapply client_ok_same|by intros [idx Hi]; apply (Hnone idx)]]]].
    pose proof (Hsame KernelPool) as HK. simpl in HK. split; [|intros y; by rewrite Hmem]. split; [by rewrite HK|]. split; [by rewrite HK|]. intros w. by rewrite Hsame.
Qed.

Lemma give_pages ps live a n : client_ok (ps, live) -> live !! a = Some n ->
  returns (palloc_free_multiple a n ps) (fun ps' =>
    same_place ps ps' /\ (forall l, (forall w, l <> pool_lock (get_pool ps w)) -> keeps_lock l ps ps') /\
    client_ok (ps', delete a live) /\ forall y, memory ps' y = if in_block y a n then 0xcc else memory ps y).
Proof.
  intros Hc Ha. pose proof Hc as (Hst & Hl & _). destruct (Hl a n Ha) as (w & idx & Hu).
  destruct (returns_inv _ _ (palloc_free_multiple_spec _ _ _ _ _ Hst Hu)) as (ps' & E & Hst' & Hg & Hmem). rewrite E. apply returns_ok.
  split; [|split; [intros l Hne; by eapply palloc_free_keeps|split; [by eapply client_ok_free|done]]].
  destruct Hg as ((_ & Elk & Eb & Es & _) & Eo & _). unfold same_place, pool_end, psize in *.
  destruct w; simpl in *; rewrite ?Eo, ?Eb, ?Es; (split; [done|]); (split; [done|]); intros [|]; simpl; rewrite ?Eo; done.
Qed.

(** Another set of pages behind the same arenas. *)
Lemma inv_pages st hl live fls blk x ps' live' : heap_inv st hl live fls blk x -> same_place (pages st) ps' ->
  (forall l, (forall w, l <> pool_lock (get_pool (pages st) w)) -> keeps_lock l (pages st) ps') -> client_ok (ps', live') ->
  (forall a r, arenas st !! a = Some r -> live' !! a = live !! a) -> heap_inv (put_pages st ps') hl live' fls blk x.
Proof.
  intros Hi (Eb & Ee & El) Hk Hc Hl. pose proof Hi as []. split; simpl; rewrite ?Eb, ?Ee; try done.
  - intros a r Ha. rewrite (Hl a r Ha). by apply mo_live0.
  - intros i d Hlt Hd. destruct (mo_lock_ne0 i d Hlt Hd) as [H1 H2]. split; [intros w; by rewrite El|done].
  - intros i d Hlt Hd. specialize (mo_locks0 i d Hlt Hd). destruct (mo_lock_ne0 i d Hlt Hd) as [H1 _]. destruct (Hk _ H1) as [Hh Hf].
    case_decide; auto.
Qed.

(** ** Descriptors and addresses *)

Lemma find_desc_spec st hl live fls blk x size : heap_inv st hl live fls blk x ->
  returns (find_desc st size) (fun i => (i < 7)%nat /\ size <= bsz i \/ i = 7%nat /\ forall j, (j < 7)%nat -> bsz j < size).
Proof.
  intros Hi. unfold find_desc. rewrite (mo_len _ _ _ _ _ _ Hi), (mo_cnt _ _ _ _ _ _ Hi).
  apply (returns_loop (fun i => (i <= 7)%nat /\ forall j, (j < i)%nat -> bsz j < size) (fun i => (7 - i)%nat)).
  - intros i [Hle Hj]. destruct (Z.ltb_spec (Z.of_nat i) 7).
    + destruct (mo_descs _ _ _ _ _ _ Hi i ltac:(lia)) as (d & Hd & Eb & _). unfold get_desc. rewrite Hd, bind_ok, Eb.
      destruct (Z.leb_spec size (bsz i)); apply returns_ok; [left; split; [lia|done]|]. split; [|lia]. split; [lia|].
      intros j Hji. destruct (decide (j = i)) as [->|]; [done|]. apply Hj. lia.
    + apply returns_ok. right. assert (i = 7%nat) as -> by lia. auto.
  - split; [lia|]. intros j Hj. lia.
  - lia.
Qed.

Lemma get_desc_eq st i d : descs st !! i = Some d -> get_desc st i = Ok d.
Proof. unfold get_desc. by intros ->. Qed.

Lemma get_arena_eq st a r : arenas st !! a = Some r -> get_arena st a = Ok r.
Proof. unfold get_arena. by intros ->. Qed.

Lemma page_nonnull a : page a -> (a =? NULL) = false.
Proof. intros (_ & Ha & _). apply Z.eqb_neq. unfold NULL. lia. Qed.

Lemma block_to_arena_small st a i c k d : small (arenas st) a i c -> page a -> (i < 7)%nat -> 0 <= k < bpa i ->
  descs st !! i = Some d -> block_size_of d = bsz i -> block_to_arena st (slot a i k) = Ok a.
Proof.
  intros Hs Hp Hi Hk Hd Eb. unfold block_to_arena. destruct (page_slot a i k Hp Hi Hk) as [Er Eo]. rewrite Er, Eo.
  cbv zeta. rewrite page_nonnull by done. rewrite (get_arena_eq st a _ Hs). simpl. rewrite (get_desc_eq st i d Hd). simpl. rewrite Eb.
  pose proof (slot_range a i k Hi Hk). pose proof (bsz_range i Hi).
  replace (sizeof_arena + k * bsz i - sizeof_arena) with (k * bsz i) by lia.
  rewrite u32_small by (unfold slot, sizeof_arena in *; destruct Hp as (_ & ? & ?); nia). by rewrite Z.mod_mul by lia.
Qed.

Lemma block_to_arena_big st a n : big (arenas st) a n -> page a -> block_to_arena st (a + sizeof_arena) = Ok a.
Proof.
  intros Hb Hp. unfold block_to_arena. destruct (page_of a sizeof_arena Hp ltac:(unfold sizeof_arena; lia)) as [Er Eo]. rewrite Er, Eo.
  cbv zeta. rewrite page_nonnull by done. rewrite (get_arena_eq st a _ Hb). done.
Qed.

Lemma arena_to_block_eq st a i c k d : small (arenas st) a i c -> page a -> (i < 7)%nat -> 0 <= k < bpa i ->
  descs st !! i = Some d -> block_size_of d = bsz i -> blocks_per_arena d = bpa i -> arena_to_block st a k = Ok (slot a i k).
Proof.
  intros Hs Hp Hi Hk Hd Eb Ep. unfold arena_to_block. rewrite page_nonnull by done. rewrite (get_arena_eq st a _ Hs). simpl.
  rewrite (get_desc_eq st i d Hd). simpl. rewrite Eb, Ep. rewrite (proj2 (Z.ltb_lt k (bpa i))) by lia. simpl. f_equal.
  pose proof (slot_range a i k Hi Hk). pose proof (bsz_range i Hi). destruct Hp as (_ & ? & ?). unfold slot in *. rewrite u32_small; lia.
Qed.

(** ** A new arena *)

Lemma raw_links_lookup (m : mem) (bs : list Z) (h : heap) (y : Z) (f : link) : (y ∈ bs -> is_Some (raw_links m bs h !! (y, f))) /\
  (y ∉ bs -> raw_links m bs h !! (y, f) = h !! (y, f)).
Proof.
  induction bs as [|b bs [IH1 IH2]]; [split; [by intros ?%not_elem_of_nil|done]|]. cbn [raw_links foldr]. fold (raw_links m bs h).
  split.
  - intros Hy. destruct (decide (y = b)) as [->|Hne].
    + destruct f; [rewrite lookup_insert_eq|rewrite lookup_insert_ne, lookup_insert_eq by congruence]; eauto.
    + rewrite !lookup_insert_ne by congruence. apply IH1. set_solver.
  - intros Hy. rewrite !lookup_insert_ne by (intros [=]; set_solver). apply IH2. set_solver.
Qed.

(** Blocks of a page of the kernel pool are in no free list unless the arenas say so. *)
Lemma slot_outside st hl live fls blk x a i k : heap_inv st hl live fls blk x -> page a -> (i < 7)%nat -> 0 <= k < bpa i ->
  unused (arenas st) a 1 -> base (kernel_pool (pages st)) <= a -> outside (free_list descs_at) fls (slot a i k).
Proof.
  intros Hi Hp Hlt Hk Hu Hb j es Hes Hw. pose proof (mo_arenas _ _ _ _ _ _ Hi) as Hok. pose proof (slot_range a i k Hlt Hk).
  assert (Hj : (j < 7)%nat) by (rewrite <- (ao_len _ _ _ _ _ _ Hok); by eapply lookup_lt_Some).
  destruct (mo_static _ _ _ _ _ _ Hi) as [Hs1 Hs2]. unfold whole in Hw. rewrite elem_of_cons, elem_of_app, list_elem_of_singleton in Hw.
  unfold free_list, sizeof_desc, head_of, tail_of in Hw. destruct Hw as [?|[Hin|?]]; [lia| |lia].
  destruct (ao_free _ _ _ _ _ _ Hok j es _ Hes Hin) as (a' & c & k' & Hs & Hk' & E).
  destruct (small_ok _ Hok a' j c Hs) as [_ Hp']. assert (a = a') as <- by (by eapply (slot_page a i k a' j k')).
  destruct (Hu a _ Hs); unfold npages in *; simpl in *; lia.
Qed.

(** The invariant speaks of the arenas and links of a state; the rest is unchanged. *)
Lemma inv_change st st' hl live fls blk x fls' blk' x' : heap_inv st hl live fls blk x ->
  descs st' = descs st -> Malloc.desc_cnt st' = Malloc.desc_cnt st -> pages st' = pages st ->
  arenas_ok descs_at (arenas st') (links st') fls' blk' x' ->
  (forall a r, arenas st' !! a = Some r -> live !! a = Some (npages r) /\
    base (kernel_pool (pages st)) <= a /\ a + 4096 * npages r <= pool_end (kernel_pool (pages st))) ->
  heap_inv st' hl live fls' blk' x'.
Proof. intros [] Ed Ec Ep Ha Hl. split; rewrite ?Ed, ?Ec, ?Ep; done. Qed.

(** The loop that fills the free list with the blocks of the arena at [a]. *)
Lemma push_blocks st (h : heap) a i d fls es :
  small (arenas st) a i (bpa i) -> page a -> (i < 7)%nat ->
  descs st !! i = Some d -> block_size_of d = bsz i -> blocks_per_arena d = bpa i -> links st = h ->
  lists h (free_list descs_at) fls -> fls !! i = Some es ->
  (forall k, 0 <= k < bpa i -> allocated h (slot a i k) /\ outside (free_list descs_at) fls (slot a i k)) ->
  returns (loop (S (Z.to_nat (bpa i))) (fun '(k, st) =>
    if k <? bpa i then
      b ← arena_to_block st a k;
      h ← list_push_back (links st) (free_list descs_at i) b;
      Ok (inl (k + 1, put_links st h))
    else Ok (inr st)) (0, st)) (fun st' => exists h', st' = put_links st h' /\ dom h' = dom h /\
      lists h' (free_list descs_at) (<[i := es ++ slots a i]> fls)).
Proof.
  intros Hs Hp Hi Hd Eb Ep Eh Hl Hes Hk. pose proof (bpa_range i Hi).
  assert (Hlt : (i < length fls)%nat) by (by eapply lookup_lt_Some).
  apply (returns_loop (fun '(k, st1) => 0 <= k <= bpa i /\ exists h1, st1 = put_links st h1 /\ dom h1 = dom h /\
    lists h1 (free_list descs_at) (<[i := es ++ (slot a i <$> seqZ 0 k)]> fls)) (fun '(k, _) => Z.to_nat (bpa i - k))).
  - intros [k st1] (Hkr & h1 & -> & Hdom & Hl1). destruct (Z.ltb_spec k (bpa i)).
    + rewrite (arena_to_block_eq _ a i (bpa i) k d), bind_ok by (done || lia). apply returns_bind. simpl links.
      destruct (Hk k ltac:(lia)) as [Ha Ho].
      eapply returns_mono; [apply (lists_push_back h1 _ _ i (es ++ (slot a i <$> seqZ 0 k)) (slot a i k) Hl1); [by apply list_lookup_insert_eq|by eapply allocated_dom|]|].
      * intros j es' [(<- & <- & _)|[Hne Hj]]%list_lookup_insert_Some Hw; [|by apply (Ho j es')].
        specialize (Ho i es Hes). unfold whole in *. rewrite elem_of_cons, !elem_of_app in *.
        destruct Hw as [?|[[?|Hw]|?]]; [tauto..| |tauto].
        apply list_elem_of_fmap in Hw as (k' & E & Hk'%elem_of_seqZ). apply (slot_inj a i k k' Hi) in E. lia.
      * intros h2 [Hl2 [_ Hd2]]. apply returns_ok. split; [|lia]. split; [lia|]. exists h2. split; [done|]. split; [congruence|].
        rewrite list_insert_insert_eq, <- app_assoc in Hl2. by rewrite seqZ_app, fmap_app by lia.
    + apply returns_ok. exists h1. split; [done|]. split; [done|]. unfold slots. by replace k with (bpa i) in Hl1 by lia.
  - split; [lia|]. exists h. split; [by destruct st; subst h|]. split; [done|]. simpl. by rewrite app_nil_r, list_insert_id.
  - lia.
Qed.

Lemma new_arena_spec st live fls blk i d a : heap_inv st (Some i) live fls blk NULL -> (i < 7)%nat -> descs st !! i = Some d ->
  fls !! i = Some [] -> page a -> live !! a = Some 1 -> unused (arenas st) a 1 ->
  base (kernel_pool (pages st)) <= a -> a + 4096 <= pool_end (kernel_pool (pages st)) ->
  returns (new_arena descs_at st i d a) (fun st' => pages st' = pages st /\ descs st' = descs st /\
    heap_inv st' (Some i) live (<[i := slots a i]> fls) blk a).
Proof.
  intros Hi Hlt Hd Hes Hp Hla Hu Hb He. destruct (mo_descs _ _ _ _ _ _ Hi i Hlt) as (d' & Hd' & Eb & Ep). assert (d' = d) as -> by congruence.
  pose proof (mo_arenas _ _ _ _ _ _ Hi) as Hok. unfold new_arena. cbv zeta. rewrite Eb, Ep.
  change ((fun k => a + sizeof_arena + k * bsz i) <$> seqZ 0 (bpa i)) with (slots a i).
  set (h := raw_links _ (slots a i) _). set (st1 := put_links _ h).
  assert (Hraw : forall y f, y ∉ slots a i -> h !! (y, f) = links st !! (y, f)) by (intros; by apply raw_links_lookup).
  assert (Hout : forall k, 0 <= k < bpa i -> outside (free_list descs_at) fls (slot a i k)).
  { intros k Hk. by eapply (slot_outside st). }
  assert (Hnew : forall k, 0 <= k < bpa i -> allocated h (slot a i k)).
  { intros k Hk. pose proof (slot_range a i k Hlt Hk). pose proof (bsz_range i Hlt). destruct Hp as (_ & ? & ?). split; [lia|].
    split; apply raw_links_lookup, elem_slots; eauto. }
  assert (Hlists : lists h (free_list descs_at) fls).
  { eapply lists_ext; [apply (ao_lists _ _ _ _ _ _ Hok)|]. intros y f Hy. apply Hraw. intros (k & Hk & ->)%elem_slots. by apply Hy, Hout. }
  eapply returns_mono; [apply (push_blocks st1 h a i d fls []); try done; [apply lookup_insert_eq|auto]|].
  intros st' (h' & -> & Hdom & Hl'). split; [done|]. split; [done|]. simpl in Hl'.
  eapply inv_change; [exact Hi|done..| |].
  - apply (arenas_add_small descs_at (arenas st) (links st) fls blk a i [] h'); try done.
    + intros y (Hy & Hy1 & Hy2). eapply allocated_dom; [exact Hdom|]. destruct (decide (y ∈ slots a i)) as [(k & Hk & ->)%elem_slots|Hn]; [by apply Hnew|].
      split; [done|]. by rewrite !Hraw.
    + intros k Hk. eapply allocated_dom; [exact Hdom|]. by apply Hnew.
  - simpl. intros a' r [[<- <-]|[Hne Ha']]%lookup_insert_Some; [unfold npages; simpl; split; [done|lia]|]. by apply (mo_live _ _ _ _ _ _ Hi).
Qed.

(** ** [malloc] *)

Lemma same_place_refl ps : same_place ps ps.
Proof. done. Qed.

Lemma same_place_trans ps ps1 ps2 : same_place ps ps1 -> same_place ps1 ps2 -> same_place ps ps2.
Proof. intros (H1 & H2 & H3) (H4 & H5 & H6). split; [congruence|]. split; [congruence|]. intros w. by rewrite H6, H3. Qed.

Lemma same_pages_trans ps ps1 ps2 : same_place ps ps1 /\ same_bytes ps ps1 -> same_place ps1 ps2 /\ same_bytes ps1 ps2 ->
  same_place ps ps2 /\ same_bytes ps ps2.
Proof. intros [H1 H2] [H3 H4]. split; [by eapply same_place_trans|]. intros y. by rewrite H4, H2. Qed.

Lemma same_place_ksync ps k : same_place ps (put_ksync ps k).
Proof. done. Qed.

(** A block that lies in the kernel pool. *)
Definition in_pool ps (p sz : Z) : Prop := base (kernel_pool ps) <= p /\ p + sz <= pool_end (kernel_pool ps).

Lemma slot_aligned a i k : page a -> (i < 7)%nat -> slot a i k mod 4 = 0.
Proof.
  intros (Ho & _) Hi. destruct (bsz_range i Hi) as [_ Hb]. rewrite pg_ofs_mod in Ho. change PGSIZE with (4 * 1024) in Ho.
  pose proof (Z.div_mod a (4 * 1024) ltac:(lia)). pose proof (Z.div_mod (bsz i) 4 ltac:(lia)). unfold slot, sizeof_arena.
  replace (a + 12 + k * bsz i) with ((1024 * (a / (4 * 1024)) + 3 + k * (bsz i / 4)) * 4) by nia. by apply Z.mod_mul.
Qed.

(** The end of [malloc]: the first block of a free list is taken and counted. *)
Lemma take_block st live fls blk x i d b es : heap_inv st (Some i) live fls blk x -> (i < 7)%nat -> descs st !! i = Some d ->
  fls !! i = Some (b :: es) -> x = NULL \/ (page x /\ b ∈ slots x i) ->
  returns ('(b, h) ← list_pop_front (links st) (free_list descs_at i);
    let st := put_links st h in
    a ← block_to_arena st b;
    r ← get_arena st a;
    let st := set_arena st a (mk_arena (magic r) (owner r) (u32 (free_cnt r - 1))) in
    st ← release st (desc_lock d);
    Ok (b, st)) (fun '(b', st') => b' = b /\ (same_place (pages st) (pages st') /\ same_bytes (pages st) (pages st')) /\ fresh_block blk b (bsz i) /\ in_pool (pages st) b (bsz i) /\
      exists fls', heap_inv st' None live fls' (<[b := bsz i]> blk) NULL).
Proof.
  intros Hi Hlt Hd Hes Hx. pose proof (mo_arenas _ _ _ _ _ _ Hi) as Hok.
  destruct (mo_descs _ _ _ _ _ _ Hi i Hlt) as (d' & Hd' & Eb & _). assert (d' = d) as -> by congruence.
  destruct (ao_free _ _ _ _ _ _ Hok i _ b Hes ltac:(left)) as (a & c & k & Hs & Hk & ->).
  destruct (small_ok _ Hok a i c Hs) as [_ Hp]. pose proof (slot_range a i k Hlt Hk) as Hr. pose proof (bsz_range i Hlt) as [Hbr _].
  destruct (mo_live _ _ _ _ _ _ Hi a _ Hs) as (_ & Hb1 & Hb2). unfold npages in Hb2. simpl in Hb2. pose proof (mo_end _ _ _ _ _ _ Hi) as Hend.
  assert (Hnone : blk !! slot a i k = None).
  { destruct (ao_slot _ _ _ _ _ _ Hok a i c k _ Hs Hk Hes) as [[_ ?]|[Hn _]]; [done|]. destruct Hn. left. }
  pose proof (ao_cnt _ _ _ _ _ _ Hok a i c _ Hs Hes) as Hc.
  assert (Hc0 : 0 < c <= bpa i).
  { rewrite Hc. split; [|unfold free_slots; pose proof (length_filter (fun k => slot a i k ∈ slot a i k :: es) (seqZ 0 (bpa i)));
      etransitivity; [apply inj_le, length_filter|rewrite length_seqZ; lia]].
    assert (k ∈ free_slots (slot a i k :: es) a i) as Hin by (apply list_elem_of_filter; split; [left|apply elem_of_seqZ; lia]).
    destruct (free_slots _ _ _); [by apply not_elem_of_nil in Hin|simpl; lia]. }
  apply returns_bind. eapply returns_mono; [by apply (lists_pop_front _ _ fls i (slot a i k) es (ao_lists _ _ _ _ _ _ Hok))|].
  intros [b' h'] (-> & Hl & _ & _ & [_ Hdom]). cbv zeta.
  rewrite (block_to_arena_small _ a i c k d), bind_ok by done. rewrite (get_arena_eq (put_links st h') a _ Hs), bind_ok.
  cbn [magic owner free_cnt]. pose proof (bpa_range i Hlt). rewrite u32_small by lia. apply returns_bind.
  set (st1 := set_arena _ _ _).
  assert (H1 : heap_inv st1 (Some i) live (<[i := es]> fls) (<[slot a i k := bsz i]> blk) NULL).
  { eapply inv_change; [exact Hi|done..| |].
    - simpl. apply (arenas_update descs_at (arenas st) (links st) fls blk x a i c k (slot a i k :: es)); try done.
      + pose proof (il_nodup _ _ _ (ls_list _ _ _ (ao_lists _ _ _ _ _ _ Hok) i _ Hes)) as Hnd. unfold whole in Hnd.
        apply list.NoDup_cons in Hnd as [_ Hnd]. simpl in Hnd. apply list.NoDup_cons in Hnd as [Hnd _].
        split; [set_solver|]. left. set_solver.
      + intros a0 _ Hne Hn0 ->. destruct Hx as [->|[Hpx (k' & Hk' & E)%elem_slots]]; [done|]. apply Hne. symmetry. by eapply (slot_page a i k x i k').
      + lia.
    - simpl. intros a' r [[<- <-]|[Hne Ha']]%lookup_insert_Some; [unfold npages; simpl; apply (mo_live _ _ _ _ _ _ Hi a _ Hs)|]. by apply (mo_live _ _ _ _ _ _ Hi). }
  eapply returns_mono; [by apply (inv_release st1 live (<[i := es]> fls) _ NULL i d H1 Hlt)|].
  intros st2 [(kk & ->) H2]. apply returns_ok. split; [done|]. split; [done|]. split; [|split; [unfold in_pool; lia|eauto]].
  split; [destruct Hp as (_ & ? & _); lia|]. split; [lia|]. split; [by apply slot_aligned|].
  intros q sq Hq. destruct (slot_fresh _ Hok a i c k q sq Hs Hk Hq); [intros ->; congruence|lia|lia].
Qed.

Lemma unused_live ar live a n : (forall a' r, ar !! a' = Some r -> live !! a' = Some (npages r)) ->
  (forall a' m, live !! a' = Some m -> a + 4096 * n <= a' \/ a' + 4096 * m <= a) -> unused ar a n.
Proof. intros Hl Hd a' r Ha'. by apply Hd, Hl. Qed.

Definition malloc_post st blk size (r : Z * malloc_state K L B) : Prop :=
  let '(p, st') := r in (same_place (pages st) (pages st') /\ same_bytes (pages st) (pages st')) /\
  ((p = NULL /\ exists live fls, heap_inv st' None live fls blk NULL) \/
   exists sz, size <= sz /\ fresh_block blk p sz /\ in_pool (pages st) p sz /\
     exists live fls, heap_inv st' None live fls (<[p := sz]> blk) NULL).

(** A request that no descriptor satisfies gets pages of its own. *)
Lemma big_block st live fls blk n : heap_inv st None live fls blk NULL -> 0 < n ->
  returns ('(a, p) ← palloc_get_multiple 0 n (pages st);
    let st := put_pages st p in
    if a =? NULL then Ok (NULL, st) else
    Ok (u32 (a + sizeof_arena), set_arena st a (mk_arena ARENA_MAGIC None n))) (fun '(p, st') =>
      (same_place (pages st) (pages st') /\ same_bytes (pages st) (pages st')) /\
      ((p = NULL /\ (~ exists idx, free_run (kernel_pool (pages st)) idx n) /\ exists live fls, heap_inv st' None live fls blk NULL) \/
       fresh_block blk p (4096 * n - sizeof_arena) /\ in_pool (pages st) p (4096 * n - sizeof_arena) /\
       exists live fls, heap_inv st' None live fls (<[p := 4096 * n - sizeof_arena]> blk) NULL)).
Proof.
  intros Hi Hn. unfold sizeof_arena.
  apply returns_bind. eapply returns_mono; [apply (get_pages (pages st) live n (mo_client _ _ _ _ _ _ Hi)); lia|].
  intros [a ps'] (Hsp & Hk & [(-> & Hc & Hno)|(Hnn & Hc & Hfr & Hp & Hd & Hb & He)]).
  - apply returns_ok. split; [done|]. left. split; [done|]. split; [done|]. exists live, fls. by apply (inv_pages st None live); [|apply Hsp|..].
  - rewrite page_nonnull by done. apply returns_ok. split; [done|]. right. pose proof (mo_end _ _ _ _ _ _ Hi).
    pose proof Hp as (Ho & Hp0 & _). rewrite u32_small by lia.
    assert (Hu : unused (arenas st) a n) by (eapply unused_live; [|exact Hd]; intros; by apply (mo_live _ _ _ _ _ _ Hi)).
    assert (H1 : heap_inv (put_pages st ps') None (<[a := n]> live) fls blk NULL).
    { apply (inv_pages st None live); try done; [apply Hsp|]. intros a' r Ha'. apply lookup_insert_ne. intros <-.
      destruct (mo_live _ _ _ _ _ _ Hi a r Ha') as [E _]. congruence. }
    split; [|split; [unfold in_pool; lia|]].
    + split; [lia|]. split; [lia|]. split.
      * rewrite pg_ofs_mod in Ho. change PGSIZE with (4 * 1024) in Ho. pose proof (Z.div_mod a (4 * 1024) ltac:(lia)).
        replace (a + 12) with ((1024 * (a / (4 * 1024)) + 3) * 4) by lia. by apply Z.mod_mul.
      * intros q sq Hq. destruct (page_fresh _ (mo_arenas _ _ _ _ _ _ Hi) a n q sq Hu Hq); lia.
    + exists (<[a := n]> live), fls. destruct Hsp as [(Eb & Ee & _) _]. eapply inv_change; [exact H1|done..| |].
      * simpl. apply (arenas_add_big descs_at (arenas st) (links st) fls blk NULL a n); try done; [apply (mo_arenas _ _ _ _ _ _ Hi)|lia].
      * simpl. rewrite Eb, Ee. intros a' r [[<- <-]|[Hne Ha']]%lookup_insert_Some; [rewrite lookup_insert_eq; unfold npages; simpl; split; [done|lia]|].
        rewrite lookup_insert_ne by done. by apply (mo_live _ _ _ _ _ _ Hi).
Qed.

(** The largest request for which the number of pages does not wrap to something else
    than zero. *)
Definition MAX_REQUEST : Z := 2 ^ 32 - 12.

(** Close below 2^32 the number of pages wraps to zero, for which there is no block. *)
Lemma no_pages size : MAX_REQUEST - 4096 < size <= MAX_REQUEST -> DIV_ROUND_UP (u32 (size + 12)) PGSIZE = 0.
Proof.
  unfold MAX_REQUEST, DIV_ROUND_UP. change PGSIZE with 4096. intros Hs. apply Z.div_small.
  destruct (decide (size = 2 ^ 32 - 12)) as [->|Hne]; [done|]. rewrite (u32_small (size + 12)) by lia.
  unfold u32. rewrite <- (Z.mod_unique (size + 12 + 4096 - 1) (2 ^ 32) 1 (size + 12 + 4096 - 1 - 2 ^ 32)); lia.
Qed.

Lemma malloc_big st live fls blk size : heap_inv st None live fls blk NULL -> 0 < size <= MAX_REQUEST ->
  returns (let page_cnt := DIV_ROUND_UP (u32 (size + sizeof_arena)) PGSIZE in
    '(a, p) ← palloc_get_multiple 0 page_cnt (pages st);
    let st := put_pages st p in
    if a =? NULL then Ok (NULL, st) else
    Ok (u32 (a + sizeof_arena), set_arena st a (mk_arena ARENA_MAGIC None page_cnt))) (malloc_post st blk size).
Proof.
  intros Hi Hs. cbv zeta. change (u32 (size + sizeof_arena)) with (u32 (size + 12)).
  destruct (decide (MAX_REQUEST - 4096 < size)) as [Hbig|Hsmall].
  { rewrite no_pages by lia. apply returns_ok. split; [done|]. left. split; [done|]. exists live, fls. by destruct st. }
  unfold MAX_REQUEST in *. rewrite (u32_small (size + 12)) by lia.
  pose proof (DIV_ROUND_UP_spec (size + 12) PGSIZE ltac:(lia) ltac:(done) ltac:(change PGSIZE with 4096; lia)) as Hn.
  set (n := DIV_ROUND_UP (size + 12) PGSIZE) in *. clearbody n. change PGSIZE with 4096 in Hn.
  eapply returns_mono; [apply (big_block st live fls blk n Hi); lia|]. intros [p st'] (Hsp & Hr). split; [done|].
  destruct Hr as [(-> & _ & Hr)|Hr]; [by left|right]. exists (4096 * n - sizeof_arena). split; [unfold sizeof_arena; lia|done].
Qed.

Lemma slots_cons a i : (i < 7)%nat -> exists es, slots a i = slot a i 0 :: es.
Proof.
  intros Hi. destruct (bpa_range i Hi). unfold slots. rewrite seqZ_cons by lia. simpl. eauto.
Qed.

(** Making sure that the free list has a block: it has one, or a new arena provides it, or
    there is no memory. *)
Lemma refill st live fls blk i d es : heap_inv st (Some i) live fls blk NULL -> (i < 7)%nat -> descs st !! i = Some d ->
  fls !! i = Some es ->
  returns (if bool_decide (es = []) then
       '(a, p) ← palloc_get_page 0 (pages st);
       let st := put_pages st p in
       if a =? NULL then st ← release st (desc_lock d); Ok (true, st)
       else st ← new_arena descs_at st i d a; Ok (false, st)
     else Ok (false, st)) (fun '(failed, st') => (same_place (pages st) (pages st') /\ same_bytes (pages st) (pages st')) /\ descs st' = descs st /\
    if (failed : bool) then exists live fls, heap_inv st' None live fls blk NULL
    else exists live' fls' x b es', heap_inv st' (Some i) live' fls' blk x /\ fls' !! i = Some (b :: es') /\
      (x = NULL \/ (page x /\ b ∈ slots x i))).
Proof.
  intros Hi Hlt Hd Hes. assert (Hlf : (i < length fls)%nat) by (by eapply lookup_lt_Some). destruct es as [|b es].
  - rewrite bool_decide_true by done. unfold palloc_get_page. apply returns_bind.
    eapply returns_mono; [apply (get_pages (pages st) live 1 (mo_client _ _ _ _ _ _ Hi)); lia|].
    intros [a ps'] (Hsp & Hk & [(-> & Hc & _)|(Hnn & Hc & Hfr & Hp & Hdj & Hb & He)]); cbv zeta.
    + simpl. apply returns_bind.
      eapply returns_mono; [apply (inv_release (put_pages st ps') live fls blk NULL i d); [by apply (inv_pages st (Some i) live); [|apply Hsp|..]|done..]|].
      intros st' [(k & ->) H']. apply returns_ok. split; [done|]. split; [done|]. eauto.
    + rewrite page_nonnull by done. apply returns_bind. destruct (slots_cons a i Hlt) as [es' Es].
      eapply returns_mono; [apply (new_arena_spec (put_pages st ps') (<[a := 1]> live) fls blk i d a); try done|].
      * apply (inv_pages st (Some i) live); try done; [apply Hsp|]. intros a' r Ha'. apply lookup_insert_ne. intros <-.
        destruct (mo_live _ _ _ _ _ _ Hi a r Ha') as [E _]. congruence.
      * apply lookup_insert_eq.
      * eapply unused_live; [|exact Hdj]. intros; by apply (mo_live _ _ _ _ _ _ Hi).
      * simpl. by destruct Hsp as [(-> & _) _].
      * simpl. destruct Hsp as [(_ & -> & _) _]. lia.
      * intros st' (Ep & Ed & H'). apply returns_ok. split; [by rewrite Ep|]. split; [done|].
        exists (<[a := 1]> live), (<[i := slots a i]> fls), a, (slot a i 0), es'. split; [done|]. rewrite list_lookup_insert_eq, Es by done.
        split; [done|]. right. split; [done|]. left.
  - rewrite bool_decide_false by done. apply returns_ok. split; [done|]. split; [done|]. exists live, fls, NULL, b, es. auto.
Qed.

Theorem malloc_spec st live fls blk size : heap_inv st None live fls blk NULL -> 0 <= size <= MAX_REQUEST ->
  returns (malloc descs_at st size) (malloc_post st blk size).
Proof.
  intros Hi Hs. unfold malloc. destruct (Z.eqb_spec size 0) as [->|Hne].
  { apply returns_ok. split; [done|]. left. eauto. }
  apply returns_bind. eapply returns_mono; [by apply (find_desc_spec st None live fls blk NULL size)|].
  intros i Hd. rewrite (mo_cnt _ _ _ _ _ _ Hi). destruct (Z.eqb_spec (Z.of_nat i) 7) as [E|Hn7].
  { eapply malloc_big; [done|lia]. }
  destruct Hd as [[Hlt Hle]|[-> _]]; [|lia]. destruct (mo_descs _ _ _ _ _ _ Hi i Hlt) as (d & Hd & Eb & _).
  rewrite (get_desc_eq st i d Hd), bind_ok. apply returns_bind.
  eapply returns_mono; [by apply (inv_acquire st live fls blk NULL i d)|]. intros st1 [(k & ->) H1].
  destruct (free_list_at _ (mo_arenas _ _ _ _ _ _ H1) i Hlt) as [es Hes].
  rewrite (list_empty_spec _ _ es), bind_ok by (apply (ls_list _ _ _ (ao_lists _ _ _ _ _ _ (mo_arenas _ _ _ _ _ _ H1)) i es Hes)).
  apply returns_bind. eapply returns_mono; [by apply (refill _ live fls blk i d es H1)|].
  intros [[|] st2] (Hsp & Ed & Hr).
  - apply returns_ok. split; [done|]. left. split; [done|]. destruct Hr as (live' & fls' & Hr). eauto.
  - destruct Hr as (live' & fls' & x & b & es' & H2 & Hes' & Hx).
    eapply returns_mono; [apply (take_block st2 live' fls' blk x i d b es'); try done; by rewrite Ed|].
    intros [b' st3] (-> & Hsp3 & Hfr & Hin & fls3 & H3). split; [by eapply same_pages_trans|]. right.
    exists (bsz i). split; [done|]. split; [done|]. split; [|eauto]. destruct Hsp as [(E1 & E2 & _) _]. unfold in_pool in *. by rewrite E1, E2 in Hin.
Qed.

(** ** [free] *)

(** A block that is not in its free list is in no free list. *)
Lemma slot_unlisted st hl live fls blk x a i c k es : heap_inv st hl live fls blk x -> small (arenas st) a i c -> 0 <= k < bpa i ->
  fls !! i = Some es -> slot a i k ∉ es -> outside (free_list descs_at) fls (slot a i k).
Proof.
  intros Hi Hs Hk Hes Hni j es' Hes' Hw. pose proof (mo_arenas _ _ _ _ _ _ Hi) as Hok. destruct (small_ok _ Hok a i c Hs) as [Hlt Hp].
  pose proof (slot_range a i k Hlt Hk). destruct (mo_live _ _ _ _ _ _ Hi a _ Hs) as (_ & Hb & _).
  assert (Hj : (j < 7)%nat) by (rewrite <- (ao_len _ _ _ _ _ _ Hok); by eapply lookup_lt_Some).
  destruct (mo_static _ _ _ _ _ _ Hi) as [Hs1 Hs2]. unfold whole in Hw. rewrite elem_of_cons, elem_of_app, list_elem_of_singleton in Hw.
  unfold free_list, sizeof_desc, head_of, tail_of in Hw. destruct Hw as [?|[Hin|?]]; [lia| |lia].
  destruct (ao_free _ _ _ _ _ _ Hok j es' _ Hes' Hin) as (a' & c' & k' & Hs' & Hk' & E).
  destruct (slot_same _ Hok a i c k a' j c' k' Hs Hs' Hk Hk' E) as (_ & -> & _). by simplify_eq.
Qed.

(** Links of elements outside of the free lists do not matter. *)
Lemma arenas_links (ar : gmap Z arena) (h h' : heap) fls blk (x : Z) : arenas_ok descs_at ar h fls blk x ->
  (forall y f, ~ outside (free_list descs_at) fls y -> h' !! (y, f) = h !! (y, f)) ->
  (forall y, allocated h y -> allocated h' y) -> arenas_ok descs_at ar h' fls blk x.
Proof. intros [] Hh Ha. split; try done; [by eapply lists_ext|eauto]. Qed.

Lemma filter_remove (es l1 l2 l : list Z) (x : Z) : NoDup es -> filter (fun b => b ∉ l) es = l1 ++ x :: l2 ->
  filter (fun b => b ∉ l ++ [x]) es = l1 ++ l2.
Proof.
  intros Hnd E. assert (Hx : NoDup (l1 ++ x :: l2)) by (rewrite <- E; by apply list.NoDup_filter).
  assert (E2 : filter (fun b => b ∉ l ++ [x]) es = filter (fun b => b <> x) (filter (fun b => b ∉ l) es)).
  { rewrite list_filter_filter. apply list_filter_iff. intros y. rewrite elem_of_app, list_elem_of_singleton. tauto. }
  rewrite E2, E, (list.filter_app (fun b => b <> x)), filter_cons_False by tauto. apply list.NoDup_app in Hx as (_ & H1 & [H2 _]%list.NoDup_cons).
  rewrite !filter_id; [done|intros y Hy ->; done|intros y Hy ->; by apply (H1 x Hy); left].
Qed.

Lemma lose_links_lookup (bs : list Z) (h : heap) (y : Z) (f : link) : y ∉ bs -> lose_links bs h !! (y, f) = h !! (y, f).
Proof.
  induction bs as [|b bs IH]; intros Hy; [done|]. cbn [lose_links foldr]. fold (lose_links bs h).
  rewrite !lookup_delete_ne by (intros [=]; set_solver). apply IH. set_solver.
Qed.

(** The loop that takes the blocks of the arena at [a] off the free list. *)
Lemma remove_blocks_spec st a i c d fls es : small (arenas st) a i c -> page a -> (i < 7)%nat ->
  descs st !! i = Some d -> block_size_of d = bsz i -> blocks_per_arena d = bpa i ->
  lists (links st) (free_list descs_at) fls -> fls !! i = Some es -> (forall k, 0 <= k < bpa i -> slot a i k ∈ es) ->
  returns (remove_blocks st d a) (fun st' => exists h', st' = put_links st h' /\ dom h' = dom (links st) /\
    lists h' (free_list descs_at) (<[i := filter (fun b => b ∉ slots a i) es]> fls)).
Proof.
  intros Hs Hp Hi Hd Eb Ep Hl Hes Hall. pose proof (bpa_range i Hi). unfold remove_blocks. rewrite Ep.
  assert (Hlt : (i < length fls)%nat) by (by eapply lookup_lt_Some).
  assert (Hnd : NoDup es).
  { pose proof (il_nodup _ _ _ (ls_list _ _ _ Hl i es Hes)) as Hn. unfold whole in Hn. apply list.NoDup_cons in Hn as [_ Hn].
    by apply list.NoDup_app in Hn as [Hn _]. }
  apply (returns_loop (fun '(k, st1) => 0 <= k <= bpa i /\ exists h1, st1 = put_links st h1 /\ dom h1 = dom (links st) /\
    lists h1 (free_list descs_at) (<[i := filter (fun b => b ∉ slot a i <$> seqZ 0 k) es]> fls)) (fun '(k, _) => Z.to_nat (bpa i - k))).
  - intros [k st1] (Hkr & h1 & -> & Hdom & Hl1). destruct (Z.ltb_spec k (bpa i)).
    + rewrite (arena_to_block_eq _ a i c k d), bind_ok by (done || lia). apply returns_bind. simpl links.
      assert (Hin : slot a i k ∈ filter (fun b => b ∉ slot a i <$> seqZ 0 k) es).
      { apply list_elem_of_filter. split; [|apply Hall; lia]. intros (k' & E & Hk'%elem_of_seqZ)%list_elem_of_fmap.
        apply (slot_inj a i k k' Hi) in E. lia. }
      apply list_elem_of_split in Hin as (l1 & l2 & El). rewrite El in Hl1.
      eapply returns_mono; [apply (lists_remove h1 _ _ i l1 (slot a i k) l2 Hl1); by apply list_lookup_insert_eq|].
      intros [y h2] (_ & Hl2 & _ & _ & [_ Hd2]). apply returns_ok. split; [|lia]. split; [lia|]. exists h2. split; [done|]. split; [congruence|].
      rewrite list_insert_insert_eq in Hl2. rewrite seqZ_app, fmap_app by lia.
      change (slot a i <$> seqZ (0 + k) 1) with [slot a i k]. by rewrite (filter_remove es l1 l2 _ (slot a i k) Hnd El).
    + apply returns_ok. exists h1. split; [done|]. split; [done|]. unfold slots. by replace k with (bpa i) in Hl1 by lia.
  - split; [lia|]. exists (links st). split; [by destruct st|]. split; [done|]. simpl.
    rewrite filter_id by (intros y _; apply not_elem_of_nil). by rewrite list_insert_id.
  - lia.
Qed.

(** An element that is filtered out of its list is in no list. *)
Lemma filtered_outside (h : heap) addr (bs : list (list Z)) i (es l : list Z) (x : Z) : lists h addr bs -> bs !! i = Some es ->
  x ∈ es -> x ∈ l -> outside addr (<[i := filter (fun b => b ∉ l) es]> bs) x.
Proof.
  intros Hl Hi Hx Hxl. apply list_elem_of_split in Hx as (es1 & es2 & ->). pose proof (removed_outside h addr bs i es1 x es2 Hl Hi) as Ho.
  intros j e [(<- & <- & Hlt)|[Hne Hj]]%list_lookup_insert_Some Hw.
  - apply (Ho i (es1 ++ es2)); [by apply list_lookup_insert_eq|]. unfold whole in *. rewrite elem_of_cons, elem_of_app, list_elem_of_filter in *. tauto.
  - apply (Ho j e); [by rewrite list_lookup_insert_ne|done].
Qed.

Lemma removed_unused (ar : gmap Z arena) (h : heap) fls blk (x a : Z) r : arenas_ok descs_at ar h fls blk x -> ar !! a = Some r ->
  unused (delete a ar) a (npages r).
Proof.
  intros Hok Ha a' r' [Hne H']%lookup_delete_Some. apply (ao_apart _ _ _ _ _ _ Hok a r a' r' Ha H' Hne).
Qed.

(** A state without the arena at [a], whose pages are given back. *)
Lemma inv_drop st hl live fls blk x ps' a : heap_inv st hl live fls blk x -> arenas st !! a = None -> same_place (pages st) ps' ->
  (forall l, (forall w, l <> pool_lock (get_pool (pages st) w)) -> keeps_lock l (pages st) ps') -> client_ok (ps', delete a live) ->
  heap_inv (put_pages st ps') hl (delete a live) fls blk x.
Proof.
  intros Hi Ha Hsp Hk Hc. apply (inv_pages st hl live); try done. intros a' r Ha'. apply lookup_delete_ne. intros <-. congruence.
Qed.

(** An arena all of whose blocks are free goes back to the page allocator. *)
Lemma free_arena_spec st live fls blk a i c d es : heap_inv st (Some i) live fls blk a -> small (arenas st) a i c ->
  descs st !! i = Some d -> fls !! i = Some es -> (forall k, 0 <= k < bpa i -> slot a i k ∈ es) ->
  returns (st ← remove_blocks st d a; free_arena st d a) (fun st' => same_place (pages st) (pages st') /\ descs st' = descs st /\
    (forall y, memory (pages st') y = if in_block y a 1 then 0xcc else memory (pages st) y) /\ unused (arenas st') a 1 /\
    exists live' fls', heap_inv st' (Some i) live' fls' blk NULL).
Proof.
  intros Hi Hs Hd Hes Hall. pose proof (mo_arenas _ _ _ _ _ _ Hi) as Hok. destruct (small_ok _ Hok a i c Hs) as [Hlt Hp].
  destruct (mo_descs _ _ _ _ _ _ Hi i Hlt) as (d' & Hd' & Eb & Ep). assert (d' = d) as -> by congruence.
  apply returns_bind. eapply returns_mono; [by apply (remove_blocks_spec st a i c d fls es); try done; apply (ao_lists _ _ _ _ _ _ Hok)|].
  intros st1 (h1 & -> & Hdom & Hl). unfold free_arena, palloc_free_page. apply returns_bind. simpl pages.
  destruct (mo_live _ _ _ _ _ _ Hi a _ Hs) as [Hla _]. unfold npages in Hla. simpl in Hla.
  eapply returns_mono; [apply (give_pages (pages st) live a 1 (mo_client _ _ _ _ _ _ Hi) Hla)|].
  intros ps' (Hsp & Hk & Hc & Hmem). rewrite Eb, Ep. change ((fun k => a + sizeof_arena + k * bsz i) <$> seqZ 0 (bpa i)) with (slots a i).
  apply returns_ok. simpl. split; [done|]. split; [done|]. split; [done|]. split; [exact (removed_unused _ _ _ _ _ _ _ Hok Hs)|].
  set (es' := filter (fun b => b ∉ slots a i) es) in *. exists (delete a live), (<[i := es']> fls).
  set (st2 := mk_malloc (descs st) (Malloc.desc_cnt st) (delete a (arenas st)) (lose_links (slots a i) h1) (pages st)).
  assert (H2 : heap_inv st2 (Some i) live (<[i := es']> fls) blk NULL).
  { eapply inv_change; [exact Hi|done..| |].
    - simpl. apply (arenas_remove_small descs_at (arenas st) (links st) fls blk a i c es); try done.
      + eapply lists_ext; [exact Hl|]. intros y f Hy. apply lose_links_lookup. intros (k & Hk' & ->)%elem_slots. apply Hy.
        by apply (filtered_outside _ _ _ i es _ _ (ao_lists _ _ _ _ _ _ Hok) Hes); [apply Hall|apply elem_slots; eauto].
      + intros y Hy (Hy0 & Hy1 & Hy2). destruct (allocated_dom (links st) h1 y Hdom ltac:(done)) as (_ & ? & ?).
        split; [done|]. by rewrite !lose_links_lookup.
    - simpl. intros a' r [_ Ha']%lookup_delete_Some. by apply (mo_live _ _ _ _ _ _ Hi). }
  by apply (inv_drop st2 (Some i) live _ blk NULL ps' a H2); [apply lookup_delete_eq|..].
Qed.

(** The block at [p] is free again; the bytes of all other blocks are unchanged. *)
Definition free_post st blk (p : Z) st' : Prop :=
  same_place (pages st) (pages st') /\
  (forall q sz y, blk !! q = Some sz -> q <> p -> q <= y < q + sz -> memory (pages st') y = memory (pages st) y) /\
  exists live fls, heap_inv st' None live fls (delete p blk) NULL.

Lemma in_block_out y a n q sz : a + 4096 * n <= q \/ q + sz <= a -> q <= y < q + sz -> in_block y a n = false.
Proof. intros Hd Hy. unfold in_block. change PGSIZE with 4096. zbool. Qed.

Lemma free_big st live fls blk a n : heap_inv st None live fls blk NULL -> big (arenas st) a n ->
  returns (free descs_at st (a + sizeof_arena)) (free_post st blk (a + sizeof_arena)).
Proof.
  intros Hi Hb. pose proof (mo_arenas _ _ _ _ _ _ Hi) as Hok. destruct (big_ok _ Hok a n Hb) as (Hp & Hn & He).
  unfold free. pose proof Hp as (_ & Hp0 & _). rewrite (proj2 (Z.eqb_neq _ NULL)) by (unfold sizeof_arena, NULL; lia).
  rewrite (block_to_arena_big st a n Hb Hp), bind_ok, (get_arena_eq st a _ Hb), bind_ok. cbn [owner free_cnt]. apply returns_bind.
  destruct (mo_live _ _ _ _ _ _ Hi a _ Hb) as [Hla _]. unfold npages in Hla. simpl in Hla.
  eapply returns_mono; [apply (give_pages (pages st) live a n (mo_client _ _ _ _ _ _ Hi) Hla)|].
  intros ps' (Hsp & Hk & Hc & Hmem). apply returns_ok. split; [done|].
  pose proof (arenas_remove_big descs_at _ _ _ _ _ a n Hok Hb) as Hok'. split.
  - intros q sz y Hq Hne Hy. simpl. rewrite Hmem. rewrite (in_block_out y a n q sz); [done| |done].
    apply (page_fresh _ Hok' a n q sz); [exact (removed_unused _ _ _ _ _ _ _ Hok Hb)|by rewrite lookup_delete_ne].
  - exists (delete a live), fls. apply (inv_drop (put_arenas st (delete a (arenas st))) None live); [|apply lookup_delete_eq|done..].
    eapply inv_change; [exact Hi|done..| |]; [done|]. simpl. intros a' r [_ Ha']%lookup_delete_Some. by apply (mo_live _ _ _ _ _ _ Hi).
Qed.

(** The invariant does not depend on the bytes of memory. *)
Lemma inv_memory st hl live fls blk x m : heap_inv st hl live fls blk x -> heap_inv (put_pages st (put_memory (pages st) m)) hl live fls blk x.
Proof.
  intros Hi. apply (inv_pages st hl live); try done. apply (client_ok_same (pages st)); [apply (mo_client _ _ _ _ _ _ Hi)| |by intros []].
  destruct (mo_client _ _ _ _ _ _ Hi) as [(Hw & Hd & Hne & Hl) _]. split_and!; try done. all: intros w; by destruct w.
Qed.

(** The contents of a block that is about to be free are overwritten, and its links are
    what is left there. *)
Lemma poison_block st live fls blk a i c k m es : heap_inv st None live fls blk NULL -> small (arenas st) a i c -> 0 <= k < bpa i ->
  fls !! i = Some es -> slot a i k ∉ es ->
  heap_inv (put_links (put_pages st (put_memory (pages st) m)) (raw_links m [slot a i k] (links st))) None live fls blk NULL.
Proof.
  intros Hi Hs Hk Hes Hni. pose proof (mo_arenas _ _ _ _ _ _ Hi) as Hok. destruct (small_ok _ Hok a i c Hs) as [Hlt Hp].
  pose proof (inv_memory _ _ _ _ _ _ m Hi) as H1.
  eapply inv_change; [exact H1|done..| |]; [|apply (mo_live _ _ _ _ _ _ Hi)].
  pose proof (slot_unlisted _ _ _ _ _ _ a i c k es Hi Hs Hk Hes Hni) as Ho.
  apply (arenas_links _ (links st)); [done|..].
  - intros y f Hy. simpl. apply (raw_links_lookup m [slot a i k]). intros ->%list_elem_of_singleton. done.
  - intros y (Hy & H2 & H3). split; [done|]. destruct (decide (y ∈ [slot a i k])) as [Hin|Hout].
    + split; by apply (raw_links_lookup m [slot a i k]).
    + cbn [links put_links]. rewrite (proj2 (raw_links_lookup m [slot a i k] (links st) y Prev) Hout).
      by rewrite (proj2 (raw_links_lookup m [slot a i k] (links st) y Next) Hout).
Qed.

(** Counting a block that came back, under the lock of its descriptor. *)
Lemma give_block st live fls blk a i c k d es : heap_inv st (Some i) live fls blk NULL -> small (arenas st) a i c -> 0 <= k < bpa i ->
  descs st !! i = Some d -> fls !! i = Some es -> slot a i k ∉ es ->
  returns (h ← list_push_front (links st) (free_list descs_at i) (slot a i k);
    let st := put_links st h in
    r ← get_arena st a;
    let cnt := u32 (free_cnt r + 1) in
    let st := set_arena st a (mk_arena (magic r) (owner r) cnt) in
    st ←
      (if blocks_per_arena d <=? cnt then
         ASSERT (cnt =? blocks_per_arena d);;
         st ← remove_blocks st d a;
         free_arena st d a
       else Ok st);
    release st (desc_lock d)) (fun st' => same_place (pages st) (pages st') /\
      (same_bytes (pages st) (pages st') \/ unused (arenas st') a 1 /\
        forall y, memory (pages st') y = if in_block y a 1 then 0xcc else memory (pages st) y) /\
      exists live fls, heap_inv st' None live fls (delete (slot a i k) blk) NULL).
Proof.
  intros Hi Hs Hk Hd Hes Hni. pose proof (mo_arenas _ _ _ _ _ _ Hi) as Hok. destruct (small_ok _ Hok a i c Hs) as [Hlt Hp].
  destruct (mo_descs _ _ _ _ _ _ Hi i Hlt) as (d' & Hd' & _ & Ep). assert (d' = d) as -> by congruence. rewrite Ep.
  pose proof (slot_unlisted _ _ _ _ _ _ a i c k es Hi Hs Hk Hes Hni) as Ho. pose proof (bpa_range i Hlt) as Hbr.
  assert (Hlf : (i < length fls)%nat) by (by eapply lookup_lt_Some).
  assert (Hc : 0 <= c < bpa i).
  { pose proof (ao_some _ _ _ _ _ _ Hok a i c Hs ltac:(destruct Hp as (_ & ? & _); unfold NULL; lia)).
    rewrite (ao_cnt _ _ _ _ _ _ Hok a i c es Hs Hes) in *. lia. }
  apply returns_bind. eapply returns_mono; [apply (lists_push_front _ _ _ i es _ (ao_lists _ _ _ _ _ _ Hok) Hes); [by apply (ao_cells _ _ _ _ _ _ Hok a i c)|done]|].
  intros h' [Hl [_ Hdom]]. cbv zeta. rewrite (get_arena_eq (put_links st h') a _ Hs), bind_ok. cbn [free_cnt magic owner]. rewrite u32_small by lia.
  set (st1 := set_arena _ _ _).
  assert (Hm : moved (slot a i k) i es (slot a i k :: es) c (c + 1) blk (delete (slot a i k) blk)) by (split; [set_solver|right; set_solver]).
  assert (H1 : forall x', (x' = NULL /\ c + 1 < bpa i) \/ x' = a -> heap_inv st1 (Some i) live (<[i := slot a i k :: es]> fls) (delete (slot a i k) blk) x').
  { intros x' Hx'. eapply inv_change; [exact Hi|done..| |].
    - simpl. apply (arenas_update descs_at (arenas st) (links st) fls blk NULL a i c k es); try done; [|lia].
      intros a0 (_ & Ha0 & _) _ _. unfold NULL. lia.
    - simpl. intros a' r [[<- <-]|[Hne Ha']]%lookup_insert_Some; [apply (mo_live _ _ _ _ _ _ Hi a _ Hs)|by apply (mo_live _ _ _ _ _ _ Hi)]. }
  destruct (Z.leb_spec (bpa i) (c + 1)).
  - rewrite assert_bind by (zbool; lia). specialize (H1 a ltac:(by right)).
    assert (Hall : forall k', 0 <= k' < bpa i -> slot a i k' ∈ slot a i k :: es).
    { pose proof (ao_cnt _ _ _ _ _ _ (mo_arenas _ _ _ _ _ _ H1) a i (c + 1) (slot a i k :: es) ltac:(apply lookup_insert_eq) ltac:(by apply list_lookup_insert_eq)) as Hcnt.
      intros k' Hk'. apply (filter_all (fun k0 => slot a i k0 ∈ slot a i k :: es) (seqZ 0 (bpa i))); [|apply elem_of_seqZ; lia].
      unfold free_slots in Hcnt. rewrite length_seqZ. lia. }
    apply returns_bind. eapply returns_mono; [apply (free_arena_spec st1 live _ _ a i (c + 1) d (slot a i k :: es) H1); [apply lookup_insert_eq|done|by apply list_lookup_insert_eq|done]|].
    intros st2 (Hsp & Ed & Hmem & Hu & live' & fls' & H2).
    eapply returns_mono; [apply (inv_release st2 live' fls' _ NULL i d H2 Hlt); by rewrite Ed|].
    intros st3 [(kk & ->) H3]. split; [done|]. split; [by right|]. eauto.
  - rewrite bind_ok. eapply returns_mono; [apply (inv_release st1 live _ _ NULL i d (H1 NULL ltac:(left; split; [done|lia])) Hlt Hd)|].
    intros st3 [(kk & ->) H3]. split; [done|]. split; [by left|]. eauto.
Qed.

Lemma free_small st live fls blk a i c k es : heap_inv st None live fls blk NULL -> small (arenas st) a i c -> 0 <= k < bpa i ->
  fls !! i = Some es -> slot a i k ∉ es -> returns (free descs_at st (slot a i k)) (free_post st blk (slot a i k)).
Proof.
  intros Hi Hs Hk Hes Hni. pose proof (mo_arenas _ _ _ _ _ _ Hi) as Hok. destruct (small_ok _ Hok a i c Hs) as [Hlt Hp].
  destruct (mo_descs _ _ _ _ _ _ Hi i Hlt) as (d & Hd & Eb & _). pose proof (slot_range a i k Hlt Hk). pose proof (bsz_range i Hlt).
  pose proof Hp as (_ & Hp0 & Hp1). unfold free. rewrite (proj2 (Z.eqb_neq _ NULL)) by (unfold NULL; lia).
  rewrite (block_to_arena_small st a i c k d), bind_ok, (get_arena_eq st a _ Hs), bind_ok by done. cbn [owner].
  rewrite (get_desc_eq st i d Hd), bind_ok, Eb. apply returns_bind.
  eapply returns_mono; [apply (memset_spec _ (slot a i k)); unfold block_ok, NULL; lia|]. intros m Hm. cbv zeta.
  pose proof (poison_block st live fls blk a i c k m es Hi Hs Hk Hes Hni) as H1. apply returns_bind.
  eapply returns_mono; [by apply (inv_acquire _ live fls blk NULL i d H1)|]. intros st1 [(kk & ->) H2].
  eapply returns_mono; [by apply (give_block _ live fls blk a i c k d es H2)|].
  intros st2 (Hsp & Hmem & live2 & fls2 & H3). split; [done|]. split; [|eauto].
  intros q sz y Hq Hne Hy.
  assert (Hmy : m y = memory (pages st) y).
  { rewrite Hm. destruct (slot_fresh _ Hok a i c k q sz Hs Hk Hq Hne); (case_match eqn:E; [zbool; lia|done]). }
  destruct Hmem as [Hmem|[Hu Hmem]]; [by rewrite (Hmem y)|].
  rewrite Hmem, (in_block_out y a 1 q sz); [done| |done].
  apply (page_fresh _ (mo_arenas _ _ _ _ _ _ H3) a 1 q sz Hu). by rewrite lookup_delete_ne.
Qed.

Theorem free_spec st live fls blk p : heap_inv st None live fls blk NULL -> is_Some (blk !! p) ->
  returns (free descs_at st p) (free_post st blk p).
Proof.
  intros Hi [sz Hb]. pose proof (mo_arenas _ _ _ _ _ _ Hi) as Hok.
  destruct (ao_blk _ _ _ _ _ _ Hok p sz Hb) as [(a & i & c & k & Hs & Hk & ->)|(a & n & Hg & ->)]; [|by apply (free_big st live fls blk a n)].
  destruct (small_ok _ Hok a i c Hs) as [Hlt _]. destruct (free_list_at _ Hok i Hlt) as [es Hes].
  destruct (ao_slot _ _ _ _ _ _ Hok a i c k es Hs Hk Hes) as [[_ E]|[Hni _]]; [congruence|]. by apply (free_small st live fls blk a i c k es).
Qed.

Theorem block_size_spec st hl live fls blk x p sz : heap_inv st hl live fls blk x -> blk !! p = Some sz -> block_size st p = Ok sz.
Proof.
  intros Hi Hb. pose proof (mo_arenas _ _ _ _ _ _ Hi) as Hok. unfold block_size.
  destruct (ao_blk _ _ _ _ _ _ Hok p sz Hb) as [(a & i & c & k & Hs & Hk & ->)|(a & n & Hg & ->)].
  - destruct (small_ok _ Hok a i c Hs) as [Hlt Hp]. destruct (mo_descs _ _ _ _ _ _ Hi i Hlt) as (d & Hd & Eb & _).
    destruct (free_list_at _ Hok i Hlt) as [es Hes]. rewrite (block_to_arena_small st a i c k d), bind_ok, (get_arena_eq st a _ Hs), bind_ok by done.
    cbn [owner]. rewrite (get_desc_eq st i d Hd), bind_ok, Eb. destruct (ao_slot _ _ _ _ _ _ Hok a i c k es Hs Hk Hes) as [[_ E]|[_ E]]; congruence.
  - destruct (big_ok _ Hok a n Hg) as (Hp & Hn & He). pose proof Hp as (Ho & Hp0 & _).
    rewrite (block_to_arena_big st a n Hg Hp), bind_ok, (get_arena_eq st a _ Hg), bind_ok. cbn [owner free_cnt].
    destruct (page_of a sizeof_arena Hp ltac:(unfold sizeof_arena; lia)) as [_ ->]. rewrite (ao_big _ _ _ _ _ _ Hok a n Hg) in Hb. injection Hb as <-.
    change PGSIZE with 4096. unfold sizeof_arena. rewrite u32_small by lia. done.
Qed.

(** ** [calloc] and [realloc] *)

Lemma fresh_ok blk p sz n : fresh_block blk p sz -> 0 <= n <= sz -> block_ok p n.
Proof. intros (? & ? & _) ?. unfold block_ok, NULL. lia. Qed.

(** The block is all zeros, every byte outside of it is as before. *)
Definition calloc_post st blk size (r : Z * malloc_state K L B) : Prop :=
  let '(p, st') := r in same_place (pages st) (pages st') /\
  ((p = NULL /\ same_bytes (pages st) (pages st') /\ exists live fls, heap_inv st' None live fls blk NULL) \/
   exists sz, size <= sz /\ fresh_block blk p sz /\
     (forall y, memory (pages st') y = if (p <=? y) && (y <? p + size) then 0 else memory (pages st) y) /\
     exists live fls, heap_inv st' None live fls (<[p := sz]> blk) NULL).

Theorem calloc_spec st live fls blk a b : heap_inv st None live fls blk NULL -> 0 <= a < 2 ^ 32 -> 0 <= b < 2 ^ 32 ->
  a * b <= MAX_REQUEST ->
  returns (calloc descs_at st a b) (calloc_post st blk (a * b)).
Proof.
  intros Hi Ha Hb Hab. unfold calloc. rewrite u32_small by (unfold MAX_REQUEST in Hab; nia).
  destruct (_ || _) eqn:Eo.
  { apply returns_ok. split; [done|]. left. split; [done|]. split; [done|]. eauto. }
  apply orb_false_iff in Eo as [Ea%Z.ltb_ge Eb%Z.ltb_ge].
  apply returns_bind. eapply returns_mono; [apply (malloc_spec st live fls blk (a * b) Hi); nia|].
  intros [p st'] ([Hsp Hby] & [[-> H']|(sz & Hle & Hf & _ & live' & fls' & H')]).
  - apply returns_ok. split; [done|]. by left.
  - rewrite (proj2 (Z.eqb_neq p NULL)) by (destruct Hf; unfold NULL; lia). simpl. apply returns_bind.
    eapply returns_mono; [apply (memset_spec _ p 0 (a * b)); eapply fresh_ok; [done|nia]|]. intros m Hm. apply returns_ok.
    split; [done|]. right. exists sz. split; [done|]. split; [done|]. split; [intros y; simpl; by rewrite Hm, Hby|].
    exists live', fls'. by apply inv_memory.
Qed.

Lemma no_null_block st hl live fls blk x : heap_inv st hl live fls blk x -> blk !! NULL = None.
Proof.
  intros Hi. destruct (blk !! NULL) as [sz|] eqn:E; [|done].
  destruct (block_place _ (mo_arenas _ _ _ _ _ _ Hi) NULL sz E) as (a & r & _ & (_ & ? & _) & ? & _). unfold NULL, sizeof_arena in *. lia.
Qed.

(** The bytes of the blocks other than [old] are unchanged. *)
Definition others_kept st blk (old : Z) st' : Prop :=
  forall q sz y, blk !! q = Some sz -> q <> old -> q <= y < q + sz -> memory (pages st') y = memory (pages st) y.

Definition realloc_post st blk old new_size (r : Z * malloc_state K L B) : Prop :=
  let '(p, st') := r in others_kept st blk old st' /\
  ((new_size = 0 /\ p = NULL /\ exists live fls, heap_inv st' None live fls (delete old blk) NULL) \/
   (new_size <> 0 /\ p = NULL /\ same_bytes (pages st) (pages st') /\ exists live fls, heap_inv st' None live fls blk NULL) \/
   exists sz, new_size <= sz /\ fresh_block blk p sz /\
     (forall osz j, blk !! old = Some osz -> 0 <= j < Z.min new_size osz -> memory (pages st') (p + j) = memory (pages st) (old + j)) /\
     exists live fls, heap_inv st' None live fls (<[p := sz]> (delete old blk)) NULL).

Lemma free_null st : free descs_at st NULL = Ok st.
Proof. done. Qed.

Lemma realloc_free st live fls blk old : heap_inv st None live fls blk NULL -> old = NULL \/ is_Some (blk !! old) ->
  returns (free descs_at st old) (fun st' => others_kept st blk old st' /\ exists live fls, heap_inv st' None live fls (delete old blk) NULL).
Proof.
  intros Hi [->|Ho].
  - apply returns_ok. split; [done|]. rewrite delete_id by (by eapply no_null_block). eauto.
  - eapply returns_mono; [by apply (free_spec st live fls blk old)|]. intros st' (_ & Hk & H'). done.
Qed.

(** Copying into the new block and freeing the old one. *)
Lemma realloc_move st live fls blk old osz p sz n : heap_inv st None live fls (<[p := sz]> blk) NULL -> fresh_block blk p sz ->
  blk !! old = Some osz -> 0 < osz -> 0 < n <= Z.min sz osz ->
  returns (m ← memcpy (memory (pages st)) p old n; free descs_at (put_pages st (put_memory (pages st) m)) old) (fun st' =>
    others_kept st blk old st' /\ (forall j, 0 <= j < n -> memory (pages st') (p + j) = memory (pages st) (old + j)) /\
    exists live fls, heap_inv st' None live fls (<[p := sz]> (delete old blk)) NULL).
Proof.
  intros Hi Hf Ho Hpos Hn. pose proof Hf as (Hp & He & _ & Hd).
  assert (Hne : p <> old) by (intros ->; destruct (Hd _ _ Ho); lia).
  assert (Ho' : <[p := sz]> blk !! old = Some osz) by (by rewrite lookup_insert_ne).
  destruct (block_place _ (mo_arenas _ _ _ _ _ _ Hi) old osz Ho') as (a & r & Hr & (_ & Ha & _) & Ho1 & Ho2 & _).
  destruct (mo_live _ _ _ _ _ _ Hi a r Hr) as (_ & _ & Hend). pose proof (mo_end _ _ _ _ _ _ Hi). unfold sizeof_arena in Ho1.
  apply returns_bind. eapply returns_mono; [apply (memcpy_spec _ p old n); [unfold block_ok, NULL; lia..|destruct (Hd _ _ Ho); lia]|].
  intros m Hm. eapply returns_mono; [apply (free_spec _ live fls (<[p := sz]> blk) old); [by apply inv_memory|by rewrite Ho']|].
  intros st' (_ & Hk & H'). rewrite delete_insert_ne in H' by done. split; [|split; [|done]].
  - intros q sq y Hq Hqo Hy. assert (q <> p) by (intros ->; destruct (Hd _ _ Hq); lia).
    rewrite (Hk q sq y); [|by rewrite lookup_insert_ne|done|done]. simpl. rewrite Hm.
    case_match eqn:E; [|done]. zbool. destruct (Hd _ _ Hq); lia.
  - intros j Hj. rewrite (Hk p sz (p + j)); [|apply lookup_insert_eq|done|lia]. simpl. rewrite Hm.
    case_match eqn:E; [f_equal; lia|zbool; lia].
Qed.

Theorem realloc_spec st live fls blk old new_size : heap_inv st None live fls blk NULL -> old = NULL \/ is_Some (blk !! old) ->
  0 <= new_size <= MAX_REQUEST -> returns (realloc descs_at st old new_size) (realloc_post st blk old new_size).
Proof.
  intros Hi Ho Hs. unfold realloc. destruct (Z.eqb_spec new_size 0) as [->|Hne].
  { apply returns_bind. eapply returns_mono; [by apply (realloc_free st live fls blk old)|]. intros st' [Hk H']. apply returns_ok. split; [done|]. by left. }
  apply returns_bind. eapply returns_mono; [by apply (malloc_spec st live fls blk new_size)|].
  intros [p st'] ([Hsp Hby] & [[-> H']|(sz & Hle & Hf & _ & live' & fls' & H')]).
  { rewrite andb_false_r. apply returns_ok. split; [intros q sz y _ _ _; apply Hby|]. right. by left. }
  rewrite (proj2 (Z.eqb_neq p NULL)) by (destruct Hf; unfold NULL; lia). rewrite andb_true_r.
  destruct Ho as [->|[osz Hos]].
  - apply returns_ok. split; [intros q sq y _ _ _; apply Hby|]. right. right. exists sz. split; [done|]. split; [done|].
    pose proof (no_null_block _ _ _ _ _ _ Hi) as Hn. split; [intros ? ? ?; congruence|]. rewrite delete_id by done. eauto.
  - assert (old <> NULL) by (intros ->; rewrite (no_null_block _ _ _ _ _ _ Hi) in Hos; done).
    rewrite (proj2 (Z.eqb_neq old NULL)) by done. simpl. pose proof Hf as (_ & _ & _ & Hd).
    destruct (block_place _ (mo_arenas _ _ _ _ _ _ Hi) old osz Hos) as (_ & _ & _ & _ & _ & _ & Hpos).
    assert (Hop : <[p := sz]> blk !! old = Some osz) by (rewrite lookup_insert_ne; [done|intros ->; destruct (Hd _ _ Hos); lia]).
    rewrite (block_size_spec _ _ _ _ _ _ _ _ H' Hop), bind_ok.
    replace (if new_size <? osz then new_size else osz) with (Z.min new_size osz) by (case_match eqn:E; zbool; lia).
    pose proof (realloc_move st' live' fls' blk old osz p sz (Z.min new_size osz) H' Hf Hos Hpos ltac:(lia)) as Hm.
    apply returns_inv in Hm as (st2 & E & Hk & Hcp & H2). apply bind_ok_inv in E as (m & E1 & E2). rewrite E1, bind_ok, E2, bind_ok.
    apply returns_ok. split; [intros q sq y Hq Hqo Hy; by rewrite (Hk q sq y), Hby|]. right. right. exists sz. split; [done|]. split; [done|].
    split; [|done]. intros o j Hoo Hj. assert (o = osz) as -> by congruence. by rewrite Hcp, Hby.
Qed.

(** ** Initialisation *)

(** The state [malloc_init] finds: the array of descriptors is still zero, the pools are
    set up, and the locks of the descriptors are not yet in use for anything else. *)
Record malloc_start st live : Prop := {
  ms_cnt : Malloc.desc_cnt st = 0;
  ms_len : length (descs st) = 10%nat;
  ms_arenas : arenas st = ∅;
  ms_client : client_ok (pages st, live);
  ms_ctx : lock_ctx (ksync (pages st));
  ms_static : 0 < descs_at /\ descs_at + 480 <= base (kernel_pool (pages st));
  ms_end : pool_end (kernel_pool (pages st)) < 2 ^ 32;
  ms_lock_ne : forall i d, (i < 7)%nat -> descs st !! i = Some d -> (forall w, desc_lock d <> pool_lock (get_pool (pages st) w)) /\
    forall j d', (j < 7)%nat -> descs st !! j = Some d' -> j <> i -> desc_lock d' <> desc_lock d;
  ms_cells : forall i x, (i < 7)%nat -> x ∈ whole (free_list descs_at i) [] -> allocated (links st) x
}.

(** After [j] rounds of the loop. *)
Record started st live (j : nat) (st' : malloc_state K L B) : Prop := {
  sd_cnt : Malloc.desc_cnt st' = Z.of_nat j;
  sd_len : length (descs st') = 10%nat;
  sd_arenas : arenas st' = ∅;
  sd_locks : desc_lock <$> descs st' = desc_lock <$> descs st;
  sd_descs : forall i, (i < j)%nat -> exists d, descs st' !! i = Some d /\ block_size_of d = bsz i /\ blocks_per_arena d = bpa i;
  sd_pages : exists k, pages st' = put_ksync (pages st) k /\ lock_ctx k /\ (forall w, lock_free (pool_lock (get_pool (pages st) w)) k) /\
    forall i d, (i < j)%nat -> descs st !! i = Some d -> lock_free (desc_lock d) k;
  sd_lists : lists (links st') (free_list descs_at) (replicate j []);
  sd_dom : dom (links st') = dom (links st)
}.

Lemma bsz_double i : (i < 7)%nat -> u32 (bsz i * 2) = bsz (S i) /\ bsz i < PGSIZE / 2.
Proof. revert i. apply desc_cases; vm_compute; auto. Qed.

Lemma free_lists_apart i j x : i <> j -> x ∈ whole (free_list descs_at i) [] -> x ∉ whole (free_list descs_at j) [].
Proof. intros Hij. unfold whole, free_list, sizeof_desc, head_of, tail_of. simpl. rewrite !elem_of_cons, !elem_of_nil. lia. Qed.

Lemma same_lock (ds ds' : list (desc L)) i d : desc_lock <$> ds' = desc_lock <$> ds -> ds' !! i = Some d ->
  exists d0, ds !! i = Some d0 /\ desc_lock d0 = desc_lock d.
Proof.
  intros E Hd. assert (Hi : (desc_lock <$> ds') !! i = Some (desc_lock d)) by (by rewrite list_lookup_fmap, Hd).
  rewrite E, list_lookup_fmap in Hi. destruct (ds !! i) as [d0|]; simplify_eq/=. eauto.
Qed.

Lemma malloc_init_round st live j st1 : malloc_start st live -> started st live j st1 -> (j < 7)%nat ->
  returns (malloc_init_step descs_at (bsz j, st1)) (fun r => exists st2, r = inl (bsz (S j), st2) /\ started st live (S j) st2).
Proof.
  intros Hm [Hc Hn Har Hlk Hds (k & Hp & Hctx & Hpw & Hfree) Hl Hdom] Hj. destruct (bsz_double j Hj) as [Eu Eb].
  unfold malloc_init_step. rewrite (proj2 (Z.ltb_lt _ _) Eb), Hc. cbn [Malloc.desc_cnt put_descs descs].
  rewrite (u32_small (Z.of_nat j + 1)) by lia. rewrite assert_bind by (zbool; lia).
  destruct (lookup_lt_is_Some_2 (descs st1) j ltac:(lia)) as [d Hd].
  rewrite (proj2 (rd_ok _ _ d)), bind_ok by (rewrite Nat2Z.id; split; [lia|done]). rewrite wr_ok, bind_ok by lia. rewrite Nat2Z.id.
  cbn [links put_descs pages]. apply returns_bind.
  assert (Hal : forall x, x ∈ whole (free_list descs_at j) [] -> allocated (links st1) x).
  { intros x Hx. eapply allocated_dom; [exact Hdom|]. by eapply (ms_cells _ _ Hm j). }
  eapply returns_mono; [apply list_init_spec; apply Hal; unfold whole; set_solver|]. intros h' [Hnew Hf]. apply returns_ok.
  eexists. split; [by rewrite Eu|]. destruct (same_lock _ _ j d Hlk Hd) as (d0 & Hd0 & El).
  destruct (ms_lock_ne _ _ Hm j d0 Hj Hd0) as [Hne1 Hne2]. pose proof (lock_init_law (desc_lock d) k Hctx) as (Hctx' & Hfr' & Hkeep).
  split; simpl.
  - lia.
  - by rewrite length_insert.
  - done.
  - rewrite list_fmap_insert. simpl. rewrite list_insert_id; [done|]. by rewrite list_lookup_fmap, Hd.
  - intros i Hi. destruct (decide (i = j)) as [->|Hne]; [eexists; split; [by apply list_lookup_insert_eq; rewrite Hn; lia|done]|].
    rewrite list_lookup_insert_ne by done. apply Hds. lia.
  - rewrite Hp. simpl. exists (lock_init (desc_lock d) k). split; [done|]. split; [done|]. split; [intros w; apply Hkeep; [rewrite <- El; by apply not_eq_sym|done]|].
    intros i d' Hi Hd'. destruct (decide (i = j)) as [->|Hne]; [assert (d' = d0) as -> by congruence; by rewrite El|].
    apply Hkeep; [rewrite <- El; apply (Hne2 i d'); [lia|done..]|apply (Hfree i); [lia|done]].
  - change ([] :: replicate j []) with (replicate (S j) ([] : list Z)). rewrite replicate_S_end.
    assert (Hout : forall x, x ∈ whole (free_list descs_at j) [] -> outside (free_list descs_at) (replicate j []) x).
    { intros x Hx i es [-> Hi]%lookup_replicate_1. apply (free_lists_apart j i x); [lia|done]. }
    apply lists_snoc; rewrite ?length_replicate; [|done|done]. by eapply lists_frame.
  - destruct Hf as [_ Hd']. congruence.
Qed.

Theorem malloc_init_spec st live : malloc_start st live ->
  returns (malloc_init descs_at st) (fun st' => (same_place (pages st) (pages st') /\ same_bytes (pages st) (pages st')) /\
    heap_inv st' None live (replicate 7 []) ∅ NULL).
Proof.
  intros Hm. unfold malloc_init.
  apply (returns_loop (fun '(b, st1) => exists j, (j <= 7)%nat /\ b = bsz j /\ started st live j st1)
    (fun '(b, _) => Z.to_nat (Z.log2 (2048 / b)))).
  - intros [b st1] (j & Hj & -> & Hst). destruct (decide (j = 7%nat)) as [->|Hne].
    + unfold malloc_init_step. change (bsz 7 <? PGSIZE / 2) with false. apply returns_ok.
      destruct Hst as [Hc Hn Har Hlk Hds (k & Hp & Hctx & Hpw & Hfree) Hl Hdom]. rewrite Hp. split; [done|].
      split; rewrite ?Hp; try done.
      * apply client_ok_ksync; [apply (ms_client _ _ Hm)|done].
      * intros a r Ha. by rewrite Har in Ha.
      * rewrite Har. split; unfold small, big; try done; intros; simplify_eq.
        all: match goal with H : replicate _ _ !! _ = Some _ |- _ => apply lookup_replicate_1 in H as [-> _] end; set_solver.
      * apply (ms_static _ _ Hm).
      * apply (ms_end _ _ Hm).
      * intros i d Hi Hd. destruct (same_lock _ _ i d Hlk Hd) as (d0 & Hd0 & <-). destruct (ms_lock_ne _ _ Hm i d0 Hi Hd0) as [H1 H2].
        split; [done|]. intros j d' Hj' Hd' Hne. destruct (same_lock _ _ j d' Hlk Hd') as (d0' & Hd0' & <-). by apply (H2 j d0').
      * intros i d Hi Hd. destruct (same_lock _ _ i d Hlk Hd) as (d0 & Hd0 & <-). rewrite decide_False by done. by apply (Hfree i d0).
    + eapply returns_mono; [by apply (malloc_init_round st live j st1 Hm Hst); lia|].
      intros r (st2 & -> & H2). split; [exists (S j); split; [lia|done]|]. assert (Hj7 : (j < 7)%nat) by lia. revert j Hj7 Hj Hst Hne H2. clear.
      intros j Hj _ _ _ _. revert j Hj. apply desc_cases; vm_compute; lia.
  - exists 0%nat. split; [lia|]. split; [done|]. destruct Hm. split; try done.
    + intros i Hi. lia.
    + destruct ms_client0 as [(Hw & Hd & Hne & Hlk) _]. exists (ksync (pages st)). split; [by destruct (pages st)|].
      split; [done|]. split; [done|]. intros i d Hi. lia.
  - vm_compute. lia.
Qed.

(** ** Blocks in use *)

Lemma blocks_disjoint st hl live fls blk x p sz q sq : heap_inv st hl live fls blk x -> blk !! p = Some sz -> blk !! q = Some sq -> p <> q ->
  p + sz <= q \/ q + sq <= p.
Proof.
  intros Hi Hp Hq Hne. pose proof (mo_arenas _ _ _ _ _ _ Hi) as Hok.
  assert (Hsmall : forall a i c k sb, small (arenas st) a i c -> 0 <= k < bpa i -> blk !! slot a i k = Some sb -> sb = bsz i).
  { intros a i c k sb Hs Hk Hb. destruct (small_ok _ Hok a i c Hs) as [Hlt _]. destruct (free_list_at _ Hok i Hlt) as [es Hes].
    destruct (ao_slot _ _ _ _ _ _ Hok a i c k es Hs Hk Hes) as [[_ E]|[_ E]]; congruence. }
  destruct (ao_blk _ _ _ _ _ _ Hok p sz Hp) as [(a & i & c & k & Hs & Hk & ->)|(a & n & Hg & ->)].
  - rewrite (Hsmall a i c k sz Hs Hk Hp). apply (slot_fresh _ Hok a i c k q sq Hs Hk Hq). congruence.
  - destruct (ao_blk _ _ _ _ _ _ Hok q sq Hq) as [(a' & i & c & k & Hs & Hk & ->)|(a' & n' & Hg' & ->)].
    + rewrite (Hsmall a' i c k sq Hs Hk Hq).
      destruct (slot_fresh _ Hok a' i c k (a + sizeof_arena) sz Hs Hk Hp ltac:(congruence)); lia.
    + rewrite (ao_big _ _ _ _ _ _ Hok a n Hg) in Hp. rewrite (ao_big _ _ _ _ _ _ Hok a' n' Hg') in Hq. simplify_eq.
      destruct (ao_apart _ _ _ _ _ _ Hok a _ a' _ Hg Hg' ltac:(congruence)); unfold npages, sizeof_arena in *; simpl in *; lia.
Qed.

Lemma blocks_placed st hl live fls blk x p sz : heap_inv st hl live fls blk x -> blk !! p = Some sz ->
  0 < sz /\ p mod 4 = 0 /\ in_pool (pages st) p sz.
Proof.
  intros Hi Hp. pose proof (mo_arenas _ _ _ _ _ _ Hi) as Hok. destruct (block_place _ Hok p sz Hp) as (a & r & Hr & Hpg & H1 & H2 & H3).
  destruct (mo_live _ _ _ _ _ _ Hi a r Hr) as (_ & Hb & He). unfold in_pool, sizeof_arena in *. split; [done|]. split; [|lia].
  destruct (ao_blk _ _ _ _ _ _ Hok p sz Hp) as [(a' & i & c & k & Hs & Hk & ->)|(a' & n & Hg & ->)].
  - destruct (small_ok _ Hok a' i c Hs). by apply slot_aligned.
  - destruct (big_ok _ Hok a' n Hg) as (Hp' & _). pose proof (slot_aligned a' 0 0 Hp' ltac:(lia)) as Hm. unfold slot in Hm. by rewrite Z.add_0_r in Hm.
Qed.

(** ** Requests near the top of the address space *)

(** [size + sizeof *a] wraps: one page is enough for the wrapped sum. *)
Lemma malloc_wraps st live fls blk size : heap_inv st None live fls blk NULL -> MAX_REQUEST < size < 2 ^ 32 ->
  (exists idx, free_run (kernel_pool (pages st)) idx 1) ->
  returns (malloc descs_at st size) (fun '(p, st') => 0 < p /\
    exists live fls, heap_inv st' None live fls (<[p := 4096 - sizeof_arena]> blk) NULL).
Proof.
  unfold MAX_REQUEST. intros Hi Hs Hfree. unfold malloc. rewrite (proj2 (Z.eqb_neq size 0)) by lia. apply returns_bind.
  eapply returns_mono; [by apply (find_desc_spec st None live fls blk NULL size)|].
  intros i [[Hlt Hle]|[-> _]]; [pose proof (bsz_range i Hlt); lia|]. rewrite (mo_cnt _ _ _ _ _ _ Hi). change (Z.of_nat 7 =? 7) with true. cbv iota zeta.
  assert (En : DIV_ROUND_UP (u32 (size + sizeof_arena)) PGSIZE = 1).
  { unfold sizeof_arena, u32. replace ((size + 12) mod 2 ^ 32) with (size + 12 - 2 ^ 32).
    - unfold DIV_ROUND_UP. change PGSIZE with 4096. rewrite u32_small by lia. symmetry. apply (Z.div_unique _ _ _ (size + 11 - 2 ^ 32)); lia.
    - apply (Z.mod_unique _ _ 1); lia. }
  rewrite En. eapply returns_mono; [by apply (big_block st live fls blk 1 Hi)|]. intros [p st'] (_ & [(_ & Hno & _)|((Hp & _) & _ & H)]); [done|]. by split.
Qed.
End Ops.

(** ** The allocator as an interface *)

Section Instance.
Context {K L B : Type} `{!LockOps K L, !BitArray B}.
Variable descs_at : Z.
Abbreviation heapT := (malloc_state K L B * gmap Z Z)%type.

(** The state of the allocator with its blocks in use. *)
Definition heap_malloc (c : heapT) (size : Z) : res (Z * heapT) :=
  let '(st, blk) := c in
  '(p, st) ← malloc descs_at st size;
  if p =? NULL then Ok (p, (st, blk)) else sz ← block_size st p; Ok (p, (st, <[p := sz]> blk)).

Definition heap_free (c : heapT) (p : Z) : res heapT :=
  let '(st, blk) := c in st ← free descs_at st p; Ok (st, delete p blk).

Definition heap_wf (c : heapT) : Prop := exists live fls, heap_inv descs_at c.1 None live fls c.2 NULL.

Definition heap_managed (c : heapT) (x : Z) : Prop :=
  base (kernel_pool (pages c.1)) <= x < pool_end (kernel_pool (pages c.1)).

Lemma heap_malloc_law c size : heap_wf c -> 0 <= size < 2 ^ 31 -> returns (heap_malloc c size) (fun '(p, c') =>
  heap_wf c' /\ (forall x, heap_managed c' x <-> heap_managed c x) /\
  ((p = NULL /\ c'.2 = c.2) \/ exists sz, size <= sz /\ fresh_block c.2 p sz /\ c'.2 = <[p := sz]> c.2 /\
     forall x, p <= x < p + sz -> heap_managed c x)).
Proof.
  destruct c as [st blk]. intros (live & fls & Hi) Hs. apply returns_bind.
  eapply returns_mono; [apply (malloc_spec descs_at st live fls blk size Hi); unfold MAX_REQUEST; lia|].
  intros [p st'] ([(E1 & E2 & _) _] & [[-> H']|(sz & Hle & Hf & [Hb He] & live' & fls' & H')]).
  - apply returns_ok. split; [done|]. split; [|by left]. intros x. unfold heap_managed. simpl. by rewrite E1, E2.
  - rewrite (proj2 (Z.eqb_neq p NULL)) by (destruct Hf; unfold NULL; lia).
    rewrite (block_size_spec _ _ _ _ _ _ _ _ _ H' (lookup_insert_eq blk p sz)), bind_ok. apply returns_ok.
    split; [by exists live', fls'|]. unfold heap_managed. simpl. rewrite E1, E2. split; [done|]. right. exists sz. do 3 (split; [done|]). intros x Hx. lia.
Qed.

Lemma heap_free_law c p : heap_wf c -> is_Some (c.2 !! p) -> returns (heap_free c p) (fun c' =>
  heap_wf c' /\ c'.2 = delete p c.2 /\ forall x, heap_managed c' x <-> heap_managed c x).
Proof.
  destruct c as [st blk]. intros (live & fls & Hi) Hp. apply returns_bind.
  eapply returns_mono; [by apply (free_spec descs_at st live fls blk p)|]. intros st' ((E1 & E2 & _) & _ & H'). apply returns_ok.
  split; [done|]. split; [done|]. intros x. unfold heap_managed. simpl. by rewrite E1, E2.
Qed.

Definition malloc_blocks : BlockOps heapT := {|
  bo_malloc := heap_malloc;
  bo_free := heap_free;
  heap_ok := heap_wf;
  blocks := snd;
  managed := heap_managed;
  malloc_law := heap_malloc_law;
  free_law := heap_free_law
|}.
End Instance.
