(* ===== verification/Kernel.v ===== *)
(** * Threads, scheduling, synchronization

    threads/thread.c, threads/synch.c, the interrupt level and the dispatch of external
    interrupts of threads/interrupt.c, and the tick of devices/timer.c, as one machine.

    A thread that gave the CPU away inside a kernel function resumes there later.  The
    rest of what it has to execute is its [code]: a list of the points between which
    the C functions can be left, either by a context switch or, with interrupts on, by
    an interrupt.  A call of a kernel function is a list of such points
    ([acquire_code] for [lock_acquire], and so on); [exec] executes one of them.
    What one [exec] does runs with interrupts off in the C code, or touches only what the
    running thread owns (its own struct, the page of a thread it is creating), what a lock
    that it holds protects (the pages, [next_tid], the waiters of a condition of that
    lock), or one word.  The push on [all_list] in [init_thread] is none of these: it runs
    with interrupts on and without a lock.  It is two points, its beginning and its end,
    and what another thread does to the end of the list in between is a [DataRace]. *)

From stdpp Require Import base list gmap numbers functions.
From Stdlib Require Import ZArith Lia.
From S2P Require Import Prelude CString.

Local Open Scope Z_scope.

(** ** Data *)

(** enum thread_status of threads/thread.h *)
Inductive thread_status := THREAD_RUNNING | THREAD_READY | THREAD_BLOCKED | THREAD_DYING.

#[export] Instance thread_status_eq_dec : EqDecision thread_status.
Proof. solve_decision. Defined.

Definition PRI_MIN : Z := 0.
Definition PRI_DEFAULT : Z := 31.
Definition PRI_MAX : Z := 63.
Definition TIME_SLICE : Z := 4.
Definition INTR_ON : bool := true.
Definition INTR_OFF : bool := false.

(** The locks of the kernel that the model names: [tid_lock], the lock of the kernel
    page pool, and the locks that threads use. *)
Inductive lock_id := TidLock | PoolLock | UserLock (n : Z).

(** Semaphores: the one inside a lock, one that threads use, and the one that
    [cond_wait] keeps on the stack of the waiting thread. *)
Inductive sem_id := SemOf (l : lock_id) | SemUser (n : Z) | SemWaiter (t : Z).

#[export] Instance lock_id_eq_dec : EqDecision lock_id.
Proof. solve_decision. Defined.
#[export] Instance sem_id_eq_dec : EqDecision sem_id.
Proof. solve_decision. Defined.

(** The function a thread runs: the idle thread's, which gets the address of
    [idle_started], or any other. *)
Inductive thread_func := Idle (idle_started : sem_id) | Function.

(** The points at which a thread can be left; each stands for the code of the named
    function from there on. *)
Inductive instr :=
| Intr_set (level : bool)                 (* intr_set_level (level) *)
| Iret                                    (* end of an interrupt: EFLAGS restored *)
| Sema_down (s : sem_id)                  (* sema_down (s) *)
| Sema_wait (s : sem_id) (old : bool)     (* ... the head of its while loop *)
| Sema_try_down (s : sem_id)              (* sema_try_down (s) *)
| Sema_up (s : sem_id)                    (* sema_up (s) *)
| Lock_check (l : lock_id)                (* lock_acquire (l): its assertions *)
| Lock_take (l : lock_id)                 (* ... lock->holder = thread_current () *)
| Lock_try (l : lock_id)                  (* lock_try_acquire (l) *)
| Lock_drop (l : lock_id)                 (* lock_release (l) up to sema_up *)
| Cond_enqueue (c : Z) (l : lock_id)      (* cond_wait (c, l) up to lock_release *)
| Cond_signal (c : Z) (l : lock_id)       (* cond_signal (c, l) *)
| Cond_broadcast (c : Z) (l : lock_id)    (* cond_broadcast (c, l) *)
| Yield                                   (* thread_yield () *)
| Exit                                    (* thread_exit () *)
| Create_page (pri : Z) (f : thread_func)       (* palloc_get_page, under its lock *)
| Create_init (t pri : Z) (f : thread_func)     (* init_thread, into list_push_back *)
| Create_link (t : Z)                           (* ... the end of list_push_back *)
| Create_tid (t : Z) (f : thread_func)          (* allocate_tid, under its lock *)
| Create_frames (t tid : Z) (f : thread_func)   (* the new stack's frames *)
| Unblock (t : Z)                         (* thread_unblock (t) *)
| Pool_free (p : Z)                       (* palloc_free_page (p), under its lock *)
| Kernel_thread                           (* kernel_thread up to the thread's function *)
| Idle_init (s : sem_id)                  (* idle () up to its loop *)
| Idle_loop                               (* intr_disable (); thread_block (); *)
| Idle_wake                               (* asm ("sti; hlt") *)
| Halt                                    (* ... waiting for an interrupt *)
| Set_priority (p : Z)                    (* thread_set_priority (p) *)
| Sleep_start (n : Z)                     (* timer_sleep (n) *)
| Sleep_loop (start n : Z).               (* ... the head of its while loop *)

(** struct thread; [code] stands for the saved stack. *)
Record tcb := mk_tcb {
  status : thread_status;
  priority : Z;
  tid : Z;
  code : list instr
}.

(** struct semaphore of threads/synch.h; waiters front to back. *)
Record semaphore := mk_semaphore { value : Z; waiters : list Z }.

(** The interrupt flag of the CPU and the static variables of threads/interrupt.c. *)
Record cpu := mk_cpu { intr_flag : bool; in_external_intr : bool; yield_on_return : bool }.

Record counters := mk_counters {
  next_tid : Z;        (* of allocate_tid *)
  thread_ticks : Z;
  idle_ticks : Z;
  kernel_ticks : Z;
  ticks : Z            (* of devices/timer.c *)
}.

Record kstate := mk_kstate {
  threads : gmap Z tcb;          (* every struct thread, by address *)
  ready_list : list Z;
  all_list : list Z;
  all_push : Z;                  (* the element being pushed on all_list, or NULL *)
  idle_thread : Z;
  initial_thread : Z;
  current : Z;                   (* running_thread (): the page of the stack pointer *)
  intr : cpu;
  stats : counters;
  sema : sem_id -> semaphore;
  holder : lock_id -> Z;
  cond : lock_id * Z -> list sem_id;  (* the waiters of a condition of a lock *)
  free_pages : gset Z;           (* free pages of the kernel pool *)
  pool_pages : gset Z            (* all pages of the kernel pool *)
}.

Definition set_threads (st : kstate) (v : gmap Z tcb) : kstate :=
  mk_kstate v (ready_list st) (all_list st) (all_push st) (idle_thread st)
    (initial_thread st) (current st) (intr st) (stats st) (sema st) (holder st)
    (cond st) (free_pages st) (pool_pages st).
Definition set_ready_list (st : kstate) (v : list Z) : kstate :=
  mk_kstate (threads st) v (all_list st) (all_push st) (idle_thread st)
    (initial_thread st) (current st) (intr st) (stats st) (sema st) (holder st)
    (cond st) (free_pages st) (pool_pages st).
Definition set_all_list (st : kstate) (v : list Z) : kstate :=
  mk_kstate (threads st) (ready_list st) v (all_push st) (idle_thread st)
    (initial_thread st) (current st) (intr st) (stats st) (sema st) (holder st)
    (cond st) (free_pages st) (pool_pages st).
Definition set_all_push (st : kstate) (v : Z) : kstate :=
  mk_kstate (threads st) (ready_list st) (all_list st) v (idle_thread st)
    (initial_thread st) (current st) (intr st) (stats st) (sema st) (holder st)
    (cond st) (free_pages st) (pool_pages st).
Definition set_idle_thread (st : kstate) (v : Z) : kstate :=
  mk_kstate (threads st) (ready_list st) (all_list st) (all_push st) v
    (initial_thread st) (current st) (intr st) (stats st) (sema st) (holder st)
    (cond st) (free_pages st) (pool_pages st).
Definition set_initial_thread (st : kstate) (v : Z) : kstate :=
  mk_kstate (threads st) (ready_list st) (all_list st) (all_push st) (idle_thread st) v
    (current st) (intr st) (stats st) (sema st) (holder st) (cond st) (free_pages st)
    (pool_pages st).
Definition set_current (st : kstate) (v : Z) : kstate :=
  mk_kstate (threads st) (ready_list st) (all_list st) (all_push st) (idle_thread st)
    (initial_thread st) v (intr st) (stats st) (sema st) (holder st) (cond st)
    (free_pages st) (pool_pages st).
Definition set_intr (st : kstate) (v : cpu) : kstate :=
  mk_kstate (threads st) (ready_list st) (all_list st) (all_push st) (idle_thread st)
    (initial_thread st) (current st) v (stats st) (sema st) (holder st) (cond st)
    (free_pages st) (pool_pages st).
Definition set_stats (st : kstate) (v : counters) : kstate :=
  mk_kstate (threads st) (ready_list st) (all_list st) (all_push st) (idle_thread st)
    (initial_thread st) (current st) (intr st) v (sema st) (holder st) (cond st)
    (free_pages st) (pool_pages st).
Definition set_sema (st : kstate) (v : sem_id -> semaphore) : kstate :=
  mk_kstate (threads st) (ready_list st) (all_list st) (all_push st) (idle_thread st)
    (initial_thread st) (current st) (intr st) (stats st) v (holder st) (cond st)
    (free_pages st) (pool_pages st).
Definition set_holder (st : kstate) (v : lock_id -> Z) : kstate :=
  mk_kstate (threads st) (ready_list st) (all_list st) (all_push st) (idle_thread st)
    (initial_thread st) (current st) (intr st) (stats st) (sema st) v (cond st)
    (free_pages st) (pool_pages st).
Definition set_cond (st : kstate) (v : lock_id * Z -> list sem_id) : kstate :=
  mk_kstate (threads st) (ready_list st) (all_list st) (all_push st) (idle_thread st)
    (initial_thread st) (current st) (intr st) (stats st) (sema st) (holder st) v
    (free_pages st) (pool_pages st).
Definition set_free_pages (st : kstate) (v : gset Z) : kstate :=
  mk_kstate (threads st) (ready_list st) (all_list st) (all_push st) (idle_thread st)
    (initial_thread st) (current st) (intr st) (stats st) (sema st) (holder st)
    (cond st) v (pool_pages st).

Definition upd_thread (st : kstate) (t : Z) (f : tcb -> tcb) : kstate :=
  set_threads st (alter f t (threads st)).
Definition with_status (s : thread_status) (c : tcb) : tcb := mk_tcb s (priority c) (tid c) (code c).
Definition with_code (k : list instr) (c : tcb) : tcb := mk_tcb (status c) (priority c) (tid c) k.
Definition with_priority (p : Z) (c : tcb) : tcb := mk_tcb (status c) p (tid c) (code c).
Definition with_tid (n : Z) (c : tcb) : tcb := mk_tcb (status c) (priority c) n (code c).

Definition set_status (st : kstate) (t : Z) (s : thread_status) : kstate :=
  upd_thread st t (with_status s).

(** The running thread is about to execute [k], then what it had left. *)
Definition push_code (k : list instr) (st : kstate) : kstate :=
  upd_thread st (current st) (fun c => with_code (k ++ code c) c).

(** ** Interrupt level (threads/interrupt.c) *)

Definition intr_get_level (st : kstate) : bool := intr_flag (intr st).
Definition intr_context (st : kstate) : bool := in_external_intr (intr st).

Definition write_flag (st : kstate) (b : bool) : kstate :=
  set_intr st (mk_cpu b (in_external_intr (intr st)) (yield_on_return (intr st))).

Definition intr_enable (st : kstate) : res kstate :=
  ASSERT (negb (intr_context st));; Ok (write_flag st INTR_ON).

Definition intr_disable (st : kstate) : kstate := write_flag st INTR_OFF.

Definition intr_set_level (level : bool) (st : kstate) : res kstate :=
  if level then intr_enable st else Ok (intr_disable st).

Definition intr_yield_on_return (st : kstate) : res kstate :=
  ASSERT (intr_context st);;
  Ok (set_intr st (mk_cpu (intr_flag (intr st)) (in_external_intr (intr st)) true)).

(** ** Threads (threads/thread.c) *)

Definition is_thread (st : kstate) (t : Z) : bool := bool_decide (is_Some (threads st !! t)).

Definition get_thread (st : kstate) (t : Z) : res tcb :=
  match threads st !! t with Some c => Ok c | None => Err BadAccess end.

Definition thread_current (st : kstate) : res Z :=
  let t := current st in
  ASSERT (is_thread st t);;
  c ← get_thread st t;
  ASSERT (bool_decide (status c = THREAD_RUNNING));;
  Ok t.

(** The points of lock_acquire, lock_release and palloc_free_page. *)
Definition acquire_code (l : lock_id) : list instr := [Lock_check l; Sema_down (SemOf l); Lock_take l].
Definition release_code (l : lock_id) : list instr := [Lock_drop l; Sema_up (SemOf l)].
Definition free_code (p : Z) : list instr :=
  acquire_code PoolLock ++ [Pool_free p] ++ release_code PoolLock.

Definition next_thread_to_run (st : kstate) : Z * kstate :=
  match ready_list st with
  | [] => (idle_thread st, st)
  | t :: r => (t, set_ready_list st r)
  end.

(** [palloc_free_page] first overwrites the page: the struct thread is gone. *)
Definition palloc_free_page (p : Z) (st : kstate) : kstate :=
  push_code (free_code p) (set_threads st (delete p (threads st))).

Definition reset_thread_ticks (st : kstate) : kstate :=
  let s := stats st in
  set_stats st (mk_counters (next_tid s) 0 (idle_ticks s) (kernel_ticks s) (ticks s)).

Definition thread_schedule_tail (prev : Z) (st : kstate) : res kstate :=
  let cur := current st in
  ASSERT (negb (intr_get_level st));;
  let st := reset_thread_ticks (set_status st cur THREAD_RUNNING) in
  if prev =? NULL then Ok st else
  p ← get_thread st prev;
  if bool_decide (status p = THREAD_DYING) && negb (prev =? initial_thread st) then
    ASSERT (negb (prev =? cur));;
    Ok (palloc_free_page prev st)
  else Ok st.

(** [switch_threads] leaves the old stack and enters the new one; every suspended
    thread, and a new one through [switch_entry], continues with
    [thread_schedule_tail]. *)
Definition schedule (st : kstate) : res kstate :=
  let cur := current st in
  let '(next, st) := next_thread_to_run st in
  ASSERT (negb (intr_get_level st));;
  c ← get_thread st cur;
  ASSERT (bool_decide (status c <> THREAD_RUNNING));;
  ASSERT (is_thread st next);;
  if negb (cur =? next) then thread_schedule_tail cur (set_current st next)
  else thread_schedule_tail NULL st.

Definition thread_block (st : kstate) : res kstate :=
  ASSERT (negb (intr_context st));;
  ASSERT (negb (intr_get_level st));;
  t ← thread_current st;
  schedule (set_status st t THREAD_BLOCKED).

Definition thread_unblock (t : Z) (st : kstate) : res kstate :=
  ASSERT (is_thread st t);;
  let old := intr_get_level st in
  let st := intr_disable st in
  c ← get_thread st t;
  ASSERT (bool_decide (status c = THREAD_BLOCKED));;
  let st := set_ready_list st (ready_list st ++ [t]) in
  intr_set_level old (set_status st t THREAD_READY).

Definition thread_yield (st : kstate) : res kstate :=
  cur ← thread_current st;
  ASSERT (negb (intr_context st));;
  let old := intr_get_level st in
  let st := intr_disable st in
  let st := if negb (cur =? idle_thread st) then set_ready_list st (ready_list st ++ [cur]) else st in
  let st := push_code [Intr_set old] (set_status st cur THREAD_READY) in
  schedule st.

(** Removing an element that is not in a list is undefined in C. *)
Definition remove_elem (t : Z) (l : list Z) : res (list Z) :=
  if bool_decide (t ∈ l) then Ok (filter (fun x => x <> t) l) else Err BadAccess.

(** The running thread is taken off [all_list].  [list_remove] of the last element writes
    the words that a push in progress has read. *)
Definition remove_all (t : Z) (st : kstate) : res (list Z) :=
  if negb (all_push st =? NULL) && bool_decide (list.last (all_list st) = Some t) then Err DataRace
  else remove_elem t (all_list st).

Definition thread_exit (st : kstate) : res kstate :=
  ASSERT (negb (intr_context st));;
  let st := intr_disable st in
  t ← thread_current st;
  l ← remove_all t st;
  schedule (set_status (set_all_list st l) t THREAD_DYING).

(** [list_push_back (&all_list, &t->allelem)]: it reads the last element, and then links
    the new one behind it.  Of two pushes that both read the same last element one is
    lost. *)
Definition push_begin (t : Z) (st : kstate) : res kstate :=
  if all_push st =? NULL then Ok (set_all_push st t) else Err DataRace.

Definition push_end (t : Z) (st : kstate) : kstate :=
  set_all_push (set_all_list st (all_list st ++ [t])) NULL.

(** [init_thread] up to the middle of its last statement, the push on [all_list]; the
    struct is not yet known to any other thread. *)
Definition init_thread (t pri : Z) (st : kstate) : res kstate :=
  ASSERT (negb (t =? NULL));;
  ASSERT ((PRI_MIN <=? pri) && (pri <=? PRI_MAX));;
  let st := set_threads st (<[t := mk_tcb THREAD_BLOCKED pri 0 []]> (threads st)) in
  push_begin t st.

Definition thread_tick (st : kstate) : res kstate :=
  t ← thread_current st;
  let s := stats st in
  let s := if t =? idle_thread st
           then mk_counters (next_tid s) (thread_ticks s) (i64 (idle_ticks s + 1)) (kernel_ticks s) (ticks s)
           else mk_counters (next_tid s) (thread_ticks s) (idle_ticks s) (i64 (kernel_ticks s + 1)) (ticks s) in
  let tt := u32 (thread_ticks s + 1) in
  let st := set_stats st (mk_counters (next_tid s) tt (idle_ticks s) (kernel_ticks s) (ticks s)) in
  if TIME_SLICE <=? tt then intr_yield_on_return st else Ok st.

(** ** Semaphores, locks, conditions (threads/synch.c) *)

Definition put_sema (st : kstate) (s : sem_id) (x : semaphore) : kstate :=
  set_sema st (<[s := x]> (sema st)).

Definition sema_init (s : sem_id) (v : Z) (st : kstate) : kstate := put_sema st s (mk_semaphore v []).

(** The while loop of [sema_down], entered with interrupts off; a thread that waits
    comes back to its head. *)
Definition sema_wait (s : sem_id) (old : bool) (st : kstate) : res kstate :=
  let x := sema st s in
  if value x =? 0 then
    t ← thread_current st;
    let st := put_sema st s (mk_semaphore (value x) (waiters x ++ [t])) in
    thread_block (push_code [Sema_wait s old] st)
  else
    intr_set_level old (put_sema st s (mk_semaphore (value x - 1) (waiters x))).

Definition sema_down (s : sem_id) (st : kstate) : res kstate :=
  ASSERT (negb (intr_context st));;
  let old := intr_get_level st in
  sema_wait s old (intr_disable st).

Definition sema_try_down (s : sem_id) (st : kstate) : res (bool * kstate) :=
  let old := intr_get_level st in
  let st := intr_disable st in
  let x := sema st s in
  let '(success, st) := if 0 <? value x then (true, put_sema st s (mk_semaphore (value x - 1) (waiters x)))
                        else (false, st) in
  st ← intr_set_level old st;
  Ok (success, st).

Definition sema_up (s : sem_id) (st : kstate) : res kstate :=
  let old := intr_get_level st in
  let st := intr_disable st in
  st ← match waiters (sema st s) with
       | [] => Ok st
       | t :: r => thread_unblock t (put_sema st s (mk_semaphore (value (sema st s)) r))
       end;
  let x := sema st s in
  intr_set_level old (put_sema st s (mk_semaphore (u32 (value x + 1)) (waiters x))).

Definition lock_held_by_current_thread (l : lock_id) (st : kstate) : res bool :=
  t ← thread_current st; Ok (holder st l =? t).

Definition put_holder (st : kstate) (l : lock_id) (t : Z) : kstate :=
  set_holder st (<[l := t]> (holder st)).

Definition lock_init_st (l : lock_id) (st : kstate) : kstate :=
  sema_init (SemOf l) 1 (put_holder st l NULL).

Definition lock_check (l : lock_id) (st : kstate) : res kstate :=
  ASSERT (negb (intr_context st));;
  h ← lock_held_by_current_thread l st;
  ASSERT (negb h);; Ok st.

Definition lock_take (l : lock_id) (st : kstate) : res kstate :=
  t ← thread_current st; Ok (put_holder st l t).

Definition lock_try_acquire (l : lock_id) (st : kstate) : res kstate :=
  h ← lock_held_by_current_thread l st;
  ASSERT (negb h);;
  '(success, st) ← sema_try_down (SemOf l) st;
  if (success : bool) then Ok (push_code [Lock_take l] st) else Ok st.

Definition lock_drop (l : lock_id) (st : kstate) : res kstate :=
  h ← lock_held_by_current_thread l st;
  ASSERT h;; Ok (put_holder st l NULL).

(** "A given condition variable is associated with only a single lock" (cond_wait):
    condition [c] of lock [l] is [(l, c)]. *)
Definition put_cond (st : kstate) (c : lock_id * Z) (q : list sem_id) : kstate :=
  set_cond st (<[c := q]> (cond st)).

Definition cond_enqueue (c : Z) (l : lock_id) (st : kstate) : res kstate :=
  ASSERT (negb (intr_context st));;
  h ← lock_held_by_current_thread l st;
  ASSERT h;;
  let w := SemWaiter (current st) in
  let st := sema_init w 0 st in
  Ok (put_cond st (l, c) (cond st (l, c) ++ [w])).

Definition cond_signal (c : Z) (l : lock_id) (st : kstate) : res kstate :=
  ASSERT (negb (intr_context st));;
  h ← lock_held_by_current_thread l st;
  ASSERT h;;
  match cond st (l, c) with
  | [] => Ok st
  | w :: q => Ok (push_code [Sema_up w] (put_cond st (l, c) q))
  end.

Definition cond_broadcast (c : Z) (l : lock_id) (st : kstate) : res kstate :=
  match cond st (l, c) with
  | [] => Ok st
  | _ => Ok (push_code [Cond_signal c l; Cond_broadcast c l] st)
  end.

Definition wait_code (c : Z) (l : lock_id) (t : Z) : list instr :=
  [Cond_enqueue c l] ++ release_code l ++ [Sema_down (SemWaiter t)] ++ acquire_code l.

(** ** Thread creation *)

(** Which free page [palloc_get_page] returns is the page allocator's choice; what it
    promises is that the page was free and that it fails only when none is. *)
Class PageChoice := {
  choose_page : gset Z -> option Z;
  choose_page_some : forall X p, choose_page X = Some p -> p ∈ X;
  choose_page_none : forall X, choose_page X = None -> X = ∅
}.

Section Machine.
Context {PC : PageChoice}.

Definition create_code (pri : Z) (f : thread_func) : list instr :=
  acquire_code PoolLock ++ [Create_page pri f].

Definition create_page (pri : Z) (f : thread_func) (st : kstate) : res kstate :=
  match choose_page (free_pages st) with
  | None => Ok (push_code (release_code PoolLock) st)       (* TID_ERROR *)
  | Some t =>
    let st := set_free_pages st (free_pages st ∖ {[t]}) in
    Ok (push_code (release_code PoolLock ++ [Create_init t pri f]) st)
  end.

Definition create_init (t pri : Z) (f : thread_func) (st : kstate) : res kstate :=
  st ← init_thread t pri st;
  Ok (push_code ([Create_link t] ++ acquire_code TidLock ++ [Create_tid t f]) st).

Definition create_tid (t : Z) (f : thread_func) (st : kstate) : res kstate :=
  let s := stats st in
  let n := next_tid s in
  let st := set_stats st (mk_counters (i32 (n + 1)) (thread_ticks s) (idle_ticks s) (kernel_ticks s) (ticks s)) in
  Ok (push_code (release_code TidLock ++ [Create_frames t n f]) st).

Definition func_code (f : thread_func) : list instr :=
  match f with Idle s => [Idle_init s] | Function => [] end.

Definition create_frames (t n : Z) (f : thread_func) (st : kstate) : res kstate :=
  ASSERT (is_thread st t);;
  let st := upd_thread st t (fun c => with_tid n (with_code (Kernel_thread :: func_code f) c)) in
  Ok (push_code [Unblock t] st).

Definition pool_free (p : Z) (st : kstate) : res kstate :=
  ASSERT (bool_decide (p ∉ free_pages st));;
  Ok (set_free_pages st ({[p]} ∪ free_pages st)).

(** ** Idle thread and timer *)

Definition idle_init (s : sem_id) (st : kstate) : res kstate :=
  t ← thread_current st;
  Ok (push_code [Sema_up s; Idle_loop] (set_idle_thread st t)).

Definition idle_loop (st : kstate) : res kstate :=
  thread_block (push_code [Idle_wake] (intr_disable st)).

Definition sleep_start (n : Z) (st : kstate) : res kstate :=
  let start := ticks (stats st) in
  ASSERT (intr_get_level st);;
  Ok (push_code [Sleep_loop start n] st).

Definition sleep_loop (start n : Z) (st : kstate) : res kstate :=
  if i64 (ticks (stats st) - start) <? n then Ok (push_code [Yield; Sleep_loop start n] st)
  else Ok st.

(** ** Execution *)

Definition exec (i : instr) (st : kstate) : res kstate :=
  match i with
  | Intr_set b => intr_set_level b st
  | Iret => Ok (write_flag st INTR_ON)
  | Sema_down s => sema_down s st
  | Sema_wait s old => sema_wait s old st
  | Sema_try_down s => '(_, st) ← sema_try_down s st; Ok st
  | Sema_up s => sema_up s st
  | Lock_check l => lock_check l st
  | Lock_take l => lock_take l st
  | Lock_try l => lock_try_acquire l st
  | Lock_drop l => lock_drop l st
  | Cond_enqueue c l => cond_enqueue c l st
  | Cond_signal c l => cond_signal c l st
  | Cond_broadcast c l => cond_broadcast c l st
  | Yield => thread_yield st
  | Exit => thread_exit st
  | Create_page pri e => create_page pri e st
  | Create_init t pri e => create_init t pri e st
  | Create_link t => Ok (push_end t st)
  | Create_tid t e => create_tid t e st
  | Create_frames t n e => create_frames t n e st
  | Unblock t => thread_unblock t st
  | Pool_free p => pool_free p st
  | Kernel_thread => intr_enable st
  | Idle_init s => idle_init s st
  | Idle_loop => idle_loop st
  | Idle_wake => st ← intr_enable st; Ok (push_code [Halt; Idle_loop] st)
  | Halt => Err WouldBlock
  | Set_priority p => t ← thread_current st; Ok (upd_thread st t (with_priority p))
  | Sleep_start n => sleep_start n st
  | Sleep_loop start n => sleep_loop start n st
  end.

(** The running thread executes the next point of its code. *)
Definition run (st : kstate) : res kstate :=
  c ← get_thread st (current st);
  match code c with
  | [] => Err WouldBlock
  | i :: k => exec i (upd_thread st (current st) (with_code k))
  end.

(** ** External interrupts *)

(** What the handlers of external interrupts do to threads: the timer's tick, and the
    [sema_up] by which a device driver's handler wakes the thread that waits for it. *)
Inductive handler := Timer_interrupt | Device_interrupt (s : sem_id).

Definition run_handler (h : handler) (st : kstate) : res kstate :=
  match h with
  | Timer_interrupt =>
    let s := stats st in
    thread_tick (set_stats st (mk_counters (next_tid s) (thread_ticks s) (idle_ticks s)
                                           (kernel_ticks s) (i64 (ticks s + 1))))
  | Device_interrupt s => sema_up s st
  end.

(** The interrupted instruction is the one after [hlt]. *)
Definition leave_halt (c : tcb) : tcb :=
  match code c with Halt :: k => with_code k c | _ => c end.

(** [intr_handler] for an external interrupt that has a handler.  The interrupt gate
    turns interrupts off; the interrupted code had them on. *)
Definition intr_handler (h : handler) (st : kstate) : res kstate :=
  let st := intr_disable (upd_thread st (current st) leave_halt) in
  ASSERT (negb (intr_get_level st));;
  ASSERT (negb (intr_context st));;
  st ← run_handler h (set_intr st (mk_cpu (intr_flag (intr st)) true false));
  ASSERT (negb (intr_get_level st));;
  ASSERT (intr_context st);;
  let st := set_intr st (mk_cpu (intr_flag (intr st)) false (yield_on_return (intr st))) in
  let st := push_code [Iret] st in
  if yield_on_return (intr st) then thread_yield st else Ok st.

(** ** Calls

    What a thread's own function may call. *)
Inductive call :=
| Call_intr_disable | Call_intr_enable
| Call_sema_down (n : Z) | Call_sema_try_down (n : Z) | Call_sema_up (n : Z)
| Call_lock_acquire (n : Z) | Call_lock_try_acquire (n : Z) | Call_lock_release (n : Z)
| Call_cond_wait (c n : Z) | Call_cond_signal (c n : Z) | Call_cond_broadcast (c n : Z)
| Call_thread_yield | Call_thread_exit | Call_thread_create (pri : Z)
| Call_thread_set_priority (p : Z) | Call_timer_sleep (n : Z).

Definition call_code (t : Z) (a : call) : list instr :=
  match a with
  | Call_intr_disable => [Intr_set INTR_OFF]
  | Call_intr_enable => [Intr_set INTR_ON]
  | Call_sema_down n => [Sema_down (SemUser n)]
  | Call_sema_try_down n => [Sema_try_down (SemUser n)]
  | Call_sema_up n => [Sema_up (SemUser n)]
  | Call_lock_acquire n => acquire_code (UserLock n)
  | Call_lock_try_acquire n => [Lock_try (UserLock n)]
  | Call_lock_release n => release_code (UserLock n)
  | Call_cond_wait c n => wait_code c (UserLock n) t
  | Call_cond_signal c n => [Cond_signal c (UserLock n)]
  | Call_cond_broadcast c n => [Cond_broadcast c (UserLock n)]
  | Call_thread_yield => [Yield]
  | Call_thread_exit => [Exit]
  | Call_thread_create pri => create_code pri Function
  | Call_thread_set_priority p => [Set_priority p]
  | Call_timer_sleep n => [Sleep_start n]
  end.

(** ** Boot *)

(** The memory the kernel starts from, running on the page [t], interrupts off.  The
    locks of threads' own functions are taken as initialised by [lock_init]. *)
Definition boot_state (t : Z) (pages : gset Z) : kstate :=
  mk_kstate ∅ [] [] NULL NULL NULL t (mk_cpu INTR_OFF false false) (mk_counters 1 0 0 0 0)
    (fun s => match s with SemOf (UserLock _) => mk_semaphore 1 [] | _ => mk_semaphore 0 [] end)
    (fun _ => NULL) (fun _ => []) pages pages.

(** [allocate_tid] where no other thread can hold the lock. *)
Definition allocate_tid (st : kstate) : res (Z * kstate) :=
  st ← lock_check TidLock st;
  st ← sema_down (SemOf TidLock) st;
  st ← lock_take TidLock st;
  let s := stats st in
  let n := next_tid s in
  let st := set_stats st (mk_counters (i32 (n + 1)) (thread_ticks s) (idle_ticks s) (kernel_ticks s) (ticks s)) in
  st ← lock_drop TidLock st;
  st ← sema_up (SemOf TidLock) st;
  Ok (n, st).

(** The lists are initialised and the running code becomes a thread. *)
Definition thread_init (st : kstate) : res kstate :=
  ASSERT (negb (intr_get_level st));;
  let st := lock_init_st TidLock st in
  let st := set_all_list (set_ready_list st []) [] in
  let t := current st in
  let st := set_initial_thread st t in
  st ← init_thread t PRI_DEFAULT st;
  let st := push_end t st in
  let st := set_status st t THREAD_RUNNING in
  '(n, st) ← allocate_tid st;
  Ok (upd_thread st t (with_tid n)).

(** [thread_start]: the idle thread is created, interrupts go on, and the initial
    thread waits for [idle_started]. *)
Definition thread_start (idle_started : Z) (st : kstate) : kstate :=
  push_code (create_code PRI_MIN (Idle (SemUser idle_started)) ++
             [Intr_set INTR_ON; Sema_down (SemUser idle_started)])
    (sema_init (SemUser idle_started) 0 st).

(** The part of [main] that concerns threads: [thread_init], [palloc_init]'s lock, and
    [thread_start] up to its return to [main]. *)
Fixpoint runs (n : nat) (st : kstate) : res kstate :=
  match n with O => Ok st | S n => st ← run st; runs n st end.

Definition boot (t : Z) (pages : gset Z) : res kstate :=
  st ← thread_init (boot_state t pages);
  runs 23 (thread_start 0 (lock_init_st PoolLock st)).
End Machine.
