(* ===== verification/KernelInv.v ===== *)
(** * The invariant of the kernel machine

    What holds of the state of [Kernel] between two steps: where a thread of each
    status is to be found, what the code that is left to execute promises, and the
    conservation laws of locks, wakeups and pages, stated as sums over the threads. *)

From stdpp Require Import base list gmap numbers functions.
From Stdlib Require Import ZArith Lia.
From S2P Require Import Prelude CString Kernel.

Local Open Scope Z_scope.

(** ** Sums over threads *)

Definition sumt (f : tcb -> Z) (m : gmap Z tcb) : Z := map_fold (fun _ c acc => f c + acc) 0 m.

Section Sums.
Implicit Types (f : tcb -> Z) (m : gmap Z tcb) (c : tcb) (t : Z).

Lemma sumt_insert f m t c : m !! t = None -> sumt f (<[t := c]> m) = f c + sumt f m.
Proof.
  intros Hm. unfold sumt.
  rewrite (map_fold_insert_L (fun _ c acc => f c + acc)); [done| |done]. intros; lia.
Qed.

Lemma sumt_delete f m t c : m !! t = Some c -> sumt f (delete t m) = sumt f m - f c.
Proof.
  intros Hm. rewrite <- (insert_delete_id m t c Hm) at 2.
  rewrite sumt_insert by apply lookup_delete_eq. lia.
Qed.

Lemma sumt_update f m t c c' : m !! t = Some c -> sumt f (<[t := c']> m) = sumt f m - f c + f c'.
Proof.
  intros Hm. rewrite <- insert_delete_eq, sumt_insert by apply lookup_delete_eq.
  rewrite (sumt_delete f m t c Hm). lia.
Qed.

Lemma sumt_nonneg f m : (forall t c, m !! t = Some c -> 0 <= f c) -> 0 <= sumt f m.
Proof.
  revert m. refine (map_ind _ _ _).
  - intros _. unfold sumt. by rewrite map_fold_empty.
  - intros t c m Hm IH Hf. rewrite sumt_insert by done.
    specialize (Hf t c) as Hc. rewrite lookup_insert_eq in Hc. specialize (Hc eq_refl).
    assert (0 <= sumt f m); [|lia]. apply IH. intros t' c' Hc'. apply (Hf t').
    rewrite lookup_insert_ne; [done|]. intros ->. congruence.
Qed.

Lemma sumt_pos f m : 0 < sumt f m -> exists t c, m !! t = Some c /\ 0 < f c.
Proof.
  revert m. refine (map_ind _ _ _).
  - unfold sumt. rewrite map_fold_empty. lia.
  - intros t c m Hm IH Hs. rewrite sumt_insert in Hs by done.
    destruct (decide (0 < f c)) as [Hc|Hc]; [exists t, c; by rewrite lookup_insert_eq|].
    destruct IH as (t' & c' & Hc' & Hf); [lia|]. exists t', c'. rewrite lookup_insert_ne; [done|congruence].
Qed.

Lemma sumt_ge f m t c : (forall t c, m !! t = Some c -> 0 <= f c) -> m !! t = Some c -> f c <= sumt f m.
Proof.
  intros Hf Hm. pose proof (sumt_delete f m t c Hm). assert (0 <= sumt f (delete t m)); [|lia].
  apply sumt_nonneg. intros t' c' [_ Hc']%lookup_delete_Some. by eapply Hf.
Qed.

Lemma sumt_ge2 f m t c t' c' : (forall t c, m !! t = Some c -> 0 <= f c) ->
  m !! t = Some c -> m !! t' = Some c' -> t <> t' -> f c + f c' <= sumt f m.
Proof.
  intros Hf Hm Hm' Hne. pose proof (sumt_delete f m t c Hm).
  assert (f c' <= sumt f (delete t m)); [|lia]. apply (sumt_ge f _ t').
  - intros t1 c1 [_ Hc1]%lookup_delete_Some. by eapply Hf.
  - by rewrite lookup_delete_ne.
Qed.
End Sums.

(** ** What is left to execute *)

(** The weight of a list of points. *)
Definition wcode (w : instr -> Z) (k : list instr) : Z := foldr (fun i acc => w i + acc) 0 k.

Lemma wcode_app w k k' : wcode w (k ++ k') = wcode w k + wcode w k'.
Proof. induction k as [|i k IH]; simpl; [done|]. lia. Qed.

(** Tokens of lock [l] in a thread's hands that [holder] does not show: between
    [sema_down] and the store of [holder], and between its reset and [sema_up]. *)
Definition tok_w (l : lock_id) (i : instr) : Z :=
  match i with
  | Lock_take l' => if decide (l' = l) then 1 else 0
  | Lock_drop l' => if decide (l' = l) then -1 else 0
  | Sema_down (SemOf l') | Sema_wait (SemOf l') _ => if decide (l' = l) then -1 else 0
  | Sema_up (SemOf l') => if decide (l' = l) then 1 else 0
  | _ => 0
  end.

(** Pending returns to the loop of [sema_down (s)]. *)
Definition wait_w (s : sem_id) (i : instr) : Z :=
  match i with Sema_wait s' _ => if decide (s' = s) then 1 else 0 | _ => 0 end.

(** Pending work on a thread under construction, and its pending first unblocking. *)
Definition born_w (t : Z) (i : instr) : Z :=
  match i with Create_tid t' _ | Create_frames t' _ _ => if decide (t' = t) then 1 else 0 | _ => 0 end.
Definition unblock_w (t : Z) (i : instr) : Z :=
  match i with Unblock t' => if decide (t' = t) then 1 else 0 | _ => 0 end.

(** Pages in hand: taken from the pool and not yet a thread, or no longer one. *)
Definition page_w (p : Z) (i : instr) : Z :=
  match i with Create_init p' _ _ | Pool_free p' => if decide (p' = p) then 1 else 0 | _ => 0 end.

(** Pushes on [all_list] that have begun. *)
Definition link_w (t : Z) (i : instr) : Z :=
  match i with Create_link t' => if decide (t' = t) then 1 else 0 | _ => 0 end.

(** No part of the rest gives back more tokens than it has. *)
Fixpoint tok_ok (l : lock_id) (k : list instr) : Prop :=
  match k with [] => True | i :: k' => 0 <= wcode (tok_w l) k /\ tok_ok l k' end.

(** The interrupt level each point is reached with, from level [b]. *)
Fixpoint lvl_ok (b : bool) (k : list instr) : Prop :=
  match k with
  | [] => True
  | Sema_wait _ old :: k => b = INTR_OFF /\ lvl_ok old k
  | Intr_set v :: k => lvl_ok v k
  | Iret :: k => b = INTR_OFF /\ lvl_ok INTR_ON k
  | Kernel_thread :: k => lvl_ok INTR_ON k
  | Sleep_start _ :: k => b = INTR_ON /\ lvl_ok b k
  | Exit :: k => k = []
  | _ :: k => lvl_ok b k
  end.

(** Locks that the kernel takes and releases inside one call. *)
Definition internal (l : lock_id) : bool :=
  match l with TidLock | PoolLock => true | UserLock _ => false end.

(** The rest of a thread's code uses lock [l] properly when it holds [l] iff [b]. *)
Fixpoint lock_ok (l : lock_id) (b : bool) (k : list instr) : Prop :=
  match k with
  | [] => internal l = true -> b = false
  | Lock_check l' :: k => if decide (l' = l) then b = false /\ lock_ok l b k else lock_ok l b k
  | Lock_take l' :: k => if decide (l' = l) then b = false /\ lock_ok l true k else lock_ok l b k
  | Lock_drop l' :: k => if decide (l' = l) then b = true /\ lock_ok l false k else lock_ok l b k
  | Lock_try l' :: k =>
      if decide (l' = l) then internal l = false /\ b = false /\ lock_ok l true k /\ lock_ok l b k
      else lock_ok l b k
  | Cond_enqueue _ l' :: k | Cond_signal _ l' :: k | Cond_broadcast _ l' :: k =>
      (l' = l -> b = true) /\ lock_ok l b k
  | Exit :: k => b = false
  | Create_page _ _ :: k =>
      match l with
      | PoolLock => b = true /\ lock_ok l false k
      | TidLock => b = false /\ lock_ok l b k
      | _ => lock_ok l b k
      end
  | Create_init _ _ _ :: k => (l = TidLock -> b = false) /\ lock_ok l b k
  | Create_tid _ _ :: k =>
      match l with TidLock => b = true /\ lock_ok l false k | _ => lock_ok l b k end
  | _ :: k => lock_ok l b k
  end.

(** Points that a thread other than the idle thread may have left, by thread. *)
Definition instr_ok (t : Z) (i : instr) : Prop :=
  match i with
  | Sema_down (SemWaiter t') | Sema_wait (SemWaiter t') _ => t' = t
  | Sema_try_down s => exists n, s = SemUser n
  | Create_page pri f | Create_init _ pri f => PRI_MIN <= pri <= PRI_MAX /\ f = Function
  | Create_tid _ f | Create_frames _ _ f => f = Function
  | Idle_init _ | Idle_loop | Idle_wake | Halt => False
  | _ => True
  end.

(** The page of a dying thread is about to be given back; the pool's lock is still to be
    acquired. *)
Definition freeing (k : list instr) : Prop :=
  exists p k', k = Lock_check PoolLock :: Sema_down (SemOf PoolLock) :: Lock_take PoolLock :: Pool_free p :: k' \/
               k = Sema_down (SemOf PoolLock) :: Lock_take PoolLock :: Pool_free p :: k'.

(** Only the top of the code can be [freeing]. *)
Fixpoint free_ok (k : list instr) : Prop :=
  match k with [] => True | i :: k' => (freeing k' -> freeing k) /\ free_ok k' end.

(** The rest of a thread's code returns to at most one loop of [sema_down]: what may
    wait, or leads to what may wait, has no such return below it, except for the freeing
    of a dead thread's page, which does not wait.  A thread whose struct is being pushed on
    [all_list] is still to be set up. *)
Definition waits (i : instr) : Z := match i with Sema_wait _ _ => 1 | _ => 0 end.

Fixpoint wait_ok (k : list instr) : Prop :=
  match k with
  | [] => True
  | i :: k' =>
      match i with
      | Sema_down _ => freeing k \/ wcode waits k' = 0
      | Sema_wait _ _ | Create_page _ _ | Create_init _ _ _ => wcode waits k' = 0
      | Create_link t => 1 <= wcode (born_w t) k'
      | _ => True
      end /\ wait_ok k'
  end.

(** What the idle thread may have left: its loop, below interrupts and the page of a
    thread that died. *)
Fixpoint idle_ok (k : list instr) : Prop :=
  match k with
  | [Idle_loop] | [Idle_wake] | [Halt; Idle_loop] => True
  | Intr_set _ :: k | Iret :: k => idle_ok k
  | Lock_check _ :: k' | Sema_down _ :: k' => freeing k /\ idle_ok k'
  | Lock_take PoolLock :: k | Pool_free _ :: k | Lock_drop PoolLock :: k
  | Sema_up (SemOf PoolLock) :: k | Sema_up (SemUser _) :: k | Sema_up (SemWaiter _) :: k => idle_ok k
  | _ => False
  end.

(** A suspended thread left the CPU in [schedule], called from one of these. *)
Definition suspended (k : list instr) : Prop :=
  match k with Sema_wait _ _ :: _ | Intr_set _ :: _ | Kernel_thread :: _ | Idle_wake :: _ => True | _ => False end.

(** What a blocked thread has left: it waits for a semaphore, is new, or is the idle
    thread. *)
Definition blocked_code (k : list instr) : Prop :=
  match k with [] | [Kernel_thread] | [Idle_wake] | Sema_wait _ _ :: _ => True | _ => False end.

(** ** The invariant *)

(** Thread [c] sleeps in the wait list of [s]. *)
Definition sleeping (s : sem_id) (c : tcb) : Prop :=
  status c = THREAD_BLOCKED /\ exists b k, code c = Sema_wait s b :: k.

#[export] Instance sleeping_dec s c : Decision (sleeping s c).
Proof.
  unfold sleeping. destruct (decide (status c = THREAD_BLOCKED)); [|right; tauto].
  destruct (code c) as [|[] k]; try (right; naive_solver).
  destruct (decide (s0 = s)) as [->|]; [left; eauto|right; naive_solver].
Defined.

(** Returns to the loop of [sema_down (s)] by threads that were woken up. *)
Definition pending (s : sem_id) (c : tcb) : Z :=
  wcode (wait_w s) (code c) - (if decide (sleeping s c) then 1 else 0).

(** A struct thread under construction: before its stack is set up, and after. *)
Definition unborn (c : option tcb) : Z :=
  match c with
  | Some c => if decide (status c = THREAD_BLOCKED) then match code c with [] => 1 | _ => 0 end else 0
  | None => 0
  end.
Definition newborn (c : option tcb) : Z :=
  match c with
  | Some c => if decide (status c = THREAD_BLOCKED) then match code c with Kernel_thread :: _ => 1 | _ => 0 end else 0
  | None => 0
  end.

Definition b2z (P : Prop) `{Decision P} : Z := if decide P then 1 else 0.

(** In the middle of an operation the sums on threads under construction, on pages and
    on pushes may be off; [slack] says by how much. *)
Record slack := mk_slack { d_unborn : Z -> Z; d_newborn : Z -> Z; d_page : Z -> Z; d_link : Z -> Z }.

Definition no_slack : slack := mk_slack (fun _ => 0) (fun _ => 0) (fun _ => 0) (fun _ => 0).

(** [run] is the running thread, if there is one: in the middle of [schedule] there is
    none. *)
Record kinv_upto (d : slack) (run : option Z) (st : kstate) : Prop := {
  k_ext : intr_context st = false;
  k_run : forall t, run = Some t <-> exists c, threads st !! t = Some c /\ status c = THREAD_RUNNING;
  k_cur : run = None \/ run = Some (current st);
  k_ready_nodup : NoDup (ready_list st);
  k_ready : forall t, t ∈ ready_list st <->
    t <> idle_thread st /\ exists c, threads st !! t = Some c /\ status c = THREAD_READY;
  k_wait_nodup : forall s, NoDup (waiters (sema st s));
  k_wait : forall s t, t ∈ waiters (sema st s) <-> exists c, threads st !! t = Some c /\ sleeping s c;
  k_all_nodup : NoDup (all_list st);
  k_all : forall t, t ∈ all_list st <->
    t <> all_push st /\ exists c, threads st !! t = Some c /\ status c <> THREAD_DYING;
  k_value : forall s, 0 <= value (sema st s) < 2 ^ 32;
  k_cond : forall q w, w ∈ cond st q -> exists t, w = SemWaiter t;
  k_idle : exists c, threads st !! idle_thread st = Some c /\ idle_ok (code c) /\
    (status c = THREAD_BLOCKED -> code c = [Idle_wake]) /\ status c <> THREAD_DYING;
  k_code : forall t c, threads st !! t = Some c -> t <> idle_thread st -> Forall (instr_ok t) (code c);
  k_level : forall t c, threads st !! t = Some c ->
    lvl_ok (if decide (run = Some t) then intr_get_level st else INTR_OFF) (code c);
  k_susp : forall t c, threads st !! t = Some c -> run <> Some t -> code c = [] \/ suspended (code c);
  k_blocked : forall t c, threads st !! t = Some c -> status c = THREAD_BLOCKED -> blocked_code (code c);
  k_lock_ok : forall t c l, threads st !! t = Some c -> lock_ok l (bool_decide (holder st l = t)) (code c);
  k_tok_ok : forall t c l, threads st !! t = Some c -> tok_ok l (code c);
  k_free_ok : forall t c, threads st !! t = Some c -> free_ok (code c);
  k_wait_ok : forall t c, threads st !! t = Some c -> wait_ok (code c);
  k_free : forall t c, threads st !! t = Some c -> freeing (code c) ->
    run = Some t /\ intr_get_level st = INTR_OFF /\ value (sema st (SemOf PoolLock)) = 1;
  k_holder : forall l, holder st l = NULL \/ is_Some (threads st !! holder st l);
  k_dying : forall t c, threads st !! t = Some c -> status c = THREAD_DYING ->
    code c = [] /\ (t = initial_thread st \/ run = None /\ t = current st);
  k_lock : forall l, value (sema st (SemOf l)) + b2z (holder st l <> NULL) +
    sumt (fun c => wcode (tok_w l) (code c)) (threads st) = 1;
  k_wake : forall s, waiters (sema st s) <> [] -> value (sema st s) <= sumt (pending s) (threads st);
  k_unborn : forall t, sumt (fun c => wcode (born_w t) (code c)) (threads st) =
    unborn (threads st !! t) + d_unborn d t;
  k_newborn : forall t, sumt (fun c => wcode (unblock_w t) (code c)) (threads st) =
    newborn (threads st !! t) + d_newborn d t;
  k_page : forall p, b2z (p ∈ free_pages st) + b2z (is_Some (threads st !! p)) +
    sumt (fun c => wcode (page_w p) (code c)) (threads st) + d_page d p =
    b2z (p ∈ pool_pages st \/ p = initial_thread st);
  k_link : forall t, sumt (fun c => wcode (link_w t) (code c)) (threads st) =
    b2z (t <> NULL /\ all_push st = t) + d_link d t;
  k_pool : (NULL ∉ pool_pages st) /\ initial_thread st <> NULL;
  k_slack : forall p, 0 <= d_page d p
}.

#[global] Arguments k_ext {d run st} _.
#[global] Arguments k_run {d run st} _.
#[global] Arguments k_cur {d run st} _.
#[global] Arguments k_ready_nodup {d run st} _.
#[global] Arguments k_ready {d run st} _.
#[global] Arguments k_wait_nodup {d run st} _.
#[global] Arguments k_wait {d run st} _.
#[global] Arguments k_all_nodup {d run st} _.
#[global] Arguments k_all {d run st} _.
#[global] Arguments k_value {d run st} _.
#[global] Arguments k_cond {d run st} _.
#[global] Arguments k_idle {d run st} _.
#[global] Arguments k_code {d run st} _.
#[global] Arguments k_level {d run st} _.
#[global] Arguments k_susp {d run st} _.
#[global] Arguments k_blocked {d run st} _.
#[global] Arguments k_lock_ok {d run st} _.
#[global] Arguments k_tok_ok {d run st} _.
#[global] Arguments k_free_ok {d run st} _.
#[global] Arguments k_wait_ok {d run st} _.
#[global] Arguments k_free {d run st} _.
#[global] Arguments k_holder {d run st} _.
#[global] Arguments k_dying {d run st} _.
#[global] Arguments k_lock {d run st} _.
#[global] Arguments k_wake {d run st} _.
#[global] Arguments k_unborn {d run st} _.
#[global] Arguments k_newborn {d run st} _.
#[global] Arguments k_page {d run st} _.
#[global] Arguments k_link {d run st} _.
#[global] Arguments k_pool {d run st} _.
#[global] Arguments k_slack {d run st} _.

Abbreviation kinv := (kinv_upto no_slack).

(** ** Steps of the running thread alone

    [st'] is [st] after a step in which the running thread goes on: its own code, the
    interrupt level, semaphore values and its own locks may have changed. *)
Record local_upto (d d' : slack) (st : kstate) (c : tcb) (st' : kstate) (c' : tcb) : Prop := {
  lo_threads : threads st' = <[current st := c']> (threads st);
  lo_status : status c' = THREAD_RUNNING;
  lo_same : ready_list st' = ready_list st /\ all_list st' = all_list st /\
    all_push st' = all_push st /\ pool_pages st' = pool_pages st /\
    idle_thread st' = idle_thread st /\ initial_thread st' = initial_thread st /\
    current st' = current st /\ intr_context st' = false;
  lo_waiters : forall s, waiters (sema st' s) = waiters (sema st s);
  lo_value : forall s, 0 <= value (sema st' s) < 2 ^ 32;
  lo_cond : forall q w, w ∈ cond st' q -> exists t, w = SemWaiter t;
  lo_holder : forall l, holder st' l = holder st l \/
    ((holder st l = NULL \/ holder st l = current st) /\ (holder st' l = NULL \/ holder st' l = current st));
  lo_code : current st <> idle_thread st -> Forall (instr_ok (current st)) (code c');
  lo_idle : current st = idle_thread st -> idle_ok (code c');
  lo_level : lvl_ok (intr_get_level st') (code c');
  lo_lock_ok : forall l, lock_ok l (bool_decide (holder st' l = current st)) (code c');
  lo_tok_ok : forall l, tok_ok l (code c');
  lo_free_ok : free_ok (code c');
  lo_wait_ok : wait_ok (code c');
  lo_free : freeing (code c') -> intr_get_level st' = INTR_OFF /\ value (sema st' (SemOf PoolLock)) = 1;
  lo_lock : forall l, value (sema st' (SemOf l)) + b2z (holder st' l <> NULL) + wcode (tok_w l) (code c') =
    value (sema st (SemOf l)) + b2z (holder st l <> NULL) + wcode (tok_w l) (code c);
  lo_wake : forall s, waiters (sema st s) <> [] ->
    value (sema st' s) - wcode (wait_w s) (code c') <= value (sema st s) - wcode (wait_w s) (code c) \/
    value (sema st' s) <= sumt (pending s) (threads st) - wcode (wait_w s) (code c) + wcode (wait_w s) (code c');
  lo_unborn : forall t, wcode (born_w t) (code c') + d_unborn d t = wcode (born_w t) (code c) + d_unborn d' t;
  lo_newborn : forall t, wcode (unblock_w t) (code c') + d_newborn d t = wcode (unblock_w t) (code c) + d_newborn d' t;
  lo_page : forall p, b2z (p ∈ free_pages st') + wcode (page_w p) (code c') + d_page d' p =
    b2z (p ∈ free_pages st) + wcode (page_w p) (code c) + d_page d p;
  lo_link : forall t, wcode (link_w t) (code c') + d_link d t = wcode (link_w t) (code c) + d_link d' t;
  lo_slack : forall p, 0 <= d_page d' p
}.

#[global] Arguments lo_threads {d d' st c st' c'} _.
#[global] Arguments lo_status {d d' st c st' c'} _.
#[global] Arguments lo_same {d d' st c st' c'} _.
#[global] Arguments lo_waiters {d d' st c st' c'} _.
#[global] Arguments lo_value {d d' st c st' c'} _.
#[global] Arguments lo_cond {d d' st c st' c'} _.
#[global] Arguments lo_holder {d d' st c st' c'} _.
#[global] Arguments lo_code {d d' st c st' c'} _.
#[global] Arguments lo_idle {d d' st c st' c'} _.
#[global] Arguments lo_level {d d' st c st' c'} _.
#[global] Arguments lo_lock_ok {d d' st c st' c'} _.
#[global] Arguments lo_tok_ok {d d' st c st' c'} _.
#[global] Arguments lo_free_ok {d d' st c st' c'} _.
#[global] Arguments lo_wait_ok {d d' st c st' c'} _.
#[global] Arguments lo_free {d d' st c st' c'} _.
#[global] Arguments lo_lock {d d' st c st' c'} _.
#[global] Arguments lo_wake {d d' st c st' c'} _.
#[global] Arguments lo_unborn {d d' st c st' c'} _.
#[global] Arguments lo_newborn {d d' st c st' c'} _.
#[global] Arguments lo_page {d d' st c st' c'} _.
#[global] Arguments lo_link {d d' st c st' c'} _.
#[global] Arguments lo_slack {d d' st c st' c'} _.

Abbreviation local := (local_upto no_slack no_slack).

Section Local.
Context {d d' : slack}.
Implicit Types (st : kstate) (c : tcb) (t : Z).

Lemma lookup_upd (m : gmap Z tcb) t c t' x :
  <[t := c]> m !! t' = Some x <-> (t' = t /\ x = c) \/ (t' <> t /\ m !! t' = Some x).
Proof. rewrite lookup_insert_Some. naive_solver. Qed.

Lemma pending_running s c : status c = THREAD_RUNNING -> pending s c = wcode (wait_w s) (code c).
Proof.
  intros E. unfold pending. rewrite decide_False; [lia|]. intros [E' _]. congruence.
Qed.

Lemma running_current st c : kinv_upto d (Some (current st)) st -> threads st !! current st = Some c ->
  status c = THREAD_RUNNING.
Proof. intros Hk Hc. destruct (proj1 (k_run Hk (current st)) eq_refl) as (c' & ? & ?). congruence. Qed.

Lemma running_only st t c : kinv_upto d (Some (current st)) st -> threads st !! t = Some c ->
  status c = THREAD_RUNNING -> t = current st.
Proof.
  intros Hk Hc Hs. assert (E : Some (current st) = Some t) by (apply (k_run Hk); eauto). congruence.
Qed.

(** The predicates on a thread's entry that do not look at its code are kept when only
    the running thread's code changes. *)
Lemma exists_upd (P : tcb -> Prop) (m : gmap Z tcb) t c c' t' :
  m !! t = Some c -> (P c <-> P c') ->
  (exists x, <[t := c']> m !! t' = Some x /\ P x) <-> (exists x, m !! t' = Some x /\ P x).
Proof.
  intros Hm HP. destruct (decide (t' = t)) as [->|Hne].
  - rewrite lookup_insert_eq. split; intros (x & Hx & Hp); simplify_eq; eauto; naive_solver.
  - by rewrite lookup_insert_ne.
Qed.

Lemma local_threads (P : tcb -> Prop) st c st' c' t :
  kinv_upto d (Some (current st)) st -> threads st !! current st = Some c -> local_upto d d' st c st' c' ->
  (P c <-> P c') ->
  (exists x, threads st' !! t = Some x /\ P x) <-> (exists x, threads st !! t = Some x /\ P x).
Proof. intros Hk Hc Hl HP. rewrite (lo_threads Hl). by eapply exists_upd. Qed.

Lemma local_sum (f : tcb -> Z) st c st' c' :
  threads st !! current st = Some c -> local_upto d d' st c st' c' ->
  sumt f (threads st') = sumt f (threads st) - f c + f c'.
Proof. intros Hc Hl. rewrite (lo_threads Hl). by apply sumt_update. Qed.

Lemma not_sleeping s c : status c <> THREAD_BLOCKED -> ~ sleeping s c.
Proof. by intros ? [? _]. Qed.

Lemma page_nonneg p c : 0 <= wcode (page_w p) (code c).
Proof. induction (code c) as [|[] k IH]; simpl; repeat case_decide; lia. Qed.

Lemma null_no_thread run st : kinv_upto d run st -> threads st !! NULL = None.
Proof.
  intros Hk. destruct (threads st !! NULL) as [c|] eqn:E; [|done]. exfalso. pose proof (k_slack Hk NULL) as Hd.
  pose proof (k_page Hk NULL) as H. rewrite E in H.
  pose proof (sumt_nonneg (fun c => wcode (page_w NULL) (code c)) (threads st) (fun _ x _ => page_nonneg NULL x)).
  unfold b2z in H. rewrite (decide_True (P := is_Some _)) in H by eauto.
  destruct (k_pool Hk) as [Hp Hi]. rewrite (decide_False (P := _ \/ _)) in H by naive_solver.
  destruct (decide (NULL ∈ free_pages st)); lia.
Qed.

Lemma kinv_local st c st' c' :
  kinv_upto d (Some (current st)) st -> threads st !! current st = Some c -> local_upto d d' st c st' c' ->
  kinv_upto d' (Some (current st)) st'.
Proof.
  intros Hk Hc Hl. pose proof (running_current st c Hk Hc) as Hr.
  pose proof (lo_status Hl) as Hr'. destruct (lo_same Hl) as (Er & Ea & Eq & Eg & Ei & En & Ec & Ex).
  pose proof (fun P t => local_threads P st c st' c' t Hk Hc Hl) as HP.
  split.
  - done.
  - intros t. rewrite (HP (fun x => status x = THREAD_RUNNING)) by (rewrite Hr, Hr'; done). apply (k_run Hk).
  - right. by rewrite Ec.
  - rewrite Er. apply (k_ready_nodup Hk).
  - intros t. rewrite Er, Ei, (HP (fun x => status x = THREAD_READY)) by (rewrite Hr, Hr'; done). apply (k_ready Hk).
  - intros s. rewrite (lo_waiters Hl). apply (k_wait_nodup Hk).
  - intros s t. rewrite (lo_waiters Hl), (HP (sleeping s)); [apply (k_wait Hk)|].
    split; intros H; exfalso; by eapply not_sleeping; [|exact H]; congruence.
  - rewrite Ea. apply (k_all_nodup Hk).
  - intros t. rewrite Ea, Eq, (HP (fun x => status x <> THREAD_DYING)) by (rewrite Hr, Hr'; done). apply (k_all Hk).
  - apply (lo_value Hl).
  - apply (lo_cond Hl).
  - destruct (k_idle Hk) as (ci & Hci & Hok & Hb & Hd). rewrite Ei, (lo_threads Hl).
    destruct (decide (idle_thread st = current st)) as [E|Hne].
    + rewrite E, lookup_insert_eq. exists c'. split; [done|].
      split; [by apply (lo_idle Hl)|]. rewrite Hr'. done.
    + rewrite lookup_insert_ne by done. eauto.
  - intros t x Hx Hne. rewrite Ei in Hne. rewrite (lo_threads Hl) in Hx.
    apply lookup_upd in Hx as [[-> ->]|[_ Hx]]; [by apply (lo_code Hl)|by apply (k_code Hk)].
  - intros t x Hx. rewrite (lo_threads Hl) in Hx. apply lookup_upd in Hx as [[-> ->]|[Hne Hx]].
    + rewrite decide_True by done. apply (lo_level Hl).
    + pose proof (k_level Hk t x Hx) as H. rewrite decide_False in H |- * by congruence. done.
  - intros t x Hx Hne. rewrite (lo_threads Hl) in Hx. apply lookup_upd in Hx as [[-> ->]|[_ Hx]]; [done|].
    by apply (k_susp Hk t).
  - intros t x Hx Hs. rewrite (lo_threads Hl) in Hx. apply lookup_upd in Hx as [[-> ->]|[_ Hx]]; [congruence|].
    by apply (k_blocked Hk t).
  - intros t x l Hx. rewrite (lo_threads Hl) in Hx. apply lookup_upd in Hx as [[-> ->]|[Hne Hx]].
    + apply (lo_lock_ok Hl).
    + pose proof (k_lock_ok Hk t x l Hx) as H.
      replace (bool_decide (holder st' l = t)) with (bool_decide (holder st l = t)); [done|].
      apply bool_decide_ext. pose proof (null_no_thread _ st Hk) as Hnull.
      assert (t <> NULL) by (intros ->; congruence).
      destruct (lo_holder Hl l) as [->|[[?|?] [?|?]]]; [done|..]; split; congruence.
  - intros t x l Hx. rewrite (lo_threads Hl) in Hx. apply lookup_upd in Hx as [[-> ->]|[_ Hx]].
    + apply (lo_tok_ok Hl).
    + by apply (k_tok_ok Hk t).
  - intros t x Hx. rewrite (lo_threads Hl) in Hx. apply lookup_upd in Hx as [[-> ->]|[_ Hx]].
    + apply (lo_free_ok Hl).
    + by apply (k_free_ok Hk t).
  - intros t x Hx. rewrite (lo_threads Hl) in Hx. apply lookup_upd in Hx as [[-> ->]|[_ Hx]].
    + apply (lo_wait_ok Hl).
    + by apply (k_wait_ok Hk t).
  - intros t x Hx Hf. rewrite (lo_threads Hl) in Hx. apply lookup_upd in Hx as [[-> ->]|[Hne Hx]].
    + split; [done|]. by apply (lo_free Hl).
    + destruct (k_free Hk t x Hx Hf) as (? & _). congruence.
  - intros l. rewrite (lo_threads Hl), lookup_insert_is_Some'.
    destruct (lo_holder Hl l) as [->|[_ [?|?]]]; [|by left|by right; left].
    destruct (k_holder Hk l) as [?|?]; auto.
  - intros t x Hx Hs. rewrite En, Ec. rewrite (lo_threads Hl) in Hx.
    apply lookup_upd in Hx as [[-> ->]|[_ Hx]]; [congruence|by apply (k_dying Hk)].
  - intros l. rewrite (local_sum _ st c st' c') by done. pose proof (k_lock Hk l).
    pose proof (lo_lock Hl l). lia.
  - intros s Hs. rewrite (lo_waiters Hl) in Hs. rewrite (local_sum _ st c st' c') by done.
    rewrite !pending_running by done. pose proof (k_wake Hk s Hs). pose proof (lo_wake Hl s Hs). lia.
  - intros t. rewrite (local_sum _ st c st' c') by done. rewrite (k_unborn Hk t). pose proof (lo_unborn Hl t).
    rewrite (lo_threads Hl). destruct (decide (t = current st)) as [->|Hne].
    + rewrite lookup_insert_eq, Hc. simpl. rewrite Hr, Hr'. simpl. lia.
    + rewrite lookup_insert_ne by done. lia.
  - intros t. rewrite (local_sum _ st c st' c') by done. rewrite (k_newborn Hk t). pose proof (lo_newborn Hl t).
    rewrite (lo_threads Hl). destruct (decide (t = current st)) as [->|Hne].
    + rewrite lookup_insert_eq, Hc. simpl. rewrite Hr, Hr'. simpl. lia.
    + rewrite lookup_insert_ne by done. lia.
  - intros q. rewrite (local_sum _ st c st' c') by done. rewrite Eg, En. pose proof (k_page Hk q).
    pose proof (lo_page Hl q).
    assert (b2z (is_Some (threads st' !! q)) = b2z (is_Some (threads st !! q))); [|lia].
    rewrite (lo_threads Hl). unfold b2z. apply decide_ext.
    rewrite lookup_insert_is_Some'. split; [intros [<-|?]; [eauto|done]|by right].
  - intros t. rewrite (local_sum _ st c st' c') by done. rewrite Eq. pose proof (k_link Hk t).
    pose proof (lo_link Hl t). lia.
  - rewrite Eg, En. apply (k_pool Hk).
  - apply (lo_slack Hl).
Qed.
End Local.

(** ** Consequences *)
Section Laws.
Context {d : slack} (run : option Z) (st : kstate) (Hk : kinv_upto d run st).
Implicit Types (c : tcb) (t : Z) (l : lock_id) (s : sem_id).

Lemma tok_nonneg l t c : threads st !! t = Some c -> 0 <= wcode (tok_w l) (code c).
Proof. intros Hc. pose proof (k_tok_ok Hk t c l Hc) as H. destruct (code c); [done|]. by destruct H. Qed.

Lemma tok_total l : 0 <= sumt (fun c => wcode (tok_w l) (code c)) (threads st).
Proof. apply sumt_nonneg. intros t c. apply tok_nonneg. Qed.

Lemma b2z_range (P : Prop) `{Decision P} : 0 <= b2z P <= 1.
Proof. unfold b2z. case_decide; lia. Qed.

Lemma b2z_true (P : Prop) `{Decision P} : P -> b2z P = 1.
Proof. unfold b2z. by case_decide. Qed.

Lemma b2z_false (P : Prop) `{Decision P} : ~ P -> b2z P = 0.
Proof. unfold b2z. by case_decide. Qed.

(** A thread with the token of [l] in hand: the lock is taken and nobody is its
    recorded holder. *)
Lemma token_taken l t c : threads st !! t = Some c -> 1 <= wcode (tok_w l) (code c) ->
  holder st l = NULL /\ value (sema st (SemOf l)) = 0 /\ wcode (tok_w l) (code c) = 1.
Proof.
  intros Hc H1. pose proof (k_lock Hk l) as Hl. pose proof (k_value Hk (SemOf l)).
  pose proof (sumt_ge (fun c => wcode (tok_w l) (code c)) _ t c (tok_nonneg l) Hc) as Hge. simpl in Hge.
  pose proof (b2z_range (holder st l <> NULL)).
  split; [|lia]. destruct (decide (holder st l = NULL)) as [|Hne]; [done|].
  rewrite (b2z_true (holder st l <> NULL)) in Hl by done. lia.
Qed.

(** A lock with a recorded holder: nobody else has its token. *)
Lemma held_taken l : holder st l <> NULL ->
  value (sema st (SemOf l)) = 0 /\ forall t c, threads st !! t = Some c -> wcode (tok_w l) (code c) = 0.
Proof.
  intros Hne. pose proof (k_lock Hk l) as Hl. pose proof (k_value Hk (SemOf l)).
  pose proof (tok_total l). rewrite b2z_true in Hl by done. split; [lia|]. intros t c Hc.
  pose proof (sumt_ge (fun c => wcode (tok_w l) (code c)) _ t c (tok_nonneg l) Hc) as Hge. simpl in Hge.
  pose proof (tok_nonneg l t c Hc). lia.
Qed.

(** A lock whose semaphore is up is free. *)
Lemma up_free l : value (sema st (SemOf l)) <> 0 ->
  value (sema st (SemOf l)) = 1 /\ holder st l = NULL /\
  forall t c, threads st !! t = Some c -> wcode (tok_w l) (code c) = 0.
Proof.
  intros Hv. pose proof (k_lock Hk l) as Hl. pose proof (k_value Hk (SemOf l)).
  pose proof (tok_total l). pose proof (b2z_range (holder st l <> NULL)). split; [lia|]. split.
  - destruct (decide (holder st l = NULL)) as [|Hne]; [done|]. rewrite b2z_true in Hl by done. lia.
  - intros t c Hc. pose proof (tok_nonneg l t c Hc).
    pose proof (sumt_ge (fun c => wcode (tok_w l) (code c)) _ t c (tok_nonneg l) Hc) as Hge. simpl in Hge. lia.
Qed.
End Laws.
