(* ===== verification/KernelStep.v ===== *)
(** * Every step of the kernel machine keeps the invariant

    Each point of the code, executed by the running thread of a state that satisfies
    [kinv], returns (no assertion fails, nothing is accessed that is not there) and
    leaves a state that satisfies [kinv]; so does each interrupt. *)

From stdpp Require Import base list gmap numbers functions.
From Stdlib Require Import ZArith Lia.
From S2P Require Import Prelude CString Kernel KernelInv.

Local Open Scope Z_scope.

(** ** The running thread *)

Definition running (st : kstate) : Prop := kinv (Some (current st)) st.

(** The running thread's entry and the parts of the invariant on its code [i :: k]. *)
Record at_point (st : kstate) (c : tcb) (i : instr) (k : list instr) : Prop := {
  ap_inv : running st;
  ap_lookup : threads st !! current st = Some c;
  ap_code : code c = i :: k
}.

Section Facts.
Context (st : kstate) (c : tcb) (i : instr) (k : list instr) (H : at_point st c i k).

Lemma ap_status : status c = THREAD_RUNNING.
Proof. destruct H. by eapply running_current. Qed.

Lemma ap_instr : current st <> idle_thread st -> instr_ok (current st) i /\ Forall (instr_ok (current st)) k.
Proof.
  destruct H as [Hk Hc E]. intros Hne. pose proof (k_code Hk _ _ Hc Hne) as Hok.
  rewrite E in Hok. by apply list.Forall_cons in Hok.
Qed.

Lemma ap_idle : current st = idle_thread st -> idle_ok (i :: k).
Proof.
  destruct H as [Hk Hc E]. intros Ei. destruct (k_idle Hk) as (c' & Hc' & Hok & _).
  rewrite <- Ei in Hc'. rewrite Hc in Hc'. simplify_eq. by rewrite E in Hok.
Qed.

Lemma ap_level : lvl_ok (intr_get_level st) (i :: k).
Proof.
  destruct H as [Hk Hc E]. pose proof (k_level Hk _ _ Hc) as Hl.
  rewrite decide_True in Hl by done. by rewrite E in Hl.
Qed.

Lemma ap_lock_ok l : lock_ok l (bool_decide (holder st l = current st)) (i :: k).
Proof. destruct H as [Hk Hc E]. pose proof (k_lock_ok Hk _ _ l Hc) as Hl. by rewrite E in Hl. Qed.

Lemma ap_tok_ok l : 0 <= wcode (tok_w l) (i :: k) /\ tok_ok l k.
Proof. destruct H as [Hk Hc E]. pose proof (k_tok_ok Hk _ _ l Hc) as Hl. by rewrite E in Hl. Qed.

Lemma ap_free : freeing (i :: k) -> intr_get_level st = INTR_OFF /\ value (sema st (SemOf PoolLock)) = 1.
Proof. destruct H as [Hk Hc E]. intros Hf. rewrite <- E in Hf. by destruct (k_free Hk _ _ Hc Hf). Qed.

Lemma ap_free_ok : (freeing k -> freeing (i :: k)) /\ free_ok k.
Proof. destruct H as [Hk Hc E]. pose proof (k_free_ok Hk _ _ Hc) as Hf. by rewrite E in Hf. Qed.

Lemma ap_wait_ok : wait_ok (i :: k).
Proof. destruct H as [Hk Hc E]. pose proof (k_wait_ok Hk _ _ Hc) as Hf. by rewrite E in Hf. Qed.

Lemma ap_ext : intr_context st = false.
Proof. destruct H. by eapply k_ext. Qed.
End Facts.

(** [popped]: the state in which point [i] is executed. *)
Definition popped (st : kstate) (k : list instr) : kstate := upd_thread st (current st) (with_code k).

Lemma alter_some {A} (f : A -> A) (m : gmap Z A) t x : m !! t = Some x -> alter f t m = <[t := f x]> m.
Proof.
  intros Hm. apply map_eq. intros j. destruct (decide (t = j)) as [<-|Hne].
  - by rewrite lookup_alter_eq, lookup_insert_eq, Hm.
  - by rewrite lookup_alter_ne, lookup_insert_ne.
Qed.

Lemma alter_insert_id {A} (f : A -> A) (m : gmap Z A) t x : alter f t (<[t := x]> m) = <[t := f x]> m.
Proof.
  rewrite (alter_some f (<[t := x]> m) t x) by apply lookup_insert_eq. apply insert_insert_eq.
Qed.

Lemma popped_threads st c k : threads st !! current st = Some c ->
  threads (popped st k) = <[current st := with_code k c]> (threads st).
Proof. intros Hc. by apply alter_some. Qed.

Lemma push_threads st x k m : threads st = <[current st := x]> m ->
  threads (push_code k st) = <[current st := with_code (k ++ code x) x]> m.
Proof. intros E. unfold push_code, upd_thread. simpl. rewrite E. by rewrite alter_insert_id. Qed.

Lemma thread_current_eq st c : threads st !! current st = Some c -> status c = THREAD_RUNNING ->
  thread_current st = Ok (current st).
Proof.
  intros Hc Hs. unfold thread_current, is_thread, get_thread. rewrite Hc.
  rewrite bool_decide_true by eauto. simpl. by rewrite bool_decide_true.
Qed.

Lemma intr_set_level_eq b st : intr_context st = false -> intr_set_level b st = Ok (write_flag st b).
Proof. intros E. unfold intr_set_level, intr_enable. rewrite E. by destruct b. Qed.

(** ** Tactics for steps *)

(** [facts H] collects what the invariant says at a point; [weights] proves the
    equations between weights; [local_step] proves the fields of [local] that follow by
    computation. *)
Ltac facts H :=
  let Hk := fresh "Hk" in let Hc := fresh "Hc" in let E := fresh "Ecode" in
  pose proof H as [Hk Hc E];
  pose proof (ap_status _ _ _ _ H) as Hstatus; pose proof (ap_ext _ _ _ _ H) as Hext;
  pose proof (ap_level _ _ _ _ H) as Hlevel; pose proof (ap_idle _ _ _ _ H) as Hidle;
  pose proof (ap_instr _ _ _ _ H) as Hinstr; pose proof (ap_lock_ok _ _ _ _ H) as Hlock;
  pose proof (ap_tok_ok _ _ _ _ H) as Htok; pose proof (ap_free_ok _ _ _ _ H) as Hfree;
  pose proof (ap_wait_ok _ _ _ _ H) as Hwaitok;
  pose proof (k_value Hk) as Hvalue; pose proof (k_cond Hk) as Hcond;
  simpl in Hlevel, Hidle, Hinstr, Hlock, Hwaitok.

Ltac weights := intros; simpl; repeat case_decide; simplify_eq; lia.

Ltac not_freeing := intros (? & ? & [?|?]); simplify_eq/=.

(** [freeing] of a concrete code is decided by its first points. *)
Ltac free_imp Hfree :=
  let Hf := fresh "Hf" in
  intros Hf; exfalso; try (apply (proj1 Hfree) in Hf); revert Hf; not_freeing; done.
Ltac free_tac Hfree :=
  lazymatch goal with
  | |- _ /\ _ => split; [first [apply (proj1 Hfree) | free_imp Hfree]|free_tac Hfree]
  | |- freeing _ -> _ => free_imp Hfree
  | |- free_ok _ => apply (proj2 Hfree)
  | |- True => exact I
  end.

Ltac instr_tac Hinstr :=
  intros Hne; specialize (Hinstr Hne); repeat (apply list.Forall_cons; split; [simpl; done || tauto|]); tauto.

Ltac tok_tac Htok :=
  let l := fresh "l" in
  intros l; specialize (Htok l); simpl in *; repeat case_decide; simplify_eq; intuition lia.

(** The returns to [sema_down] below new points. *)
Ltac wait_tac := simpl in *; intuition (try lia).

Ltac local_step Hc Hinstr Htok Hfree :=
  split; unfold intr_get_level, intr_context in *; simpl;
  repeat match goal with E : code _ = _ |- context [code ?c] => rewrite E end; simpl;
  lazymatch goal with
  | |- alter _ _ _ = _ => try by rewrite (alter_some _ _ _ _ Hc), ?alter_insert_id
  | |- ready_list _ = _ /\ _ => done
  | |- forall l, _ = _ \/ _ => try by left
  | |- _ -> Forall _ _ => try instr_tac Hinstr
  | |- forall l, tok_ok _ _ => by intros ?; apply Htok
  | |- forall l : lock_id, 0 <= _ /\ _ => try tok_tac Htok
  | |- wait_ok _ => try (by wait_tac)
  | |- freeing _ -> _ => try free_tac Hfree
  | |- (freeing _ -> _) /\ _ => try free_tac Hfree
  | |- _ => try done; try (by weights); try tauto
  end.
Ltac finish_local := 
  lazymatch goal with
  | Hc : threads ?st !! current ?st = Some _,
    Hinstr : current _ <> idle_thread _ -> _,
    Htok : forall l : lock_id, 0 <= _ /\ _, Hfree : _ /\ free_ok _ |- _ => local_step Hc Hinstr Htok Hfree
  end.


(** [fn_upd l l'] looks an updated function up. *)
Ltac fn_upd l l' :=
  destruct (decide (l = l')) as [<-|?];
  [rewrite ?fn_lookup_insert in *|rewrite ?fn_lookup_insert_ne in * by congruence].

(** [sem_tac s] proves the fields of [local] that look at the value of [s]. *)
Ltac sem_tac s :=
  match goal with
  | |- forall s' : sem_id, waiters _ = _ => let s' := fresh "s" in intros s'; by fn_upd s s'
  | Hv : forall s0, 0 <= value _ < _ |- forall s' : sem_id, 0 <= _ < _ =>
      let s' := fresh "s" in intros s'; pose proof (Hv s); pose proof (Hv s'); fn_upd s s'; simpl; lia
  | |- forall l : lock_id, _ + _ + _ = _ =>
      let l := fresh "l" in
      intros l; destruct (decide (s = SemOf l)) as [->|?];
      [rewrite fn_lookup_insert|rewrite fn_lookup_insert_ne by done; try destruct s];
      simpl; repeat case_decide; simplify_eq; simpl in *; lia
  | |- forall s', waiters _ <> [] -> _ =>
      let s' := fresh "s" in
      intros s' Hw; left; fn_upd s s'; simpl; repeat case_decide; simplify_eq; lia
  end.

(** ** Points that the running thread passes on its own *)
Section Steps.
Context {PC : PageChoice}.

Lemma step_intr_set st c b k : at_point st c (Intr_set b) k ->
  returns (exec (Intr_set b) (popped st k)) running.
Proof.
  intros H. facts H. simpl. rewrite intr_set_level_eq by done.
  apply (kinv_local st c _ (with_code k c) Hk Hc). finish_local.
Qed.

Lemma step_iret st c k : at_point st c Iret k -> returns (exec Iret (popped st k)) running.
Proof.
  intros H. facts H. simpl. apply (kinv_local st c _ (with_code k c) Hk Hc). finish_local.
Qed.

Lemma step_kernel_thread st c k : at_point st c Kernel_thread k ->
  returns (exec Kernel_thread (popped st k)) running.
Proof.
  intros H. facts H. simpl. unfold intr_enable. change (intr_context (popped st k)) with (intr_context st).
  rewrite Hext. simpl. apply (kinv_local st c _ (with_code k c) Hk Hc). finish_local.
Qed.

Lemma popped_current st c k : threads st !! current st = Some c -> status c = THREAD_RUNNING ->
  thread_current (popped st k) = Ok (current st).
Proof.
  intros Hc Hs. apply (thread_current_eq (popped st k) (with_code k c)); [|done].
  change (current (popped st k)) with (current st). by rewrite (popped_threads st c k Hc), lookup_insert_eq.
Qed.

Lemma step_set_priority st c p k : at_point st c (Set_priority p) k ->
  returns (exec (Set_priority p) (popped st k)) running.
Proof.
  intros H. facts H. simpl. rewrite (popped_current st c k) by done. simpl.
  apply (kinv_local st c _ (with_priority p (with_code k c)) Hk Hc). finish_local.
Qed.

Lemma step_idle_wake st c k : at_point st c Idle_wake k ->
  returns (exec Idle_wake (popped st k)) running.
Proof.
  intros H. facts H. destruct (decide (current st = idle_thread st)) as [Ei|Hne]; [|by destruct (Hinstr Hne)].
  specialize (Hidle Ei). destruct k as [|? ?]; [|done].
  simpl. unfold intr_enable. change (intr_context (popped st [])) with (intr_context st).
  rewrite Hext. simpl. apply (kinv_local st c _ (with_code [Halt; Idle_loop] c) Hk Hc). finish_local.
Qed.

Lemma step_sleep_start st c n k : at_point st c (Sleep_start n) k ->
  returns (exec (Sleep_start n) (popped st k)) running.
Proof.
  intros H. facts H. simpl. unfold sleep_start. change (intr_get_level (popped st k)) with (intr_get_level st).
  destruct Hlevel as [E Hlevel]. rewrite E. simpl.
  apply (kinv_local st c _ (with_code (Sleep_loop (ticks (stats st)) n :: k) c) Hk Hc). finish_local.
Qed.

Lemma step_sleep_loop st c m n k : at_point st c (Sleep_loop m n) k ->
  returns (exec (Sleep_loop m n) (popped st k)) running.
Proof.
  intros H. facts H. simpl. unfold sleep_loop. destruct (_ <? n); simpl.
  - apply (kinv_local st c _ (with_code (Yield :: Sleep_loop m n :: k) c) Hk Hc). finish_local.
  - apply (kinv_local st c _ (with_code k c) Hk Hc). finish_local.
Qed.

(** *** Locks *)

Lemma popped_held st c k l : threads st !! current st = Some c -> status c = THREAD_RUNNING ->
  lock_held_by_current_thread l (popped st k) = Ok (holder st l =? current st).
Proof. intros Hc Hs. unfold lock_held_by_current_thread. by rewrite (popped_current st c k). Qed.

Lemma step_lock_check st c l k : at_point st c (Lock_check l) k ->
  returns (exec (Lock_check l) (popped st k)) running.
Proof.
  intros H. facts H. simpl. unfold lock_check. change (intr_context (popped st k)) with (intr_context st).
  rewrite Hext. simpl. rewrite (popped_held st c k l) by done. simpl.
  pose proof (Hlock l) as Hl. rewrite decide_True in Hl by done. destruct Hl as [Hb _].
  apply bool_decide_eq_false in Hb. replace (holder st l =? current st) with false by (symmetry; by apply Z.eqb_neq).
  simpl. apply (kinv_local st c _ (with_code k c) Hk Hc). finish_local.
  - intros l'. specialize (Hlock l'). case_decide; tauto.
  - intros Hf. by apply (ap_free _ _ _ _ H), Hfree.
Qed.

Lemma tok_pop st c i k l : at_point st c i k -> 0 <= wcode (tok_w l) k.
Proof. intros H. pose proof (ap_tok_ok _ _ _ _ H l) as [_ Ht]. destruct k; [done|]. by destruct Ht. Qed.

Lemma current_nonnull st c i k : at_point st c i k -> current st <> NULL.
Proof. intros [Hk Hc _] E. rewrite E, (null_no_thread _ _ Hk) in Hc. done. Qed.

Lemma step_lock_take st c l k : at_point st c (Lock_take l) k ->
  returns (exec (Lock_take l) (popped st k)) running.
Proof.
  intros H. facts H. pose proof (tok_pop _ _ _ _ l H). pose proof (current_nonnull _ _ _ _ H) as Hcn.
  destruct (token_taken _ _ Hk l _ _ Hc) as (Hnull & _).
  { rewrite Ecode. simpl. rewrite decide_True by done. lia. }
  simpl. unfold lock_take. rewrite (popped_current st c k) by done. simpl.
  apply (kinv_local st c _ (with_code k c) Hk Hc). finish_local.
  - intros l'. fn_upd l l'; auto.
  - intros E. specialize (Hidle E). by destruct l.
  - intros l'. specialize (Hlock l'). fn_upd l l'; [|done]. rewrite bool_decide_true by done. tauto.
  - intros l'. fn_upd l l'; [|lia]. rewrite b2z_true, b2z_false by (done || congruence). lia.
Qed.

Lemma step_lock_drop st c l k : at_point st c (Lock_drop l) k ->
  returns (exec (Lock_drop l) (popped st k)) running.
Proof.
  intros H. facts H. pose proof (current_nonnull _ _ _ _ H) as Hcn.
  pose proof (Hlock l) as Hl. rewrite decide_True in Hl by done. destruct Hl as [Hb _].
  apply bool_decide_eq_true in Hb.
  simpl. unfold lock_drop. rewrite (popped_held st c k l) by done. simpl. rewrite Hb, Z.eqb_refl. simpl.
  apply (kinv_local st c _ (with_code k c) Hk Hc). finish_local.
  - intros l'. fn_upd l l'; auto.
  - intros E. specialize (Hidle E). by destruct l.
  - intros l'. specialize (Hlock l'). fn_upd l l'; [|done]. rewrite bool_decide_false by congruence. tauto.
  - intros l'. fn_upd l l'; [|lia]. rewrite b2z_false, b2z_true by (congruence || auto). lia.
Qed.

(** *** Semaphores *)

Lemma step_sema_wait_ok st c s b k : at_point st c (Sema_wait s b) k -> value (sema st s) <> 0 ->
  returns (exec (Sema_wait s b) (popped st k)) running.
Proof.
  intros H Hv. facts H. simpl. unfold sema_wait. change (sema (popped st k)) with (sema st).
  replace (value (sema st s) =? 0) with false by (symmetry; by apply Z.eqb_neq).
  rewrite intr_set_level_eq by done. apply (kinv_local st c _ (with_code k c) Hk Hc).
  finish_local; sem_tac s.
Qed.

Lemma step_sema_down_ok st c s k : at_point st c (Sema_down s) k -> value (sema st s) <> 0 ->
  returns (exec (Sema_down s) (popped st k)) running.
Proof.
  intros H Hv. facts H. simpl. unfold sema_down. change (intr_context (popped st k)) with (intr_context st).
  rewrite Hext. simpl. unfold sema_wait. change (sema (intr_disable (popped st k))) with (sema st).
  replace (value (sema st s) =? 0) with false by (symmetry; by apply Z.eqb_neq).
  rewrite intr_set_level_eq by done. apply (kinv_local st c _ (with_code k c) Hk Hc).
  finish_local; try sem_tac s.
  intros Hf. destruct (proj1 Hfree Hf) as (p & k' & [E|E]); simplify_eq/=.
  by destruct Hf as (? & ? & [?|?]).
Qed.

Lemma step_sema_try_down st c s k : at_point st c (Sema_try_down s) k ->
  returns (exec (Sema_try_down s) (popped st k)) running.
Proof.
  intros H. facts H. destruct (Hinstr Hidle) as [[n ->] _].
  simpl. unfold sema_try_down. change (sema (intr_disable (popped st k))) with (sema st).
  destruct (Z.ltb_spec 0 (value (sema st (SemUser n)))) as [Hv|Hv].
  all: rewrite intr_set_level_eq by done; simpl.
  all: apply (kinv_local st c _ (with_code k c) Hk Hc); finish_local; try sem_tac (SemUser n).
Qed.

Lemma step_lock_try st c l k : at_point st c (Lock_try l) k ->
  returns (exec (Lock_try l) (popped st k)) running.
Proof.
  intros H. facts H. pose proof (Hlock l) as Hl. rewrite decide_True in Hl by done.
  destruct Hl as (Hint & Hb & Ht & Hfl). apply bool_decide_eq_false in Hb.
  simpl. unfold lock_try_acquire. rewrite (popped_held st c k l) by done.
  replace (holder st l =? current st) with false by (symmetry; by apply Z.eqb_neq). simpl.
  unfold sema_try_down. change (sema (intr_disable (popped st k))) with (sema st).
  destruct (Z.ltb_spec 0 (value (sema st (SemOf l)))) as [Hv|Hv].
  all: rewrite intr_set_level_eq by done; simpl.
  - apply (kinv_local st c _ (with_code (Lock_take l :: k) c) Hk Hc). finish_local; try sem_tac (SemOf l).
    + intros l'. specialize (Hlock l'). case_decide; tauto.
    + intros l'. destruct (decide (l = l')) as [<-|Hne]; [rewrite fn_lookup_insert|rewrite fn_lookup_insert_ne by congruence];
        simpl; lia.
  - apply (kinv_local st c _ (with_code k c) Hk Hc). finish_local.
    intros l'. specialize (Hlock l'). case_decide; tauto.
Qed.

(** Semaphore [s] incremented by the running thread, which passes [sema_up (s)]. *)
Lemma raise_local st c s k st' :
  at_point st c (Sema_up s) k ->
  (waiters (sema st s) <> [] -> value (sema st s) + 1 <= sumt (pending s) (threads st)) ->
  threads st' = <[current st := with_code k c]> (threads st) ->
  ready_list st' = ready_list st /\ all_list st' = all_list st /\
    all_push st' = all_push st /\ pool_pages st' = pool_pages st /\
    idle_thread st' = idle_thread st /\ initial_thread st' = initial_thread st /\
    current st' = current st /\ intr_context st' = false ->
  sema st' = <[s := mk_semaphore (u32 (value (sema st s) + 1)) (waiters (sema st s))]> (sema st) ->
  cond st' = cond st ->
  holder st' = holder st -> free_pages st' = free_pages st -> intr_get_level st' = intr_get_level st ->
  local st c st' (with_code k c).
Proof.
  intros H Hw Et Es Esem Econd Eh Ef Eb. facts H. pose proof (Hvalue s) as Hvs.
  pose proof (u32_range (value (sema st s) + 1)).
  assert (Hle : u32 (value (sema st s) + 1) <= value (sema st s) + 1) by (apply Z.mod_le; lia).
  split; rewrite ?Esem, ?Econd, ?Eh, ?Ef, ?Eb, ?Ecode; simpl; try done; try (by weights).
  - intros s'. by fn_upd s s'.
  - intros s'. by fn_upd s s'.
  - tauto.
  - intros E. specialize (Hidle E). destruct s as [[]| |]; done.
  - intros l. apply Htok.
  - apply Hfree.
  - apply Hwaitok.
  - free_imp Hfree.
  - intros l. destruct (decide (s = SemOf l)) as [->|Hne]; [rewrite fn_lookup_insert|rewrite fn_lookup_insert_ne by done].
    + pose proof (tok_pop _ _ _ _ l H). destruct (token_taken _ _ Hk l _ _ Hc) as (_ & Ev & _).
      { rewrite Ecode. simpl. rewrite decide_True by done. lia. }
      rewrite Ev. simpl. rewrite decide_True by done. change (u32 (0 + 1)) with 1. lia.
    + destruct s; [rewrite decide_False by congruence|..]; lia.
  - intros s' Hw'. destruct (decide (s = s')) as [<-|Hne]; [rewrite fn_lookup_insert|rewrite fn_lookup_insert_ne by done].
    + right. specialize (Hw Hw'). simpl. lia.
    + left. lia.
Qed.

(** *** Conditions *)

(** Only a thread itself sleeps on its [cond_wait] semaphore. *)
Lemma waiter_alone run st t : kinv run st -> run = Some t -> waiters (sema st (SemWaiter t)) = [].
Proof.
  intros Hk Hr. destruct (waiters (sema st (SemWaiter t))) as [|t' r] eqn:E; [done|]. exfalso.
  destruct (proj1 (k_wait Hk (SemWaiter t) t')) as (c & Hc & Hs & b & k & Ec); [rewrite E; set_solver|].
  destruct (decide (t' = idle_thread st)) as [->|Hne].
  - destruct (k_idle Hk) as (c' & Hc' & _ & Hb & _). rewrite Hc in Hc'. simplify_eq. rewrite Hb in Ec; done.
  - pose proof (k_code Hk _ _ Hc Hne) as Hok. rewrite Ec in Hok. apply list.Forall_cons in Hok as [Hok _].
    simpl in Hok. subst t'. destruct (proj1 (k_run Hk t) Hr) as (? & ? & ?). congruence.
Qed.

Lemma held_by_current st c i k l : at_point st c i k ->
  bool_decide (holder st l = current st) = true -> (holder st l =? current st) = true.
Proof. intros _ ->%bool_decide_eq_true. apply Z.eqb_refl. Qed.

Lemma step_cond_enqueue st c q l k : at_point st c (Cond_enqueue q l) k ->
  returns (exec (Cond_enqueue q l) (popped st k)) running.
Proof.
  intros H. facts H. pose proof (Hlock l) as [Hb _].
  pose proof (waiter_alone _ st (current st) Hk eq_refl) as Hw.
  simpl. unfold cond_enqueue. change (intr_context (popped st k)) with (intr_context st). rewrite Hext. simpl.
  rewrite (popped_held st c k l), (held_by_current _ _ _ _ l H) by auto. simpl.
  apply (kinv_local st c _ (with_code k c) Hk Hc). finish_local; try sem_tac (SemWaiter (current st)).
  - intros q' w. fn_upd (l, q) q'; [|apply Hcond]. intros [Hw0|Hw0]%elem_of_app; [by eapply Hcond|apply list_elem_of_singleton in Hw0; eauto].
  - intros l'. apply Hlock.
  - intros s Hs. left. destruct (decide (s = SemWaiter (current st))) as [->|Hne]; [done|].
    rewrite fn_lookup_insert_ne by done. lia.
Qed.

Lemma step_cond_signal st c q l k : at_point st c (Cond_signal q l) k ->
  returns (exec (Cond_signal q l) (popped st k)) running.
Proof.
  intros H. facts H. pose proof (Hlock l) as [Hb _].
  simpl. unfold cond_signal. change (intr_context (popped st k)) with (intr_context st). rewrite Hext. simpl.
  rewrite (popped_held st c k l), (held_by_current _ _ _ _ l H) by auto. simpl.
  destruct (cond st (l, q)) as [|w ws] eqn:Eq.
  - apply (kinv_local st c _ (with_code k c) Hk Hc). finish_local.
    intros l'. apply Hlock.
  - destruct (Hcond (l, q) w) as [t ->]; [rewrite Eq; set_solver +|].
    apply (kinv_local st c _ (with_code (Sema_up (SemWaiter t) :: k) c) Hk Hc). finish_local.
    + intros q' w. fn_upd (l, q) q'; [|apply Hcond]. intros Hw. apply (Hcond (l, q)). rewrite Eq. by apply list_elem_of_further.
    + intros l'. apply Hlock.
Qed.

Lemma step_cond_broadcast st c q l k : at_point st c (Cond_broadcast q l) k ->
  returns (exec (Cond_broadcast q l) (popped st k)) running.
Proof.
  intros H. facts H. simpl. unfold cond_broadcast. change (cond (popped st k)) with (cond st).
  destruct (cond st (l, q)) as [|w ws] eqn:Eq.
  - apply (kinv_local st c _ (with_code k c) Hk Hc). finish_local.
    intros l'. apply Hlock.
  - apply (kinv_local st c _ (with_code (Cond_signal q l :: Cond_broadcast q l :: k) c) Hk Hc). finish_local.
    intros l'. split; [|split]; apply Hlock.
Qed.

(** *** Creation and pages *)

Lemma b2z_ext (P Q : Prop) `{Decision P, Decision Q} : (P <-> Q) -> b2z P = b2z Q.
Proof. intros E. unfold b2z. by apply decide_ext. Qed.

Lemma step_create_page st c pri f k : at_point st c (Create_page pri f) k ->
  returns (exec (Create_page pri f) (popped st k)) running.
Proof.
  intros H. facts H. simpl. unfold create_page. change (free_pages (popped st k)) with (free_pages st).
  destruct (choose_page (free_pages st)) as [t|] eqn:Et.
  - apply choose_page_some in Et.
    apply (kinv_local st c _ (with_code (release_code PoolLock ++ Create_init t pri f :: k) c) Hk Hc).
    finish_local.
    + intros l. specialize (Hlock l). destruct l; simpl; naive_solver.
    + intros p. case_decide; [subst p|].
      * rewrite b2z_false, b2z_true by set_solver + Et. lia.
      * rewrite (b2z_ext (p ∈ free_pages st ∖ {[t]}) (p ∈ free_pages st)) by set_solver. lia.
  - apply (kinv_local st c _ (with_code (release_code PoolLock ++ k) c) Hk Hc). finish_local.
    intros l. specialize (Hlock l). destruct l; simpl; naive_solver.
Qed.

Lemma step_create_tid st c t f k : at_point st c (Create_tid t f) k ->
  returns (exec (Create_tid t f) (popped st k)) running.
Proof.
  intros H. facts H. simpl. unfold create_tid.
  apply (kinv_local st c _ (with_code (release_code TidLock ++ Create_frames t (next_tid (stats st)) f :: k) c) Hk Hc).
  finish_local.
  intros l. specialize (Hlock l). destruct l; simpl; naive_solver.
Qed.

(** A page in hand is neither free nor a thread. *)
Lemma page_in_hand st c i k p : at_point st c i k -> 1 <= page_w p i ->
  (p ∉ free_pages st) /\ threads st !! p = None /\ p <> NULL.
Proof.
  intros [Hk Hc E] Hw. pose proof (k_page Hk p) as Hp. simpl in Hp.
  pose proof (sumt_ge (fun c => wcode (page_w p) (code c)) (threads st) _ c (fun _ x _ => page_nonneg p x) Hc) as Hs.
  simpl in Hs. rewrite E in Hs. simpl in Hs. pose proof (page_nonneg p (with_code k c)) as Hn. simpl in Hn.
  unfold b2z in Hp. destruct (decide (p ∈ free_pages st)), (decide (is_Some (threads st !! p))) as [|Ht], (decide (p ∈ pool_pages st \/ p = initial_thread st)) as [Hi|]; try lia.
  assert (p <> NULL) by (destruct (k_pool Hk); naive_solver).
  rewrite <- eq_None_not_Some in Ht. done.
Qed.

Lemma step_pool_free st c p k : at_point st c (Pool_free p) k ->
  returns (exec (Pool_free p) (popped st k)) running.
Proof.
  intros H. facts H. destruct (page_in_hand _ _ _ _ p H) as (Hp & _).
  { simpl. by rewrite decide_True. }
  simpl. unfold pool_free. change (free_pages (popped st k)) with (free_pages st).
  rewrite bool_decide_true by done. simpl. apply (kinv_local st c _ (with_code k c) Hk Hc). finish_local.
  intros q. case_decide; [subst q|].
  - rewrite b2z_true, b2z_false by set_solver + Hp. lia.
  - rewrite (b2z_ext (q ∈ {[p]} ∪ free_pages st) (q ∈ free_pages st)) by set_solver. lia.
Qed.
End Steps.
