(* ===== verification/KernelSched.v ===== *)
(** * Changes of one thread's status keep the invariant

    [update]: the conditions under which a state in which the entry of one thread has
    changed still satisfies [kinv]; from it, the effects of [thread_unblock], of the
    setting up of a new thread, of leaving the CPU and of [schedule]. *)

From stdpp Require Import base list gmap numbers functions.
From Stdlib Require Import ZArith Lia.
From S2P Require Import Prelude CString Kernel KernelInv KernelStep.

Local Open Scope Z_scope.

(** ** One thread's entry changes *)

(** What thread [t] had left, if it was there. *)
Definition old_w (w : instr -> Z) (ox : option tcb) : Z := from_option (fun x => wcode w (code x)) 0 ox.

Record update (d : slack) (run : option Z) (st : kstate) (t : Z) (ox : option tcb)
    (d' : slack) (run' : option Z) (st' : kstate) (x' : tcb) : Prop := {
  up_threads : threads st' = <[t := x']> (threads st);
  up_same : intr_context st' = false /\ idle_thread st' = idle_thread st /\
    initial_thread st' = initial_thread st /\ holder st' = holder st /\ cond st' = cond st /\
    free_pages st' = free_pages st /\ pool_pages st' = pool_pages st;
  up_run : status x' = THREAD_RUNNING <-> run' = Some t;
  up_run_other : forall u, u <> t -> run' = Some u <-> run = Some u;
  up_cur : run' = None \/ run' = Some (current st');
  up_flag : forall u, u <> t -> run = Some u -> intr_get_level st' = intr_get_level st;
  up_ready_nodup : NoDup (ready_list st');
  up_ready : forall u, u ∈ ready_list st' <->
    (u = t /\ t <> idle_thread st /\ status x' = THREAD_READY) \/ (u <> t /\ u ∈ ready_list st);
  up_wait_nodup : forall s, NoDup (waiters (sema st' s));
  up_wait : forall s u, u ∈ waiters (sema st' s) <->
    (u = t /\ sleeping s x') \/ (u <> t /\ u ∈ waiters (sema st s));
  up_all_nodup : NoDup (all_list st');
  up_all : forall u, u ∈ all_list st' <->
    (u = t /\ t <> all_push st' /\ status x' <> THREAD_DYING) \/ (u <> t /\ u ∈ all_list st);
  up_push : all_push st' = all_push st \/ all_push st = NULL /\ all_push st' = t;
  up_value : forall s, value (sema st' s) = value (sema st s);
  up_idle : t = idle_thread st -> idle_ok (code x') /\
    (status x' = THREAD_BLOCKED -> code x' = [Idle_wake]) /\ status x' <> THREAD_DYING;
  up_code : t <> idle_thread st -> Forall (instr_ok t) (code x');
  up_level : lvl_ok (if decide (run' = Some t) then intr_get_level st' else INTR_OFF) (code x');
  up_susp : run' <> Some t -> code x' = [] \/ suspended (code x');
  up_blocked : status x' = THREAD_BLOCKED -> blocked_code (code x');
  up_lock_ok : forall l, lock_ok l (bool_decide (holder st l = t)) (code x');
  up_tok_ok : forall l, tok_ok l (code x');
  up_free_ok : free_ok (code x');
  up_wait_ok : wait_ok (code x');
  up_freeing : freeing (code x') ->
    run' = Some t /\ intr_get_level st' = INTR_OFF /\ value (sema st (SemOf PoolLock)) = 1;
  up_dies : status x' = THREAD_DYING -> code x' = [] /\ (t = initial_thread st \/ run' = None /\ t = current st');
  up_dying : forall u y, u <> t -> threads st !! u = Some y -> status y = THREAD_DYING ->
    u = initial_thread st \/ run' = None /\ u = current st';
  up_tok : forall l, wcode (tok_w l) (code x') = old_w (tok_w l) ox;
  up_wake : forall s, waiters (sema st' s) <> [] ->
    value (sema st s) <= sumt (pending s) (threads st) - from_option (pending s) 0 ox + pending s x';
  up_unborn : forall u, wcode (born_w u) (code x') + d_unborn d u + b2z (u = t) * unborn ox =
    old_w (born_w u) ox + d_unborn d' u + b2z (u = t) * unborn (Some x');
  up_newborn : forall u, wcode (unblock_w u) (code x') + d_newborn d u + b2z (u = t) * newborn ox =
    old_w (unblock_w u) ox + d_newborn d' u + b2z (u = t) * newborn (Some x');
  up_page : forall p, wcode (page_w p) (code x') + d_page d' p + b2z (p = t) =
    old_w (page_w p) ox + d_page d p + b2z (p = t) * b2z (is_Some ox);
  up_link : forall u, wcode (link_w u) (code x') + b2z (u <> NULL /\ all_push st = u) + d_link d u =
    old_w (link_w u) ox + b2z (u <> NULL /\ all_push st' = u) + d_link d' u;
  up_slack : forall p, 0 <= d_page d' p
}.

#[global] Arguments up_threads {d run st t ox d' run' st' x'} _.
#[global] Arguments up_same {d run st t ox d' run' st' x'} _.
#[global] Arguments up_run_other {d run st t ox d' run' st' x'} _.

Section Update.
Context {d d' : slack} {run run' : option Z} (st st' : kstate) (t : Z) (ox : option tcb) (x' : tcb).
Context (Hk : kinv_upto d run st) (Hx : threads st !! t = ox)
        (Hu : update d run st t ox d' run' st' x').

(** A thread of the new state is [t] with its new entry, or it was there before. *)
Lemma update_lookup u y : threads st' !! u = Some y <-> (u = t /\ y = x') \/ (u <> t /\ threads st !! u = Some y).
Proof. rewrite (up_threads Hu). apply lookup_upd. Qed.

Lemma update_exists (P : tcb -> Prop) u :
  (exists y, threads st' !! u = Some y /\ P y) <->
  (u = t /\ P x') \/ (u <> t /\ exists y, threads st !! u = Some y /\ P y).
Proof. setoid_rewrite update_lookup. naive_solver. Qed.

Lemma update_sum f : sumt f (threads st') = sumt f (threads st) - from_option f 0 ox + f x'.
Proof.
  rewrite (up_threads Hu), <- Hx. destruct (threads st !! t) as [x|] eqn:E; simpl.
  - by apply sumt_update.
  - rewrite sumt_insert by done. lia.
Qed.

Lemma update_is_Some u : is_Some (threads st' !! u) <-> u = t \/ is_Some (threads st !! u).
Proof. rewrite (up_threads Hu), lookup_insert_is_Some'. naive_solver. Qed.

Lemma update_present p : b2z (is_Some (threads st' !! p)) =
  b2z (is_Some (threads st !! p)) + b2z (p = t) * (1 - b2z (is_Some ox)).
Proof.
  rewrite (b2z_ext _ _ (update_is_Some p)). destruct (decide (p = t)) as [->|Hne].
  - rewrite Hx, (b2z_true (t = t \/ _)), (b2z_true (t = t)) by auto. lia.
  - rewrite (b2z_ext (p = t \/ is_Some (threads st !! p)) (is_Some (threads st !! p))) by tauto.
    rewrite (b2z_false (p = t)) by done. lia.
Qed.

Lemma update_born (born : option tcb -> Z) u :
  born (threads st' !! u) = born (threads st !! u) + b2z (u = t) * (born (Some x') - born ox).
Proof.
  rewrite (up_threads Hu). unfold b2z. case_decide as E; [subst u|].
  - rewrite lookup_insert_eq, Hx. lia.
  - rewrite lookup_insert_ne by done. lia.
Qed.

Lemma kinv_update : kinv_upto d' run' st'.
Proof.
  destruct (up_same Hu) as (Ex & Ei & En & Eh & Ec & Ef & Eg). pose proof update_lookup as HL.
  pose proof (up_run_other Hu) as Ho. destruct Hu.
  split; rewrite ?Ei, ?En, ?Eh, ?Ec, ?Ef, ?Eg; auto.
  - intros u. rewrite update_exists. pose proof (k_run Hk u) as Hr. destruct (decide (u = t)) as [->|Hne].
    + rewrite <- up_run0. clear. naive_solver.
    + rewrite Ho, Hr by done. clear - Hne. naive_solver.
  - intros u. rewrite update_exists, up_ready0. pose proof (k_ready Hk u) as Hr. clear - Hr. naive_solver.
  - intros s u. rewrite update_exists, up_wait0. pose proof (k_wait Hk s u) as Hr. clear - Hr. naive_solver.
  - intros u. rewrite update_exists, up_all0. pose proof (k_all Hk u) as Hr.
    pose proof (null_no_thread _ _ Hk) as Hn. destruct up_push0 as [->|[E ->]]; [clear - Hr; naive_solver|].
    rewrite E in Hr. clear - Hr Hn. naive_solver congruence.
  - intros s. rewrite up_value0. apply (k_value Hk).
  - apply (k_cond Hk).
  - destruct (k_idle Hk) as (ci & Hci & Hok). destruct (decide (idle_thread st = t)) as [E|Hne].
    + exists x'. split; [apply HL; by left|auto].
    + exists ci. split; [apply HL; auto|done].
  - intros u y [[-> ->]|[Hne Hy]]%HL Hui; [auto|by apply (k_code Hk)].
  - intros u y [[-> ->]|[Hne Hy]]%HL; [auto|]. pose proof (k_level Hk u y Hy) as Hl.
    destruct (decide (run = Some u)) as [Er|Hr].
    + rewrite decide_True by by apply Ho. by rewrite (up_flag0 u).
    + rewrite decide_False by (rewrite Ho; done). done.
  - intros u y [[-> ->]|[Hne Hy]]%HL Hr; [auto|]. rewrite Ho in Hr by done. by apply (k_susp Hk u).
  - intros u y [[-> ->]|[Hne Hy]]%HL Hs; [auto|by apply (k_blocked Hk u)].
  - intros u y l [[-> ->]|[Hne Hy]]%HL; [auto|by apply (k_lock_ok Hk)].
  - intros u y l [[-> ->]|[Hne Hy]]%HL; [auto|by apply (k_tok_ok Hk u)].
  - intros u y [[-> ->]|[Hne Hy]]%HL; [auto|by apply (k_free_ok Hk u)].
  - intros u y [[-> ->]|[Hne Hy]]%HL; [auto|by apply (k_wait_ok Hk u)].
  - intros u y [[-> ->]|[Hne Hy]]%HL Hf; rewrite up_value0; [auto|].
    destruct (k_free Hk u y Hy Hf) as (Hr & Hfl & Hv). by rewrite Ho, (up_flag0 u).
  - intros l. rewrite update_is_Some. destruct (k_holder Hk l); auto.
  - intros u y [[-> ->]|[Hne Hy]]%HL Hs; [auto|]. destruct (k_dying Hk u y Hy Hs). eauto.
  - intros l. rewrite up_value0, update_sum, up_tok0. pose proof (k_lock Hk l). unfold old_w. lia.
  - intros s Hs. rewrite up_value0, update_sum. auto.
  - intros u. rewrite update_sum, update_born. pose proof (k_unborn Hk u). specialize (up_unborn0 u). unfold old_w in *. lia.
  - intros u. rewrite update_sum, update_born. pose proof (k_newborn Hk u). specialize (up_newborn0 u). unfold old_w in *. lia.
  - intros p. rewrite update_sum, update_present. pose proof (k_page Hk p). specialize (up_page0 p).
    unfold old_w in *. lia.
  - intros u. rewrite update_sum. pose proof (k_link Hk u). specialize (up_link0 u). unfold old_w in *. lia.
  - apply (k_pool Hk).
Qed.
End Update.

(** ** Where a thread is listed *)

(** Membership in a list that the change of [t] leaves as it is. *)
Lemma unchanged (l : list Z) (t : Z) (P : Prop) : (t ∈ l <-> P) ->
  forall u, u ∈ l <-> (u = t /\ P) \/ (u <> t /\ u ∈ l).
Proof. intros H u. destruct (decide (u = t)) as [->|Hne]; naive_solver. Qed.

Section Blocked.
Context {d : slack} {run : option Z} (st : kstate) (t : Z) (x : tcb).
Context (Hk : kinv_upto d run st) (Hx : threads st !! t = Some x).

Lemma ready_iff : t ∈ ready_list st <-> t <> idle_thread st /\ status x = THREAD_READY.
Proof. rewrite (k_ready Hk), Hx. naive_solver. Qed.

Lemma all_iff : t ∈ all_list st <-> t <> all_push st /\ status x <> THREAD_DYING.
Proof. rewrite (k_all Hk), Hx. naive_solver. Qed.

Lemma wait_iff s : t ∈ waiters (sema st s) <-> sleeping s x.
Proof. rewrite (k_wait Hk), Hx. naive_solver. Qed.
End Blocked.

Lemma pending_awake s x : ~ sleeping s x -> pending s x = wcode (wait_w s) (code x).
Proof. intros H. unfold pending. rewrite decide_False by done. lia. Qed.

(** ** Waking a thread up *)

Section Wake.
Context {d : slack} {run : option Z} (st : kstate) (t : Z) (x : tcb).
Context (Hk : kinv_upto d run st) (Hx : threads st !! t = Some x).

(** [st'] has the blocked thread [t] ready, at the back of the ready list and in no wait
    list. *)
Record woken (st' : kstate) : Prop := {
  wk_threads : threads st' = <[t := with_status THREAD_READY x]> (threads st);
  wk_ready : ready_list st' = ready_list st ++ [t];
  wk_value : forall s, value (sema st' s) = value (sema st s);
  wk_waiters : forall s, waiters (sema st' s) = filter (fun u => u <> t) (waiters (sema st s));
  wk_same : all_list st' = all_list st /\ all_push st' = all_push st /\ pool_pages st' = pool_pages st /\ idle_thread st' = idle_thread st /\
    initial_thread st' = initial_thread st /\ current st' = current st /\ intr st' = intr st /\
    holder st' = holder st /\ cond st' = cond st /\ free_pages st' = free_pages st
}.

(** The slack that remains when a new thread is unblocked. *)
Definition born_slack : slack :=
  mk_slack (d_unborn d) (fun u => d_newborn d u + b2z (u = t) * newborn (Some x)) (d_page d) (d_link d).

Lemma not_running : status x <> THREAD_RUNNING -> run <> Some t.
Proof. intros Hs Hr. destruct (proj1 (k_run Hk t) Hr) as (? & ? & ?). congruence. Qed.

Lemma pending_le s : pending s x <= wcode (wait_w s) (code x).
Proof. unfold pending. case_decide; lia. Qed.

Lemma kinv_wake st' : status x = THREAD_BLOCKED -> t <> idle_thread st -> suspended (code x) -> woken st' ->
  kinv_upto born_slack run st'.
Proof.
  intros Hs Hne Hsu [Et Er Ev Ew (Ea & Eq & Eg & Ei & En & Ec & Eint & Eh & Ed & Ef)].
  assert (Hr : run <> Some t) by (apply not_running; congruence).
  assert (Hnr : t ∉ ready_list st) by (rewrite (ready_iff st t x Hk Hx); intros [_ ?]; congruence).
  apply (kinv_update st st' t (Some x) (with_status THREAD_READY x) Hk Hx). split; simpl; try done.
  - unfold intr_context. rewrite Eint. repeat split; try done. apply (k_ext Hk).
  - rewrite Ec. apply (k_cur Hk).
  - unfold intr_get_level. by rewrite Eint.
  - rewrite Er. apply list.NoDup_app. split; [apply (k_ready_nodup Hk)|]. split; [set_solver + Hnr|apply NoDup_singleton].
  - intros u. rewrite Er. set_solver.
  - intros s. rewrite Ew. apply list.NoDup_filter, (k_wait_nodup Hk).
  - intros s u. rewrite Ew, list_elem_of_filter. split; [auto|]. intros [[_ [? _]]|?]; done.
  - rewrite Ea. apply (k_all_nodup Hk).
  - rewrite Ea, Eq. apply unchanged. rewrite (all_iff st t x Hk Hx), Hs. naive_solver.
  - auto.
  - intros _. by apply (k_code Hk).
  - rewrite decide_False by done. pose proof (k_level Hk t x Hx) as Hl. by rewrite decide_False in Hl.
  - auto.
  - intros l. by apply (k_lock_ok Hk).
  - intros l. by apply (k_tok_ok Hk t).
  - by apply (k_free_ok Hk t).
  - by apply (k_wait_ok Hk t).
  - intros Hf. by destruct (k_free Hk t x Hx Hf).
  - intros u y Hu Hy Hsy. rewrite Ec. by apply (k_dying Hk u y).
  - intros s. rewrite Ew, (pending_awake s (with_status _ _)) by (by apply not_sleeping). intros Hw. pose proof (pending_le s).
    assert (waiters (sema st s) <> []) as Hw' by (intros E; by rewrite E in Hw). pose proof (k_wake Hk s Hw'). simpl. lia.
  - intros u. rewrite Hs. simpl. destruct (code x); [done|lia].
  - intros u. rewrite Hs. simpl. lia.
  - intros p. rewrite (b2z_true (is_Some _)) by eauto. lia.
  - intros u. by rewrite Eq.
  - apply (k_slack Hk).
Qed.

(** The waiter's return to the loop of [sema_down] is now pending. *)
Lemma wake_pending st' s : woken st' -> sleeping s x ->
  sumt (pending s) (threads st') = sumt (pending s) (threads st) + 1.
Proof.
  intros Hw Hsl. rewrite (wk_threads _ Hw), (sumt_update _ _ t x) by done. rewrite (pending_awake s (with_status _ _)) by (by apply not_sleeping).
  unfold pending at 2. rewrite decide_True by done. simpl. lia.
Qed.
End Wake.

Lemma kinv_slack_ext d d' run st : kinv_upto d run st ->
  (forall u, d_unborn d' u = d_unborn d u) -> (forall u, d_newborn d' u = d_newborn d u) ->
  (forall u, d_page d' u = d_page d u) -> (forall u, d_link d' u = d_link d u) -> kinv_upto d' run st.
Proof.
  intros Hk Hu Hn Hp Hl. destruct Hk. split; auto.
  - intros t. by rewrite Hu.
  - intros t. by rewrite Hn.
  - intros p. by rewrite Hp.
  - intros t. by rewrite Hl.
  - intros p. by rewrite Hp.
Qed.

(** ** The results of [thread_unblock] and [sema_up] *)

Definition unblocked (t : Z) (st : kstate) : kstate :=
  set_status (set_ready_list st (ready_list st ++ [t])) t THREAD_READY.

Definition raised (s : sem_id) (st : kstate) : kstate :=
  let st1 := match waiters (sema st s) with
             | [] => st
             | t :: r => unblocked t (put_sema st s (mk_semaphore (value (sema st s)) r))
             end in
  put_sema st1 s (mk_semaphore (u32 (value (sema st1 s) + 1)) (waiters (sema st1 s))).

(** The interrupt level can be restored: outside of an interrupt handler, or to off. *)
Definition restorable (st : kstate) : Prop := intr_context st = false \/ intr_get_level st = INTR_OFF.

Lemma restore_level st st' : restorable st -> intr st' = intr (intr_disable st) ->
  intr_set_level (intr_get_level st) st' = Ok (set_intr st' (intr st)).
Proof.
  intros Hr E. unfold intr_set_level, intr_enable, intr_disable, write_flag, intr_context, restorable in *.
  destruct st' as [? ? ? ? ? ? ? i' ? ? ? ? ? ?]. simpl in *. subst i'. simpl.
  unfold intr_context, intr_get_level in *. destruct (intr st) as [[] e y]; simpl in *; [|done].
  destruct Hr as [->|?]; done.
Qed.

Lemma thread_unblock_eq t x st : threads st !! t = Some x -> status x = THREAD_BLOCKED -> restorable st ->
  thread_unblock t st = Ok (unblocked t st).
Proof.
  intros Hx Hs Hr. unfold thread_unblock, is_thread. rewrite bool_decide_true by eauto. simpl.
  unfold get_thread. change (threads (intr_disable st)) with (threads st). rewrite Hx. simpl.
  rewrite bool_decide_true by done. simpl. rewrite restore_level by done. by destruct st.
Qed.

Lemma sema_up_eq s st : restorable st ->
  (forall t r, waiters (sema st s) = t :: r -> exists x, threads st !! t = Some x /\ status x = THREAD_BLOCKED) ->
  sema_up s st = Ok (raised s st).
Proof.
  intros Hr Hw. unfold sema_up, raised. change (sema (intr_disable st)) with (sema st).
  destruct (waiters (sema st s)) as [|t r] eqn:E.
  - cbn [mbind res_bind]. rewrite restore_level by done. simpl. rewrite E. by destruct st.
  - destruct (Hw t r eq_refl) as (x & Hx & Hs).
    rewrite (thread_unblock_eq t x) by (done || by right). cbn [mbind res_bind].
    rewrite restore_level by done. by destruct st.
Qed.

Lemma filter_absent (t : Z) (l : list Z) : t ∉ l -> filter (fun u => u <> t) l = l.
Proof.
  induction l as [|a l IH]; [done|]. intros [Hne Hni]%not_elem_of_cons.
  rewrite filter_cons_True by congruence. by rewrite IH.
Qed.

Lemma alter_both {A} (f g : A -> A) (m : gmap Z A) t u y : t <> u -> m !! u = Some y ->
  alter f t (alter g u m) = <[u := g y]> (alter f t m).
Proof.
  intros Hne Hy. rewrite (alter_alter_ne f g) by done. apply alter_some. by rewrite lookup_alter_ne.
Qed.

(** ** Points that wake threads up *)
Section WakeSteps.
Context {PC : PageChoice}.

(** The first waiter of a semaphore. *)
Lemma first_waiter run st s t r : kinv run st -> waiters (sema st s) = t :: r ->
  exists x, threads st !! t = Some x /\ sleeping s x /\ t <> idle_thread st /\ run <> Some t.
Proof.
  intros Hk Hw. destruct (proj1 (k_wait Hk s t)) as (x & Hx & Hs); [rewrite Hw; set_solver +|].
  exists x. destruct Hs as [Hb (b & k & Ec)]. split_and!; eauto.
  - by split; eauto.
  - intros ->. destruct (k_idle Hk) as (ci & Hci & _ & Hi & _). simplify_eq. by rewrite Hi in Ec.
  - apply (not_running st t x Hk Hx). congruence.
Qed.

(** Taking the first waiter out of the list of [s]. *)
Lemma woken_first run st s t r x : kinv run st -> threads st !! t = Some x -> sleeping s x ->
  waiters (sema st s) = t :: r ->
  woken st t x (unblocked t (put_sema st s (mk_semaphore (value (sema st s)) r))).
Proof.
  intros Hk Hx Hsl Hw. pose proof (k_wait_nodup Hk s) as Hnd. rewrite Hw in Hnd.
  apply list.NoDup_cons in Hnd as [Hni _].
  split; simpl; try done.
  - by apply alter_some.
  - intros s'. fn_upd s s'; done.
  - intros s'. destruct (decide (s = s')) as [<-|Hne].
    + rewrite fn_lookup_insert, Hw. simpl. rewrite filter_cons_False by auto.
      by rewrite filter_absent.
    + rewrite fn_lookup_insert_ne by done. symmetry. apply filter_absent. intros Hu.
      apply (k_wait Hk) in Hu as (y & Hy & [_ (? & ? & E')]). destruct Hsl as [_ (? & ? & E)]. congruence.
Qed.

Lemma no_newborn x : (forall k, code x <> Kernel_thread :: k) -> newborn (Some x) = 0.
Proof. intros H. simpl. case_decide; [|done]. destruct (code x) as [|[] k]; try done. by destruct (H k). Qed.

Lemma raised_running st c s k : at_point st c (Sema_up s) k -> running (raised s (popped st k)).
Proof.
  intros H. pose proof H as [Hk Hc Ecode]. unfold raised. change (sema (popped st k)) with (sema st).
  destruct (waiters (sema st s)) as [|t r] eqn:Hw.
  - apply (kinv_local st c _ (with_code k c) Hk Hc). apply (raise_local st c s k); try done.
    + by apply alter_some.
    + repeat split; try done. apply (k_ext Hk).
  - destruct (first_waiter _ _ _ _ _ Hk Hw) as (x & Hx & Hsl & Hni & Hnr).
    assert (Hne : t <> current st) by congruence.
    set (st1 := unblocked t (put_sema st s (mk_semaphore (value (sema st s)) r))).
    assert (Hwk : woken st t x st1) by by eapply woken_first.
    assert (Hk1 : running st1).
    { destruct Hsl as [Hb (b & k' & Ex)].
      apply (kinv_slack_ext (born_slack (d := no_slack) t x)); [apply (kinv_wake st t x Hk Hx); try done; by rewrite Ex|done| |done|done].
      intros u. cbn [d_newborn born_slack]. rewrite no_newborn by (rewrite Ex; done). simpl. lia. }
    assert (Hc1 : threads st1 !! current st1 = Some c).
    { rewrite (wk_threads _ _ _ _ Hwk). change (current st1) with (current st). by rewrite lookup_insert_ne. }
    apply (kinv_local st1 c _ (with_code k c) Hk1 Hc1). apply (raise_local st1 c s k); try done.
    + intros _. rewrite (wake_pending st t x Hx st1 s) by done.
      pose proof (k_wake Hk s) as Hp. rewrite Hw in Hp. rewrite (wk_value _ _ _ _ Hwk). specialize (Hp ltac:(done)). lia.
    + rewrite (wk_threads _ _ _ _ Hwk). simpl. rewrite (alter_some (with_code k) _ _ c) by done.
      rewrite (alter_some _ _ _ x) by (by rewrite lookup_insert_ne). by rewrite insert_insert_ne.
    + repeat split; try done. apply (k_ext Hk).
Qed.

Lemma step_sema_up st c s k : at_point st c (Sema_up s) k -> returns (exec (Sema_up s) (popped st k)) running.
Proof.
  intros H. pose proof H as [Hk Hc Ecode]. simpl. rewrite sema_up_eq.
  - by apply (raised_running st c).
  - left. apply (k_ext Hk).
  - intros t r Hw. destruct (first_waiter _ _ _ _ _ Hk Hw) as (x & Hx & [Hs _] & _ & Hnr).
    exists x. split; [|done]. rewrite (popped_threads st c k Hc), lookup_insert_ne by congruence. done.
Qed.

(** The thread a creator has yet to set up, or to unblock. *)
Lemma born_nonneg t c : 0 <= wcode (born_w t) (code c).
Proof. induction (code c) as [|[] k IH]; simpl; repeat case_decide; lia. Qed.

Lemma unblock_nonneg t c : 0 <= wcode (unblock_w t) (code c).
Proof. induction (code c) as [|[] k IH]; simpl; repeat case_decide; lia. Qed.

Lemma newborn_thread st c t k : at_point st c (Unblock t) k ->
  exists x k', threads st !! t = Some x /\ status x = THREAD_BLOCKED /\ code x = Kernel_thread :: k' /\
    t <> idle_thread st /\ t <> current st.
Proof.
  intros H. pose proof H as [Hk Hc E]. pose proof (k_newborn Hk t) as Hn. simpl in Hn.
  pose proof (sumt_ge (fun c => wcode (unblock_w t) (code c)) _ _ c (fun _ x _ => unblock_nonneg t x) Hc) as Hs.
  simpl in Hs. rewrite E in Hs. simpl in Hs. rewrite decide_True in Hs by done.
  pose proof (unblock_nonneg t (with_code k c)) as Hg. simpl in Hg.
  destruct (threads st !! t) as [x|] eqn:Hx; simpl in Hn; [|lia].
  case_decide as Hb; [|lia]. destruct (code x) as [|[] k'] eqn:Ex; try lia. exists x, k'.
  split_and!; try done.
  - intros ->. destruct (k_idle Hk) as (ci & Hci & _ & Hi & _). simplify_eq. rewrite Hi in Ex; done.
  - intros ->. pose proof (ap_status _ _ _ _ H). congruence.
Qed.

Lemma step_unblock st c t k : at_point st c (Unblock t) k -> returns (exec (Unblock t) (popped st k)) running.
Proof.
  intros H. facts H. destruct (newborn_thread _ _ _ _ H) as (x & k' & Hx & Hb & Ex & Hni & Hnc).
  assert (Hx' : threads (popped st k) !! t = Some x) by (rewrite (popped_threads st c k Hc), lookup_insert_ne; done).
  simpl. rewrite (thread_unblock_eq t x) by (done || by left).
  assert (Hwk : woken st t x (unblocked t st)).
  { split; simpl; try done; [by apply alter_some|]. intros s. symmetry. apply filter_absent.
    intros (y & Hy & _ & b & k1 & Ey)%(k_wait Hk). congruence. }
  assert (Hk1 : kinv_upto (born_slack (d := no_slack) t x) (Some (current st)) (unblocked t st)).
  { apply (kinv_wake st t x Hk Hx); try done. by rewrite Ex. }
  assert (Hc1 : threads (unblocked t st) !! current st = Some c).
  { by rewrite (wk_threads _ _ _ _ Hwk), lookup_insert_ne. }
  apply (kinv_local (unblocked t st) c _ (with_code k c) Hk1 Hc1). finish_local.
  - by apply (alter_both _ _ _ _ _ c).
  - intros u. rewrite (decide_True (P := status x = _)) by done. unfold b2z. repeat case_decide; simplify_eq; lia.
Qed.

(** A struct thread under construction. *)
Lemma unborn_thread st c t i k : at_point st c i k -> 1 <= born_w t i ->
  exists x, threads st !! t = Some x /\ status x = THREAD_BLOCKED /\ code x = [] /\
    t <> idle_thread st /\ t <> current st.
Proof.
  intros H Hw. pose proof H as [Hk Hc E]. pose proof (k_unborn Hk t) as Hn. simpl in Hn.
  pose proof (sumt_ge (fun c => wcode (born_w t) (code c)) _ _ c (fun _ x _ => born_nonneg t x) Hc) as Hs.
  simpl in Hs. rewrite E in Hs. simpl in Hs.
  pose proof (born_nonneg t (with_code k c)) as Hg. simpl in Hg.
  destruct (threads st !! t) as [x|] eqn:Hx; simpl in Hn; [|lia].
  case_decide as Hb; [|lia]. destruct (code x) eqn:Ex; [|lia]. exists x.
  split_and!; try done.
  - intros ->. destruct (k_idle Hk) as (ci & Hci & _ & Hi & _). simplify_eq. rewrite Hi in Ex; done.
  - intros ->. pose proof (ap_status _ _ _ _ H). congruence.
Qed.

(** The new thread's stack is set up: its first point is [kernel_thread]. *)
Definition set_up (t n : Z) (st : kstate) : kstate :=
  upd_thread st t (fun x => with_tid n (with_code [Kernel_thread] x)).

Definition frames_slack (t : Z) : slack :=
  mk_slack (fun u => b2z (u = t)) (fun u => - b2z (u = t)) (fun _ => 0) (fun _ => 0).

Lemma kinv_set_up st t n x : running st -> threads st !! t = Some x -> status x = THREAD_BLOCKED ->
  code x = [] -> t <> idle_thread st ->
  kinv_upto (frames_slack t) (Some (current st)) (set_up t n st).
Proof.
  intros Hk Hx Hb Ex Hni.
  assert (Hnr : Some (current st) <> Some t) by (apply (not_running st t x Hk Hx); congruence).
  apply (kinv_update st _ t (Some x) (with_tid n (with_code [Kernel_thread] x)) Hk Hx).
  split; simpl; rewrite ?Hb, ?Ex; simpl; try done.
  - by rewrite (alter_some _ _ _ _ Hx).
  - repeat split. apply (k_ext Hk).
  - auto.
  - apply (k_ready_nodup Hk).
  - apply unchanged. by rewrite (ready_iff st t x Hk Hx), Hb.
  - apply (k_wait_nodup Hk).
  - intros s. apply unchanged. rewrite (wait_iff st t x Hk Hx). unfold sleeping. simpl. rewrite Ex. naive_solver.
  - apply (k_all_nodup Hk).
  - apply unchanged. by rewrite (all_iff st t x Hk Hx), Hb.
  - auto.
  - intros _; by apply list.Forall_singleton.
  - auto.
  - intros l. pose proof (k_lock_ok Hk t x l Hx) as Hl. by rewrite Ex in Hl.
  - split; [not_freeing|done].
  - not_freeing.
  - intros u y _ Hy Hs. by apply (k_dying Hk u y).
  - intros s Hw. pose proof (k_wake Hk s Hw). rewrite !pending_awake; simpl; rewrite ?Ex; simpl; try lia.
    all: intros [_ (? & ? & E)]; simpl in E; congruence.
  - intros u. lia.
  - intros u. lia.
  - intros p. rewrite (b2z_true (is_Some _)) by eauto. lia.
Qed.

Lemma step_create_frames st c t n f k : at_point st c (Create_frames t n f) k ->
  returns (exec (Create_frames t n f) (popped st k)) running.
Proof.
  intros H. facts H. destruct (unborn_thread _ _ t _ _ H) as (x & Hx & Hb & Ex & Hni & Hnc).
  { simpl. by rewrite decide_True. }
  destruct (Hinstr Hidle) as [-> _].
  simpl. unfold create_frames, is_thread. rewrite (popped_threads st c k Hc), lookup_insert_ne by done.
  rewrite bool_decide_true by eauto. simpl.
  assert (Hc1 : threads (set_up t n st) !! current st = Some c) by (simpl; by rewrite lookup_alter_ne).
  apply (kinv_local (set_up t n st) c _ (with_code (Unblock t :: k) c) (kinv_set_up st t n x Hk Hx Hb Ex Hni) Hc1).
  finish_local.
  - rewrite (alter_both _ (with_code k) _ _ _ c), alter_insert_id by done. done.
  - intros u. unfold b2z. repeat case_decide; simplify_eq; lia.
  - intros u. unfold b2z. repeat case_decide; simplify_eq; lia.
Qed.

(** [init_thread] turns a page in hand into a thread under construction, which it begins
    to push on [all_list]. *)
Definition init_slack (t : Z) : slack :=
  mk_slack (fun u => b2z (u = t)) (fun _ => 0) (fun p => b2z (p = t)) (fun u => b2z (u = t)).

Definition inited (t pri : Z) (st : kstate) : kstate :=
  set_all_push (set_threads st (<[t := mk_tcb THREAD_BLOCKED pri 0 []]> (threads st))) t.

Lemma kinv_init st t pri : kinv_upto (init_slack t) (Some (current st)) st -> threads st !! t = None -> t <> NULL ->
  all_push st = NULL -> running (inited t pri st).
Proof.
  intros Hk Hx Hn Hap.
  assert (Hni : t <> idle_thread st) by (intros ->; destruct (k_idle Hk) as (ci & ? & _); congruence).
  assert (Hnc : current st <> t).
  { intros <-. destruct (proj1 (k_run Hk (current st)) eq_refl) as (? & ? & _). congruence. }
  assert (Hna : t ∉ all_list st) by (rewrite (k_all Hk), Hx; naive_solver).
  assert (Hns : forall s, ~ sleeping s (mk_tcb THREAD_BLOCKED pri 0 [])) by (by intros s [_ (? & ? & ?)]).
  apply (kinv_update st _ t None (mk_tcb THREAD_BLOCKED pri 0 []) Hk Hx).
  split; simpl; try done.
  - repeat split. apply (k_ext Hk).
  - split; congruence.
  - auto.
  - apply (k_ready_nodup Hk).
  - apply unchanged. rewrite (k_ready Hk), Hx. naive_solver.
  - apply (k_wait_nodup Hk).
  - intros s. apply unchanged. rewrite (k_wait Hk), Hx. specialize (Hns s). naive_solver.
  - apply (k_all_nodup Hk).
  - apply unchanged. naive_solver.
  - auto.
  - auto.
  - intros l _. apply bool_decide_eq_false. intros E. destruct (k_holder Hk l) as [?|Hs]; [congruence|].
    rewrite E, Hx in Hs. by destruct Hs.
  - not_freeing.
  - intros u y _ Hy Hs. by apply (k_dying Hk u y).
  - intros s Hw. rewrite pending_awake by auto. pose proof (k_wake Hk s Hw). simpl. lia.
  - intros u. lia.
  - intros p. rewrite (b2z_false (is_Some None)) by (by intros []). lia.
  - intros u. rewrite Hap. unfold b2z. repeat case_decide; naive_solver lia.
Qed.

Lemma step_create_init st c t pri f k : at_point st c (Create_init t pri f) k -> all_push st = NULL ->
  returns (exec (Create_init t pri f) (popped st k)) running.
Proof.
  intros H Hap. facts H. destruct (page_in_hand _ _ _ _ t H) as (Hp & Hx & Hn).
  { simpl. by rewrite decide_True. }
  destruct (Hinstr Hidle) as [[Hpri ->] _].
  set (c1 := with_code (Create_link t :: acquire_code TidLock ++ Create_tid t Function :: k) c).
  set (st1 := set_threads st (<[current st := c1]> (threads st))).
  assert (Hk1 : kinv_upto (init_slack t) (Some (current st1)) st1).
  { apply (kinv_local st c st1 c1 Hk Hc). subst c1. finish_local.
    - intros l. destruct (Hlock l) as [Hl Hl']. destruct l; simpl; rewrite ?Hl in * by done; auto.
    - pose proof (born_nonneg t (with_code k c)) as Hb. simpl in Hb. rewrite decide_True by done. by wait_tac.
    - intros u. unfold b2z. repeat case_decide; simplify_eq; lia.
    - intros p. unfold b2z. repeat case_decide; simplify_eq; lia.
    - intros u. unfold b2z. repeat case_decide; simplify_eq; lia.
    - intros p. apply b2z_range. }
  simpl. unfold create_init, init_thread. rewrite (proj2 (Z.eqb_neq t NULL)) by done. simpl.
  rewrite (proj2 (Z.leb_le _ _) (proj1 Hpri)), (proj2 (Z.leb_le _ _) (proj2 Hpri)). simpl.
  unfold push_begin. change (all_push (set_threads _ _)) with (all_push st). rewrite Hap. simpl.
  assert (Hne : current st <> t) by congruence.
  replace (push_code _ _) with (inited t pri st1).
  - apply kinv_init; [done| |done|done]. simpl. by rewrite lookup_insert_ne.
  - unfold inited, push_code, upd_thread, set_all_push, set_threads, popped. simpl. f_equal.
    rewrite (alter_some (with_code k) _ _ c) by done.
    rewrite (alter_some _ (<[t := _]> _) _ (with_code k c)) by (rewrite lookup_insert_ne, lookup_insert_eq; done).
    by rewrite (insert_insert_ne _ (current st) t), insert_insert_eq.
Qed.

(** The thread that is being pushed on [all_list] is under construction: the code that
    ends the push goes on to set the thread up. *)
Lemma link_born t k : wait_ok k -> 0 < wcode (link_w t) k -> 1 <= wcode (born_w t) k.
Proof.
  assert (Hb : forall k, 0 <= wcode (born_w t) k) by (intros k'; apply (born_nonneg t (mk_tcb THREAD_READY 0 0 k'))).
  induction k as [|i k IH]; [simpl; lia|]. intros [Hi Hk] Hw. simpl in Hw. specialize (Hb k).
  destruct (decide (link_w t i = 0)) as [E|E].
  - specialize (IH Hk ltac:(lia)). pose proof (born_nonneg t (mk_tcb THREAD_READY 0 0 [i])) as Hn.
    simpl in Hn |- *. lia.
  - destruct i; try done. simpl in E, Hi. case_decide; [subst|done]. simpl. lia.
Qed.

Lemma link_nonneg t c : 0 <= wcode (link_w t) (code c).
Proof. induction (code c) as [|[] k IH]; simpl; repeat case_decide; lia. Qed.

Lemma pushed_unborn run st : kinv run st -> all_push st <> NULL ->
  exists x, threads st !! all_push st = Some x /\ status x = THREAD_BLOCKED /\ code x = [].
Proof.
  intros Hk Hn. set (t := all_push st). pose proof (k_link Hk t) as Hl. simpl in Hl.
  rewrite b2z_true in Hl by done.
  destruct (sumt_pos (fun c => wcode (link_w t) (code c)) (threads st)) as (u & c & Hc & Hw); [lia|].
  pose proof (link_born t (code c) (k_wait_ok Hk u c Hc) Hw) as Hb. pose proof (k_unborn Hk t) as Hu. simpl in Hu.
  pose proof (sumt_ge (fun c => wcode (born_w t) (code c)) _ _ c (fun _ x _ => born_nonneg t x) Hc) as Hs. simpl in Hs.
  destruct (threads st !! t) as [x|]; simpl in Hu; [|lia]. exists x. case_decide; [|lia].
  destruct (code x); [done|lia].
Qed.

Definition link_slack (t : Z) : slack := mk_slack (fun _ => 0) (fun _ => 0) (fun _ => 0) (fun u => - b2z (u = t)).

Lemma kinv_pushed st t x : kinv_upto (link_slack t) (Some (current st)) st -> all_push st = t -> t <> NULL ->
  threads st !! t = Some x -> status x = THREAD_BLOCKED -> running (push_end t st).
Proof.
  intros Hk Ht Hn Hx Hs. assert (Hna : t ∉ all_list st) by (rewrite (k_all Hk); naive_solver).
  split; simpl; try apply Hk.
  - apply list.NoDup_app. split; [apply (k_all_nodup Hk)|]. split; [set_solver + Hna|apply NoDup_singleton].
  - intros u. rewrite elem_of_app, list_elem_of_singleton, (k_all Hk), Ht. pose proof (null_no_thread _ _ Hk) as Hnt.
    destruct (decide (u = t)) as [->|Hne]; [|naive_solver congruence]. split; [|auto]. intros _.
    split; [done|]. exists x. split; [done|congruence].
  - intros u. pose proof (k_link Hk u) as Hl. rewrite Ht in Hl. simpl in Hl. rewrite Hl. unfold b2z.
    repeat case_decide; naive_solver lia.
Qed.

Lemma step_create_link st c t k : at_point st c (Create_link t) k ->
  returns (exec (Create_link t) (popped st k)) running.
Proof.
  intros H. facts H. pose proof (k_link Hk t) as Hl. simpl in Hl.
  pose proof (sumt_ge (fun c => wcode (link_w t) (code c)) _ _ c (fun _ x _ => link_nonneg t x) Hc) as Hs.
  simpl in Hs. rewrite Ecode in Hs. simpl in Hs. rewrite decide_True in Hs by done.
  pose proof (link_nonneg t (with_code k c)) as Hg. simpl in Hg.
  assert (Ht : t <> NULL /\ all_push st = t) by (unfold b2z in Hl; destruct (decide (t <> NULL /\ _)); [done|lia]).
  destruct Ht as [Hn Ht].
  destruct (pushed_unborn _ st Hk) as (x & Hx & Hb & _); [congruence|]. rewrite Ht in Hx.
  assert (Htc : t <> current st) by congruence.
  simpl. apply (kinv_pushed (popped st k) t x); try done.
  - apply (kinv_local st c (popped st k) (with_code k c) Hk Hc). finish_local.
    intros u. unfold b2z. repeat case_decide; simplify_eq; lia.
  - by rewrite (popped_threads st c k Hc), lookup_insert_ne.
Qed.
End WakeSteps.
