(* ===== verification/KernelLock.v ===== *)
(** * The locks of the kernel as an interface

    What [lock_init], [lock_acquire] and [lock_release] of threads/synch.c do when the
    caller does not have to wait, proved to be what the code points of the machine do,
    and shown to meet [LockOps].  Clients of locks, such as the page allocator, are then
    verified for the kernel's own locks. *)

From stdpp Require Import base list gmap numbers functions.
From Stdlib Require Import ZArith Lia.
From S2P Require Import Prelude CString Interfaces Kernel KernelInv KernelStep KernelSched.

Local Open Scope Z_scope.

(** ** Operations *)

(** [lock_acquire] up to the point where it would have to wait. *)
Definition lock_acquire_now (l : lock_id) (k : kstate) : res kstate :=
  k ← lock_check l k;
  if value (sema k (SemOf l)) =? 0 then Err WouldBlock else
  k ← sema_down (SemOf l) k;
  lock_take l k.

Definition lock_release_now (l : lock_id) (k : kstate) : res kstate :=
  k ← lock_drop l k;
  sema_up (SemOf l) k.

(** ** The contexts in which threads use locks *)

(** Not in an interrupt handler; the current thread runs, and the threads that wait
    for locks are blocked, each of them once. *)
Record thread_context (k : kstate) : Prop := {
  tc_ext : intr_context k = false;
  tc_null : current k <> NULL;
  tc_run : exists c, threads k !! current k = Some c /\ status c = THREAD_RUNNING;
  tc_nodup : forall l, NoDup (waiters (sema k (SemOf l)));
  tc_blocked : forall l t, t ∈ waiters (sema k (SemOf l)) ->
    exists x, threads k !! t = Some x /\ status x = THREAD_BLOCKED;
  tc_apart : forall l l' t, t ∈ waiters (sema k (SemOf l)) -> t ∈ waiters (sema k (SemOf l')) -> l = l'
}.

Definition free_lock (l : lock_id) (k : kstate) : Prop :=
  thread_context k /\ holder k l = NULL /\ value (sema k (SemOf l)) = 1.

Definition held_lock (l : lock_id) (k : kstate) : Prop :=
  thread_context k /\ holder k l = current k /\ value (sema k (SemOf l)) = 0.

(** Every state that the kernel reaches with a running thread is such a context. *)
Lemma running_context k : running k -> thread_context k.
Proof.
  intros Hk. destruct (proj1 (k_run Hk _) eq_refl) as (c & Hc & Hs). split.
  - apply (k_ext Hk).
  - intros E. by rewrite E, (null_no_thread _ _ Hk) in Hc.
  - eauto.
  - intros l. apply (k_wait_nodup Hk).
  - intros l t (x & Hx & Hb & _)%(k_wait Hk). eauto.
  - intros l l' t (x & Hx & _ & b & r & E)%(k_wait Hk) (x' & Hx' & _ & b' & r' & E')%(k_wait Hk).
    simplify_eq. congruence.
Qed.

(** A change that keeps the threads and the CPU, and no longer has some of the waiters,
    keeps the context. *)
Lemma context_fewer k k' : thread_context k -> intr k' = intr k -> current k' = current k ->
  threads k' = threads k ->
  (forall l, waiters (sema k' (SemOf l)) = waiters (sema k (SemOf l)) \/
             waiters (sema k' (SemOf l)) = []) ->
  thread_context k'.
Proof.
  intros [He Hn Hr Hd Hb Ha] Ei Ec Et Hw.
  assert (Hsub : forall l t, t ∈ waiters (sema k' (SemOf l)) -> t ∈ waiters (sema k (SemOf l))).
  { intros l t. destruct (Hw l) as [->| ->]; [done|]. by intros ?%elem_of_nil. }
  split; unfold intr_context in *; rewrite ?Ei, ?Ec, ?Et; try done.
  - intros l. destruct (Hw l) as [->| ->]; [done|]. constructor.
  - eauto.
  - eauto.
Qed.

Lemma put_sema_waiters k s v x l : waiters (sema (put_sema k s (mk_semaphore v x)) (SemOf l)) =
  if decide (s = SemOf l) then x else waiters (sema k (SemOf l)).
Proof.
  simpl. case_decide as E; [subst; by rewrite fn_lookup_insert|by rewrite fn_lookup_insert_ne].
Qed.

(** ** What the operations do *)

Lemma context_current k : thread_context k -> thread_current k = Ok (current k).
Proof. intros [_ _ (c & Hc & Hs) _ _ _]. by apply (thread_current_eq k c). Qed.

Lemma lock_check_eq l k : free_lock l k -> lock_check l k = Ok k.
Proof.
  intros (Hk & Hh & _). unfold lock_check, lock_held_by_current_thread.
  rewrite (tc_ext _ Hk), context_current by done. cbn [mbind res_bind negb ASSERT].
  rewrite (proj2 (Z.eqb_neq (holder k l) (current k))); [done|].
  pose proof (tc_null _ Hk). congruence.
Qed.

Definition downed (l : lock_id) (k : kstate) : kstate :=
  put_sema k (SemOf l) (mk_semaphore 0 (waiters (sema k (SemOf l)))).

Lemma sema_down_eq l k : free_lock l k -> sema_down (SemOf l) k = Ok (downed l k).
Proof.
  intros (Hk & _ & Hv). unfold sema_down, sema_wait. rewrite (tc_ext _ Hk). simpl. rewrite Hv. simpl.
  rewrite restore_level; [by destruct k|left; apply Hk|done].
Qed.

Definition acquired (l : lock_id) (k : kstate) : kstate := put_holder (downed l k) l (current k).

Lemma downed_context l k : thread_context k -> thread_context (downed l k).
Proof.
  intros Hk. apply (context_fewer k); try done. intros l'. left. unfold downed. rewrite put_sema_waiters.
  case_decide; congruence.
Qed.

Lemma lock_take_eq l k : thread_context k -> lock_take l k = Ok (put_holder k l (current k)).
Proof. intros Hk. unfold lock_take. by rewrite context_current. Qed.

Lemma lock_acquire_now_eq l k : free_lock l k -> lock_acquire_now l k = Ok (acquired l k).
Proof.
  intros Hf. unfold lock_acquire_now. rewrite lock_check_eq by done. cbn [mbind res_bind].
  pose proof Hf as (Hk & _ & ->). change (1 =? 0) with false. cbv iota.
  rewrite sema_down_eq by done. cbn [mbind res_bind]. by apply lock_take_eq, downed_context.
Qed.

Definition released (l : lock_id) (k : kstate) : kstate := raised (SemOf l) (put_holder k l NULL).

Lemma lock_drop_eq l k : held_lock l k -> lock_drop l k = Ok (put_holder k l NULL).
Proof.
  intros (Hk & Hh & _). unfold lock_drop, lock_held_by_current_thread.
  rewrite context_current, Hh by done. simpl. by rewrite Z.eqb_refl.
Qed.

Lemma lock_release_now_eq l k : held_lock l k -> lock_release_now l k = Ok (released l k).
Proof.
  intros Hh. unfold lock_release_now. rewrite lock_drop_eq by done. cbn [mbind res_bind].
  destruct Hh as (Hk & _). apply sema_up_eq; [left; apply Hk|]. simpl. intros t r E.
  apply (tc_blocked _ Hk l). rewrite E. left.
Qed.

(** ** The code points of the machine *)

(** The current thread [c] with [r] left to execute. *)
Definition coded (k : kstate) (c : tcb) (r : list instr) : kstate :=
  set_threads k (<[current k := with_code r c]> (threads k)).

Section Machine.
Context {PC : PageChoice} (k : kstate) (c : tcb).
Hypothesis Hc : threads k !! current k = Some c.

Lemma coded_id : coded k c (code c) = k.
Proof.
  unfold coded. replace (with_code (code c) c) with c by by destruct c. rewrite insert_id by done.
  by destruct k.
Qed.

Lemma coded_push r : push_code r k = coded k c (r ++ code c).
Proof. unfold push_code, upd_thread, coded. by rewrite (alter_some _ _ _ c). Qed.

Lemma coded_context r : thread_context k -> thread_context (coded k c r).
Proof.
  intros [He Hn (c' & Hc' & Hs) Hd Hb Ha]. simplify_eq. split; try done.
  - exists (with_code r c). simpl. by rewrite lookup_insert_eq.
  - intros l t Ht. destruct (Hb l t Ht) as (x & Hx & Hxs). exists x. simpl.
    rewrite lookup_insert_ne; [done|]. intros <-. simplify_eq. congruence.
Qed.
End Machine.

Lemma run_coded `{PageChoice} k c i r : run (coded k c (i :: r)) = exec i (coded k c r).
Proof.
  unfold run, get_thread, coded. simpl. rewrite lookup_insert_eq. simpl. unfold upd_thread. simpl.
  by rewrite alter_insert_id.
Qed.

(** Executing the points of [lock_acquire] and of [lock_release] is [lock_acquire_now]
    and [lock_release_now]. *)
Lemma runs_acquire `{PageChoice} l k : free_lock l k ->
  runs 3 (push_code (acquire_code l) k) = lock_acquire_now l k.
Proof.
  intros Hf. rewrite lock_acquire_now_eq by done. destruct Hf as (Hk & Hh & Hv).
  destruct (tc_run _ Hk) as (c & Hc & _). rewrite (coded_push k c) by done.
  assert (Hf : forall r, free_lock l (coded k c r)) by (split; [by apply coded_context|done]).
  unfold acquire_code. simpl app. unfold runs.
  rewrite run_coded. cbn [exec]. rewrite lock_check_eq by apply Hf. cbn [mbind res_bind].
  rewrite run_coded. cbn [exec]. rewrite sema_down_eq by apply Hf. cbn [mbind res_bind].
  change (downed l (coded k c (Lock_take l :: code c))) with (coded (downed l k) c (Lock_take l :: code c)).
  rewrite run_coded. cbn [exec]. rewrite coded_id by done. by rewrite lock_take_eq by by apply downed_context.
Qed.

Lemma runs_release `{PageChoice} l k : held_lock l k ->
  runs 2 (push_code (release_code l) k) = lock_release_now l k.
Proof.
  intros Hf. rewrite lock_release_now_eq by done. pose proof Hf as (Hk & Hh & Hv).
  destruct (tc_run _ Hk) as (c & Hc & _). rewrite (coded_push k c) by done.
  unfold release_code. simpl app. unfold runs. rewrite run_coded. cbn [exec].
  rewrite lock_drop_eq by (split; [by apply coded_context|done]). cbn [mbind res_bind].
  change (put_holder (coded k c (Sema_up (SemOf l) :: code c)) l NULL)
    with (coded (put_holder k l NULL) c (Sema_up (SemOf l) :: code c)).
  rewrite run_coded. cbn [exec]. rewrite coded_id by done.
  pose proof (lock_release_now_eq l k Hf) as E. unfold lock_release_now in E.
  rewrite lock_drop_eq in E by done. cbn [mbind res_bind] in E. by rewrite E.
Qed.

(** ** The laws *)

Lemma init_free l k : thread_context k ->
  thread_context (lock_init_st l k) /\ free_lock l (lock_init_st l k) /\
  forall l', l' <> l -> free_lock l' k -> free_lock l' (lock_init_st l k).
Proof.
  intros Hk. assert (Hk' : thread_context (lock_init_st l k)).
  { apply (context_fewer k); try done. intros l'. unfold lock_init_st, sema_init.
    rewrite put_sema_waiters. case_decide; auto. }
  split; [done|]. split.
  - split; [done|]. simpl. by rewrite !fn_lookup_insert.
  - intros l' Hne (_ & Hh & Hv). split; [done|]. simpl. rewrite !fn_lookup_insert_ne by congruence. done.
Qed.

Lemma acquire_held l k : free_lock l k -> returns (lock_acquire_now l k) (fun k' =>
  held_lock l k' /\ forall l', l' <> l -> free_lock l' k -> free_lock l' k').
Proof.
  intros Hf. rewrite lock_acquire_now_eq by done. destruct Hf as (Hk & Hh & Hv). simpl.
  assert (Hk' : thread_context (acquired l k)) by (apply (context_fewer (downed l k)); auto using downed_context).
  split.
  - split; [done|]. simpl. by rewrite !fn_lookup_insert.
  - intros l' Hne (_ & Hh' & Hv'). split; [done|]. simpl. rewrite !fn_lookup_insert_ne by congruence. done.
Qed.

Lemma unblocked_threads t k : threads (unblocked t k) = alter (with_status THREAD_READY) t (threads k).
Proof. done. Qed.

(** Waking the first waiter of one semaphore takes it out of that queue alone. *)
Lemma raised_waiters s k s' : waiters (sema (raised s k) s') =
  if decide (s' = s) then tail (waiters (sema k s)) else waiters (sema k s').
Proof.
  unfold raised. case_decide as E.
  - subst. simpl. rewrite fn_lookup_insert. destruct (waiters (sema k s)) eqn:Ew; simpl.
    + by rewrite Ew.
    + by rewrite fn_lookup_insert.
  - simpl. rewrite fn_lookup_insert_ne by congruence. destruct (waiters (sema k s)); simpl; [done|].
    by rewrite fn_lookup_insert_ne by congruence.
Qed.

Lemma raised_value s k s' : value (sema (raised s k) s') =
  if decide (s' = s) then u32 (value (sema k s) + 1) else value (sema k s').
Proof.
  unfold raised. case_decide as E.
  - subst. simpl. rewrite fn_lookup_insert. simpl. destruct (waiters (sema k s)) eqn:Ew; simpl; [done|].
    by rewrite fn_lookup_insert.
  - simpl. rewrite fn_lookup_insert_ne by congruence. destruct (waiters (sema k s)); simpl; [done|].
    by rewrite fn_lookup_insert_ne by congruence.
Qed.

Lemma raised_threads s k : threads (raised s k) =
  match waiters (sema k s) with [] => threads k | t :: _ => alter (with_status THREAD_READY) t (threads k) end.
Proof. unfold raised. by destruct (waiters (sema k s)). Qed.

Lemma raised_rest s k :
  intr (raised s k) = intr k /\ current (raised s k) = current k /\ holder (raised s k) = holder k.
Proof. unfold raised. by destruct (waiters (sema k s)). Qed.

Lemma raised_context l k : thread_context k -> thread_context (raised (SemOf l) k).
Proof.
  intros [He Hn (c & Hc & Hs) Hd Hb Ha]. destruct (raised_rest (SemOf l) k) as (Ei & Ec & _).
  assert (Hsub : forall l' t, t ∈ waiters (sema (raised (SemOf l) k) (SemOf l')) ->
    t ∈ waiters (sema k (SemOf l')) /\ (forall u, head (waiters (sema k (SemOf l))) = Some u -> t <> u)).
  { intros l' t. rewrite raised_waiters. pose proof (Hd l) as Hnd.
    destruct (waiters (sema k (SemOf l))) as [|u r] eqn:Eu; case_decide as El.
    - simplify_eq. by intros ?%elem_of_nil.
    - done.
    - simplify_eq. simpl. rewrite Eu. apply list.NoDup_cons in Hnd as [Hu _].
      intros Ht. split; [by right|]. intros ? [= <-]. congruence.
    - intros Ht. split; [done|]. intros ? [= <-] ->. destruct El. f_equal.
      apply (Ha l' l u); [done|]. rewrite Eu. left. }
  split; unfold intr_context; rewrite ?Ei, ?Ec; try done.
  - rewrite raised_threads. destruct (waiters (sema k (SemOf l))) as [|u r] eqn:Eu; [eauto|].
    exists c. rewrite lookup_alter_ne; [done|]. intros ->.
    destruct (Hb l (current k)) as (x & Hx & Hxs); [rewrite Eu; left|]. simplify_eq. congruence.
  - intros l'. rewrite raised_waiters. case_decide; [|done]. specialize (Hd l).
    destruct (waiters (sema k (SemOf l))); [done|]. by apply list.NoDup_cons in Hd as [_ ?].
  - intros l' t [Ht Hu]%Hsub. destruct (Hb l' t Ht) as (x & Hx & Hxs). exists x. split; [|done].
    rewrite raised_threads. destruct (waiters (sema k (SemOf l))) as [|u r]; [done|].
    rewrite lookup_alter_ne; [done|]. intros <-. by apply (Hu u).
  - intros l1 l2 t [H1 _]%Hsub [H2 _]%Hsub. by apply (Ha l1 l2 t).
Qed.

Lemma release_free l k : held_lock l k -> returns (lock_release_now l k) (fun k' =>
  free_lock l k' /\ forall l', l' <> l -> free_lock l' k -> free_lock l' k').
Proof.
  intros Hf. rewrite lock_release_now_eq by done. destruct Hf as (Hk & Hh & Hv).
  assert (Hk' : thread_context (released l k)).
  { apply raised_context. apply (context_fewer k); auto. }
  destruct (raised_rest (SemOf l) (put_holder k l NULL)) as (_ & _ & Eh).
  change (free_lock l (released l k) /\ forall l', l' <> l -> free_lock l' k -> free_lock l' (released l k)).
  unfold free_lock. split.
  - split; [done|]. unfold released. rewrite Eh, raised_value. simpl. rewrite fn_lookup_insert.
    rewrite decide_True by done. by rewrite Hv.
  - intros l' Hne (_ & Hh' & Hv'). split; [done|]. unfold released. rewrite Eh, raised_value. simpl.
    rewrite fn_lookup_insert_ne by congruence. by rewrite decide_False by congruence.
Qed.

(** The other locks that the thread holds stay its own. *)
Lemma acquire_keeps l l' k k' : free_lock l k -> lock_acquire_now l k = Ok k' -> l' <> l -> held_lock l' k -> held_lock l' k'.
Proof.
  intros Hf E Hne (_ & Hh & Hv). pose proof (acquire_held l k Hf) as H. rewrite E in H. destruct H as [(Hk' & _) _].
  rewrite lock_acquire_now_eq in E by done. injection E as <-. split; [done|]. simpl.
  by rewrite !fn_lookup_insert_ne by congruence.
Qed.

Lemma release_keeps l l' k k' : held_lock l k -> lock_release_now l k = Ok k' -> l' <> l -> held_lock l' k -> held_lock l' k'.
Proof.
  intros Hf E Hne (_ & Hh & Hv). pose proof (release_free l k Hf) as H. rewrite E in H. destruct H as [(Hk' & _) _].
  rewrite lock_release_now_eq in E by done. injection E as <-. split; [done|].
  destruct (raised_rest (SemOf l) (put_holder k l NULL)) as (_ & Ec & Eh). unfold released. rewrite Ec, Eh, raised_value. simpl.
  rewrite fn_lookup_insert_ne by congruence. by rewrite decide_False by congruence.
Qed.

#[export] Instance kernel_locks : LockOps kstate lock_id := {|
  lock_init := lock_init_st;
  lock_acquire := lock_acquire_now;
  lock_release := lock_release_now;
  lock_ctx := thread_context;
  lock_free := free_lock;
  lock_held := held_lock;
  lock_init_law := init_free;
  lock_acquire_law := acquire_held;
  lock_release_law := release_free;
  lock_acquire_keeps := acquire_keeps;
  lock_release_keeps := release_keeps
|}.
