(* ===== verification/PallocSpec.v ===== *)
(** * Properties of the page allocator

    The allocator of [Palloc] on the bitmaps of [Bitmap] and the locks of the kernel
    ([KernelLock.kernel_locks]): what a client can rely on, the placement policies, the
    error paths, and the four allocator tests of tests/threads. *)

From stdpp Require Import base list gmap numbers functions strings.
From Stdlib Require Import ZArith Lia.
From S2P Require Import Prelude Vaddr Bitmap CString Interfaces Palloc Kernel KernelStep KernelLock.
Import Round Vaddr.

Local Open Scope Z_scope.

Abbreviation pallocT := (palloc_state kstate lock_id bitmap).

(** ** What a client relies on *)

(** Blocks that a client got from a freshly initialised allocator. *)
Definition client_of (st0 : pallocT) (c : pallocT * gmap Z Z) : Prop :=
  exists ram limit st1, 258 <= ram < 2 ^ 18 /\ 1 <= limit /\ thread_context (ksync st0) /\
    pool_lock (kernel_pool st0) <> pool_lock (user_pool st0) /\
    palloc_init ram limit st0 = Ok st1 /\ rtc palloc_step (st1, ∅) c.

Lemma client_of_ok st0 c : client_of st0 c -> client_ok c.
Proof.
  intros (ram & limit & st1 & Hr & Hl & Hk & Hne & E & Hs).
  pose proof (palloc_init_spec ram limit st0 Hk Hne Hr Hl) as H. rewrite E in H. destruct H as [H _].
  by eapply client_ok_steps.
Qed.

(** C25: Initialisation succeeds in every thread context, such as the one [thread_init]
    leaves: with [ram] pages of memory (at least 258, and less than 1 GB) and a limit of at
    least one user page it returns without a panic, every page of both pools is free, the
    pools lie above the first megabyte and end where memory ends, the user pool is within
    its limit, and memory outside of the bitmaps is untouched. *)
Theorem palloc_init_ready ram limit (st : pallocT) :
  thread_context (ksync st) -> pool_lock (kernel_pool st) <> pool_lock (user_pool st) ->
  258 <= ram < 2 ^ 18 -> 1 <= limit ->
  returns (palloc_init ram limit st) (fun st' =>
    client_ok (st', ∅) /\ memory st' = memory st /\
    (forall w, run_at (used (get_pool st' w)) 0 (psize (get_pool st' w)) false) /\
    PHYS_BASE + 1024 * 1024 < base (kernel_pool st') /\
    pool_end (user_pool st') = PHYS_BASE + PGSIZE * ram /\ psize (user_pool st') < limit).
Proof. intros Hk Hne Hr Hl. by apply palloc_init_spec. Qed.

(** C2: Allocated blocks are disjoint.  Whatever sequence of allocations, releases and
    mode switches a client performs after initialisation, its live blocks lie inside the
    pools, are marked in use, do not overlap, and cover every page that is in use: no page
    is handed out twice and none is lost. *)
Theorem palloc_blocks_disjoint st0 st live : client_of st0 (st, live) ->
  state_wf st /\
  (forall p n, live !! p = Some n -> exists w idx, in_use st w idx n p) /\
  (forall p n p' n', live !! p = Some n -> live !! p' = Some n' -> p <> p' -> apart p n p' n') /\
  (forall w j, 0 <= j < psize (get_pool st w) -> used (get_pool st w) j = true ->
     exists p n, live !! p = Some n /\ in_block (page_addr st w j) p n = true).
Proof. apply client_of_ok. Qed.

(** A step that keeps the block at [p]. *)
Definition keeps_block (p n : Z) (c c' : pallocT * gmap Z Z) : Prop :=
  palloc_step c c' /\ c.2 !! p = Some n /\ c'.2 !! p = Some n.

(** C10: The allocator never writes to memory that a client holds: as long as a block is
    not given back, no allocation, release or mode switch changes a byte of it, zeroing
    ([PAL_ZERO]) and the filling of released pages with 0xcc included. *)
Theorem palloc_isolation st0 c c' p n a : client_of st0 c -> rtc (keeps_block p n) c c' ->
  in_block a p n = true -> memory c'.1 a = memory c.1 a.
Proof.
  intros Hc Hs Ha. apply client_of_ok in Hc. induction Hs as [|[st l] [st1 l1] c' (Hs & Hp & Hp') _ IH]; [done|].
  rewrite IH by (by eapply client_ok_step). by eapply client_memory_step.
Qed.

(** ** Placement *)

(** An allocation by a policy whose choice satisfies [Q]. *)
Lemma get_multiple_policy flags n (st : pallocT) (Q : Z * pool lock_id bitmap -> Prop) :
  state_wf st -> 0 < n -> (exists i, free_run (get_pool st (pool_of flags)) i n) ->
  returns (find_fit (current_palloc_mode st) (get_pool st (pool_of flags)) n) Q ->
  returns (palloc_get_multiple flags n st) (fun '(pages, st') => exists idx,
    pages = page_addr st (pool_of flags) idx /\ free_run (get_pool st (pool_of flags)) idx n /\
    marked (get_pool st (pool_of flags)) (get_pool st' (pool_of flags)) idx n true /\
    Q (idx, get_pool st' (pool_of flags))).
Proof.
  intros Hst Hn Hf HQ. eapply returns_mono; [by apply palloc_get_multiple_spec|].
  intros [pages st'] (_ & _ & (idx & Hfr & E & Hm & Ep & _) & _). exists idx. rewrite E in HQ. auto.
Qed.

(** A run's index is not the error value. *)
Lemma run_no_error (st : pallocT) w idx n : state_wf st -> 0 < n -> free_run (get_pool st w) idx n ->
  idx <> BITMAP_ERROR.
Proof. intros (Hw & _) Hn Hf. apply Z.eqb_neq. by eapply idx_not_error. Qed.

(** C22: First fit: in that mode an allocation gets the free run with the lowest index,
    and fails only if no run is long enough. *)
Theorem palloc_first_fit flags n (st : pallocT) : current_palloc_mode st = PAL_FIRST_FIT ->
  state_wf st -> 0 < n -> (exists i, free_run (get_pool st (pool_of flags)) i n) ->
  returns (palloc_get_multiple flags n st) (fun '(pages, st') => exists idx,
    pages = page_addr st (pool_of flags) idx /\ free_run (get_pool st (pool_of flags)) idx n /\
    marked (get_pool st (pool_of flags)) (get_pool st' (pool_of flags)) idx n true /\
    forall i, free_run (get_pool st (pool_of flags)) i n -> idx <= i).
Proof.
  intros Hm Hst Hn Hf. pose proof Hst as (Hw & _).
  eapply returns_mono; [apply get_multiple_policy; [done..|]; rewrite Hm; by apply find_first_fit_spec|].
  intros [pages st'] (idx & Ep & Hfr & Hmk & _ & Hmin). exists idx.
  do 3 (split; [done|]). apply Hmin. by eapply run_no_error.
Qed.

(** C21: Next fit: in that mode an allocation gets the first free run at or after the
    cursor, or the first of the pool when there is none there; the cursor moves to the end
    of the new block, and back to 0 at the end of the pool. *)
Theorem palloc_next_fit flags n (st : pallocT) : current_palloc_mode st = PAL_NEXT_FIT ->
  state_wf st -> 0 < n -> (exists i, free_run (get_pool st (pool_of flags)) i n) ->
  returns (palloc_get_multiple flags n st) (fun '(pages, st') => exists idx,
    pages = page_addr st (pool_of flags) idx /\ free_run (get_pool st (pool_of flags)) idx n /\
    marked (get_pool st (pool_of flags)) (get_pool st' (pool_of flags)) idx n true /\
    next_fit_choice (get_pool st (pool_of flags)) n idx /\
    next_fit_start_idx (get_pool st' (pool_of flags)) =
      if psize (get_pool st (pool_of flags)) <=? idx + n then 0 else idx + n).
Proof.
  intros Hm Hst Hn Hf. pose proof Hst as (Hw & _).
  eapply returns_mono; [apply get_multiple_policy; [done..|]; rewrite Hm; by apply find_next_fit_spec|].
  intros [pages st'] (idx & Ep & Hfr & Hmk & _ & Hmin). exists idx.
  do 3 (split; [done|]). apply Hmin. by eapply run_no_error.
Qed.

(** C20: Best fit: in that mode an allocation gets the start of the smallest hole (maximal
    run of free pages) that is large enough, the first one among equals. *)
Theorem palloc_best_fit flags n (st : pallocT) : current_palloc_mode st = PAL_BEST_FIT ->
  state_wf st -> 0 < n -> (exists i, free_run (get_pool st (pool_of flags)) i n) ->
  returns (palloc_get_multiple flags n st) (fun '(pages, st') => exists idx size,
    pages = page_addr st (pool_of flags) idx /\
    marked (get_pool st (pool_of flags)) (get_pool st' (pool_of flags)) idx n true /\
    hole (get_pool st (pool_of flags)) idx size /\ n <= size /\
    forall s m, hole (get_pool st (pool_of flags)) s m -> n <= m -> size <= m /\ (m = size -> idx <= s)).
Proof.
  intros Hm Hst Hn Hf. pose proof Hst as (Hw & _).
  eapply returns_mono; [apply get_multiple_policy; [done..|]; rewrite Hm; by apply find_best_fit_spec|].
  intros [pages st'] (idx & Ep & Hfr & Hmk & _ & Hmin).
  destruct Hmin as (bs & Hh & Hle & Hb); [by eapply run_no_error|]. eauto 10.
Qed.

(** ** Failure *)

(** C23: An allocation fails only when it must.  A request for no pages returns a null
    pointer; a request that no free run satisfies returns a null pointer and changes
    neither pool nor memory, or panics under [PAL_ASSERT]; every other request is
    satisfied. *)
Theorem palloc_get_outcome flags n (st : pallocT) : state_wf st -> 0 <= n ->
  (n = 0 -> palloc_get_multiple flags n st = Ok (NULL, st)) /\
  (0 < n -> (forall i, ~ free_run (get_pool st (pool_of flags)) i n) ->
     if flag_set flags PAL_ASSERT then palloc_get_multiple flags n st = Err KernelPanic
     else returns (palloc_get_multiple flags n st) (fun '(pages, st') =>
       pages = NULL /\ state_wf st' /\ same_pools st st')) /\
  (0 < n -> (exists i, free_run (get_pool st (pool_of flags)) i n) ->
     returns (palloc_get_multiple flags n st) (fun '(pages, st') =>
       pages <> NULL /\ state_wf st' /\ forall a, memory st' a =
         if flag_set flags PAL_ZERO && in_block a pages n then 0 else memory st a)).
Proof.
  intros Hst Hn. split; [by intros ->|]. split.
  - intros Hn' Hnone. pose proof (palloc_get_multiple_none flags n st Hst Hn' Hnone) as H.
    destruct (flag_set flags PAL_ASSERT); [done|]. eapply returns_mono; [exact H|].
    intros [pages st'] (? & ? & ? & ? & ?). unfold same_pools. auto.
  - intros Hn' Hf. eapply returns_mono; [by apply palloc_get_multiple_spec|].
    intros [pages st'] (? & ? & _ & ?). auto.
Qed.

(** Giving back a run of which a page is free. *)
Lemma double_free (st : pallocT) w idx n : state_wf st -> 0 <= idx -> 0 < n -> idx + n <= psize (get_pool st w) ->
  ~ run_at (used (get_pool st w)) idx n true ->
  palloc_free_multiple (page_addr st w idx) n st = Err AssertFail.
Proof.
  intros Hst H0 Hn Hle Hrun. pose proof Hst as (Hw & _ & _ & Hl). unfold palloc_free_multiple.
  destruct (page_number _ idx (Hw w) ltac:(lia)) as (Hr & Ho & _ & Hi).
  destruct (find_pool st w idx Hst ltac:(lia)) as [Hin Hout]. fold (page_addr st w idx) in *.
  set (pages := page_addr st w idx) in *. pose proof (Hw w) as (Hwf & _ & Hb & He & _).
  rewrite Ho. cbn [Z.eqb ASSERT mbind res_bind].
  assert (Hnn : pages <> NULL) by (unfold pages, page_addr, NULL; change PGSIZE with 4096; lia).
  assert (Hblk : block_ok pages (u32 (PGSIZE * n))).
  { unfold block_ok, pages, page_addr, in_u32, NULL in *. change PGSIZE with 4096 in *. rewrite u32_small by lia. lia. }
  rewrite (proj2 (Z.eqb_neq pages NULL) Hnn), (proj2 (Z.eqb_neq n 0) ltac:(lia)). cbn [orb].
  replace (if page_from_pool (kernel_pool st) pages then Ok KernelPool
           else if page_from_pool (user_pool st) pages then Ok UserPool
           else Err KernelPanic) with (Ok w) by (destruct w; simpl in *; by rewrite ?Hin, ?Hout).
  cbn [mbind res_bind]. rewrite Hi.
  destruct (returns_inv _ _ (memset_spec (memory st) pages 0xcc _ Hblk)) as (m & -> & _). cbn [mbind res_bind].
  destruct (returns_inv _ _ (lock_acquire_law _ _ (Hl w))) as (k & -> & _). cbn [mbind res_bind].
  destruct (returns_inv _ _ (ba_all_law _ idx n Hwf H0 ltac:(lia) Hle)) as (r & -> & Er).
  cbn [mbind res_bind]. destruct r; [|done]. by destruct Hrun; apply Er.
Qed.

(** C24: Wrong releases are caught.  A pointer that is not page aligned, or a run of pages
    of which one is free already (a double release), fails an assertion; pages of neither
    pool are a panic; a null pointer or no pages change nothing. *)
Theorem palloc_free_errors pages n (st : pallocT) : state_wf st ->
  (pg_ofs pages <> 0 -> palloc_free_multiple pages n st = Err AssertFail) /\
  (pg_ofs pages = 0 -> pages = NULL \/ n = 0 -> palloc_free_multiple pages n st = Ok st) /\
  (pg_ofs pages = 0 -> pages <> NULL -> n <> 0 -> in_u32 pages ->
     (forall w, ~ base (get_pool st w) <= pages < pool_end (get_pool st w)) ->
     palloc_free_multiple pages n st = Err KernelPanic) /\
  (forall w idx, pages = page_addr st w idx -> 0 <= idx -> 0 < n -> idx + n <= psize (get_pool st w) ->
     ~ run_at (used (get_pool st w)) idx n true -> palloc_free_multiple pages n st = Err AssertFail).
Proof.
  intros Hst. pose proof Hst as (Hw & _ & _ & Hl). unfold palloc_free_multiple. split_and!.
  - intros Ho. by rewrite (proj2 (Z.eqb_neq _ _) Ho).
  - intros -> [-> | ->]; [done|]. cbn [Z.eqb ASSERT mbind res_bind]. by rewrite orb_true_r.
  - intros -> Hp Hn Hu Hout. cbn [Z.eqb ASSERT mbind res_bind].
    rewrite (proj2 (Z.eqb_neq _ _) Hp), (proj2 (Z.eqb_neq _ _) Hn). cbn [orb].
    assert (Hno : forall w, page_from_pool (get_pool st w) pages = false).
    { intros w. apply not_true_is_false. rewrite page_from_pool_spec by done. apply Hout. }
    pose proof (Hno KernelPool) as E1. pose proof (Hno UserPool) as E2. simpl in E1, E2. by rewrite E1, E2.
  - intros w idx -> H0 Hn Hle Hrun. by apply double_free.
Qed.

(** ** Round trips *)

(** Giving back what was just allocated restores the pools: every page of both pools
    is as used as before, in every mode; only the bytes of the block change, to 0xcc. *)
Theorem palloc_get_free flags n (st : pallocT) : state_wf st -> 0 < n ->
  (exists i, free_run (get_pool st (pool_of flags)) i n) ->
  returns (palloc_get_multiple flags n st) (fun '(pages, st1) =>
    returns (palloc_free_multiple pages n st1) (fun st2 =>
      (forall w, base (get_pool st2 w) = base (get_pool st w) /\ psize (get_pool st2 w) = psize (get_pool st w) /\
        forall j, 0 <= j -> used (get_pool st2 w) j = used (get_pool st w) j) /\
      forall a, memory st2 a = if in_block a pages n then 0xcc else memory st a)).
Proof.
  intros Hst Hn Hf. eapply returns_mono; [by apply palloc_get_multiple_spec|].
  intros [pages st1] (Hst1 & _ & (idx & (H0 & Hle & Hfr) & _ & Hm & Ep & Eo & _) & Hmem).
  set (w := pool_of flags) in *. pose proof Hm as (_ & _ & Eb & Es & Hu).
  eapply returns_mono; [apply (palloc_free_multiple_spec st1 w idx n pages); [done|]|].
  { split; [lia|]. split; [lia|]. split; [lia|]. split; [|congruence]. intros j Hj. rewrite Hu by lia.
    rewrite (proj2 (Z.leb_le _ _)), (proj2 (Z.ltb_lt _ _)) by lia. done. }
  intros st2 (_ & (Hm2 & Eo2 & _) & Hmem2). pose proof Hm2 as (_ & _ & Eb2 & Es2 & Hu2). split.
  - intros w'. destruct (pool_id_cases w w') as [->| ->]; [|by rewrite Eo2, Eo].
    rewrite Eb2, Es2, Eb, Es. split; [done|]. split; [done|]. intros j Hj. rewrite Hu2, Hu by done.
    destruct ((idx <=? j) && (j <? idx + n)) eqn:E; [|done]. symmetry. apply Hfr.
    apply andb_true_iff in E as [?%Z.leb_le ?%Z.ltb_lt]. lia.
  - intros a. rewrite Hmem2. destruct (in_block a pages n) eqn:E; [done|]. by rewrite Hmem, E, andb_false_r.
Qed.

(** [palloc_get_page_index] inverts page addresses: it gives the index within its pool
    of the page that starts at a page address of either pool. *)
Theorem palloc_page_index_of_address (st : pallocT) w i : state_wf st -> 0 <= i < psize (get_pool st w) ->
  palloc_get_page_index (page_addr st w i) st = i.
Proof. apply palloc_get_page_index_spec. Qed.

(** ** [buddy_system_free] *)

(** C39: [buddy_system_free] does not give back a block but everything in use from its
    first page on: when another live block follows directly, the pages of that block are
    marked free although their owner still holds them. *)
Theorem buddy_free_neighbour st0 st live w idx n m : client_of st0 (st, live) ->
  live !! page_addr st w idx = Some n -> live !! page_addr st w (idx + n) = Some m ->
  0 <= idx -> idx + n < psize (get_pool st w) ->
  returns (buddy_system_free (Some w) (page_addr st w idx) st) (fun st' =>
    forall j, idx <= j < idx + n + m -> used (get_pool st' w) j = false).
Proof.
  intros Hc%client_of_ok Hn Hm Hi Hle. destruct Hc as (Hst & Hlive & _).
  assert (Huse : forall i k, 0 <= i < psize (get_pool st w) -> live !! page_addr st w i = Some k ->
    0 < k /\ i + k <= psize (get_pool st w) /\ run_at (used (get_pool st w)) i k true).
  { intros i k Hik Hk. destruct (Hlive _ _ Hk) as (w' & i' & Hu). pose proof Hu as (? & ? & ? & ? & E).
    destruct (find_pool st w i Hst Hik) as [F1 F2]. fold (page_addr st w i) in F1, F2.
    destruct (find_pool st w' i' Hst ltac:(lia)) as [G1 G2]. rewrite <- E in G1, G2.
    destruct (pool_id_cases w w') as [->| ->]; [|by rewrite F2 in G1].
    unfold page_addr in E. change PGSIZE with 4096 in E. by assert (i' = i) as -> by lia. }
  assert (Hn0 : 0 < n).
  { destruct (Hlive _ _ Hn) as (w' & i' & _ & ? & _). done. }
  destruct (Huse idx n ltac:(lia) Hn) as (_ & _ & Hr1). destruct (Huse (idx + n) m ltac:(lia) Hm) as (Hm0 & Hle2 & Hr2).
  eapply returns_mono; [apply buddy_system_free_spec; [done|lia|apply Hr1; lia]|].
  intros st' (_ & c & Hc0 & ((_ & _ & _ & _ & Hu) & _) & _ & Hend) j Hj. rewrite Hu by lia.
  assert (n + m <= c).
  { destruct (decide (n + m <= c)); [done|]. exfalso. destruct Hend as [?|Hend]; [lia|].
    destruct (decide (c < n)); [rewrite Hr1 in Hend|rewrite Hr2 in Hend]; done || lia. }
  rewrite (proj2 (Z.leb_le _ _)), (proj2 (Z.ltb_lt _ _)) by lia. done.
Qed.

(** ** A concrete machine

    The allocator as [main] of threads/init.c sets it up: after [thread_init], on a
    machine with 4 MB of memory. *)

Definition main_thread : Z := 0xc000e000.

Definition kernel_at_init : kstate :=
  match thread_init (boot_state main_thread ∅) with Ok k => k | Err _ => boot_state main_thread ∅ end.

Definition no_pages (l : lock_id) : pool lock_id bitmap := mk_pool l (mk_bitmap 0 []) 0 0.

Definition before_init : pallocT :=
  mk_state (no_pages PoolLock) (no_pages (UserLock 0)) PAL_FIRST_FIT kernel_at_init (fun _ => 0).

Definition init_ram_pages : Z := 1024.

Definition initialised : pallocT :=
  match palloc_init init_ram_pages SIZE_MAX before_init with Ok st => st | Err _ => before_init end.

Lemma kernel_at_init_waiters l : waiters (sema kernel_at_init (SemOf l)) = [].
Proof. destruct l; vm_compute; reflexivity. Qed.

Lemma kernel_at_init_current : exists c,
  threads kernel_at_init !! current kernel_at_init = Some c /\ status c = THREAD_RUNNING.
Proof. eexists. split; vm_compute; reflexivity. Qed.

Lemma kernel_at_init_cpu : intr_context kernel_at_init = false /\ current kernel_at_init = main_thread.
Proof. split; vm_compute; reflexivity. Qed.

Lemma kernel_at_init_context : thread_context kernel_at_init.
Proof.
  destruct kernel_at_init_cpu as [He Hc]. split.
  - exact He.
  - rewrite Hc. discriminate.
  - exact kernel_at_init_current.
  - intros l. rewrite kernel_at_init_waiters. constructor.
  - intros l t. rewrite kernel_at_init_waiters. by intros ?%elem_of_nil.
  - intros l l' t. rewrite kernel_at_init_waiters. by intros ?%elem_of_nil.
Qed.

Lemma initialised_returns : returns (palloc_init init_ram_pages SIZE_MAX before_init) (fun st' =>
    client_ok (st', ∅) /\ memory st' = memory before_init /\
    (forall w, run_at (used (get_pool st' w)) 0 (psize (get_pool st' w)) false) /\
    PHYS_BASE + 1024 * 1024 < base (kernel_pool st') /\
    pool_end (user_pool st') = PHYS_BASE + PGSIZE * init_ram_pages /\ psize (user_pool st') < SIZE_MAX).
Proof.
  apply palloc_init_spec; [apply kernel_at_init_context|discriminate|..].
  - unfold init_ram_pages. lia.
  - unfold SIZE_MAX, UINT32_MAX. lia.
Qed.

Lemma initialised_eq : palloc_init init_ram_pages SIZE_MAX before_init = Ok initialised.
Proof.
  pose proof initialised_returns as H. unfold initialised.
  destruct (palloc_init init_ram_pages SIZE_MAX before_init); [done|destruct H].
Qed.

(** ** The allocator's tests (tests/threads/firstfit.c, nextfit.c, bestfit.c, buddy.c) *)

Inductive test_msg := Allocated (name : string) (index : Z) | Freed (name : string).

Section Tests.
Context {K L B : Type} `{!LockOps K L, !BitArray B}.
Abbreviation testT := (palloc_state K L B).

(** [x = palloc_get_multiple (PAL_USER, n)] and its message. *)
Definition test_get (name : string) (n : Z) (s : list test_msg * testT) : res (Z * (list test_msg * testT)) :=
  let '(out, st) := s in
  '(p, st) ← palloc_get_multiple PAL_USER n st;
  if negb (p =? NULL) then Ok (p, (out ++ [Allocated name (palloc_get_page_index p st)], st))
  else Ok (p, (out, st)).

Definition test_free (msg : list test_msg) (p n : Z) (s : list test_msg * testT) : res (list test_msg * testT) :=
  let '(out, st) := s in
  if negb (p =? NULL) then st ← palloc_free_multiple p n st; Ok (out ++ msg, st)
  else Ok (out, st).

Definition test_firstfit (st : testT) : res (list test_msg * testT) :=
  let s := ([], palloc_set_mode PAL_FIRST_FIT st) in
  '(a, s) ← test_get "A" 4 s;
  '(b, s) ← test_get "B" 4 s;
  s ← test_free [Freed "A"] a 4 s;
  '(c, s) ← test_get "C" 4 s;
  s ← test_free [] b 4 s;
  test_free [] c 4 s.

Definition test_nextfit (st : testT) : res (list test_msg * testT) :=
  let s := ([], palloc_set_mode PAL_NEXT_FIT st) in
  '(a, s) ← test_get "A" 4 s;
  '(b, s) ← test_get "B" 4 s;
  s ← test_free [Freed "A"] a 4 s;
  '(c, s) ← test_get "C" 4 s;
  s ← test_free [] b 4 s;
  test_free [] c 4 s.

Definition test_bestfit (st : testT) : res (list test_msg * testT) :=
  let s := ([], palloc_set_mode PAL_BEST_FIT st) in
  '(a, s) ← test_get "A" 10 s;
  '(b, s) ← test_get "B" 2 s;
  '(c, s) ← test_get "C" 5 s;
  s ← test_free [Freed "A"] a 10 s;
  '(d, s) ← test_get "D" 3 s;
  s ← test_free [] b 2 s;
  s ← test_free [] c 5 s;
  test_free [] d 3 s.

Definition test_buddy (st : testT) : res (list test_msg * testT) :=
  let s := ([], palloc_set_mode PAL_BUDDY st) in
  '(a, s) ← test_get "A" 4 s;
  '(b, s) ← test_get "B" 4 s;
  s ← test_free [] a 4 s;
  test_free [] b 4 s.
End Tests.

(** What a test prints, and the number of user pages still in use after it. *)
Definition outcome (t : res (list test_msg * pallocT)) : res (list test_msg * nat) :=
  '(out, st) ← t;
  Ok (out, length (filter (fun j => used (user_pool st) j = true) (seqZ 0 (psize (user_pool st))))).

(** On the machine with 4 MB of memory the four tests of the allocator print what
    their .ck files expect, and leave no page in use. *)
Theorem palloc_tests_pass :
  outcome (test_firstfit initialised) = Ok ([Allocated "A" 0; Allocated "B" 4; Freed "A"; Allocated "C" 0], 0%nat) /\
  outcome (test_nextfit initialised) = Ok ([Allocated "A" 0; Allocated "B" 4; Freed "A"; Allocated "C" 8], 0%nat) /\
  outcome (test_bestfit initialised) =
    Ok ([Allocated "A" 0; Allocated "B" 10; Allocated "C" 12; Freed "A"; Allocated "D" 0], 0%nat) /\
  outcome (test_buddy initialised) = Ok ([Allocated "A" 0; Allocated "B" 4], 0%nat).
Proof. repeat split; vm_compute; reflexivity. Qed.

(** ** Concrete inputs *)

(** The user pages of a request and the state after it. *)
Definition user_pages (n : Z) (st : pallocT) : Z :=
  match palloc_get_multiple PAL_USER n st with Ok (p, _) => p | Err _ => NULL end.
Definition after_get (n : Z) (st : pallocT) : pallocT :=
  match palloc_get_multiple PAL_USER n st with Ok (_, st') => st' | Err _ => st end.

Lemma user_pages_eq n st p : user_pages n st = p -> p <> NULL ->
  palloc_get_multiple PAL_USER n st = Ok (p, after_get n st).
Proof.
  unfold user_pages, after_get. intros <- Hp. destruct (palloc_get_multiple PAL_USER n st) as [[q st']|]; done.
Qed.

(** Two blocks of four user pages, one after the other. *)
Definition block_a : Z := 0xc0281000.
Definition block_b : Z := 0xc0285000.
Definition two_blocks : pallocT := after_get 4 (after_get 4 initialised).
Definition two_live : gmap Z Z := <[block_b := 4]> (<[block_a := 4]> ∅).

Lemma one_block_step : palloc_step (initialised, ∅) (after_get 4 initialised, <[block_a := 4]> ∅).
Proof.
  apply (step_get PAL_USER 4); [lia| |discriminate].
  apply user_pages_eq; [vm_compute; reflexivity|discriminate].
Qed.

Lemma two_blocks_step : palloc_step (after_get 4 initialised, <[block_a := 4]> ∅) (two_blocks, two_live).
Proof.
  apply (step_get PAL_USER 4); [lia| |discriminate].
  apply user_pages_eq; [vm_compute; reflexivity|discriminate].
Qed.

Lemma client_of_initialised c : rtc palloc_step (initialised, ∅) c -> client_of before_init c.
Proof.
  intros Hs. exists init_ram_pages, SIZE_MAX, initialised.
  split; [unfold init_ram_pages; lia|]. split; [unfold SIZE_MAX, UINT32_MAX; lia|].
  split; [apply kernel_at_init_context|]. split; [discriminate|]. split; [apply initialised_eq|done].
Qed.

Lemma two_blocks_client : client_of before_init (two_blocks, two_live).
Proof.
  apply client_of_initialised. eapply rtc_l; [apply one_block_step|]. eapply rtc_l; [apply two_blocks_step|]. constructor.
Qed.

Lemma two_blocks_wf mode : state_wf (palloc_set_mode mode two_blocks).
Proof.
  pose proof (client_ok_step _ _ (client_of_ok _ _ two_blocks_client) (step_mode mode _ _)) as H. apply H.
Qed.

Lemma two_blocks_size : psize (user_pool two_blocks) = 383.
Proof. vm_compute. reflexivity. Qed.

Lemma user_pool_of_mode mode (st : pallocT) : get_pool (palloc_set_mode mode st) UserPool = user_pool st.
Proof. reflexivity. Qed.

Lemma two_blocks_free mode : exists i, free_run (get_pool (palloc_set_mode mode two_blocks) (pool_of PAL_USER)) i 3.
Proof.
  exists 8. change (pool_of PAL_USER) with UserPool. rewrite user_pool_of_mode.
  split; [lia|]. rewrite two_blocks_size. split; [lia|]. intros j Hj.
  assert (j = 8 \/ j = 9 \/ j = 10) as [-> | [-> | ->]] by lia; vm_compute; reflexivity.
Qed.

Lemma palloc_init_ready_witness :
  returns (palloc_init init_ram_pages SIZE_MAX before_init) (fun st' => client_ok (st', ∅)).
Proof.
  eapply returns_mono; [apply palloc_init_ready|].
  - apply kernel_at_init_context.
  - discriminate.
  - unfold init_ram_pages. lia.
  - unfold SIZE_MAX, UINT32_MAX. lia.
  - intros st' [H _]. exact H.
Defined.

Lemma palloc_blocks_disjoint_witness : apart block_a 4 block_b 4.
Proof.
  destruct (palloc_blocks_disjoint before_init two_blocks two_live two_blocks_client) as (_ & _ & H & _).
  apply H; [reflexivity|reflexivity|discriminate].
Defined.

Lemma palloc_isolation_witness :
  memory (two_blocks, two_live).1 (block_a + 100) =
  memory (after_get 4 initialised, <[block_a := 4]> (∅ : gmap Z Z)).1 (block_a + 100).
Proof.
  refine (palloc_isolation before_init (after_get 4 initialised, <[block_a := 4]> ∅) (two_blocks, two_live)
    block_a 4 (block_a + 100) _ _ _).
  - apply client_of_initialised. eapply rtc_l; [apply one_block_step|]. constructor.
  - apply rtc_once. split; [apply two_blocks_step|]. split; reflexivity.
  - reflexivity.
Defined.

Lemma palloc_first_fit_witness : exists p st',
  palloc_get_multiple PAL_USER 3 (palloc_set_mode PAL_FIRST_FIT two_blocks) = Ok (p, st').
Proof.
  destruct (returns_inv _ _ (palloc_first_fit PAL_USER 3 (palloc_set_mode PAL_FIRST_FIT two_blocks) eq_refl
    (two_blocks_wf _) ltac:(lia) (two_blocks_free _))) as ([p st'] & E & _). eauto.
Defined.

Lemma palloc_next_fit_witness : exists p st',
  palloc_get_multiple PAL_USER 3 (palloc_set_mode PAL_NEXT_FIT two_blocks) = Ok (p, st').
Proof.
  destruct (returns_inv _ _ (palloc_next_fit PAL_USER 3 (palloc_set_mode PAL_NEXT_FIT two_blocks) eq_refl
    (two_blocks_wf _) ltac:(lia) (two_blocks_free _))) as ([p st'] & E & _). eauto.
Defined.

Lemma palloc_best_fit_witness : exists p st',
  palloc_get_multiple PAL_USER 3 (palloc_set_mode PAL_BEST_FIT two_blocks) = Ok (p, st').
Proof.
  destruct (returns_inv _ _ (palloc_best_fit PAL_USER 3 (palloc_set_mode PAL_BEST_FIT two_blocks) eq_refl
    (two_blocks_wf _) ltac:(lia) (two_blocks_free _))) as ([p st'] & E & _). eauto.
Defined.

Lemma two_blocks_full mode i : ~ free_run (get_pool (palloc_set_mode mode two_blocks) (pool_of PAL_USER)) i 384.
Proof.
  change (pool_of PAL_USER) with UserPool. rewrite user_pool_of_mode. unfold free_run. rewrite two_blocks_size. lia.
Qed.

(** No pages, three pages, and more pages than the pool has. *)
Lemma palloc_get_outcome_witness :
  palloc_get_multiple PAL_USER 0 (palloc_set_mode PAL_BUDDY two_blocks) = Ok (NULL, palloc_set_mode PAL_BUDDY two_blocks) /\
  returns (palloc_get_multiple PAL_USER 3 (palloc_set_mode PAL_BUDDY two_blocks)) (fun '(pages, _) => pages <> NULL) /\
  returns (palloc_get_multiple PAL_USER 384 (palloc_set_mode PAL_BUDDY two_blocks))
    (fun '(pages, st') => pages = NULL /\ same_pools (palloc_set_mode PAL_BUDDY two_blocks) st').
Proof.
  split; [|split].
  - destruct (palloc_get_outcome PAL_USER 0 (palloc_set_mode PAL_BUDDY two_blocks) (two_blocks_wf _) ltac:(lia)) as [H _].
    by apply H.
  - destruct (palloc_get_outcome PAL_USER 3 (palloc_set_mode PAL_BUDDY two_blocks) (two_blocks_wf _) ltac:(lia)) as (_ & _ & H).
    eapply returns_mono; [exact (H eq_refl (two_blocks_free _))|]. intros [pages st'] [Hp _]. exact Hp.
  - destruct (palloc_get_outcome PAL_USER 384 (palloc_set_mode PAL_BUDDY two_blocks) (two_blocks_wf _) ltac:(lia)) as (_ & H & _).
    specialize (H eq_refl (two_blocks_full _)). assert (Ef : flag_set PAL_USER PAL_ASSERT = false) by reflexivity. rewrite Ef in H.
    eapply returns_mono; [exact H|]. intros [pages st'] (Hp & _ & Hs). exact (conj Hp Hs).
Defined.

Lemma two_blocks_foreign mode w : ~ base (get_pool (palloc_set_mode mode two_blocks) w) <= 0xc0020000 <
  pool_end (get_pool (palloc_set_mode mode two_blocks) w).
Proof.
  assert (0xc0020000 < base (get_pool (palloc_set_mode mode two_blocks) w)); [|lia].
  destruct w; apply Z.ltb_lt; vm_compute; reflexivity.
Qed.

Lemma two_blocks_partly mode : ~ run_at (used (get_pool (palloc_set_mode mode two_blocks) UserPool)) 4 5 true.
Proof. intros H. specialize (H 8 ltac:(lia)). vm_compute in H. discriminate. Qed.

Lemma block_b_addr mode : block_b = page_addr (palloc_set_mode mode two_blocks) UserPool 4.
Proof. vm_compute. reflexivity. Qed.

(** An unaligned pointer, a null pointer, a page of the kernel image, and five pages of
    which the last is free. *)
Lemma palloc_free_errors_witness :
  palloc_free_multiple (block_a + 1) 4 (palloc_set_mode PAL_FIRST_FIT two_blocks) = Err AssertFail /\
  palloc_free_multiple NULL 4 (palloc_set_mode PAL_FIRST_FIT two_blocks) = Ok (palloc_set_mode PAL_FIRST_FIT two_blocks) /\
  palloc_free_multiple 0xc0020000 1 (palloc_set_mode PAL_FIRST_FIT two_blocks) = Err KernelPanic /\
  palloc_free_multiple block_b 5 (palloc_set_mode PAL_FIRST_FIT two_blocks) = Err AssertFail.
Proof.
  split; [|split; [|split]].
  - destruct (palloc_free_errors (block_a + 1) 4 (palloc_set_mode PAL_FIRST_FIT two_blocks) (two_blocks_wf _)) as [H _].
    apply H. vm_compute. discriminate.
  - destruct (palloc_free_errors NULL 4 (palloc_set_mode PAL_FIRST_FIT two_blocks) (two_blocks_wf _)) as (_ & H & _).
    apply H; [reflexivity|left; reflexivity].
  - destruct (palloc_free_errors 0xc0020000 1 (palloc_set_mode PAL_FIRST_FIT two_blocks) (two_blocks_wf _)) as (_ & _ & H & _).
    apply H; [reflexivity|discriminate|discriminate|split; [discriminate|reflexivity]|apply two_blocks_foreign].
  - destruct (palloc_free_errors block_b 5 (palloc_set_mode PAL_FIRST_FIT two_blocks) (two_blocks_wf _)) as (_ & _ & _ & H).
    apply (H UserPool 4 (block_b_addr _)); [lia|lia| |apply two_blocks_partly].
    rewrite user_pool_of_mode, two_blocks_size. lia.
Defined.

Lemma palloc_get_free_witness : returns (palloc_get_multiple PAL_USER 3 (palloc_set_mode PAL_BEST_FIT two_blocks))
  (fun '(pages, st1) => returns (palloc_free_multiple pages 3 st1) (fun st2 =>
     memory st2 pages =
       if in_block pages pages 3 then 0xcc else memory (palloc_set_mode PAL_BEST_FIT two_blocks) pages)).
Proof.
  eapply returns_mono; [apply (palloc_get_free PAL_USER 3 (palloc_set_mode PAL_BEST_FIT two_blocks)
    (two_blocks_wf _) ltac:(lia) (two_blocks_free _))|].
  intros [pages st1] H. eapply returns_mono; [exact H|]. intros st2 [_ Hm]. exact (Hm pages).
Defined.

Lemma palloc_page_index_of_address_witness :
  palloc_get_page_index (page_addr (palloc_set_mode PAL_BUDDY two_blocks) UserPool 7) (palloc_set_mode PAL_BUDDY two_blocks) = 7.
Proof.
  apply palloc_page_index_of_address; [apply two_blocks_wf|].
  rewrite (user_pool_of_mode PAL_BUDDY two_blocks), two_blocks_size. lia.
Defined.

Lemma buddy_free_neighbour_witness :
  returns (buddy_system_free (Some UserPool) (page_addr two_blocks UserPool 0) two_blocks) (fun st' =>
    used (get_pool st' UserPool) 4 = false).
Proof.
  eapply returns_mono;
    [apply (buddy_free_neighbour before_init two_blocks two_live UserPool 0 4 4 two_blocks_client);
     [vm_compute; reflexivity|vm_compute; reflexivity|lia|
      cbn [get_pool]; rewrite two_blocks_size; lia]|].
  intros st' H. apply (H 4). lia.
Defined.
