(* ===== verification/HeapSpec.v ===== *)
(** * Properties of the kernel's heap

    The block allocator of [Malloc] on the page allocator of [Palloc], with the bitmaps of
    [Bitmap] and the locks of the kernel: what the code that calls [malloc], [calloc],
    [realloc] and [free] can rely on, and the hash tables of [Hash] on top of it. *)

From stdpp Require Import base list gmap numbers functions relations.
From Stdlib Require Import ZArith Lia.
From S2P Require Import Prelude Vaddr Bitmap CString Interfaces Palloc KList KLists KListSort Hash HashSpec Malloc MallocSpec.
From S2P Require Import Kernel KernelLock PallocSpec.
Import Round Vaddr.

Local Open Scope Z_scope.

(** ** Clients *)

(** What a client does: it calls the four functions, and stores bytes in its blocks. *)
Inductive heap_op :=
| HMalloc (size : Z)
| HCalloc (a b : Z)
| HRealloc (old new_size : Z)
| HFree (p : Z)
| HStore (at_y v : Z).

Section Clients.
Context {K L B : Type} `{!LockOps K L, !BitArray B}.
Variable descs_at : Z.
Abbreviation stateT := (malloc_state K L B).
Abbreviation clientT := (malloc_state K L B * gmap Z Z)%type.
Implicit Types (c : clientT) (op : heap_op) (st : stateT) (blk : gmap Z Z).

(** The blocks in use, with the sizes that the allocator itself gives them. *)
Definition record_block (r : Z * stateT) blk : res (Z * clientT) :=
  let '(p, st) := r in
  if p =? NULL then Ok (p, (st, blk)) else sz ← block_size st p; Ok (p, (st, <[p := sz]> blk)).

Definition heap_do op c : res (Z * clientT) :=
  let '(st, blk) := c in
  match op with
  | HMalloc size => r ← malloc descs_at st size; record_block r blk
  | HCalloc a b => r ← calloc descs_at st a b; record_block r blk
  | HRealloc old n =>
      r ← realloc descs_at st old n;
      record_block r (if (r.1 =? NULL) && negb (n =? 0) then blk else delete old blk)
  | HFree p => st ← free descs_at st p; Ok (NULL, (st, delete p blk))
  | HStore y v => Ok (NULL, (put_pages st (put_memory (pages st) (store (memory (pages st)) y v)), blk))
  end.

(** The contract: arguments are of type size_t; the size asked for, the product for
    [calloc], is not within 12 bytes of 2^32; and what is resized, freed or written to is a
    block in use. *)
Definition may_do op c : Prop :=
  match op with
  | HMalloc size => 0 <= size <= MAX_REQUEST
  | HCalloc a b => 0 <= a < 2 ^ 32 /\ 0 <= b < 2 ^ 32 /\ a * b <= MAX_REQUEST
  | HRealloc old n => (old = NULL \/ is_Some (c.2 !! old)) /\ 0 <= n <= MAX_REQUEST
  | HFree p => p = NULL \/ is_Some (c.2 !! p)
  | HStore y v => exists p sz, c.2 !! p = Some sz /\ p <= y < p + sz
  end.

(** The operation does not concern the block of [sz] bytes at [p]. *)
Definition leaves_block (p sz : Z) op : Prop :=
  match op with
  | HMalloc _ | HCalloc _ _ => True
  | HRealloc old _ => old <> p
  | HFree q => q <> p
  | HStore y _ => ~ p <= y < p + sz
  end.

Definition heap_step c c' : Prop := exists op r, may_do op c /\ heap_do op c = Ok (r, c').

Lemma record_inv st live fls blk p sz : 0 < p -> heap_inv descs_at st None live fls (<[p := sz]> blk) NULL ->
  record_block (p, st) blk = Ok (p, (st, <[p := sz]> blk)).
Proof.
  intros Hp Hi. unfold record_block. rewrite (proj2 (Z.eqb_neq p NULL)) by (unfold NULL; lia).
  by rewrite (block_size_spec _ _ _ _ _ _ _ _ _ Hi (lookup_insert_eq _ _ _)).
Qed.

(** A block that an operation leaves alone: still in use, and no byte of it changed. *)
Definition untouched (c c' : clientT) (p sz : Z) : Prop :=
  c'.2 !! p = Some sz /\ forall y, p <= y < p + sz -> memory (pages c'.1) y = memory (pages c.1) y.

Definition op_post op c (r : Z * clientT) : Prop :=
  heap_wf descs_at r.2 /\ forall p sz, c.2 !! p = Some sz -> leaves_block p sz op -> untouched c r.2 p sz.

Lemma fresh_not_block blk p sz q sq : fresh_block blk p sz -> 0 < sz -> blk !! q = Some sq -> 0 < sq -> q <> p.
Proof. intros (_ & _ & _ & Hd) Hz Hq Hs ->. destruct (Hd _ _ Hq); lia. Qed.

Lemma wf_placed st blk p sz : heap_wf descs_at (st, blk) -> blk !! p = Some sz -> 0 < sz /\ p mod 4 = 0 /\ in_pool (pages st) p sz.
Proof. intros (live & fls & Hi). by apply (blocks_placed descs_at st None live fls blk NULL). Qed.

Lemma malloc_op_ok st blk size : heap_wf descs_at (st, blk) -> may_do (HMalloc size) (st, blk) ->
  returns (heap_do (HMalloc size) (st, blk)) (op_post (HMalloc size) (st, blk)).
Proof.
  intros Hw Hs. pose proof Hw as (live & fls & Hi). apply returns_bind. eapply returns_mono; [by apply (malloc_spec descs_at st live fls blk size)|].
  intros [p st'] ([_ Hby] & [[-> H']|(sz & Hle & Hf & _ & live' & fls' & H')]).
  - apply returns_ok. split; [done|]. intros q sq Hq _. split; [done|]. intros y _. apply Hby.
  - rewrite (record_inv st' live' fls' blk p sz (proj1 Hf) H'). apply returns_ok. split; [by exists live', fls'|]. simpl.
    intros q sq Hq _. destruct (wf_placed _ _ _ _ Hw Hq) as [Hpos _].
    destruct (blocks_placed _ _ _ _ _ _ _ p sz H' (lookup_insert_eq _ _ _)) as [Hz _].
    split; [simpl; rewrite lookup_insert_ne; [done|symmetry; by eapply fresh_not_block]|]. intros y _. apply Hby.
Qed.

Lemma calloc_op_ok st blk a b : heap_wf descs_at (st, blk) -> may_do (HCalloc a b) (st, blk) ->
  returns (heap_do (HCalloc a b) (st, blk)) (op_post (HCalloc a b) (st, blk)).
Proof.
  intros Hw (Ha & Hb & Hab). pose proof Hw as (live & fls & Hi). apply returns_bind. eapply returns_mono; [by apply (calloc_spec descs_at st live fls blk a b)|].
  intros [p st'] (_ & [(-> & Hby & H')|(sz & Hle & Hf & Hm & live' & fls' & H')]).
  - apply returns_ok. split; [done|]. intros q sq Hq _. split; [done|]. intros y _. apply Hby.
  - rewrite (record_inv st' live' fls' blk p sz (proj1 Hf) H'). apply returns_ok. split; [by exists live', fls'|]. simpl.
    intros q sq Hq _. destruct (wf_placed _ _ _ _ Hw Hq) as [Hpos _].
    destruct (blocks_placed _ _ _ _ _ _ _ p sz H' (lookup_insert_eq _ _ _)) as [Hz _].
    split; [simpl; rewrite lookup_insert_ne; [done|symmetry; by eapply fresh_not_block]|]. intros y Hy. simpl. rewrite Hm.
    case_match eqn:E; [|done]. zbool. destruct Hf as (_ & _ & _ & Hd). destruct (Hd q sq Hq); lia.
Qed.

Lemma realloc_op_ok st blk old n : heap_wf descs_at (st, blk) -> may_do (HRealloc old n) (st, blk) ->
  returns (heap_do (HRealloc old n) (st, blk)) (op_post (HRealloc old n) (st, blk)).
Proof.
  intros Hw [Ho Hn]. pose proof Hw as (live & fls & Hi). apply returns_bind. eapply returns_mono; [by apply (realloc_spec descs_at st live fls blk old n)|].
  intros [p st'] (Hk & [(-> & -> & H')|[(Hne & -> & Hby & H')|(sz & Hle & Hf & _ & live' & fls' & H')]]).
  - apply returns_ok. split; [done|]. intros q sq Hq Hqo. simpl in *. split; [simpl; by rewrite lookup_delete_ne|]. intros y Hy. by apply (Hk q sq).
  - cbn [fst]. rewrite (proj2 (Z.eqb_neq n 0)) by done. apply returns_ok. split; [done|]. intros q sq Hq Hqo. split; [done|]. intros y Hy. apply Hby.
  - cbn [fst]. rewrite (proj2 (Z.eqb_neq p NULL)) by (destruct Hf; unfold NULL; lia). cbn [andb].
    rewrite (record_inv st' live' fls' (delete old blk) p sz (proj1 Hf) H'). apply returns_ok. split; [by exists live', fls'|]. simpl.
    intros q sq Hq Hqo. destruct (wf_placed _ _ _ _ Hw Hq) as [Hpos _].
    destruct (blocks_placed _ _ _ _ _ _ _ p sz H' (lookup_insert_eq _ _ _)) as [Hz _].
    split; [|intros y Hy; by apply (Hk q sq)]. simpl. rewrite lookup_insert_ne by (symmetry; by eapply fresh_not_block). by rewrite lookup_delete_ne.
Qed.

Lemma free_op_ok st blk p : heap_wf descs_at (st, blk) -> may_do (HFree p) (st, blk) ->
  returns (heap_do (HFree p) (st, blk)) (op_post (HFree p) (st, blk)).
Proof.
  intros (live & fls & Hi) Hp. apply returns_bind. eapply returns_mono; [by apply (realloc_free descs_at st live fls blk p)|].
  intros st' [Hk H']. apply returns_ok. split; [done|]. intros q sq Hq Hqo. simpl in *. split; [simpl; by rewrite lookup_delete_ne|]. intros y Hy. by apply (Hk q sq).
Qed.

Lemma store_op_ok st blk y v : heap_wf descs_at (st, blk) -> may_do (HStore y v) (st, blk) ->
  returns (heap_do (HStore y v) (st, blk)) (op_post (HStore y v) (st, blk)).
Proof.
  intros (live & fls & Hi) Hp. apply returns_ok. split; [exists live, fls; by apply inv_memory|].
  intros q sq Hq Hqy. split; [done|]. intros z Hz. simpl in *. unfold store. rewrite (proj2 (Z.eqb_neq z y)); [done|]. intros ->. done.
Qed.

Lemma heap_op_ok op c : heap_wf descs_at c -> may_do op c -> returns (heap_do op c) (op_post op c).
Proof.
  destruct c as [st blk]. destruct op; [apply malloc_op_ok|apply calloc_op_ok|apply realloc_op_ok|apply free_op_ok|apply store_op_ok].
Qed.

Lemma heap_steps_ok c c' : heap_wf descs_at c -> rtc heap_step c c' -> heap_wf descs_at c'.
Proof.
  intros Hw Hs. induction Hs as [|c1 c2 c3 (op & r & Hm & E) _ IH]; [done|]. apply IH.
  pose proof (heap_op_ok op c1 Hw Hm) as H. rewrite E in H. apply H.
Qed.
End Clients.

(** ** The heap of the kernel *)

Abbreviation kheap := (malloc_state kstate lock_id bitmap).

Lemma init_pool_locks {K L B : Type} `{!LockOps K L, !BitArray B} (st st' : palloc_state K L B) w w' b n :
  init_pool st w b n = Ok st' -> pool_lock (get_pool st' w') = pool_lock (get_pool st w').
Proof.
  unfold init_pool. case_match; [done|]. intros (m & _ & [= <-])%bind_ok_inv. by destruct w, w'.
Qed.

Lemma palloc_init_locks {K L B : Type} `{!LockOps K L, !BitArray B} (st st' : palloc_state K L B) ram limit w :
  palloc_init ram limit st = Ok st' -> pool_lock (get_pool st' w) = pool_lock (get_pool st w).
Proof.
  unfold palloc_init. intros (a & _ & (b & _ & (st1 & E1 & E2)%bind_ok_inv)%bind_ok_inv)%bind_ok_inv.
  by rewrite (init_pool_locks _ _ _ w _ _ E2), (init_pool_locks _ _ _ w _ _ E1).
Qed.

(** The kernel before [palloc_init] and [malloc_init]: the static variables of both files
    are zero, and the array of descriptors lies in the kernel's image, below 1 MB. *)
Record heap_boot (descs_at : Z) (m0 : kheap) : Prop := {
  hb_ctx : thread_context (ksync (pages m0));
  hb_pools : pool_lock (kernel_pool (pages m0)) <> pool_lock (user_pool (pages m0));
  hb_cnt : Malloc.desc_cnt m0 = 0;
  hb_len : length (descs m0) = 10%nat;
  hb_arenas : arenas m0 = ∅;
  hb_static : 0 < descs_at /\ descs_at + 480 <= PHYS_BASE + 1024 * 1024;
  hb_locks : forall i d, (i < 7)%nat -> descs m0 !! i = Some d -> (forall w, desc_lock d <> pool_lock (get_pool (pages m0) w)) /\
    forall j d', (j < 7)%nat -> descs m0 !! j = Some d' -> j <> i -> desc_lock d' <> desc_lock d;
  hb_cells : forall i x, (i < 7)%nat -> x ∈ whole (free_list descs_at i) [] -> allocated (links m0) x
}.

(** What clients reach from there. *)
Definition heap_client (descs_at : Z) (m0 : kheap) (c : kheap * gmap Z Z) : Prop :=
  heap_boot descs_at m0 /\ exists ram limit ps st1, 258 <= ram < 2 ^ 18 /\ 1 <= limit /\
    palloc_init ram limit (pages m0) = Ok ps /\ malloc_init descs_at (put_pages m0 ps) = Ok st1 /\
    rtc (heap_step descs_at) (st1, ∅) c.

Lemma boot_start descs_at m0 ram limit ps : heap_boot descs_at m0 -> 258 <= ram < 2 ^ 18 -> 1 <= limit ->
  palloc_init ram limit (pages m0) = Ok ps -> malloc_start descs_at (put_pages m0 ps) ∅.
Proof.
  intros [] Hr Hl E. pose proof (palloc_init_spec ram limit (pages m0) hb_ctx0 hb_pools0 Hr Hl) as H. rewrite E in H.
  destruct H as (Hc & _ & _ & Hb & He & _). split; simpl; try done.
  - destruct Hc as [(_ & _ & _ & Hlk) _]. apply (Hlk KernelPool).
  - lia.
  - destruct Hc as [(Hw & Hd & _) _]. destruct (Hw UserPool) as (Hba & _). pose proof (ba_size_range _ Hba).
    unfold pool_end, psize in *. simpl in *. change PGSIZE with 4096 in *. change PHYS_BASE with 0xc0000000 in *. lia.
  - intros i d Hi Hd. destruct (hb_locks0 i d Hi Hd) as [H1 H2]. split; [|done]. intros w. by rewrite (palloc_init_locks _ _ _ _ w E).
Qed.

Lemma heap_client_wf descs_at m0 c : heap_client descs_at m0 c -> heap_wf descs_at c.
Proof.
  intros (Hb & ram & limit & ps & st1 & Hr & Hl & E1 & E2 & Hs). pose proof (boot_start descs_at m0 ram limit ps Hb Hr Hl E1) as Hst.
  pose proof (malloc_init_spec descs_at _ ∅ Hst) as H. rewrite E2 in H. destruct H as [_ H].
  eapply heap_steps_ok; [|exact Hs]. by exists ∅, (replicate 7 []).
Qed.

(** ** Theorems *)

(** C5: The heap never fails.  From every state that clients reach after boot, every call of
    [malloc], [calloc], [realloc] and [free] that keeps their contract returns: no assertion
    fails, no arena is found corrupted, no link is followed that is not there, no lock is
    contended or released twice. *)
Theorem malloc_no_fault descs_at m0 c op : heap_client descs_at m0 c -> may_do op c ->
  returns (heap_do descs_at op c) (fun '(_, c') => heap_client descs_at m0 c').
Proof.
  intros Hc Hm. pose proof (heap_op_ok descs_at op c (heap_client_wf _ _ _ Hc) Hm) as H.
  destruct (heap_do descs_at op c) as [[r c']|] eqn:E; [|done]. destruct Hc as (Hb & ram & limit & ps & st1 & Hr & Hl & E1 & E2 & Hs).
  split; [done|]. exists ram, limit, ps, st1. do 4 (split; [done|]). eapply rtc_r; [exact Hs|]. by exists op, r.
Qed.

(** C6: The blocks in use never overlap, whatever the clients do: each of them is aligned,
    is at least as large as its client asked for, lies in the kernel pool, and shares no byte
    with another one. *)
Theorem malloc_blocks_disjoint descs_at m0 st blk : heap_client descs_at m0 (st, blk) ->
  (forall p sz, blk !! p = Some sz -> 0 < sz /\ p mod 4 = 0 /\ in_pool (pages st) p sz) /\
  (forall p sz q sq, blk !! p = Some sz -> blk !! q = Some sq -> p <> q -> p + sz <= q \/ q + sq <= p) /\
  (forall size p st', 0 <= size <= MAX_REQUEST -> malloc descs_at st size = Ok (p, st') -> p <> NULL ->
     exists sz, block_size st' p = Ok sz /\ size <= sz /\ fresh_block blk p sz).
Proof.
  intros Hc. pose proof (heap_client_wf _ _ _ Hc) as Hw. pose proof Hw as (live & fls & Hi). split; [|split].
  - intros p sz Hp. by apply (wf_placed descs_at st blk).
  - intros p sz q sq. by apply (blocks_disjoint descs_at st None live fls blk NULL).
  - intros size p st' Hs E Hp. pose proof (malloc_spec descs_at st live fls blk size Hi Hs) as H. rewrite E in H.
    destruct H as (_ & [[-> _]|(sz & Hle & Hf & _ & live' & fls' & H')]); [done|]. exists sz. split; [|done].
    by apply (block_size_spec _ _ _ _ _ _ _ _ _ H' (lookup_insert_eq _ _ _)).
Qed.

(** C8: Blocks are private: as long as a block is neither freed nor resized nor written to by
    its owner, nothing that the other clients do (allocating, zeroing, copying, freeing,
    which fills memory with 0xcc, returning pages) changes a byte of it. *)
Theorem malloc_isolation descs_at m0 c c' p sz y : heap_client descs_at m0 c -> c.2 !! p = Some sz -> p <= y < p + sz ->
  rtc (fun c1 c2 => exists op r, may_do op c1 /\ leaves_block p sz op /\ heap_do descs_at op c1 = Ok (r, c2)) c c' ->
  c'.2 !! p = Some sz /\ memory (pages c'.1) y = memory (pages c.1) y.
Proof.
  intros Hc Hp Hy Hs. pose proof (heap_client_wf _ _ _ Hc) as Hw. clear Hc.
  induction Hs as [|c1 c2 c3 (op & r & Hm & Hl & E) _ IH]; [done|].
  pose proof (heap_op_ok descs_at op c1 Hw Hm) as H. rewrite E in H. destruct H as [Hw2 Hu]. destruct (Hu p sz Hp Hl) as [Hp2 Hb].
  destruct (IH Hp2 Hw2) as [H1 H2]. split; [done|]. by rewrite H2, Hb.
Qed.

(** C31: [realloc] keeps the contents: when it succeeds, the new block holds the first bytes of
    the old one, as many as fit in both, and the old block is free; when it fails, the old
    block is still in use with its contents. *)
Theorem realloc_contents descs_at m0 st blk old osz n : heap_client descs_at m0 (st, blk) -> blk !! old = Some osz -> 0 < n <= MAX_REQUEST ->
  returns (heap_do descs_at (HRealloc old n) (st, blk)) (fun '(p, (st', blk')) =>
    (p = NULL /\ blk' !! old = Some osz /\ forall y, old <= y < old + osz -> memory (pages st') y = memory (pages st) y) \/
    (exists sz, n <= sz /\ blk' = <[p := sz]> (delete old blk) /\ fresh_block blk p sz /\
       forall j, 0 <= j < Z.min n osz -> memory (pages st') (p + j) = memory (pages st) (old + j))).
Proof.
  intros Hc Ho Hn. pose proof (heap_client_wf _ _ _ Hc) as (live & fls & Hi). apply returns_bind.
  eapply returns_mono; [apply (realloc_spec descs_at st live fls blk old n Hi); [right; eauto|lia]|].
  intros [p st'] (_ & [(? & _)|[(Hne & -> & Hby & _)|(sz & Hle & Hf & Hcp & live' & fls' & H')]]); [lia|..].
  - cbn [fst]. rewrite (proj2 (Z.eqb_neq n 0)) by done. apply returns_ok. left. split; [done|]. split; [done|]. intros y _. apply Hby.
  - cbn [fst]. rewrite (proj2 (Z.eqb_neq p NULL)) by (destruct Hf; unfold NULL; lia). cbn [andb].
    rewrite (record_inv descs_at st' live' fls' (delete old blk) p sz (proj1 Hf) H'). apply returns_ok. right. exists sz.
    do 3 (split; [done|]). intros j. by apply Hcp.
Qed.

(** C40: Sizes near the top of the address space wrap.  A request for more than 2^32 - 12
    bytes gets, whenever a page of the kernel pool is free, a block of 4084 bytes; and
    [calloc]'s check for overflow misses every product of 2^32 or more that wraps to
    something at least as large as both factors: the call is then the one for that many
    single bytes. *)
Theorem malloc_size_wraps descs_at m0 st blk size : heap_client descs_at m0 (st, blk) -> MAX_REQUEST < size < 2 ^ 32 ->
  (exists idx, free_run (kernel_pool (pages st)) idx 1) ->
  returns (malloc descs_at st size) (fun '(p, st') => p <> NULL /\ block_size st' p = Ok 4084) /\
  (forall a b, 0 < a -> 0 < b -> 2 ^ 32 <= a * b -> a <= u32 (a * b) -> b <= u32 (a * b) ->
    calloc descs_at st a b = calloc descs_at st (u32 (a * b)) 1).
Proof.
  intros Hc Hs Hf. pose proof (heap_client_wf _ _ _ Hc) as (live & fls & Hi). split.
  - eapply returns_mono; [by apply (malloc_wraps descs_at st live fls blk size)|]. intros [p st'] (Hp & live' & fls' & H').
    split; [unfold NULL; lia|]. by apply (block_size_spec _ _ _ _ _ _ _ _ _ H' (lookup_insert_eq _ _ _)).
  - intros a b Ha Hb _ Hla Hlb. unfold calloc. rewrite Z.mul_1_r, (u32_small (u32 (a * b))) by apply u32_range.
    by rewrite !(proj2 (Z.ltb_ge _ _)) by lia.
Qed.

(** ** Hash tables on any allocator *)

(** C7: A hash table is a set.  A new table, and any sequence of fewer than 2^27
    insertions, replacements, deletions and searches on it returns what the same operations
    on a plain list of elements return, and at the end holds the same elements, through all
    growing and shrinking of the bucket array, whether or not the allocator has memory for
    it.  The elements are the caller's, not in the allocator's memory; an element may be
    inserted or replaced again while it is in the table.  When there is no memory for the
    first buckets, [hash_init] says so and nothing is lost. *)
Theorem hash_refines_set {A : Type} `{!BlockOps A} junk hash_func less `{!WeakOrder less} U hp (w : A) ops rs X :
  (forall x y, same less x y = true -> hash_func x = hash_func y) ->
  heap_ok w -> (forall u, u ∈ U -> allocated hp u /\ owned w NULL u) -> Z.of_nat (length ops) < 2 ^ 27 ->
  Forall (fun op => forall e, op_elem op = Some e -> e ∈ U) ops -> spec_ops less [] ops = (rs, X) ->
  returns (hash_init junk hp w) (fun '(ok, h, hp', w') =>
    if (ok : bool) then returns (run_ops junk hash_func less (h, hp', w') ops) (fun '(rs', st') =>
      rs' = rs /\ table hash_func less U X st')
    else blocks w' = blocks w).
Proof.
  intros Hsame Hw HU Hn Hops Hs. eapply returns_mono; [by apply (hash_init_spec junk hash_func less U hp w)|].
  intros [[[ok h] hp'] w']. destruct ok; [|by intros (_ & E & _)]. intros (bs & Hr & Hb).
  apply (run_ops_refines junk hash_func less Hsame U ops [] (h, hp', w') rs X); [|done..].
  exists bs. split; [done|]. by rewrite Hb.
Qed.

(** ** A concrete heap *)

Definition descs_base : Z := 0xc0040000.

Definition static_links : heap :=
  list_to_map (flat_map (fun i => let l := free_list descs_base i in
    [((l, Prev), 0); ((l, Next), 0); ((l + 8, Prev), 0); ((l + 8, Next), 0)]) (seq 0 7)).

Definition heap_before : kheap :=
  mk_malloc ((fun i => mk_desc 0 0 (UserLock i)) <$> seqZ 1 10) 0 ∅ static_links before_init.

Lemma static_cells i x : (i < 7)%nat -> x ∈ whole (free_list descs_base i) [] -> allocated static_links x.
Proof.
  revert i. apply (desc_cases (fun i => x ∈ whole (free_list descs_base i) [] -> allocated static_links x));
    unfold whole; simpl; rewrite !elem_of_cons, elem_of_nil; intros [->|[->|[]]]; (split; [vm_compute; auto|split; vm_compute; eauto]).
Qed.

Lemma heap_before_boot : heap_boot descs_base heap_before.
Proof.
  split; try done.
  - apply kernel_at_init_context.
  - intros i d Hi. revert d. revert i Hi. apply (desc_cases (fun i => forall d, descs heap_before !! i = Some d -> (forall w, desc_lock d <> pool_lock (get_pool (pages heap_before) w)) /\
      forall j d', (j < 7)%nat -> descs heap_before !! j = Some d' -> j <> i -> desc_lock d' <> desc_lock d));
    simpl; intros d [= <-]; (split; [intros []; done|]).
    all: intros j d' Hj Hd Hne; do 7 (destruct j as [|j]; [simpl in Hd; injection Hd as <-; done|]); lia.
  - apply static_cells.
Qed.

Definition heap_ready : kheap :=
  match malloc_init descs_base (put_pages heap_before initialised) with Ok st => st | Err _ => heap_before end.

Lemma heap_ready_eq : malloc_init descs_base (put_pages heap_before initialised) = Ok heap_ready.
Proof.
  assert (Hs : malloc_start descs_base (put_pages heap_before initialised) ∅).
  { apply (boot_start descs_base heap_before init_ram_pages SIZE_MAX initialised heap_before_boot); [unfold init_ram_pages; lia|unfold SIZE_MAX, UINT32_MAX; lia|apply initialised_eq]. }
  pose proof (malloc_init_spec descs_base _ ∅ Hs) as H. unfold heap_ready. destruct (malloc_init descs_base _); [done|destruct H].
Qed.

Lemma heap_ready_client c : rtc (heap_step descs_base) (heap_ready, ∅) c -> heap_client descs_base heap_before c.
Proof.
  intros Hs. split; [apply heap_before_boot|]. exists init_ram_pages, SIZE_MAX, initialised, heap_ready.
  split; [unfold init_ram_pages; lia|]. split; [unfold SIZE_MAX, UINT32_MAX; lia|].
  split; [apply initialised_eq|]. split; [apply heap_ready_eq|done].
Qed.

(** A block of 100 bytes and one of 5000. *)
Definition heap_after (op : heap_op) (c : kheap * gmap Z Z) : kheap * gmap Z Z :=
  match heap_do descs_base op c with Ok (_, c') => c' | Err _ => c end.
Definition two_in_heap : kheap * gmap Z Z := heap_after (HMalloc 5000) (heap_after (HMalloc 100) (heap_ready, ∅)).

Definition small_block : Z := 0xc010100c.
Definition big_block_at : Z := 0xc010200c.

Lemma heap_after_step op c r : may_do op c -> (match heap_do descs_base op c with Ok (p, _) => p | Err _ => -1 end) = r -> r <> -1 ->
  heap_do descs_base op c = Ok (r, heap_after op c).
Proof. intros _ Hr Hne. unfold heap_after. destruct (heap_do descs_base op c) as [[p c']|]; [by subst|congruence]. Qed.

Lemma first_in_heap : heap_do descs_base (HMalloc 100) (heap_ready, ∅) = Ok (small_block, heap_after (HMalloc 100) (heap_ready, ∅)).
Proof. apply heap_after_step; [unfold may_do, MAX_REQUEST; lia|vm_compute; reflexivity|discriminate]. Qed.

Lemma second_in_heap : heap_do descs_base (HMalloc 5000) (heap_after (HMalloc 100) (heap_ready, ∅)) = Ok (big_block_at, two_in_heap).
Proof. apply (heap_after_step (HMalloc 5000)); [unfold may_do, MAX_REQUEST; lia|vm_compute; reflexivity|discriminate]. Qed.

Lemma first_client : heap_client descs_base heap_before (heap_after (HMalloc 100) (heap_ready, ∅)).
Proof.
  apply heap_ready_client. apply rtc_once. exists (HMalloc 100), small_block. split; [unfold may_do, MAX_REQUEST; lia|apply first_in_heap].
Qed.

Lemma two_client : heap_client descs_base heap_before two_in_heap.
Proof.
  apply heap_ready_client. eapply rtc_l; [exists (HMalloc 100), small_block; split; [unfold may_do, MAX_REQUEST; lia|apply first_in_heap]|].
  apply rtc_once. exists (HMalloc 5000), big_block_at. split; [unfold may_do, MAX_REQUEST; lia|apply second_in_heap].
Qed.

Lemma two_in_heap_pair : two_in_heap = (two_in_heap.1, two_in_heap.2).
Proof. by destruct two_in_heap. Qed.

Lemma two_in_heap_blocks : two_in_heap.2 !! small_block = Some 128 /\ two_in_heap.2 !! big_block_at = Some 8180.
Proof. split; vm_compute; reflexivity. Qed.

Lemma first_in_heap_block : (heap_after (HMalloc 100) (heap_ready, ∅)).2 !! small_block = Some 128.
Proof. vm_compute. reflexivity. Qed.

Lemma two_client_pair : heap_client descs_base heap_before (two_in_heap.1, two_in_heap.2).
Proof. rewrite <- two_in_heap_pair. apply two_client. Qed.

Lemma malloc_no_fault_witness : returns (heap_do descs_base (HFree small_block) two_in_heap) (fun '(_, c') => heap_client descs_base heap_before c').
Proof.
  apply (malloc_no_fault descs_base heap_before two_in_heap (HFree small_block) two_client).
  right. rewrite (proj1 two_in_heap_blocks). eauto.
Defined.

Lemma malloc_blocks_disjoint_witness : small_block + 128 <= big_block_at \/ big_block_at + 8180 <= small_block.
Proof.
  destruct (malloc_blocks_disjoint descs_base heap_before two_in_heap.1 two_in_heap.2 two_client_pair) as (_ & H & _).
  apply H; [apply two_in_heap_blocks|apply two_in_heap_blocks|discriminate].
Defined.

Lemma malloc_isolation_witness :
  memory (pages two_in_heap.1) (small_block + 5) = memory (pages (heap_after (HMalloc 100) (heap_ready, ∅)).1) (small_block + 5).
Proof.
  apply (malloc_isolation descs_base heap_before (heap_after (HMalloc 100) (heap_ready, ∅)) two_in_heap small_block 128 (small_block + 5)).
  - apply first_client.
  - apply first_in_heap_block.
  - lia.
  - apply rtc_once. exists (HMalloc 5000), big_block_at. split; [unfold may_do, MAX_REQUEST; lia|]. split; [done|]. apply second_in_heap.
Defined.

Lemma realloc_contents_witness : returns (heap_do descs_base (HRealloc small_block 3000) (two_in_heap.1, two_in_heap.2)) (fun '(p, (st', _)) =>
  p = NULL \/ memory (pages st') (p + 7) = memory (pages two_in_heap.1) (small_block + 7)).
Proof.
  eapply returns_mono; [apply (realloc_contents descs_base heap_before two_in_heap.1 two_in_heap.2 small_block 128 3000);
    [apply two_client_pair|apply two_in_heap_blocks|unfold MAX_REQUEST; lia]|].
  intros [p [st' blk']] [[-> _]|(sz & _ & _ & _ & H)]; [by left|right]. apply H. lia.
Defined.

Lemma two_free_page : exists idx, free_run (kernel_pool (pages two_in_heap.1)) idx 1.
Proof.
  exists 20. split; [lia|]. split; [vm_compute; discriminate|]. intros j Hj. assert (j = 20) as -> by lia. vm_compute. reflexivity.
Qed.

Lemma malloc_size_wraps_witness :
  returns (malloc descs_base two_in_heap.1 (2 ^ 32 - 1)) (fun '(p, st') => p <> NULL /\ block_size st' p = Ok 4084) /\
  calloc descs_base two_in_heap.1 65537 65537 = calloc descs_base two_in_heap.1 131073 1.
Proof.
  destruct (malloc_size_wraps descs_base heap_before two_in_heap.1 two_in_heap.2 (2 ^ 32 - 1)) as [H1 H2];
    [apply two_client_pair|unfold MAX_REQUEST; lia|exact two_free_page|].
  split; [exact H1|]. apply (H2 65537 65537); vm_compute; (reflexivity || discriminate).
Defined.

(** A table of three elements outside of the pools, ordered by address. *)
#[export] Instance address_order : WeakOrder Z.ltb.
Proof. split; intros *; rewrite ?Z.ltb_lt, ?Z.ltb_ge; lia. Qed.

Definition elems : gset Z := {[0x1000; 0x2000; 0x3000]}.
Definition elem_links : heap :=
  list_to_map (flat_map (fun e => [((e, Prev), 0); ((e, Next), 0)]) [0x1000; 0x2000; 0x3000]).
Definition table_ops : list hash_op :=
  [OpInsert 0x1000; OpInsert 0x2000; OpInsert 0x1000; OpReplace 0x2000; OpDelete 0x1000; OpFind 0x1000].

Lemma heap_ready_base : base (kernel_pool (pages heap_ready)) = 0xc0101000.
Proof. vm_compute. reflexivity. Qed.

Lemma elems_ok u : u ∈ elems -> allocated elem_links u /\ owned (BlockOps0 := malloc_blocks descs_base) (heap_ready, ∅) NULL u.
Proof.
  unfold elems. rewrite !elem_of_union, !elem_of_singleton.
  intros [[->| ->]| ->]; (split; [split; [lia|split; vm_compute; eauto]|left; unfold managed, malloc_blocks, heap_managed; cbn [fst]; rewrite heap_ready_base; lia]).
Qed.

Lemma hash_refines_set_witness :
  returns (hash_init (BlockOps0 := malloc_blocks descs_base) (fun _ => 0) elem_links (heap_ready, ∅)) (fun '(ok, h, hp', w') =>
    if (ok : bool) then returns (run_ops (BlockOps0 := malloc_blocks descs_base) (fun _ => 0) id Z.ltb (h, hp', w') table_ops)
      (fun '(rs', _) => rs' = [NULL; NULL; 0x1000; 0x2000; 0x1000; NULL])
    else w'.2 = ∅).
Proof.
  eapply returns_mono; [apply (hash_refines_set (BlockOps0 := malloc_blocks descs_base) (fun _ => 0) id Z.ltb elems elem_links (heap_ready, ∅)
    table_ops [NULL; NULL; 0x1000; 0x2000; 0x1000; NULL] [0x2000])|].
  - intros x y. unfold same. rewrite andb_true_iff, !negb_true_iff, !Z.ltb_ge. intros [? ?]. unfold id. lia.
  - apply (heap_client_wf descs_base heap_before), heap_ready_client. constructor.
  - apply elems_ok.
  - simpl. lia.
  - unfold table_ops. repeat constructor; simpl; intros e [= <-]; unfold elems; set_solver.
  - vm_compute. reflexivity.
  - intros [[[ok h] hp'] w']. destruct ok; [|done]. intros H. eapply returns_mono; [exact H|]. by intros [rs' st'] [-> _].
Defined.
