(* ===== verification/Paging.v ===== *)
(** * The kernel's page tables (threads/init.c)

    [paging_init] builds a page directory and page tables for all of memory in pages of the
    page allocator.  The tables are words in memory; [translate] is the walk that the CPU
    does through them (IA-32, 4 kB pages), and the theorem says what the CPU finds there. *)

From stdpp Require Import base list gmap numbers.
From Stdlib Require Import ZArith Lia.
From S2P Require Import Prelude Vaddr CString Bitmap Interfaces Kernel KernelLock PallocSpec Palloc MallocSpec.
Import Round Vaddr Pte.

Local Open Scope Z_scope.

(** ** Words in memory *)

Definition store32 (m : mem) (a v : Z) : mem :=
  store (store (store (store m a (u8 v)) (a + 1) (u8 (v / 2 ^ 8))) (a + 2) (u8 (v / 2 ^ 16))) (a + 3) (u8 (v / 2 ^ 24)).

Lemma bytes_of_word v : in_u32 v -> u8 v + 2 ^ 8 * u8 (v / 2 ^ 8) + 2 ^ 16 * u8 (v / 2 ^ 16) + 2 ^ 24 * u8 (v / 2 ^ 24) = v.
Proof. unfold in_u32, u8. intros Hv. Z.to_euclidean_division_equations. lia. Qed.

Lemma u8_idem v : u8 (u8 v) = u8 v.
Proof. unfold u8. by rewrite Z.mod_mod. Qed.

Lemma load_store32 m a v : in_u32 v -> load32 (store32 m a v) a = v.
Proof.
  intros Hv. unfold load32, store32, store. rewrite !Z.eqb_refl.
  rewrite !(proj2 (Z.eqb_neq _ _)) by lia. rewrite !u8_idem. by apply bytes_of_word.
Qed.

Lemma load_store32_other m a v b : a + 4 <= b \/ b + 4 <= a -> load32 (store32 m a v) b = load32 m b.
Proof. intros H. unfold load32, store32, store. by rewrite !(proj2 (Z.eqb_neq _ _)) by lia. Qed.

Lemma store32_other m a v y : y < a \/ a + 4 <= y -> store32 m a v y = m y.
Proof. intros H. unfold store32, store. by rewrite !(proj2 (Z.eqb_neq _ _)) by lia. Qed.

Lemma load32_ext (m m' : mem) a : (forall y, a <= y < a + 4 -> m' y = m y) -> load32 m' a = load32 m a.
Proof. intros H. unfold load32. by rewrite !H by lia. Qed.

Lemma load32_zero (m : mem) a : (forall y, a <= y < a + 4 -> m y = 0) -> load32 m a = 0.
Proof. intros H. unfold load32. by rewrite !H by lia. Qed.

(** ** [paging_init] *)

Section Paging.
Context {K L B : Type} `{!LockOps K L, !BitArray B}.
Abbreviation stateT := (palloc_state K L B).

(** The linker's symbols [_start] and [_end_kernel_text], and [init_ram_pages]. *)
Variables (start end_kernel_text init_ram_pages : Z).

Definition in_kernel_text (vaddr : Z) : bool := (start <=? vaddr) && (vaddr <? end_kernel_text).

(** The body of the loop; [pt] is the page table in hand. *)
Definition map_page (pd : Z) (s : Z * Z * stateT) : res (Z * Z * stateT + stateT) :=
  let '(page, pt, st) := s in
  if page <? init_ram_pages then
    let paddr := u32 (page * PGSIZE) in
    vaddr ← ptov paddr;
    let pde_at := u32 (pd + 4 * pd_no vaddr) in
    '(pt, st) ←
      (if load32 (memory st) pde_at =? 0 then
         '(pt, st) ← palloc_get_page (Z.lor PAL_ASSERT PAL_ZERO) st;
         pde ← pde_create pt;
         Ok (pt, put_memory st (store32 (memory st) pde_at pde))
       else Ok (pt, st));
    pte ← pte_create_kernel vaddr (negb (in_kernel_text vaddr));
    Ok (inl (page + 1, pt, put_memory st (store32 (memory st) (u32 (pt + 4 * pt_no vaddr)) pte)))
  else Ok (inr st).

(** The page directory and what is loaded into CR3. *)
Definition paging_init (st : stateT) : res (Z * Z * stateT) :=
  '(pd, st) ← palloc_get_page (Z.lor PAL_ASSERT PAL_ZERO) st;
  st ← loop (S (Z.to_nat init_ram_pages)) (map_page pd) (0, NULL, st);
  cr3 ← vtop pd;
  Ok (pd, cr3, st).

(** ** What the CPU does *)

(** The translation of a linear address: the physical address, and whether it may be
    written to and whether user code may use it.  Physical memory is at [PHYS_BASE] in the
    kernel's address space. *)
Definition translate (m : mem) (cr3 va : Z) : option (Z * bool * bool) :=
  let pde := load32 m (cr3 + PHYS_BASE + 4 * pd_no va) in
  if Z.land pde PTE_P =? 0 then None else
  let pte := load32 m (Z.land pde PTE_ADDR + PHYS_BASE + 4 * pt_no va) in
  if Z.land pte PTE_P =? 0 then None else
  let both f := negb (Z.land pde f =? 0) && negb (Z.land pte f =? 0) in
  Some (Z.land pte PTE_ADDR + pg_ofs va, both PTE_W, both PTE_U).

(** ** Pages for the tables *)

(** The number of free pages of a pool. *)
Definition free_count (p : pool L B) : nat := length (filter (fun j => used p j = false) (seqZ 0 (psize p))).

Lemma free_count_run (p : pool L B) : pool_wf p -> (0 < free_count p)%nat -> exists i, free_run p i 1.
Proof.
  intros Hw Hc. unfold free_count in Hc. destruct (filter _ _) as [|j l] eqn:E; [simpl in Hc; lia|].
  assert (Hj : j ∈ filter (fun j => used p j = false) (seqZ 0 (psize p))) by (rewrite E; left).
  apply list_elem_of_filter in Hj as [Hu Hj%elem_of_seqZ]. exists j. split; [lia|]. split; [lia|].
  intros x Hx. by assert (x = j) as -> by lia.
Qed.

Lemma free_count_taken (p p' : pool L B) i : free_run p i 1 -> marked p p' i 1 true -> free_count p = S (free_count p').
Proof.
  intros (H0 & Hle & Hf) (_ & _ & _ & Es & Hu). unfold free_count. rewrite Es. apply (filter_add _ _ _ i).
  - apply NoDup_seqZ.
  - apply elem_of_seqZ. lia.
  - rewrite Hu by lia. by rewrite (proj2 (Z.leb_le i i)), (proj2 (Z.ltb_lt i (i + 1))) by lia.
  - intros x Hx%elem_of_seqZ. rewrite Hu by lia. destruct (decide (x = i)) as [->|Hne].
    + rewrite (Hf i) by lia. tauto.
    + destruct (Z.leb_spec i x), (Z.ltb_spec x (i + 1)); simpl; try tauto. lia.
Qed.

(** A page of the kernel's part of the address space. *)
Definition kpage (t : Z) : Prop := pg_ofs t = 0 /\ PHYS_BASE <= t /\ t + 4096 <= 2 ^ 32.

Definition ZERO_PAGE : Z := Z.lor PAL_ASSERT PAL_ZERO.

(** A zeroed page, different from all pages in use. *)
Lemma zero_page (st : stateT) live : client_ok (st, live) -> PHYS_BASE <= base (kernel_pool st) -> (0 < free_count (kernel_pool st))%nat ->
  returns (palloc_get_page ZERO_PAGE st) (fun '(t, st') =>
    client_ok (st', <[t := 1]> live) /\ live !! t = None /\ kpage t /\ base (kernel_pool st') = base (kernel_pool st) /\
    free_count (kernel_pool st) = S (free_count (kernel_pool st')) /\
    (forall y, memory st' y = if in_block y t 1 then 0 else memory st y) /\
    forall p n, live !! p = Some n -> t + 4096 <= p \/ p + 4096 * n <= t).
Proof.
  intros Hc Hb Hf. pose proof Hc as (Hst & _). pose proof Hst as (Hw & _). assert (H01 : 0 < 1) by lia.
  pose proof (free_count_run _ (Hw KernelPool) Hf) as Hrun.
  eapply returns_mono; [apply (palloc_get_multiple_spec ZERO_PAGE 1 st Hst ltac:(lia) Hrun)|].
  intros [t st'] (Hst' & Hnn & Ht & Hmem). pose proof (client_ok_get _ _ _ _ _ _ Hc H01 Hst' Ht) as Hc'.
  pose proof Ht as (idx & Hr & _ & Hm & Ea & _). change (pool_of ZERO_PAGE) with KernelPool in *. simpl in Ea, Hm, Hr.
  split; [done|]. split; [by apply (taken_fresh _ _ _ _ _ _ Hc H01 Ht)|].
  destruct (page_number _ idx (Hw KernelPool)) as (Hu & Ho & Hrange & _); [destruct Hr as (? & ? & _); simpl; lia|]. simpl in *. rewrite <- Ea in *.
  pose proof (Hw KernelPool) as (_ & _ & _ & Hend & _). simpl in Hend. destruct Hr as (Hr0 & Hr1 & Hr2).
  split; [split; [done|]; change PGSIZE with 4096 in *; lia|]. split; [apply Hm|]. split; [by apply (free_count_taken _ _ idx)|]. split; [done|].
  intros p n Hp. pose proof (taken_apart _ _ _ _ _ _ _ _ Hc H01 Ht Hp) as Hap. unfold Palloc.apart in Hap. change PGSIZE with 4096 in *. lia.
Qed.

(** ** Entries *)

Definition pde_of (t : Z) : Z := Z.lor (Z.lor (Z.lor (t - PHYS_BASE) PTE_U) PTE_P) PTE_W.
Definition pte_of (page : Z) : Z :=
  Z.lor (Z.lor (page * 4096) PTE_P) (if negb (in_kernel_text (page * 4096 + PHYS_BASE)) then PTE_W else 0).

Lemma lor_u32 a b : in_u32 a -> in_u32 b -> in_u32 (Z.lor a b).
Proof.
  unfold in_u32. intros Ha Hb. split; [apply Z.lor_nonneg; lia|]. destruct (Z.eq_dec (Z.lor a b) 0) as [->|Hne]; [lia|].
  assert (0 <= Z.lor a b) by (apply Z.lor_nonneg; lia).
  apply Z.log2_lt_pow2; [lia|]. rewrite Z.log2_lor by lia. apply Z.max_lub_lt.
  all: match goal with |- Z.log2 ?x < _ => destruct (Z.eq_dec x 0) as [->|]; [done|apply Z.log2_lt_pow2; lia] end.
Qed.

Lemma pde_of_ok t : kpage t -> pde_create t = Ok (pde_of t) /\ in_u32 (pde_of t) /\
  Z.land (pde_of t) PTE_ADDR = t - PHYS_BASE /\ Z.land (pde_of t) PTE_FLAGS = Z.lor PTE_U (Z.lor PTE_P PTE_W).
Proof.
  intros (Ho & Hb & He). unfold PHYS_BASE in *. assert (Ht : in_u32 t) by (unfold in_u32; lia).
  destruct (vtop_ptov t Ht) as (pa & Hv & -> & Hpa); [apply Z.leb_le; unfold PHYS_BASE; lia|].
  assert (Hofs : pg_ofs (t - PHYS_BASE) = 0) by (by rewrite pg_ofs_vtop).
  split; [unfold pde_create; rewrite Ho, Hv; done|]. unfold pde_of. rewrite <- !Z.lor_assoc.
  split; [apply lor_u32; [done|done]|]. by apply lor_flags_addr.
Qed.

Lemma pte_of_ok page : 0 <= page < 2 ^ 18 ->
  pte_create_kernel (page * 4096 + PHYS_BASE) (negb (in_kernel_text (page * 4096 + PHYS_BASE))) = Ok (pte_of page) /\ in_u32 (pte_of page) /\
  Z.land (pte_of page) PTE_ADDR = page * 4096 /\
  Z.land (pte_of page) PTE_FLAGS = Z.lor PTE_P (if negb (in_kernel_text (page * 4096 + PHYS_BASE)) then PTE_W else 0).
Proof.
  intros Hp. set (w := negb _).
  assert (Ho : pg_ofs (page * 4096 + PHYS_BASE) = 0).
  { rewrite pg_ofs_mod. change PGSIZE with 4096. change PHYS_BASE with (786432 * 4096). rewrite <- Z.mul_add_distr_r. by apply Z.mod_mul. }
  assert (Hu : in_u32 (page * 4096 + PHYS_BASE)) by (unfold in_u32, PHYS_BASE; lia).
  destruct (vtop_ptov _ Hu) as (pa & Hv & -> & Hpa); [apply Z.leb_le; unfold PHYS_BASE; lia|].
  replace (page * 4096 + PHYS_BASE - PHYS_BASE) with (page * 4096) in * by lia.
  assert (Ho' : pg_ofs (page * 4096) = 0) by (rewrite pg_ofs_mod; by apply Z.mod_mul).
  split; [unfold pte_create_kernel; rewrite Ho, Hv; done|]. unfold pte_of. fold w. rewrite <- Z.lor_assoc.
  split; [apply lor_u32; [done|by destruct w]|]. apply lor_flags_addr; [done|done|by destruct w].
Qed.

(** ** The loop *)

(** The directory at [pd] points to the tables [ts], which map the first [n] pages;
    nothing else has been written to since [st0]. *)
Record mapped (pd n : Z) (ts : list Z) (st0 : stateT) (live0 : gmap Z Z) (st : stateT) (live : gmap Z Z) : Prop := {
  mp_client : client_ok (st, live);
  mp_base : base (kernel_pool st) = base (kernel_pool st0);
  mp_pages : forall t, t ∈ pd :: ts -> live !! t = Some 1 /\ kpage t;
  mp_nodup : NoDup (pd :: ts);
  mp_live : forall p m, live0 !! p = Some m -> live !! p = Some m /\ (p ∉ pd :: ts);
  mp_pde : forall i, 0 <= i < 1024 -> load32 (memory st) (pd + 4 * i) =
    if decide (768 <= i) then match ts !! Z.to_nat (i - 768) with Some t => pde_of t | None => 0 end else 0;
  mp_pte : forall k t j, ts !! k = Some t -> 0 <= j < 1024 -> load32 (memory st) (t + 4 * j) =
    if Z.of_nat k * 1024 + j <? n then pte_of (Z.of_nat k * 1024 + j) else 0;
  mp_rest : forall y, (forall t, t ∈ pd :: ts -> in_block y t 1 = false) -> memory st y = memory st0 y;
  mp_free : (free_count (kernel_pool st) + length ts)%nat = free_count (kernel_pool st0)
}.

Section Loop.
Context {pd n : Z} {ts : list Z} {st0 : stateT} {live0 : gmap Z Z} {st : stateT} {live : gmap Z Z}.
Context (Hm : mapped pd n ts st0 live0 st live).

Lemma tables_apart t t' : t ∈ pd :: ts -> t' ∈ pd :: ts -> t <> t' -> t + 4096 <= t' \/ t' + 4096 <= t.
Proof.
  intros Ht Ht' Hne. destruct (mp_client _ _ _ _ _ _ _ Hm) as (_ & _ & Hap & _).
  destruct (mp_pages _ _ _ _ _ _ _ Hm t Ht) as [H1 _], (mp_pages _ _ _ _ _ _ _ Hm t' Ht') as [H2 _].
  pose proof (Hap t 1 t' 1 H1 H2 Hne) as H. unfold Palloc.apart in H. change PGSIZE with 4096 in H. lia.
Qed.

(** A word written to one of the tables is read back, the words of the others are not
    touched. *)
Lemma table_word t i v t' j m : t ∈ pd :: ts -> t' ∈ pd :: ts -> 0 <= i < 1024 -> 0 <= j < 1024 -> in_u32 v ->
  load32 (store32 m (t + 4 * i) v) (t' + 4 * j) = if decide (t' = t /\ j = i) then v else load32 m (t' + 4 * j).
Proof.
  intros Ht Ht' Hi Hj Hv. case_decide as Hd.
  - destruct Hd as [-> ->]. by apply load_store32.
  - apply load_store32_other. destruct (decide (t' = t)) as [->|Hne]; [lia|]. destruct (tables_apart t t' Ht Ht' ltac:(congruence)); lia.
Qed.
End Loop.

Lemma client_ok_memory (st : stateT) live m : client_ok (st, live) -> client_ok (put_memory st m, live).
Proof.
  intros Hc. apply (client_ok_same st); [done| |by intros []]. destruct Hc as [(Hw & Hd & Hne & Hl) _].
  split_and!; try done. all: intros w; by destruct w.
Qed.

(** A new table for the next 1024 pages. *)
Lemma new_table pd n ts st0 live0 st live : mapped pd n ts st0 live0 st live -> PHYS_BASE <= base (kernel_pool st0) ->
  n = 1024 * Z.of_nat (length ts) -> n < 2 ^ 18 -> (length ts < free_count (kernel_pool st0))%nat ->
  returns ('(pt, st) ← palloc_get_page ZERO_PAGE st;
    pde ← pde_create pt;
    Ok (pt, put_memory st (store32 (memory st) (pd + 4 * (768 + Z.of_nat (length ts))) pde))) (fun '(t, st') => exists live',
      mapped pd n (ts ++ [t]) st0 live0 st' live').
Proof.
  intros Hm Hb Hn Hlt Hf. pose proof Hm as [Hc Eb Hp Hnd Hl Hpde Hpte Hrest Hfree].
  apply returns_bind. eapply returns_mono; [apply (zero_page st live Hc); [by rewrite Eb|lia]|].
  intros [t st'] (Hc' & Hnone & Ht & Eb' & Hcnt & Hmem & Hdj). destruct (pde_of_ok t Ht) as (-> & Hu & _). rewrite bind_ok. apply returns_ok.
  assert (Hnew : t ∉ pd :: ts) by (intros Hin; destruct (Hp t Hin); congruence).
  assert (Hkeep : forall t' j, t' ∈ pd :: ts -> 0 <= j < 1024 -> load32 (memory st') (t' + 4 * j) = load32 (memory st) (t' + 4 * j)).
  { intros t' j Ht' Hj. apply load32_ext. intros y Hy. rewrite Hmem. destruct (Hp t' Ht') as [Hl' _].
    rewrite (in_block_out y t 1 t' 4096); [done| |lia]. destruct (Hdj t' 1 Hl'); lia. }
  assert (Hpd : pd ∈ pd :: ts) by left.
  exists (<[t := 1]> live). split.
  - by apply client_ok_memory.
  - simpl. congruence.
  - intros t' Hin. rewrite app_comm_cons, elem_of_app, list_elem_of_singleton in Hin. destruct Hin as [Hin| ->]; [|split; [apply lookup_insert_eq|done]].
    destruct (Hp t' Hin). rewrite lookup_insert_ne by (intros ->; done). done.
  - rewrite app_comm_cons. apply list.NoDup_app. split; [done|]. split; [|apply NoDup_singleton]. intros x Hx ->%list_elem_of_singleton. done.
  - intros p m Hpm. destruct (Hl p m Hpm) as [H1 H2]. rewrite lookup_insert_ne by congruence. split; [done|].
    rewrite app_comm_cons, elem_of_app, list_elem_of_singleton. intros [?| ->]; [done|congruence].
  - intros i Hi. simpl. rewrite (table_word Hm pd (768 + Z.of_nat (length ts)) _ pd i) by (done || lia).
    destruct (decide (768 <= i)) as [H768|H768]; [|rewrite decide_False by lia; rewrite Hkeep, Hpde, decide_False by done; done].
    case_decide as Hd.
    + destruct Hd as [_ ->]. replace (Z.to_nat _) with (length ts) by lia. by rewrite list_lookup_middle.
    + rewrite Hkeep, Hpde, decide_True by done. destruct (decide (Z.to_nat (i - 768) < length ts)%nat); [by rewrite lookup_app_l|].
      rewrite !lookup_ge_None_2; [done|rewrite length_app; simpl; lia|lia].
  - intros k t' j Hk Hj. simpl. destruct (Hp pd Hpd) as [Hpd1 _].
    apply lookup_app_Some in Hk as [Hk|[Hge Hk]].
    + assert (Ht' : t' ∈ ts) by (by eapply list_elem_of_lookup_2). rewrite (table_word Hm pd _ _ t' j) by (done || (by right) || lia).
      rewrite decide_False; [|intros [-> _]; by apply list.NoDup_cons in Hnd as [? _]]. rewrite Hkeep by (done || by right). by apply Hpte.
    + apply list_lookup_singleton_Some in Hk as [Hk ->]. rewrite load_store32_other by (destruct (Hdj pd 1 Hpd1); lia).
      rewrite load32_zero; [|intros y Hy; rewrite Hmem; unfold in_block; change PGSIZE with 4096; case_match eqn:E; [done|zbool; lia]].
      rewrite (proj2 (Z.ltb_ge _ _)) by lia. done.
  - intros y Hy. simpl. destruct (Hp pd Hpd) as [Hpd1 _].
    assert (H1 : in_block y pd 1 = false) by (by apply Hy; left).
    assert (H2 : in_block y t 1 = false) by (apply Hy; rewrite app_comm_cons, elem_of_app; right; left).
    rewrite store32_other by (unfold in_block in H1; change PGSIZE with 4096 in H1; zbool; lia).
    rewrite Hmem, H2. apply Hrest. intros t' Ht'. apply Hy. rewrite app_comm_cons, elem_of_app. by left.
  - simpl. rewrite length_app. simpl. lia.
Qed.

(** One more page in the table in hand. *)
Lemma new_entry pd n ts pt st0 live0 st live : mapped pd n ts st0 live0 st live ->
  0 <= n < 2 ^ 18 -> ts !! Z.to_nat (n / 1024) = Some pt ->
  mapped pd (n + 1) ts st0 live0 (put_memory st (store32 (memory st) (pt + 4 * (n mod 1024)) (pte_of n))) live.
Proof.
  intros Hm Hn Hpt. pose proof Hm as [Hc Eb Hp Hnd Hl Hpde Hpte Hrest Hfree]. destruct (pte_of_ok n Hn) as (_ & Hu & _).
  pose proof (Z.mod_pos_bound n 1024 ltac:(lia)) as Hmod. pose proof (Z.div_mod n 1024 ltac:(lia)) as Hdm.
  pose proof (Z.div_pos n 1024 ltac:(lia) ltac:(lia)) as Hdiv.
  assert (Hin : pt ∈ ts) by (by eapply list_elem_of_lookup_2). assert (Hpd : pd ∈ pd :: ts) by left.
  apply list.NoDup_cons in Hnd as [Hni Hnd]. split; try done.
  - apply list.NoDup_cons. done.
  - intros i Hi. simpl. rewrite (table_word Hm pt _ _ pd i) by (done || (by right) || lia). rewrite decide_False by (intros [-> _]; done). by apply Hpde.
  - intros k t j Hk Hj. simpl. assert (Ht : t ∈ ts) by (by eapply list_elem_of_lookup_2).
    rewrite (table_word Hm pt _ _ t j) by (done || (by right) || lia). rewrite (Hpte k t j Hk Hj).
    assert (Hkn : t = pt <-> k = Z.to_nat (n / 1024)).
    { split; [intros ->; by apply (NoDup_lookup ts k _ pt)|intros ->; congruence]. }
    destruct (decide (t = pt /\ j = n mod 1024)) as [[-> ->]|Hd].
    + assert (k = Z.to_nat (n / 1024)) as -> by (by apply Hkn). rewrite (proj2 (Z.ltb_lt _ _)) by lia. f_equal. lia.
    + assert (Z.of_nat k * 1024 + j <> n).
      { intros E. apply Hd. assert (Ek : Z.of_nat k = n / 1024) by (apply (Z.div_unique n 1024 _ j); lia).
        split; [apply Hkn; lia|]. lia. }
      destruct (Z.ltb_spec (Z.of_nat k * 1024 + j) n), (Z.ltb_spec (Z.of_nat k * 1024 + j) (n + 1)); done || lia.
  - intros y Hy. simpl. assert (H1 : in_block y pt 1 = false) by (apply Hy; by right).
    rewrite store32_other by (unfold in_block in H1; change PGSIZE with 4096 in H1; zbool; lia). by apply Hrest.
Qed.

Lemma va_indices n : 0 <= n < 2 ^ 18 -> pd_no (n * 4096 + PHYS_BASE) = 768 + n / 1024 /\ pt_no (n * 4096 + PHYS_BASE) = n mod 1024.
Proof.
  intros Hn. unfold pd_no, pt_no. rewrite Z.shiftr_land. change (Z.shiftr PTMASK PTSHIFT) with (Z.ones 10). rewrite Z.land_ones by lia.
  rewrite !Z.shiftr_div_pow2 by done. change PDSHIFT with 22. change PTSHIFT with 12. change PHYS_BASE with (768 * 2 ^ 22).
  change 4096 with (2 ^ 12). split; Z.to_euclidean_division_equations; lia.
Qed.

Lemma ceil_tables n : 0 <= n -> (n mod 1024 = 0 -> (n + 1023) / 1024 = n / 1024) /\
  (n mod 1024 <> 0 -> (n + 1023) / 1024 = n / 1024 + 1) /\ (n + 1 + 1023) / 1024 = n / 1024 + 1.
Proof. intros Hn. Z.to_euclidean_division_equations. lia. Qed.

(** One round of the loop. *)
Lemma map_page_round pd n ts pt st0 live0 st live : mapped pd n ts st0 live0 st live -> PHYS_BASE <= base (kernel_pool st0) ->
  0 <= n < init_ram_pages -> init_ram_pages <= 2 ^ 18 -> Z.of_nat (length ts) = (n + 1023) / 1024 -> (0 < n -> list.last ts = Some pt) ->
  (init_ram_pages + 1023) / 1024 <= Z.of_nat (free_count (kernel_pool st0)) ->
  returns (map_page pd (n, pt, st)) (fun r => exists pt' st' ts' live', r = inl (n + 1, pt', st') /\
    mapped pd (n + 1) ts' st0 live0 st' live' /\ Z.of_nat (length ts') = (n + 1 + 1023) / 1024 /\ list.last ts' = Some pt').
Proof.
  intros Hm Hb Hn Hram Hlen Hlast Hfree. destruct (va_indices n ltac:(lia)) as [Epd Ept]. destruct (ceil_tables n ltac:(lia)) as (Hc0 & Hc1 & Hc2).
  unfold map_page. rewrite (proj2 (Z.ltb_lt _ _)) by lia. change PGSIZE with 4096. rewrite (u32_small (n * 4096)) by lia.
  unfold ptov. rewrite assert_bind by (apply Z.ltb_lt; unfold PHYS_BASE; lia). rewrite bind_ok.
  rewrite (u32_small (n * 4096 + PHYS_BASE)) by (unfold PHYS_BASE; lia). rewrite Epd, Ept.
  destruct (mp_pages _ _ _ _ _ _ _ Hm pd ltac:(left)) as [_ (_ & Hpd & Hpe)]. unfold PHYS_BASE in Hpd.
  assert (Hdv : 0 <= n / 1024 < 256) by (split; [apply Z.div_pos|apply Z.div_lt_upper_bound]; lia).
  rewrite (u32_small (pd + 4 * (768 + n / 1024))) by lia. destruct (pte_of_ok n ltac:(lia)) as (Epte & _).
  assert (Hstep : forall t st1 ts1 live1, mapped pd n ts1 st0 live0 st1 live1 -> list.last ts1 = Some t -> Z.of_nat (length ts1) = n / 1024 + 1 ->
    returns (pte ← pte_create_kernel (n * 4096 + PHYS_BASE) (negb (in_kernel_text (n * 4096 + PHYS_BASE)));
      Ok (inl (n + 1, t, put_memory st1 (store32 (memory st1) (u32 (t + 4 * (n mod 1024))) pte)) : Z * Z * stateT + stateT))
      (fun r => exists pt' st' ts' live', r = inl (n + 1, pt', st') /\
        mapped pd (n + 1) ts' st0 live0 st' live' /\ Z.of_nat (length ts') = (n + 1 + 1023) / 1024 /\ list.last ts' = Some pt')).
  { intros t st1 ts1 live1 Hm1 Hl1 Hn1. rewrite Epte, bind_ok. apply returns_ok.
    assert (Hlk : ts1 !! Z.to_nat (n / 1024) = Some t) by (rewrite last_lookup in Hl1; rewrite <- Hl1; f_equal; lia).
    destruct (mp_pages _ _ _ _ _ _ _ Hm1 t ltac:(right; by eapply list_elem_of_lookup_2)) as [_ (_ & Ht & Hte)]. unfold PHYS_BASE in Ht.
    pose proof (Z.mod_pos_bound n 1024 ltac:(lia)). rewrite u32_small by lia.
    eexists t, _, ts1, live1. split; [done|]. split; [apply new_entry; [done|lia|done]|]. split; [lia|done]. }
  rewrite (mp_pde _ _ _ _ _ _ _ Hm) by lia. rewrite decide_True by lia. replace (Z.to_nat (768 + n / 1024 - 768)) with (Z.to_nat (n / 1024)) by lia.
  destruct (decide (n mod 1024 = 0)) as [H0|H0].
  - rewrite lookup_ge_None_2 by lia. simpl. change (0 =? 0) with true. cbv iota. apply returns_bind.
    replace (n / 1024) with (Z.of_nat (length ts)) by lia. change (Z.lor PAL_ASSERT PAL_ZERO) with ZERO_PAGE.
    assert (n / 1024 < (init_ram_pages + 1023) / 1024).
    { pose proof (Z.div_mod n 1024 ltac:(lia)). apply Z.div_lt_upper_bound; [lia|]. pose proof (Z.div_mod (init_ram_pages + 1023) 1024 ltac:(lia)).
      pose proof (Z.mod_pos_bound (init_ram_pages + 1023) 1024 ltac:(lia)). lia. }
    pose proof (Z.div_mod n 1024 ltac:(lia)).
    eapply returns_mono; [apply (new_table pd n ts st0 live0 st live Hm Hb); lia|].
    intros [t st1] (live1 & Hm1). apply (Hstep t st1 (ts ++ [t]) live1 Hm1); [apply last_snoc|rewrite length_app; simpl; lia].
  - assert (Hl : list.last ts = Some pt) by (apply Hlast; destruct (decide (n = 0)) as [->|]; [done|lia]).
    assert (Hlk : ts !! Z.to_nat (n / 1024) = Some pt) by (rewrite last_lookup in Hl; rewrite <- Hl; f_equal; lia). rewrite Hlk.
    destruct (mp_pages _ _ _ _ _ _ _ Hm pt ltac:(right; by eapply list_elem_of_lookup_2)) as [_ Hkp]. destruct (pde_of_ok pt Hkp) as (_ & _ & _ & Hfl).
    rewrite (proj2 (Z.eqb_neq (pde_of pt) 0)) by (intros E; rewrite E in Hfl; done). rewrite bind_ok. apply (Hstep pt st ts live Hm Hl). lia.
Qed.

(** ** The translation *)

Lemma flag_of x f : Z.land PTE_FLAGS f = f -> Z.land x f = Z.land (Z.land x PTE_FLAGS) f.
Proof. intros Hf. by rewrite <- Z.land_assoc, Hf. Qed.

Definition in_ram (va : Z) : bool := (PHYS_BASE <=? va) && (va <? PHYS_BASE + init_ram_pages * 4096).

Lemma mapped_translate pd ts st0 live0 st live va : mapped pd init_ram_pages ts st0 live0 st live -> init_ram_pages <= 2 ^ 18 ->
  Z.of_nat (length ts) = (init_ram_pages + 1023) / 1024 -> in_u32 va ->
  translate (memory st) (pd - PHYS_BASE) va =
    if in_ram va then Some (va - PHYS_BASE, negb (in_kernel_text (va - pg_ofs va)), false) else None.
Proof.
  intros Hm Hram Hlen Hva. destruct (va_decompose va Hva) as (Eva & Hpd & Hpt). pose proof (pg_ofs_range va) as Hofs.
  change PGSIZE with 4096 in Hofs. rewrite !Z.shiftl_mul_pow2 in Eva by done. change PDSHIFT with 22 in Eva. change PTSHIFT with 12 in Eva.
  unfold translate. replace (pd - PHYS_BASE + PHYS_BASE + 4 * pd_no va) with (pd + 4 * pd_no va) by lia.
  rewrite (mp_pde _ _ _ _ _ _ _ Hm) by lia. unfold in_ram.
  pose proof (Z.div_mod (init_ram_pages + 1023) 1024 ltac:(lia)). pose proof (Z.mod_pos_bound (init_ram_pages + 1023) 1024 ltac:(lia)).
  case_decide as Hi; [|rewrite (proj2 (Z.leb_gt _ _)) by (unfold PHYS_BASE; lia); done].
  rewrite (proj2 (Z.leb_le PHYS_BASE va)) by (unfold PHYS_BASE; lia). set (k := Z.to_nat (pd_no va - 768)).
  set (page := Z.of_nat k * 1024 + pt_no va). assert (Ep : va - pg_ofs va = page * 4096 + PHYS_BASE) by (unfold page, k, PHYS_BASE; lia).
  destruct (ts !! k) as [t|] eqn:Et.
  - destruct (mp_pages _ _ _ _ _ _ _ Hm t ltac:(right; by eapply list_elem_of_lookup_2)) as [_ Hkp]. destruct (pde_of_ok t Hkp) as (_ & _ & Ea & Ef).
    rewrite (flag_of (pde_of t) PTE_P), (flag_of (pde_of t) PTE_W), (flag_of (pde_of t) PTE_U) by done. rewrite Ef, Ea.
    change (Z.land (Z.lor PTE_U (Z.lor PTE_P PTE_W)) PTE_P =? 0) with false. cbv iota.
    replace (t - PHYS_BASE + PHYS_BASE + 4 * pt_no va) with (t + 4 * pt_no va) by lia.
    rewrite (mp_pte _ _ _ _ _ _ _ Hm k t _ Et) by lia. fold page. destruct (Z.ltb_spec page init_ram_pages) as [Hlt|Hge].
    + destruct (pte_of_ok page ltac:(unfold page in *; lia)) as (_ & _ & Eb & Eg).
      rewrite (flag_of (pte_of page) PTE_P), (flag_of (pte_of page) PTE_W), (flag_of (pte_of page) PTE_U) by done. rewrite Eg, Eb, Ep. rewrite (proj2 (Z.ltb_lt _ _)) by lia.
      replace (page * 4096 + pg_ofs va) with (va - PHYS_BASE) by lia. by destruct (in_kernel_text (page * 4096 + PHYS_BASE)).
    + rewrite (proj2 (Z.ltb_ge va _)) by lia. done.
  - apply lookup_ge_None in Et. rewrite (proj2 (Z.ltb_ge va _)) by (unfold page in Ep; lia). done.
Qed.

(** The pages that the tables take. *)
Definition table_pages : Z := 1 + (init_ram_pages + 1023) / 1024.

Lemma paging_init_spec (st : stateT) live : client_ok (st, live) -> PHYS_BASE <= base (kernel_pool st) -> 0 <= init_ram_pages <= 2 ^ 18 ->
  table_pages <= Z.of_nat (free_count (kernel_pool st)) ->
  returns (paging_init st) (fun '(pd, cr3, st') => exists ts live', cr3 = pd - PHYS_BASE /\
    Z.of_nat (length ts) = (init_ram_pages + 1023) / 1024 /\ client_ok (st', live') /\ NoDup (pd :: ts) /\
    (forall p n, live !! p = Some n -> live' !! p = Some n /\ (p ∉ pd :: ts)) /\
    (forall t, t ∈ pd :: ts -> live' !! t = Some 1) /\
    (forall y, (forall t, t ∈ pd :: ts -> in_block y t 1 = false) -> memory st' y = memory st y) /\
    forall va, in_u32 va -> translate (memory st') cr3 va =
      if in_ram va then Some (va - PHYS_BASE, negb (in_kernel_text (va - pg_ofs va)), false) else None).
Proof.
  intros Hc Hb Hram Hfree. unfold paging_init, table_pages in *. change (Z.lor PAL_ASSERT PAL_ZERO) with ZERO_PAGE.
  assert (0 <= (init_ram_pages + 1023) / 1024) by (apply Z.div_pos; lia).
  apply returns_bind. eapply returns_mono; [apply (zero_page st live Hc Hb); lia|].
  intros [pd st1] (Hc1 & Hnone & Hkp & Eb & Hcnt & Hmem & Hdj).
  assert (Hzero : forall i, 0 <= i < 1024 -> load32 (memory st1) (pd + 4 * i) = 0).
  { intros i Hi. apply load32_zero. intros y Hy. rewrite Hmem. unfold in_block. change PGSIZE with 4096. case_match eqn:E; [done|zbool; lia]. }
  assert (Hm0 : mapped pd 0 [] st1 live st1 (<[pd := 1]> live)).
  { split; try done.
    - intros t ->%list_elem_of_singleton. split; [apply lookup_insert_eq|done].
    - apply NoDup_singleton.
    - intros p n Hp. rewrite lookup_insert_ne by congruence. split; [done|]. intros ->%list_elem_of_singleton. congruence.
    - intros i Hi. rewrite Hzero by done. by case_decide. }
  apply returns_bind.
  assert (Hloop : returns (loop (S (Z.to_nat init_ram_pages)) (map_page pd) (0, NULL, st1)) (fun st2 => exists ts live2,
    mapped pd init_ram_pages ts st1 live st2 live2 /\ Z.of_nat (length ts) = (init_ram_pages + 1023) / 1024)).
  { apply (returns_loop (fun '(n, pt, st2) => 0 <= n <= init_ram_pages /\ exists ts live2, mapped pd n ts st1 live st2 live2 /\
      Z.of_nat (length ts) = (n + 1023) / 1024 /\ (0 < n -> list.last ts = Some pt)) (fun '(n, _, _) => Z.to_nat (init_ram_pages - n))).
    - intros [[n pt] st2] (Hn & ts & live2 & Hm & Hlen & Hlast). destruct (decide (n = init_ram_pages)) as [->|Hne].
      + unfold map_page. rewrite (proj2 (Z.ltb_ge _ _)) by lia. apply returns_ok. eauto.
      + eapply returns_mono; [apply (map_page_round pd n ts pt st1 live st2 live2 Hm); try done; [by rewrite Eb|lia..]|].
        intros r (pt' & st' & ts' & live' & -> & Hm' & Hlen' & Hlast'). split; [|lia]. split; [lia|]. eauto 8.
    - split; [lia|]. exists [], (<[pd := 1]> live). split; [done|]. split; [done|]. lia.
    - lia. }
  eapply returns_mono; [exact Hloop|]. intros st2 (ts & live2 & Hm & Hlen). pose proof Hkp as (Ho & Hp1 & Hp2).
  destruct (vtop_ptov pd) as (pa & Hv & -> & _); [unfold in_u32; unfold PHYS_BASE in Hp1; lia|by apply Z.leb_le|]. rewrite Hv, bind_ok. apply returns_ok.
  exists ts, live2. split; [done|]. split; [done|]. pose proof Hm as []. split; [done|]. split; [done|]. split; [done|].
  split; [intros t Ht; by apply mp_pages0|]. split.
  - intros y Hy. rewrite mp_rest0 by done. rewrite Hmem, (Hy pd) by left. done.
  - intros va Hva. apply (mapped_translate pd ts st1 live st2 live2); [done|lia|done|done].
Qed.
End Paging.

(** C26: [paging_init] maps memory as the kernel expects.  Given enough free pages for the
    tables, it returns without a panic, and with the value it loads into CR3 the CPU
    translates every address from [PHYS_BASE] to the end of memory to the physical address
    [PHYS_BASE] below it, for the kernel only, writable exactly if the page is not kernel
    text, and has no translation for any other address; the blocks in use are untouched. *)
Theorem paging_init_maps {K L B : Type} `{!LockOps K L, !BitArray B} start end_text ram (st : palloc_state K L B) live :
  client_ok (st, live) -> PHYS_BASE <= base (kernel_pool st) -> 0 <= ram <= 2 ^ 18 ->
  table_pages ram <= Z.of_nat (free_count (kernel_pool st)) ->
  returns (paging_init start end_text ram st) (fun '(pd, cr3, st') =>
    (forall va, in_u32 va -> translate (memory st') cr3 va =
       if in_ram ram va then Some (va - PHYS_BASE, negb (in_kernel_text start end_text (va - pg_ofs va)), false) else None) /\
    (forall p n y, live !! p = Some n -> in_block y p n = true -> memory st' y = memory st y) /\
    exists live', client_ok (st', live') /\ forall p n, live !! p = Some n -> live' !! p = Some n).
Proof.
  intros Hc Hb Hram Hf. eapply returns_mono; [by apply (paging_init_spec start end_text ram st live)|].
  intros [[pd cr3] st'] (ts & live' & -> & _ & Hc' & _ & Hl & Ht & Hrest & Htr). split; [done|]. split; [|exists live'; split; [done|apply Hl]].
  intros p n y Hp Hy. apply Hrest. intros t Hin. destruct (Hl p n Hp) as [Hp' Hnin]. destruct Hc' as (_ & _ & Hap & _).
  pose proof (Hap t 1 p n (Ht t Hin) Hp' ltac:(intros ->; done)) as Hd. unfold Palloc.apart, in_block in *. change PGSIZE with 4096 in *. zbool.
Qed.

Lemma initialised_room : table_pages 1024 <= Z.of_nat (free_count (kernel_pool initialised)) /\ PHYS_BASE <= base (kernel_pool initialised).
Proof. split; vm_compute; discriminate. Qed.

Lemma initialised_ok : client_ok (initialised, ∅).
Proof. pose proof initialised_returns as H. rewrite initialised_eq in H. apply H. Qed.

Lemma paging_init_maps_witness : returns (paging_init 0xc0020000 0xc0030000 1024 initialised) (fun '(pd, cr3, st') =>
  translate (memory st') cr3 0xc0020004 = Some (0x20004, false, false) /\
  translate (memory st') cr3 0xc0123456 = Some (0x123456, true, false) /\ translate (memory st') cr3 0x1000 = None).
Proof.
  eapply returns_mono; [apply (paging_init_maps 0xc0020000 0xc0030000 1024 initialised ∅ initialised_ok); [exact (proj2 initialised_room)|lia|exact (proj1 initialised_room)]|].
  intros [[pd cr3] st'] (H & _). rewrite !H by (unfold in_u32; lia). done.
Defined.
