(* ===== verification/KernelSwitch.v ===== *)
(** * Leaving and getting the CPU

    [leaves]: the running thread blocks, yields or dies; [schedule] then gives the CPU
    to the next thread, and frees the page of a thread that died.  Both keep the
    invariant. *)

From stdpp Require Import base list gmap numbers functions.
From Stdlib Require Import ZArith Lia.
From S2P Require Import Prelude CString Kernel KernelInv KernelStep KernelSched.

Local Open Scope Z_scope.

(** ** Leaving the CPU *)

(** [st'] is [st] with the running thread, whose entry was [c], off the CPU with entry
    [c']. *)
Record leaves (st : kstate) (c : tcb) (st' : kstate) (c' : tcb) : Prop := {
  lv_threads : threads st' = <[current st := c']> (threads st);
  lv_status : status c' <> THREAD_RUNNING;
  lv_same : intr_context st' = false /\ idle_thread st' = idle_thread st /\
    initial_thread st' = initial_thread st /\ holder st' = holder st /\ cond st' = cond st /\
    free_pages st' = free_pages st /\ pool_pages st' = pool_pages st;
  lv_push : all_push st' = all_push st;
  lv_current : current st' = current st;
  lv_ready : ready_list st' = ready_list st ++
    (if decide (current st <> idle_thread st /\ status c' = THREAD_READY) then [current st] else []);
  lv_wait : forall s, waiters (sema st' s) = waiters (sema st s) ++
    (if decide (sleeping s c') then [current st] else []);
  lv_all : all_list st' = if decide (status c' = THREAD_DYING)
    then filter (fun u => u <> current st) (all_list st) else all_list st;
  lv_value : forall s, value (sema st' s) = value (sema st s);
  lv_idle : current st = idle_thread st -> idle_ok (code c') /\
    (status c' = THREAD_BLOCKED -> code c' = [Idle_wake]) /\ status c' <> THREAD_DYING;
  lv_code : current st <> idle_thread st -> Forall (instr_ok (current st)) (code c');
  lv_level : lvl_ok INTR_OFF (code c');
  lv_susp : code c' = [] \/ suspended (code c');
  lv_blocked : status c' = THREAD_BLOCKED -> blocked_code (code c');
  lv_lock_ok : forall l, lock_ok l (bool_decide (holder st l = current st)) (code c');
  lv_tok_ok : forall l, tok_ok l (code c');
  lv_free_ok : free_ok (code c');
  lv_wait_ok : wait_ok (code c');
  lv_free : ~ freeing (code c');
  lv_dies : status c' = THREAD_DYING -> code c' = [];
  lv_tok : forall l, wcode (tok_w l) (code c') = wcode (tok_w l) (code c);
  lv_wake : forall s, if decide (sleeping s c') then value (sema st s) = 0
    else wcode (wait_w s) (code c') = wcode (wait_w s) (code c);
  lv_unborn : unborn (Some c') = 0 /\ newborn (Some c') = 0;
  lv_born : forall u, wcode (born_w u) (code c') = wcode (born_w u) (code c) /\
    wcode (unblock_w u) (code c') = wcode (unblock_w u) (code c) /\
    wcode (page_w u) (code c') = wcode (page_w u) (code c) /\
    wcode (link_w u) (code c') = wcode (link_w u) (code c)
}.

(** Elements at the back of a list. *)
Lemma NoDup_snoc_if (l : list Z) (t : Z) (P : Prop) `{Decision P} : NoDup l -> t ∉ l ->
  NoDup (l ++ if decide P then [t] else []).
Proof.
  intros Hl Ht. case_decide; [|by rewrite app_nil_r]. apply list.NoDup_app.
  split; [done|]. split; [set_solver + Ht|apply NoDup_singleton].
Qed.

Lemma elem_of_snoc_if (l : list Z) (t : Z) (P : Prop) `{Decision P} u : t ∉ l ->
  u ∈ l ++ (if decide P then [t] else []) <-> (u = t /\ P) \/ (u <> t /\ u ∈ l).
Proof. intros Ht. case_decide; set_solver. Qed.

Lemma pending_nonneg s c : 0 <= pending s c.
Proof.
  assert (Hw : forall k, 0 <= wcode (wait_w s) k).
  { induction k as [|[] k IH]; simpl; repeat case_decide; lia. }
  unfold pending. case_decide as Hs; [|specialize (Hw (code c)); lia].
  destruct Hs as [_ (b & k & ->)]. simpl. rewrite decide_True by done. specialize (Hw k). lia.
Qed.

Section Leave.
Context (st : kstate) (c : tcb) (st' : kstate) (c' : tcb).
Context (Hk : running st) (Hc : threads st !! current st = Some c) (Hl : leaves st c st' c').

Lemma leave_wake s : waiters (sema st' s) <> [] ->
  value (sema st s) <= sumt (pending s) (threads st) - pending s c + pending s c'.
Proof.
  intros Hw. pose proof (lv_wake _ _ _ _ Hl s) as Hv. pose proof (lv_wait _ _ _ _ Hl s) as Ew.
  pose proof (running_current st c Hk Hc) as Hr. case_decide as Hs.
  - rewrite Hv. pose proof (pending_nonneg s c').
    pose proof (sumt_ge (pending s) _ _ c (fun _ x _ => pending_nonneg s x) Hc). lia.
  - rewrite (pending_awake s c'), (pending_running s c), Hv by done.
    rewrite Ew, app_nil_r in Hw. pose proof (k_wake Hk s Hw). lia.
Qed.

Lemma kinv_leave : kinv None st'.
Proof.
  pose proof leave_wake as Hwake. pose proof (running_current st c Hk Hc) as Hr. destruct Hl.
  pose proof (ready_iff st _ c Hk Hc) as Hready. pose proof (all_iff st _ c Hk Hc) as Hall.
  pose proof (fun s => wait_iff st _ c Hk Hc s) as Hwait.
  assert (Hnr : current st ∉ ready_list st) by (rewrite Hready, Hr; naive_solver).
  assert (Hnw : forall s, current st ∉ waiters (sema st s)).
  { intros s. rewrite Hwait. apply not_sleeping. congruence. }
  destruct lv_unborn0 as [Hub Hnb]. simpl in Hub, Hnb.
  apply (kinv_update st st' (current st) (Some c) c' Hk Hc). split; simpl; try done.
  - naive_solver.
  - naive_solver.
  - naive_solver.
  - rewrite lv_ready0. apply NoDup_snoc_if; [apply (k_ready_nodup Hk)|done].
  - intros u. rewrite lv_ready0. by apply elem_of_snoc_if.
  - intros s. rewrite lv_wait0. apply NoDup_snoc_if; [apply (k_wait_nodup Hk)|done].
  - intros s u. rewrite lv_wait0. by apply elem_of_snoc_if.
  - rewrite lv_all0. destruct (decide (status c' = THREAD_DYING)); [apply list.NoDup_filter|]; apply (k_all_nodup Hk).
  - intros u. rewrite lv_all0. destruct (decide (status c' = THREAD_DYING)) as [E|E].
    + rewrite list_elem_of_filter, E. naive_solver.
    + apply unchanged. rewrite Hall, lv_push0, Hr. naive_solver.
  - auto.
  - intros Hs. split; [auto|]. right. by rewrite lv_current0.
  - intros u y Hu Hy Hs. destruct (k_dying Hk u y Hy Hs) as [_ [?|[? _]]]; [auto|done].
  - intros u. destruct (lv_born0 u) as (-> & _). rewrite Hub, Hr. simpl. lia.
  - intros u. destruct (lv_born0 u) as (_ & -> & _). rewrite Hnb, Hr. simpl. lia.
  - intros p. destruct (lv_born0 p) as (_ & _ & ? & _). rewrite (b2z_true (is_Some _)) by eauto. unfold old_w. simpl. lia.
  - intros u. destruct (lv_born0 u) as (_ & _ & _ & ?). rewrite lv_push0. unfold old_w. simpl. lia.
Qed.
End Leave.

(** ** A dead thread's page *)

Definition reap_slack (t : Z) : slack := mk_slack (fun _ => 0) (fun _ => 0) (fun p => b2z (p = t)) (fun _ => 0).

Section Reap.
Context (st : kstate) (x : tcb) (t := current st).
Context (Hk : kinv None st) (Hx : threads st !! t = Some x) (Hs : status x = THREAD_DYING)
        (Hi : t <> initial_thread st) (Hh : forall l, holder st l <> t).

Definition reaped : kstate := set_threads st (delete t (threads st)).

Lemma reaped_exists (P : tcb -> Prop) u : ~ P x ->
  (exists y, delete t (threads st) !! u = Some y /\ P y) <-> (exists y, threads st !! u = Some y /\ P y).
Proof.
  intros Hp. simpl. setoid_rewrite lookup_delete_Some. split; [naive_solver|].
  intros (y & Hy & HP). exists y. split; [|done]. split; [|done]. intros ->. congruence.
Qed.

Lemma reaped_sum f : f x = 0 -> sumt f (delete t (threads st)) = sumt f (threads st).
Proof. intros E. simpl. rewrite (sumt_delete f _ _ x) by done. lia. Qed.

Lemma reaped_born (born : option tcb -> Z) u : born (Some x) = born None ->
  born (delete t (threads st) !! u) = born (threads st !! u).
Proof.
  intros E. simpl. destruct (decide (u = t)) as [->|Hne].
  - by rewrite lookup_delete_eq, Hx.
  - by rewrite lookup_delete_ne.
Qed.

Lemma kinv_reap : kinv_upto (reap_slack t) None reaped.
Proof.
  destruct (k_dying Hk t x Hx Hs) as [Ec _].
  assert (Hns : forall s, ~ sleeping s x) by (intros s; apply not_sleeping; congruence).
  assert (Hni : t <> idle_thread st).
  { intros E. destruct (k_idle Hk) as (ci & Hci & _ & _ & Hd). rewrite <- E in Hci. congruence. }
  split; simpl; try apply Hk.
  - intros u. rewrite (reaped_exists (fun y => status y = THREAD_RUNNING)) by congruence. apply (k_run Hk).
  - intros u. rewrite (reaped_exists (fun y => status y = THREAD_READY)) by congruence. apply (k_ready Hk).
  - intros s u. rewrite (reaped_exists (sleeping s)) by done. apply (k_wait Hk).
  - intros u. rewrite (reaped_exists (fun y => status y <> THREAD_DYING)) by auto. apply (k_all Hk).
  - destruct (k_idle Hk) as (ci & Hci & ?). exists ci. by rewrite lookup_delete_ne.
  - intros u y [_ Hy]%lookup_delete_Some. by apply (k_code Hk).
  - intros u y [_ Hy]%lookup_delete_Some. apply (k_level Hk u y Hy).
  - intros u y [_ Hy]%lookup_delete_Some. by apply (k_susp Hk u).
  - intros u y [_ Hy]%lookup_delete_Some. by apply (k_blocked Hk u).
  - intros u y l [_ Hy]%lookup_delete_Some. by apply (k_lock_ok Hk).
  - intros u y l [_ Hy]%lookup_delete_Some. by apply (k_tok_ok Hk u).
  - intros u y [_ Hy]%lookup_delete_Some. by apply (k_free_ok Hk u).
  - intros u y [_ Hy]%lookup_delete_Some. by apply (k_wait_ok Hk u).
  - intros u y [_ Hy]%lookup_delete_Some Hf. by destruct (k_free Hk u y Hy Hf).
  - intros l. rewrite lookup_delete_ne by (intros E; by apply (Hh l)). apply (k_holder Hk).
  - intros u y [_ Hy]%lookup_delete_Some. by apply (k_dying Hk).
  - intros l. pose proof (k_lock Hk l). by rewrite (reaped_sum (fun c => wcode (tok_w l) (code c))) by (by rewrite Ec).
  - intros s Hw. rewrite reaped_sum; [by apply (k_wake Hk)|]. rewrite pending_awake, Ec by done. done.
  - intros u. rewrite (reaped_sum (fun c => wcode (born_w u) (code c))) by (by rewrite Ec).
    rewrite reaped_born by (simpl; by rewrite Hs). apply (k_unborn Hk).
  - intros u. rewrite (reaped_sum (fun c => wcode (unblock_w u) (code c))) by (by rewrite Ec).
    rewrite reaped_born by (simpl; by rewrite Hs). apply (k_newborn Hk).
  - intros p. rewrite (reaped_sum (fun c => wcode (page_w p) (code c))) by (by rewrite Ec).
    pose proof (k_page Hk p) as Hp. simpl in Hp. destruct (decide (p = t)) as [->|Hne].
    + rewrite Hx, (b2z_true (is_Some _)) in Hp by eauto. rewrite lookup_delete_eq.
      rewrite (b2z_false (is_Some None)), (b2z_true (t = t)) by (done || by intros []). lia.
    + rewrite lookup_delete_ne, (b2z_false (p = t)) by done. lia.
  - intros u. rewrite (reaped_sum (fun c => wcode (link_w u) (code c))) by (by rewrite Ec). apply (k_link Hk).
  - intros p. apply b2z_range.
Qed.
End Reap.

(** ** Getting the CPU *)

Section Dispatch.
Context {d : slack} (st : kstate) (next : Z) (x : tcb) (st' : kstate).
Context (Hk : kinv_upto d None st) (Hx : threads st !! next = Some x).

(** [st'] is [st] with [next], the first ready thread or else the idle thread, running. *)
Record dispatched : Prop := {
  di_threads : threads st' = <[next := with_status THREAD_RUNNING x]> (threads st);
  di_next : ready_list st = next :: ready_list st' \/
    (next = idle_thread st /\ ready_list st = [] /\ ready_list st' = []);
  di_same : intr_context st' = false /\ idle_thread st' = idle_thread st /\
    initial_thread st' = initial_thread st /\ holder st' = holder st /\ cond st' = cond st /\
    free_pages st' = free_pages st /\ pool_pages st' = pool_pages st;
  di_rest : all_list st' = all_list st /\ all_push st' = all_push st /\ sema st' = sema st /\ current st' = next /\
    intr_get_level st' = INTR_OFF;
  di_dying : forall u y, threads st !! u = Some y -> status y = THREAD_DYING -> u = initial_thread st
}.

Lemma next_state : dispatched -> status x = THREAD_READY /\ next <> idle_thread st \/
  next = idle_thread st /\ (status x = THREAD_READY \/ status x = THREAD_BLOCKED /\ code x = [Idle_wake]).
Proof.
  intros [_ [E|[E _]] _ _ _].
  - left. assert (Hn : next ∈ ready_list st) by (rewrite E; set_solver +).
    apply (ready_iff st next x Hk Hx) in Hn. tauto.
  - right. split; [done|]. destruct (k_idle Hk) as (ci & Hci & _ & Hb & Hd). rewrite <- E in Hci.
    assert (ci = x) as -> by congruence.
    assert (Hr : status x <> THREAD_RUNNING).
    { intros Hr. assert (None = Some next) by (apply (k_run Hk); eauto). done. }
    destruct (status x) eqn:Es; try done; auto.
Qed.

Lemma kinv_dispatch : dispatched -> kinv_upto d (Some next) st'.
Proof.
  intros Hd. pose proof (next_state Hd) as Hn. destruct Hd as [Et Er Es (Ea & Eq & Esm & Ec & Ef) Hd].
  assert (Hns : forall s, ~ sleeping s x).
  { intros s [Hb (b & k & E)]. destruct Hn as [[? _]|[_ [?|[_ ?]]]]; congruence. }
  assert (Hb : unborn (Some x) = 0 /\ newborn (Some x) = 0).
  { destruct Hn as [[Hr _]|[_ [Hr|[Hr Hcd]]]]; simpl; rewrite Hr; simpl; try done. by rewrite Hcd. }
  destruct Hb as [Hub Hnb]. simpl in Hub, Hnb.
  assert (Hnd : status x <> THREAD_DYING) by (intros E; destruct Hn as [[? _]|[_ [?|[? _]]]]; congruence).
  pose proof (k_ready_nodup Hk) as Hrn. pose proof (ready_iff st next x Hk Hx) as Hri.
  apply (kinv_update st st' next (Some x) (with_status THREAD_RUNNING x) Hk Hx).
  split; rewrite ?Ea, ?Eq, ?Esm; simpl; try done.
  - intros u Hu. split; congruence.
  - right. by rewrite Ec.
  - destruct Er as [E|(_ & _ & ->)]; [rewrite E in Hrn; apply list.NoDup_cons in Hrn; tauto|by apply list.NoDup_nil].
  - intros u. destruct Er as [E|(_ & E & ->)]; rewrite E; [|set_solver +].
    rewrite E in Hrn. apply list.NoDup_cons in Hrn as [Hni _]. rewrite elem_of_cons. clear - Hni. naive_solver.
  - apply (k_wait_nodup Hk).
  - intros s. apply unchanged. rewrite (wait_iff st next x Hk Hx). split; [by intros ?%Hns|by intros [? _]].
  - apply (k_all_nodup Hk).
  - apply unchanged. rewrite (all_iff st next x Hk Hx). naive_solver.
  - auto.
  - intros E. destruct (k_idle Hk) as (ci & Hci & Hok & _). rewrite <- E in Hci.
    assert (ci = x) as -> by congruence. done.
  - by apply (k_code Hk).
  - rewrite decide_True, Ef by done. apply (k_level Hk next x Hx).
  - intros l. by apply (k_lock_ok Hk).
  - intros l. by apply (k_tok_ok Hk next).
  - by apply (k_free_ok Hk next).
  - by apply (k_wait_ok Hk next).
  - intros Hf. by destruct (k_free Hk next x Hx Hf).
  - intros u y _ Hy Hsy. left. by eapply Hd.
  - intros s Hw. rewrite (pending_awake s x), (pending_awake s (with_status _ x)) by (auto using not_sleeping; by intros [? _]).
    pose proof (k_wake Hk s Hw). simpl. lia.
  - intros u. rewrite Hub. lia.
  - intros u. rewrite Hnb. lia.
  - intros p. rewrite (b2z_true (is_Some _)) by eauto. lia.
  - apply (k_slack Hk).
Qed.
End Dispatch.

(** ** [schedule] *)

Definition next_thread (st : kstate) : Z := hd (idle_thread st) (ready_list st).
#[global] Arguments next_thread : simpl never.

(** What [schedule] leaves: the next thread runs. *)
Definition scheduled (st st' : kstate) : Prop :=
  running st' /\ current st' = next_thread st /\ ready_list st' = tail (ready_list st).

Lemma next_thread_to_run_eq st : next_thread_to_run st = (next_thread st, set_ready_list st (tail (ready_list st))).
Proof. unfold next_thread_to_run, next_thread. destruct (ready_list st) eqn:E; [|done]. destruct st. simpl in *. by rewrite E. Qed.

(** The running thread, on its way out of [schedule], is given the page [p] to free. *)
Lemma push_free st x p : kinv_upto (reap_slack p) (Some (current st)) st -> threads st !! current st = Some x ->
  ~ freeing (code x) -> intr_get_level st = INTR_OFF -> value (sema st (SemOf PoolLock)) = 1 ->
  running (push_code (free_code p) st).
Proof.
  intros Hk Hx Hnf Hoff Hv. pose proof (running_current st x Hk Hx) as Hr.
  destruct (up_free _ st Hk PoolLock) as (_ & Hh & Ht); [lia|].
  assert (Hn : current st <> NULL) by (intros E; rewrite E, (null_no_thread _ _ Hk) in Hx; done).
  assert (Hf : freeing (free_code p ++ code x)) by (eexists _, _; by left).
  assert (Hf' : freeing (tail (free_code p ++ code x))) by (eexists _, _; by right).
  pose proof (k_level Hk _ _ Hx) as Hl. rewrite decide_True, Hoff in Hl by done.
  apply (kinv_local st x _ (with_code (free_code p ++ code x) x) Hk Hx). split; simpl in *; try done.
  - by rewrite (alter_some _ _ _ _ Hx).
  - repeat split. apply (k_ext Hk).
  - apply (k_value Hk).
  - apply (k_cond Hk).
  - auto.
  - intros Hne. repeat (apply list.Forall_cons; split; [done|]). by apply (k_code Hk).
  - intros E. destruct (k_idle Hk) as (ci & Hci & Hok & _). rewrite <- E in Hci. by simplify_eq.
  - unfold intr_get_level in *. simpl. by rewrite Hoff.
  - intros l. pose proof (k_lock_ok Hk _ _ l Hx) as Hlo. repeat case_decide; subst; try done.
    rewrite bool_decide_false in * by congruence. done.
  - intros l. pose proof (tok_nonneg _ st Hk l _ _ Hx). pose proof (k_tok_ok Hk _ _ l Hx).
    repeat case_decide; repeat split; try done; lia.
  - pose proof (k_free_ok Hk _ _ Hx). repeat split; try done; not_freeing.
  - pose proof (k_wait_ok Hk _ _ Hx). simpl in *. repeat split; try done. by left.
  - intros l. repeat case_decide; lia.
  - intros s _. left. lia.
  - intros q. unfold b2z. repeat case_decide; simplify_eq; lia.
Qed.

Section Schedule.
Context (st : kstate) (c : tcb).
Context (Hk : kinv None st) (Hc : threads st !! current st = Some c) (Hoff : intr_get_level st = INTR_OFF).
Lemma next_is_thread : exists x, threads st !! next_thread st = Some x /\ status x <> THREAD_DYING.
Proof.
  unfold next_thread. destruct (ready_list st) as [|t r] eqn:E; simpl.
  - destruct (k_idle Hk) as (x & Hx & _ & _ & Hd). eauto.
  - destruct (proj1 (k_ready Hk t)) as (_ & x & Hx & Hs); [rewrite E; set_solver +|]. exists x. split; [done|congruence].
Qed.

Lemma next_cases : ready_list st = next_thread st :: tail (ready_list st) \/
  (next_thread st = idle_thread st /\ ready_list st = [] /\ tail (ready_list st) = []).
Proof. unfold next_thread. destruct (ready_list st); simpl; auto. Qed.

(** The state after the switch, before the page of a dead thread is freed. *)
Definition switched : kstate :=
  reset_thread_ticks (set_status (set_current (set_ready_list st (tail (ready_list st))) (next_thread st))
    (next_thread st) THREAD_RUNNING).

Lemma dispatched_switched x : threads st !! next_thread st = Some x ->
  (status c = THREAD_DYING -> current st = initial_thread st) ->
  dispatched st (next_thread st) x switched.
Proof.
  intros Hx Hd. split; simpl; try done.
  - by apply alter_some.
  - apply next_cases.
  - repeat split. apply (k_ext Hk).
  - intros u y Hy Hs. destruct (k_dying Hk u y Hy Hs) as [_ [?|[_ ->]]]; [done|]. apply Hd. congruence.
Qed.

(** [schedule] gives the CPU to the next thread, which first frees the page of the thread
    that left if that one died. *)
Lemma schedule_eq : schedule st =
  Ok (if decide (status c = THREAD_DYING /\ current st <> initial_thread st)
      then palloc_free_page (current st) switched else switched).
Proof.
  destruct next_is_thread as (x & Hx & Hxd).
  assert (Hnr : status c <> THREAD_RUNNING).
  { intros Hr. assert (None = Some (current st)) by (apply (k_run Hk); eauto). done. }
  unfold schedule. rewrite next_thread_to_run_eq. unfold intr_get_level in *. simpl. rewrite Hoff. simpl.
  unfold get_thread, is_thread. simpl. rewrite Hc, Hx. simpl.
  rewrite (bool_decide_true (status c <> _)) by done. simpl.
  destruct (Z.eqb_spec (current st) (next_thread st)) as [E|Hne]; simpl; unfold thread_schedule_tail, intr_get_level.
  - simpl. rewrite Hoff. simpl. rewrite decide_False by (intros [? _]; congruence).
    unfold switched. rewrite <- E. by destruct st.
  - simpl. rewrite Hoff. fold switched. simpl.
    rewrite (proj2 (Z.eqb_neq (current st) NULL)) by (intros E; rewrite E, (null_no_thread _ _ Hk) in Hc; done).
    unfold get_thread. simpl. rewrite lookup_alter_ne, Hc by done. simpl.
    destruct (bool_decide_reflect (status c = THREAD_DYING)) as [Hd|Hnd]; simpl; [|by rewrite decide_False by tauto].
    destruct (Z.eqb_spec (current st) (initial_thread st)) as [Ei|Hi]; simpl; [by rewrite decide_False by tauto|].
    rewrite (proj2 (Z.eqb_neq (current st) (next_thread st))) by done. by rewrite decide_True.
Qed.

Context (Hquiet : status c = THREAD_DYING -> (forall l, holder st l <> current st) /\
  (current st <> initial_thread st -> value (sema st (SemOf PoolLock)) = 1)).

(** The page of the dead thread is about to be freed by the next one. *)
Lemma free_dead x : threads st !! next_thread st = Some x -> status x <> THREAD_DYING ->
  status c = THREAD_DYING -> current st <> initial_thread st ->
  running (palloc_free_page (current st) switched).
Proof.
  intros Hx Hxd Hd Hi. destruct (Hquiet Hd) as [Hh Hv]. specialize (Hv Hi).
  assert (Hne : next_thread st <> current st) by congruence.
  pose proof (kinv_reap st c Hk Hc Hd Hi Hh) as Hk1.
  set (st2 := set_threads switched (delete (current st) (threads switched))).
  assert (Hx1 : threads (reaped st) !! next_thread st = Some x) by (simpl; by rewrite lookup_delete_ne).
  assert (Hk2 : kinv_upto (reap_slack (current st)) (Some (current st2)) st2).
  { apply (kinv_dispatch (reaped st) (next_thread st) x st2 Hk1 Hx1). split; simpl; try done.
    - rewrite (alter_some _ _ _ _ Hx), delete_insert_ne by done. done.
    - apply next_cases.
    - repeat split. apply (k_ext Hk).
    - intros u y [Hu Hy]%lookup_delete_Some Hs. destruct (k_dying Hk u y Hy Hs) as [_ [?|[_ ->]]]; done. }
  apply (push_free st2 (with_status THREAD_RUNNING x)); try done.
  - simpl. rewrite lookup_delete_ne, lookup_alter_eq, Hx by done. done.
  - intros Hf. by destruct (k_free Hk _ _ Hx Hf).
Qed.

Lemma schedule_spec : returns (schedule st) (scheduled st).
Proof.
  destruct next_is_thread as (x & Hx & Hxd). rewrite schedule_eq. split; [|by case_decide].
  case_decide as Hd; [destruct Hd; by eapply free_dead|].
  apply (kinv_dispatch st (next_thread st) x switched Hk Hx), dispatched_switched; [done|].
  intros E. destruct (decide (current st = initial_thread st)); tauto.
Qed.
End Schedule.

(** ** Points at which the running thread leaves the CPU *)

(** After the running thread left, [schedule] runs. *)
Lemma leave_schedule st c st' c' : running st -> threads st !! current st = Some c -> leaves st c st' c' ->
  intr_get_level st' = INTR_OFF ->
  (status c' = THREAD_DYING -> (forall l, holder st l <> current st) /\
    (current st <> initial_thread st -> value (sema st (SemOf PoolLock)) = 1)) ->
  returns (schedule st') (scheduled st').
Proof.
  intros Hk Hc Hl Hoff Hq. destruct (lv_same _ _ _ _ Hl) as (_ & _ & En & Eh & _).
  apply (schedule_spec st' c'); [by eapply kinv_leave| |done|].
  - by rewrite (lv_current _ _ _ _ Hl), (lv_threads _ _ _ _ Hl), lookup_insert_eq.
  - rewrite Eh, En, (lv_current _ _ _ _ Hl), (lv_value _ _ _ _ Hl). done.
Qed.

Lemma leave_running st c st' c' : running st -> threads st !! current st = Some c -> leaves st c st' c' ->
  intr_get_level st' = INTR_OFF ->
  (status c' = THREAD_DYING -> (forall l, holder st l <> current st) /\
    (current st <> initial_thread st -> value (sema st (SemOf PoolLock)) = 1)) ->
  returns (schedule st') running.
Proof. intros. eapply returns_mono; [by eapply leave_schedule|]. by intros ? [? _]. Qed.

(** The ready list after the running thread yielded. *)
Definition requeued (st : kstate) : list Z :=
  ready_list st ++ (if decide (current st <> idle_thread st) then [current st] else []).

Definition yielded (st : kstate) : kstate :=
  push_code [Intr_set (intr_get_level st)]
    (set_status (set_ready_list (intr_disable st) (requeued st)) (current st) THREAD_READY).

Lemma thread_yield_eq st c : running st -> threads st !! current st = Some c ->
  thread_yield st = schedule (yielded st).
Proof.
  intros Hk Hc. unfold thread_yield. rewrite (thread_current_eq st c Hc) by by eapply running_current.
  simpl. rewrite (k_ext Hk). simpl. unfold yielded, requeued. f_equal. f_equal. unfold set_status.
  destruct (Z.eqb_spec (current st) (idle_thread st)) as [E|Hne]; simpl.
  - rewrite decide_False by auto. rewrite app_nil_r. by destruct st.
  - by rewrite decide_True.
Qed.

Lemma thread_yield_spec st c : running st -> threads st !! current st = Some c -> ~ freeing (code c) ->
  returns (thread_yield st) (fun st' => running st' /\ current st' = hd (idle_thread st) (requeued st) /\
    ready_list st' = tail (requeued st)).
Proof.
  intros Hk Hc Hnf. rewrite (thread_yield_eq st c Hk Hc).
  apply (leave_schedule st c (yielded st) (with_status THREAD_READY (with_code (Intr_set (intr_get_level st) :: code c) c)) Hk Hc); [|done|done].
  pose proof (k_level Hk _ _ Hc) as Hl. rewrite decide_True in Hl by done.
  split; simpl; try done.
  - by rewrite (alter_some _ _ _ _ Hc), alter_insert_id.
  - repeat split. apply (k_ext Hk).
  - unfold requeued. f_equal. destruct (decide (current st <> idle_thread st)) as [Hne|Hne];
      [rewrite decide_True|rewrite decide_False]; tauto.
  - intros s. by rewrite app_nil_r.
  - intros E. destruct (k_idle Hk) as (ci & Hci & Hok & _). rewrite <- E in Hci. by simplify_eq.
  - intros Hne. apply list.Forall_cons. split; [done|]. by apply (k_code Hk).
  - auto.
  - intros l. by apply (k_lock_ok Hk).
  - intros l. split; [|by apply (k_tok_ok Hk (current st))]. pose proof (tok_nonneg _ st Hk l _ _ Hc). lia.
  - split; [done|by apply (k_free_ok Hk (current st))].
  - split; [done|by apply (k_wait_ok Hk (current st))].
  - not_freeing.
Qed.

Section LeaveSteps.
Context {PC : PageChoice}.

Lemma step_yield st c k : at_point st c Yield k -> returns (exec Yield (popped st k)) running.
Proof.
  intros H. facts H. assert (Hc1 : threads (popped st k) !! current st = Some (with_code k c)).
  { by rewrite (popped_threads st c k Hc), lookup_insert_eq. }
  assert (Hk1 : running (popped st k)) by (apply (kinv_local st c _ (with_code k c) Hk Hc); finish_local).
  eapply returns_mono; [apply (thread_yield_spec _ _ Hk1 Hc1); free_imp Hfree|]. by intros st' [? _].
Qed.

Lemma thread_block_eq st c : threads st !! current st = Some c -> status c = THREAD_RUNNING ->
  intr_context st = false -> intr_get_level st = INTR_OFF ->
  thread_block st = schedule (set_status st (current st) THREAD_BLOCKED).
Proof.
  intros Hc Hs Hx Hoff. unfold thread_block. rewrite Hx, Hoff. simpl. by rewrite (thread_current_eq st c).
Qed.

(** The running thread waits for [s]: it was at the call of [sema_down] or at the head
    of its loop. *)
Definition waiting_point (st : kstate) (s : sem_id) (old : bool) (i : instr) : Prop :=
  (i = Sema_down s /\ old = intr_get_level st) \/ i = Sema_wait s old.

Lemma waiting_not_idle st c i s old k : at_point st c i k -> waiting_point st s old i -> value (sema st s) = 0 ->
  current st <> idle_thread st.
Proof.
  intros H Hi Hv E. pose proof (ap_idle _ _ _ _ H E) as Hok. destruct Hi as [[-> _]| ->]; simpl in Hok; [|done].
  destruct Hok as [Hf _]. destruct (ap_free _ _ _ _ H Hf) as [_ Hv'].
  destruct Hf as (p & k' & [Hf|Hf]); simplify_eq/=. lia.
Qed.

Lemma leaves_waiting st c i s old k st' : at_point st c i k -> waiting_point st s old i -> value (sema st s) = 0 ->
  threads st' = <[current st := with_status THREAD_BLOCKED (with_code (Sema_wait s old :: k) c)]> (threads st) ->
  sema st' = <[s := mk_semaphore 0 (waiters (sema st s) ++ [current st])]> (sema st) ->
  ready_list st' = ready_list st /\ all_list st' = all_list st /\ current st' = current st /\
    all_push st' = all_push st ->
  intr_context st' = false /\ idle_thread st' = idle_thread st /\
    initial_thread st' = initial_thread st /\ holder st' = holder st /\ cond st' = cond st /\
    free_pages st' = free_pages st /\ pool_pages st' = pool_pages st ->
  leaves st c st' (with_status THREAD_BLOCKED (with_code (Sema_wait s old :: k) c)).
Proof.
  intros H Hi Hv Et Es (Er & Ea & Ec & Eq) Hsame. facts H.
  pose proof (waiting_not_idle _ _ _ _ _ _ H Hi Hv) as Hni. specialize (Hinstr Hni).
  assert (Hsl : forall s', sleeping s' (with_status THREAD_BLOCKED (with_code (Sema_wait s old :: k) c)) <-> s' = s).
  { intros s'. split; [intros [_ (? & ? & ?)]; naive_solver|intros ->; split; eauto]. }
  split; try done; rewrite ?Es, ?Er, ?Ea, ?Ecode.
  - rewrite decide_False by naive_solver. by rewrite app_nil_r.
  - intros s'. destruct (decide (s' = s)) as [->|Hne].
    + rewrite fn_lookup_insert, decide_True by by apply Hsl. done.
    + rewrite fn_lookup_insert_ne, decide_False by naive_solver. by rewrite app_nil_r.
  - intros s'. fn_upd s s'; [|done]. by rewrite Hv.
  - intros _. apply list.Forall_cons. split; [|tauto]. destruct Hi as [[-> _]| ->]; simpl; tauto.
  - simpl. split; [done|]. destruct Hi as [[-> ->]| ->]; simpl in Hlevel; tauto.
  - by right.
  - intros l. specialize (Hlock l). destruct Hi as [[-> _]| ->]; simpl in *; tauto.
  - intros l. specialize (Htok l). destruct Hi as [[-> _]| ->]; simpl in *; tauto.
  - simpl. destruct Hi as [[-> _]| ->]; (split; [|tauto]); intros Hf; pose proof (proj1 Hfree Hf) as Hf';
      destruct Hf as (? & ? & [-> | ->]), Hf' as (? & ? & [?|?]); simplify_eq.
  - simpl. destruct Hi as [[-> _]| ->]; [|done]. destruct Hwaitok as [[Hf|?] ?]; [|done].
    destruct (ap_free _ _ _ _ H Hf) as [_ Hv']. destruct Hf as (? & ? & [?|?]); simplify_eq. lia.
  - not_freeing.
  - intros l. destruct Hi as [[-> _]| ->]; done.
  - intros s'. destruct (decide (s' = s)) as [->|Hne].
    + rewrite decide_True by by apply Hsl. done.
    + rewrite decide_False by naive_solver. simpl. rewrite decide_False by done. destruct Hi as [[-> _]| ->]; simpl; [done|].
      by rewrite decide_False.
  - intros u. destruct Hi as [[-> _]| ->]; simpl; lia.
Qed.

Lemma wait_spec st c i s old k : at_point st c i k -> waiting_point st s old i -> value (sema st s) = 0 ->
  returns (sema_wait s old (intr_disable (popped st k))) running.
Proof.
  intros H Hi Hv. facts H. unfold sema_wait. change (sema (intr_disable (popped st k))) with (sema st). rewrite Hv.
  simpl. change (thread_current (intr_disable (popped st k))) with (thread_current (popped st k)).
  rewrite (popped_current st c k) by done. simpl.
  rewrite (thread_block_eq _ (with_code (Sema_wait s old :: k) c)); [|simpl; by rewrite (alter_some _ _ _ _ Hc), alter_insert_id, lookup_insert_eq|done|done|done].
  eapply (leave_running st c _ _ Hk Hc).
  - apply (leaves_waiting st c i s old k); try done.
    simpl. by rewrite (alter_some _ _ _ _ Hc), !alter_insert_id.
  - done.
  - done.
Qed.

Lemma intr_disable_off st : intr_get_level st = INTR_OFF -> intr_disable st = st.
Proof.
  destruct st as [? ? ? ? ? ? ? [f e y] ? ? ? ? ? ?]. unfold intr_get_level, intr_disable, write_flag, set_intr. simpl.
  by intros ->.
Qed.

Lemma step_sema_wait st c s old k : at_point st c (Sema_wait s old) k ->
  returns (exec (Sema_wait s old) (popped st k)) running.
Proof.
  intros H. destruct (decide (value (sema st s) = 0)) as [Hv|Hv]; [|by apply (step_sema_wait_ok st c)].
  pose proof (ap_level _ _ _ _ H) as [Hl _]. simpl.
  rewrite <- (intr_disable_off (popped st k)) by done. apply (wait_spec st c (Sema_wait s old)); [done|by right|done].
Qed.

Lemma step_sema_down st c s k : at_point st c (Sema_down s) k ->
  returns (exec (Sema_down s) (popped st k)) running.
Proof.
  intros H. destruct (decide (value (sema st s) = 0)) as [Hv|Hv]; [|by apply (step_sema_down_ok st c)].
  simpl. unfold sema_down. change (intr_context (popped st k)) with (intr_context st).
  rewrite (ap_ext _ _ _ _ H). simpl. apply (wait_spec st c (Sema_down s)); [done|by left|done].
Qed.

Lemma step_idle_loop st c k : at_point st c Idle_loop k -> returns (exec Idle_loop (popped st k)) running.
Proof.
  intros H. facts H. destruct (decide (current st = idle_thread st)) as [Ei|Hne]; [|by destruct (Hinstr Hne)].
  specialize (Hidle Ei). destruct k; [|done]. simpl. unfold idle_loop.
  rewrite (thread_block_eq _ (with_code [Idle_wake] c)); [|simpl; by rewrite (alter_some _ _ _ _ Hc), alter_insert_id, lookup_insert_eq|done|done|done].
  apply (leave_running st c _ (with_status THREAD_BLOCKED (with_code [Idle_wake] c)) Hk Hc); [|done|done].
  split; simpl; try done; rewrite ?Ecode; simpl; try done.
  - by rewrite (alter_some _ _ _ _ Hc), !alter_insert_id.
  - rewrite decide_False by (by intros [_ ?]). by rewrite app_nil_r.
  - intros s. by rewrite app_nil_r.
  - auto.
  - split; [not_freeing|done].
  - not_freeing.
Qed.

(** The running thread is in [all_list]. *)
Lemma exit_listed st c : running st -> threads st !! current st = Some c -> current st ∈ all_list st.
Proof.
  intros Hk Hc. pose proof (running_current st c Hk Hc) as Hr. apply (all_iff st _ c Hk Hc).
  split; [|congruence]. intros E. destruct (pushed_unborn _ st Hk) as (x & Hx & Hb & _).
  - rewrite <- E. intros En. rewrite En, (null_no_thread _ _ Hk) in Hc. done.
  - rewrite <- E in Hx. congruence.
Qed.

Lemma remove_all_eq st t : all_push st = NULL \/ list.last (all_list st) <> Some t -> t ∈ all_list st ->
  remove_all t st = Ok (filter (fun u => u <> t) (all_list st)).
Proof.
  intros Hr Ht. unfold remove_all, remove_elem. rewrite (bool_decide_true (t ∈ _)) by done.
  destruct Hr as [->|Hl]; [done|]. rewrite (bool_decide_false (list.last _ = _)) by done. by rewrite andb_false_r.
Qed.

(** The state in which [thread_exit] calls [schedule]. *)
Definition dead (st : kstate) : kstate :=
  set_status (set_all_list (intr_disable (popped st [])) (filter (fun u => u <> current st) (all_list st)))
    (current st) THREAD_DYING.

Lemma leaves_exit st c k : at_point st c Exit k -> k = [] /\
  leaves st c (dead st) (with_status THREAD_DYING (with_code [] c)).
Proof.
  intros H. facts H. subst k. split; [done|]. split; simpl; try done; rewrite ?Ecode; simpl; try done.
  - by rewrite (alter_some _ _ _ _ Hc), !alter_insert_id.
  - rewrite decide_False by (by intros [_ ?]). by rewrite app_nil_r.
  - intros s. by rewrite app_nil_r.
  - auto.
  - not_freeing.
Qed.

Lemma exit_eq st c k : at_point st c Exit k ->
  (all_push st = NULL \/ list.last (all_list st) <> Some (current st)) ->
  exec Exit (popped st k) = schedule (dead st).
Proof.
  intros H Hr. pose proof (proj1 (leaves_exit st c k H)) as ->. facts H. simpl. unfold thread_exit.
  change (intr_context (popped st [])) with (intr_context st). rewrite Hext. simpl.
  change (thread_current (intr_disable (popped st []))) with (thread_current (popped st [])).
  rewrite (popped_current st c []) by done. simpl.
  by rewrite (remove_all_eq (intr_disable (popped st []))); [|done|exact (exit_listed st c Hk Hc)].
Qed.

Lemma step_exit st c k : at_point st c Exit k ->
  (current st <> initial_thread st -> value (sema st (SemOf PoolLock)) = 1) ->
  (all_push st = NULL \/ list.last (all_list st) <> Some (current st)) ->
  returns (exec Exit (popped st k)) running.
Proof.
  intros H Hq Hr. rewrite (exit_eq st c k H Hr). destruct (leaves_exit st c k H) as [-> Hl]. facts H.
  apply (leave_running st c _ _ Hk Hc Hl); [done|].
  intros _. split; [|done]. intros l. specialize (Hlock l). by apply bool_decide_eq_false in Hlock.
Qed.
End LeaveSteps.
