(* ===== verification/KernelSafe.v ===== *)
(** * Safety of the kernel machine

    The machine's step relation: the running thread executes the next point of its code,
    calls a kernel function, or is interrupted.  From the boot of the kernel on, every
    state satisfies the invariant, no step fails an assertion, and the properties of
    threads, semaphores and locks follow. *)

From stdpp Require Import base list gmap numbers functions relations.
From Stdlib Require Import ZArith Lia.
From S2P Require Import Prelude CString Kernel KernelInv KernelStep KernelSched KernelSwitch.

Local Open Scope Z_scope.

(** ** The running thread *)

Section Safe.
Context {PC : PageChoice}.

#[local] Hint Resolve step_intr_set step_iret step_kernel_thread step_set_priority step_idle_wake
  step_sleep_start step_sleep_loop step_lock_check step_lock_take step_lock_drop step_sema_try_down
  step_lock_try step_cond_enqueue step_cond_signal step_cond_broadcast step_create_page step_create_tid
  step_pool_free step_sema_up step_unblock step_create_frames step_create_link step_yield
  step_sema_wait step_sema_down step_idle_loop : core.

(** The running thread has a next point to execute: it is not in its own function, and
    not halted. *)
Definition has_point (st : kstate) : Prop :=
  exists c i k, threads st !! current st = Some c /\ code c = i :: k /\ i <> Halt.

Definition next_point (st : kstate) : option instr := c ← threads st !! current st; head (code c).

(** Two threads are about to collide at the end of [all_list]: one was interrupted in the
    middle of its push, and the running thread begins another push or removes the last
    element. *)
Definition race (st : kstate) : Prop :=
  all_push st <> NULL /\
  match next_point st with
  | Some (Create_init _ _ _) => True
  | Some Exit => list.last (all_list st) = Some (current st)
  | _ => False
  end.

(** The running thread is about to exit while some thread is inside the lock of the page
    pool: the thread that runs next will need that lock, with interrupts off, to free the
    page of the dead one. *)
Definition exit_busy (st : kstate) : Prop :=
  next_point st = Some Exit /\ current st <> initial_thread st /\ value (sema st (SemOf PoolLock)) <> 1.

#[export] Instance race_dec st : Decision (race st).
Proof. unfold race. destruct (next_point st) as [[]|]; apply _. Defined.

#[export] Instance exit_busy_dec st : Decision (exit_busy st).
Proof.
  unfold exit_busy. destruct (next_point st) as [[]|]; try (by right; intros [? _]).
  destruct (decide (current st <> initial_thread st /\ value (sema st (SemOf PoolLock)) <> 1)); [left|right]; tauto.
Defined.

Lemma at_next_point st c i k : at_point st c i k -> next_point st = Some i.
Proof. intros [_ Hc E]. unfold next_point. rewrite Hc. simpl. by rewrite E. Qed.

Lemma exec_running st c i k : at_point st c i k -> i <> Halt -> ~ race st -> ~ exit_busy st ->
  returns (exec i (popped st k)) running.
Proof.
  intros H Hh Hr Hq. pose proof (at_next_point st c i k H) as En. unfold race, exit_busy in *. rewrite En in *.
  destruct i; eauto; [| |exfalso|done].
  - apply (step_exit st c); [done| |].
    + intros Hi. destruct (decide (value (sema st (SemOf PoolLock)) = 1)); [done|]. by destruct Hq.
    + destruct (decide (all_push st = NULL)); [auto|]. right. tauto.
  - apply (step_create_init st c); [done|]. destruct (decide (all_push st = NULL)); tauto.
  - destruct (decide (current st = idle_thread st)) as [E|Hne].
    + apply (ap_idle _ _ _ _ H E).
    + apply (ap_instr _ _ _ _ H Hne).
Qed.

Lemma run_point st c i k : threads st !! current st = Some c -> code c = i :: k ->
  run st = exec i (popped st k).
Proof. intros Hc E. unfold run, get_thread. rewrite Hc. simpl. by rewrite E. Qed.

Lemma run_running st : running st -> has_point st -> ~ race st -> ~ exit_busy st -> returns (run st) running.
Proof.
  intros Hk (c & i & k & Hc & E & Hh) Hr Hq. rewrite (run_point st c i k) by done. by apply (exec_running st c).
Qed.

(** The machine stops at a race: every assertion before it passes. *)
Lemma run_race st : running st -> race st -> run st = Err DataRace.
Proof.
  intros Hk [Hp Hr]. unfold next_point in Hr. destruct (threads st !! current st) as [c|] eqn:Hc; [|done].
  destruct (code c) as [|i k] eqn:E; simpl in Hr; rewrite E in Hr; simpl in Hr; [done|].
  rewrite (run_point st c i k) by done. assert (H : at_point st c i k) by done. facts H. destruct i; try done.
  - simpl. unfold thread_exit. change (intr_context (popped st k)) with (intr_context st). rewrite Hext. simpl.
    change (thread_current (intr_disable (popped st k))) with (thread_current (popped st k)).
    rewrite (popped_current st c k) by done. simpl. unfold remove_all.
    change (all_push (intr_disable (popped st k))) with (all_push st).
    change (all_list (intr_disable (popped st k))) with (all_list st).
    by rewrite (proj2 (Z.eqb_neq _ _) Hp), bool_decide_true.
  - destruct (page_in_hand _ _ _ _ t H) as (_ & _ & Hn); [simpl; by rewrite decide_True|].
    destruct (Hinstr Hidle) as [[Hpri _] _]. simpl. unfold create_init, init_thread, push_begin.
    rewrite (proj2 (Z.eqb_neq t NULL)) by done. simpl.
    rewrite (proj2 (Z.leb_le _ _) (proj1 Hpri)), (proj2 (Z.leb_le _ _) (proj2 Hpri)). simpl.
    by rewrite (proj2 (Z.eqb_neq _ _) Hp).
Qed.

(** ** Calls *)

(** What the callers of the kernel's functions have to observe; the functions assert
    it. *)
Definition allowed (st : kstate) (a : call) : Prop :=
  match a with
  | Call_lock_acquire n | Call_lock_try_acquire n => holder st (UserLock n) <> current st
  | Call_lock_release n | Call_cond_wait _ n | Call_cond_signal _ n | Call_cond_broadcast _ n =>
      holder st (UserLock n) = current st
  | Call_thread_exit => forall n, holder st (UserLock n) <> current st
  | Call_thread_create pri => PRI_MIN <= pri <= PRI_MAX
  | Call_timer_sleep _ => intr_get_level st = INTR_ON
  | _ => True
  end.

Lemma call_running st c a : running st -> threads st !! current st = Some c -> code c = [] -> allowed st a ->
  running (push_code (call_code (current st) a) st).
Proof.
  intros Hk Hc Ec Ha. pose proof (running_current st c Hk Hc) as Hr.
  assert (Hni : current st <> idle_thread st).
  { intros E. destruct (k_idle Hk) as (ci & Hci & Hok & _). rewrite <- E in Hci. simplify_eq. by rewrite Ec in Hok. }
  assert (Hil : forall l, internal l = true -> bool_decide (holder st l = current st) = false).
  { intros l. pose proof (k_lock_ok Hk _ _ l Hc) as Hl. by rewrite Ec in Hl. }
  apply (kinv_local st c _ (with_code (call_code (current st) a) c) Hk Hc).
  split; rewrite ?Ec; try done.
  - simpl. rewrite (alter_some _ _ _ _ Hc), Ec. by rewrite app_nil_r.
  - repeat split; try done. apply (k_ext Hk).
  - apply (k_value Hk).
  - apply (k_cond Hk).
  - auto.
  - intros _. destruct a; simpl; repeat (apply list.Forall_cons; split; [simpl; eauto|]); by apply list.Forall_nil.
  - destruct a; simpl; try done.
  - intros l. specialize (Hil l). change (holder (push_code _ st)) with (holder st).
    destruct (bool_decide_reflect (holder st l = current st)) as [Eh|Eh];
      destruct a, l; simpl in *; repeat case_decide; simplify_eq; simpl; naive_solver.
  - intros l. destruct a; simpl; repeat case_decide; repeat split; lia.
  - destruct a; simpl; repeat split; try done; not_freeing.
  - destruct a; simpl; auto 10.
  - destruct a; not_freeing.
  - intros l. destruct a; simpl; repeat case_decide; lia.
  - intros s _. left. destruct a; simpl; lia.
  - intros t. by destruct a.
  - intros t. by destruct a.
  - intros p. by destruct a.
  - intros t. by destruct a.
Qed.

(** ** Interrupts *)

(** Device drivers wake threads through semaphores of their own. *)
Definition handler_ok (h : handler) : Prop :=
  match h with Timer_interrupt => True | Device_interrupt s => exists n, s = SemUser n end.

(** The state a handler starts from, and what it returns to [intr_handler]: [Iret] is
    pushed, interrupts are off. *)
Definition interrupted (k : list instr) (st : kstate) : kstate :=
  push_code k (intr_disable (upd_thread st (current st) leave_halt)).

Lemma interrupted_threads st c k : threads st !! current st = Some c ->
  threads (interrupted k st) = <[current st := with_code (k ++ code (leave_halt c)) (leave_halt c)]> (threads st).
Proof. intros Hc. simpl. by rewrite (alter_some _ _ _ _ Hc), alter_insert_id. Qed.

Lemma leave_halt_status c : status (leave_halt c) = status c.
Proof. unfold leave_halt. by destruct (code c) as [|[] k]. Qed.

(** Only the idle thread halts. *)
Lemma leave_halt_code st c : running st -> threads st !! current st = Some c ->
  leave_halt c = c \/
  (code c = [Halt; Idle_loop] /\ code (leave_halt c) = [Idle_loop] /\ current st = idle_thread st).
Proof.
  intros Hk Hc. unfold leave_halt. destruct (code c) as [|i k] eqn:E; [by left|].
  assert (i = Halt \/ i <> Halt) as [->|Hne] by (destruct i; auto); [|left; by destruct i].
  right. destruct (decide (current st = idle_thread st)) as [Ei|Hni].
  - destruct (k_idle Hk) as (ci & Hci & Hok & _). rewrite <- Ei in Hci. simplify_eq. rewrite E in Hok.
    simpl in Hok. by destruct k as [|[] [|]].
  - pose proof (k_code Hk _ _ Hc Hni) as Hok. rewrite E in Hok. by apply list.Forall_cons in Hok as [[] _].
Qed.

(** Leaving [hlt] is a step of the running thread. *)
Lemma leave_halt_running st c : running st -> threads st !! current st = Some c ->
  running (upd_thread st (current st) leave_halt).
Proof.
  intros Hk Hc. pose proof (running_current st c Hk Hc) as Hr.
  destruct (leave_halt_code st c Hk Hc) as [E|(E & E' & Ei)].
  - replace (upd_thread _ _ _) with st; [done|]. destruct st. unfold upd_thread, set_threads. simpl in *. f_equal.
    rewrite (alter_some _ _ _ _ Hc). symmetry. apply insert_id. by rewrite Hc, E.
  - assert (Hp : at_point st c Halt [Idle_loop]) by done. facts Hp.
    apply (kinv_local st c _ (leave_halt c) Hk Hc). split; rewrite ?E, ?E', ?leave_halt_status; try done.
    + by apply alter_some.
    + auto.
    + split; [not_freeing|done].
    + not_freeing.
    + intros s _. left. done.
Qed.

(** The interrupted thread is about to execute [k], which may only wake threads, and then
    to return from the interrupt. *)
Lemma interrupted_running st c s' : running st -> threads st !! current st = Some c -> intr_get_level st = INTR_ON ->
  running (push_code (match s' with Some n => [Sema_up (SemUser n); Iret] | None => [Iret] end) (intr_disable st)).
Proof.
  intros Hk Hc Hon. pose proof (running_current st c Hk Hc) as Hr. set (k := match s' with Some _ => _ | None => _ end).
  pose proof (k_level Hk _ _ Hc) as Hl. rewrite decide_True, Hon in Hl by done.
  assert (Hnf : ~ freeing (code c)).
  { intros Hf. destruct (k_free Hk _ _ Hc Hf) as (_ & Hoff & _). by rewrite Hon in Hoff. }
  apply (kinv_local st c _ (with_code (k ++ code c) c) Hk Hc).
  split; try done.
  - simpl. by rewrite (alter_some _ _ _ _ Hc).
  - repeat split; try done. apply (k_ext Hk).
  - apply (k_value Hk).
  - apply (k_cond Hk).
  - auto.
  - intros Hne. pose proof (k_code Hk _ _ Hc Hne). destruct s'; repeat (apply list.Forall_cons; split; [done|]); done.
  - intros E. destruct (k_idle Hk) as (ci & Hci & Hok & _). rewrite <- E in Hci. simplify_eq. by destruct s'.
  - by destruct s'.
  - intros l. pose proof (k_lock_ok Hk _ _ l Hc). by destruct s'.
  - intros l. pose proof (k_tok_ok Hk _ _ l Hc). pose proof (tok_nonneg _ st Hk l _ _ Hc).
    destruct s'; simpl; repeat split; (done || lia).
  - pose proof (k_free_ok Hk _ _ Hc). destruct s'; simpl; repeat split; try done; not_freeing.
  - pose proof (k_wait_ok Hk _ _ Hc). by destruct s'.
  - destruct s'; not_freeing.
  - intros l. destruct s'; simpl; lia.
  - intros s _. left. destruct s'; simpl; lia.
  - intros t. by destruct s'.
  - intros t. by destruct s'.
  - intros p. by destruct s'.
  - intros t. by destruct s'.
Qed.

(** [kinv] does not depend on the flag that asks for a yield. *)
Lemma set_intr_running st v : running st -> intr_flag v = intr_get_level st -> in_external_intr v = false ->
  running (set_intr st v).
Proof.
  intros Hk Ef Ex. assert (El : intr_get_level (set_intr st v) = intr_get_level st) by done.
  split; rewrite ?El; try apply Hk. done.
Qed.

(** The handlers' effect, seen after the return to [intr_handler]. *)
Definition handled (h : handler) (st : kstate) : kstate :=
  match h with
  | Timer_interrupt => push_code [Iret] st
  | Device_interrupt s => raised s (push_code [Iret] st)
  end.

Lemma handled_running h st c : running st -> threads st !! current st = Some c -> intr_get_level st = INTR_ON ->
  handler_ok h -> running (handled h (intr_disable st)).
Proof.
  intros Hk Hc Hon Hh. destruct h as [|s]; simpl.
  - apply (interrupted_running st c None Hk Hc Hon).
  - destruct Hh as [n ->]. pose proof (interrupted_running st c (Some n) Hk Hc Hon) as Hk1.
    set (st1 := push_code _ _) in Hk1.
    assert (Et : threads st1 = <[current st := with_code ([Sema_up (SemUser n); Iret] ++ code c) c]> (threads st)).
    { simpl. by rewrite (alter_some _ _ _ _ Hc). }
    assert (Hp : at_point st1 (with_code ([Sema_up (SemUser n); Iret] ++ code c) c) (Sema_up (SemUser n)) (Iret :: code c)).
    { split; [done| |done]. change (current st1) with (current st). by rewrite Et, lookup_insert_eq. }
    replace (push_code [Iret] (intr_disable st)) with (popped st1 (Iret :: code c)); [by eapply raised_running|].
    unfold popped, push_code, upd_thread, st1, set_threads. simpl. f_equal.
    by rewrite !(alter_some _ _ _ _ Hc), alter_insert_id.
Qed.

Lemma handled_same h st : intr (handled h st) = intr st /\ current (handled h st) = current st.
Proof. destruct h as [|s]; [done|]. unfold handled, raised. by destruct (waiters (sema (push_code [Iret] st) s)). Qed.

Lemma handled_code h st c : running st -> threads st !! current st = Some c ->
  exists x, threads (handled h (intr_disable st)) !! current st = Some x /\ code x = Iret :: code c.
Proof.
  intros Hk Hc. destruct h as [|s]; simpl.
  - rewrite lookup_alter_eq, Hc. simpl. eauto.
  - unfold raised. change (sema (push_code [Iret] (intr_disable st))) with (sema st).
    destruct (waiters (sema st s)) as [|t r] eqn:Hw; simpl.
    + rewrite lookup_alter_eq, Hc. simpl. eauto.
    + destruct (first_waiter _ _ _ _ _ Hk Hw) as (x & _ & _ & _ & Hne).
      rewrite lookup_alter_ne, lookup_alter_eq, Hc by congruence. simpl. eauto.
Qed.

Lemma Ok_inj {A} (x y : A) : Ok x = Ok y -> x = y.
Proof. congruence. Qed.

Lemma set_stats_running st v : running st -> running (set_stats st v).
Proof. intros Hk. split; apply Hk. Qed.

(** What [run_handler] leaves, in a form in which the push of [Iret] can be moved before
    it. *)
Lemma run_handler_eq h st c : running st -> threads st !! current st = Some c -> handler_ok h ->
  exists y v, (st' ← run_handler h (set_intr (intr_disable st) (mk_cpu INTR_OFF true false));
               Ok (push_code [Iret] (set_intr st' (mk_cpu (intr_flag (intr st')) false (yield_on_return (intr st'))))))
    = Ok (set_intr (set_stats (handled h (intr_disable st)) v) (mk_cpu INTR_OFF false y)) /\
  returns (run_handler h (set_intr (intr_disable st) (mk_cpu INTR_OFF true false)))
    (fun st' => intr_get_level st' = INTR_OFF /\ intr_context st' = true).
Proof.
  intros Hk Hc Hh. destruct h as [|s].
  - unfold run_handler, thread_tick.
    rewrite (thread_current_eq _ c) by (done || by eapply running_current).
    cbn [mbind res_bind]. simpl. destruct (TIME_SLICE <=? _); simpl; eexists _, _; (split; [reflexivity|done]).
  - unfold run_handler. set (st1 := set_intr _ _).
    rewrite (sema_up_eq s st1); [|by right|].
    + cbn [mbind res_bind]. exists false, (stats st). split.
      * f_equal. unfold handled, raised. change (sema st1) with (sema st).
        change (sema (push_code [Iret] (intr_disable st))) with (sema st).
        destruct (waiters (sema st s)) as [|t r] eqn:Hw; [done|].
        destruct (first_waiter _ _ _ _ _ Hk Hw) as (x & Hx & _ & _ & Hne).
        unfold push_code, upd_thread, unblocked, set_status, set_threads, set_intr, set_stats. simpl. f_equal.
        apply alter_alter_ne. congruence.
      * unfold raised. by destruct (waiters (sema st1 s)).
    + intros t r Hw. destruct (first_waiter _ _ _ _ _ Hk Hw) as (x & Hx & [Hs _] & _). eauto.
Qed.

Lemma intr_handler_running h st : running st -> intr_get_level st = INTR_ON -> handler_ok h ->
  returns (intr_handler h st) running.
Proof.
  intros Hk Hon Hh. destruct (proj1 (k_run Hk (current st)) eq_refl) as (c0 & Hc0 & _).
  pose proof (leave_halt_running st c0 Hk Hc0) as Hk1. set (st1 := upd_thread _ _ _) in Hk1.
  destruct (proj1 (k_run Hk1 (current st1)) eq_refl) as (c & Hc & Hr).
  destruct (run_handler_eq h st1 c Hk1 Hc Hh) as (y & v & Heq & Hret).
  pose proof (handled_running h st1 c Hk1 Hc Hon Hh) as Hk2.
  unfold intr_handler. fold st1. simpl. replace (intr_context (intr_disable st1)) with false by (symmetry; apply (k_ext Hk)).
  simpl. destruct (run_handler h _) as [st'|] eqn:Er; [|done]. destruct Hret as [Hoff Hctx].
  cbn [mbind res_bind] in Heq |- *. rewrite Hoff, Hctx. cbn [negb ASSERT mbind res_bind].
  apply Ok_inj in Heq. rewrite Heq. set (st2 := set_stats _ v).
  assert (Hk3 : running (set_intr st2 (mk_cpu INTR_OFF false y))).
  { apply set_intr_running; [by apply set_stats_running| |done].
    unfold intr_get_level, st2. simpl. by rewrite (proj1 (handled_same h (intr_disable st1))). }
  destruct (handled_same h (intr_disable st1)) as [_ Ecur].
  destruct (handled_code h st1 c Hk1 Hc) as (x & Hx & Ex).
  simpl. destruct (yield_on_return (intr st')); [|exact Hk3]. eapply returns_mono; [apply (thread_yield_spec _ x Hk3)|by intros ? [? _]].
  - simpl. by rewrite Ecur.
  - rewrite Ex. not_freeing.
Qed.

(** ** The timer *)

(** The tick counters after a timer interrupt. *)
Definition ticked (st : kstate) : counters :=
  let s := stats st in
  mk_counters (next_tid s) (u32 (thread_ticks s + 1))
    (if current st =? idle_thread st then i64 (idle_ticks s + 1) else idle_ticks s)
    (if current st =? idle_thread st then kernel_ticks s else i64 (kernel_ticks s + 1))
    (i64 (ticks s + 1)).

(** The interrupted thread after the tick, about to return or to yield. *)
Definition after_tick (st : kstate) : kstate :=
  set_intr (set_stats (push_code [Iret] (intr_disable (upd_thread st (current st) leave_halt))) (ticked st))
    (mk_cpu INTR_OFF false (TIME_SLICE <=? u32 (thread_ticks (stats st) + 1))).

Lemma timer_eq st : running st -> intr_handler Timer_interrupt st =
  if TIME_SLICE <=? u32 (thread_ticks (stats st) + 1) then thread_yield (after_tick st) else Ok (after_tick st).
Proof.
  intros Hk. destruct (proj1 (k_run Hk (current st)) eq_refl) as (c0 & Hc0 & Hr0).
  pose proof (leave_halt_running st c0 Hk Hc0) as Hk1. set (st1 := upd_thread _ _ _) in Hk1.
  destruct (proj1 (k_run Hk1 (current st1)) eq_refl) as (c & Hc & Hr).
  unfold intr_handler. fold st1. simpl. replace (intr_context (intr_disable st1)) with false by (symmetry; apply (k_ext Hk)).
  simpl. unfold thread_tick. rewrite (thread_current_eq _ c) by done. cbn [mbind res_bind].
  unfold after_tick, ticked. fold st1. simpl.
  destruct (current st =? idle_thread st), (TIME_SLICE <=? _); reflexivity.
Qed.

Lemma after_tick_running st : running st -> intr_get_level st = INTR_ON ->
  running (after_tick st) /\ exists c, threads (after_tick st) !! current st = Some c /\ ~ freeing (code c).
Proof.
  intros Hk Hon. destruct (proj1 (k_run Hk (current st)) eq_refl) as (c0 & Hc0 & Hr0).
  pose proof (leave_halt_running st c0 Hk Hc0) as Hk1. set (st1 := upd_thread _ _ _) in Hk1.
  destruct (proj1 (k_run Hk1 (current st1)) eq_refl) as (c & Hc & Hr). split.
  - apply set_intr_running; [|done|done]. apply set_stats_running. by apply (interrupted_running st1 c None Hk1 Hc Hon).
  - destruct (handled_code Timer_interrupt st1 c Hk1 Hc) as (x & Hx & Ex). exists x. split; [done|]. rewrite Ex. not_freeing.
Qed.
End Safe.
