(* ===== verification/KernelBoot.v ===== *)
(** * Boot

    [thread_init] and [thread_start] lead to a state of the kernel machine that satisfies
    its invariant. *)

From stdpp Require Import base list gmap numbers functions.
From Stdlib Require Import ZArith Lia.
From S2P Require Import Prelude CString Kernel KernelInv KernelStep KernelSched KernelSwitch KernelSafe.

Local Open Scope Z_scope.

(** ** The state [thread_start] returns to [main] in *)

(** The initial thread [t] runs in its own function, the idle thread [p] waits, no lock is
    held and no thread is in a list. *)
Record booted (t p : Z) (st : kstate) : Prop := {
  bt_threads : exists c ci, threads st = <[p := ci]> (<[t := c]> ∅) /\
    status c = THREAD_RUNNING /\ code c = [] /\ status ci = THREAD_BLOCKED /\ code ci = [Idle_wake];
  bt_lists : ready_list st = [] /\ all_list st = [t; p] /\ all_push st = NULL;
  bt_ids : idle_thread st = p /\ initial_thread st = t /\ current st = t;
  bt_ext : intr_context st = false;
  bt_waiters : forall s, waiters (sema st s) = [];
  bt_value : forall s, 0 <= value (sema st s) < 2 ^ 32;
  bt_locks : forall l, value (sema st (SemOf l)) = 1 /\ holder st l = NULL;
  bt_cond : forall q, cond st q = [];
  bt_pages : (t ∉ pool_pages st) /\ (NULL ∉ pool_pages st) /\ p ∈ pool_pages st /\ free_pages st = pool_pages st ∖ {[p]};
  bt_apart : t <> p /\ t <> NULL /\ p <> NULL
}.

Section Booted.
Context (t p : Z) (st : kstate) (Hb : booted t p st).

Lemma booted_sum f : exists c ci, threads st = <[p := ci]> (<[t := c]> ∅) /\ code c = [] /\ code ci = [Idle_wake] /\
  sumt f (threads st) = f ci + f c.
Proof.
  destruct Hb. destruct bt_threads0 as (c & ci & E & _ & Ec & _ & Eci). exists c, ci. split_and!; try done.
  rewrite E, !sumt_insert; [|by rewrite lookup_empty|by rewrite lookup_insert_ne, lookup_empty by naive_solver].
  unfold sumt. rewrite map_fold_empty. lia.
Qed.

Lemma booted_weight w : w Idle_wake = 0 -> sumt (fun c => wcode w (code c)) (threads st) = 0.
Proof. intros Hw. destruct (booted_sum (fun c => wcode w (code c))) as (c & ci & _ & E1 & E2 & ->). rewrite E1, E2. simpl. lia. Qed.

Lemma booted_running : running st.
Proof.
  pose proof booted_weight as Hw. destruct Hb.
  destruct bt_threads0 as (c & ci & E & Es & Ec & Esi & Eci), bt_lists0 as (Er & Ea & Eq), bt_ids0 as (Ei & En & Ecur),
    bt_pages0 as (Htf & Hnf & Hpf & Ef), bt_apart0 as (Htp & Htn & Hpn).
  assert (HL : forall u x, threads st !! u = Some x <-> (u = p /\ x = ci) \/ (u = t /\ x = c)).
  { intros u x. rewrite E, !lookup_insert_Some, lookup_empty. naive_solver. }
  assert (HP : forall P u, (exists x, threads st !! u = Some x /\ P x) <-> (u = p /\ P ci) \/ (u = t /\ P c)).
  { intros P u. setoid_rewrite HL. naive_solver. }
  assert (HN : forall u, (u <> p /\ u <> t) -> threads st !! u = None).
  { intros u [? ?]. apply eq_None_not_Some. intros [x Hx]. apply HL in Hx. naive_solver. }
  assert (Hpi : threads st !! p = Some ci) by (apply HL; auto).
  assert (Hti : threads st !! t = Some c) by (apply HL; auto).
  clear E. unfold running. rewrite Ecur.
  split; rewrite ?Er, ?Ea, ?Eq, ?Ei, ?En, ?Ecur; try done.
  - intros u. rewrite (HP (fun x => status x = _)), Es, Esi. naive_solver.
  - auto.
  - by apply list.NoDup_nil.
  - intros u. rewrite (HP (fun x => status x = _)), Es, Esi. set_solver +.
  - intros s. rewrite bt_waiters0. by apply list.NoDup_nil.
  - intros s u. rewrite bt_waiters0, (HP (sleeping s)). unfold sleeping. rewrite Ec, Eci. set_solver +.
  - repeat (apply list.NoDup_cons; split; [set_solver + Htp|]). by apply list.NoDup_nil.
  - intros u. rewrite (HP (fun x => status x <> _)), Es, Esi. set_solver + Htn Hpn.
  - intros q w. rewrite bt_cond0. set_solver +.
  - exists ci. rewrite Eci, Esi. done.
  - intros u x [[-> ->]|[-> ->]]%HL Hu; [done|]. rewrite Ec. by apply list.Forall_nil.
  - intros u x [[-> ->]|[-> ->]]%HL; rewrite ?Ec, ?Eci; done.
  - intros u x [[-> ->]|[-> ->]]%HL Hu; rewrite ?Ec, ?Eci; [by right|done].
  - intros u x [[-> ->]|[-> ->]]%HL; rewrite ?Ec, ?Eci; done.
  - intros u x l [[-> ->]|[-> ->]]%HL; rewrite ?Ec, ?Eci; simpl; intros _; rewrite (proj2 (bt_locks0 l));
      by apply bool_decide_eq_false.
  - intros u x l [[-> ->]|[-> ->]]%HL; rewrite ?Ec, ?Eci; done.
  - intros u x [[-> ->]|[-> ->]]%HL; rewrite ?Ec, ?Eci; [|done]. split; [not_freeing|done].
  - intros u x [[-> ->]|[-> ->]]%HL; rewrite ?Ec, ?Eci; done.
  - intros u x [[-> ->]|[-> ->]]%HL; rewrite ?Ec, ?Eci; not_freeing.
  - intros l. left. apply bt_locks0.
  - intros u x [[-> ->]|[-> ->]]%HL; congruence.
  - intros l. rewrite Hw by done. destruct (bt_locks0 l) as [-> ->]. by rewrite b2z_false by auto.
  - intros s. by rewrite bt_waiters0.
  - intros u. rewrite Hw by done. destruct (decide (u = p)) as [->|]; [|destruct (decide (u = t)) as [->|]].
    + rewrite Hpi. simpl. by rewrite Esi, Eci.
    + rewrite Hti. simpl. by rewrite Es.
    + by rewrite HN.
  - intros u. rewrite Hw by done. destruct (decide (u = p)) as [->|]; [|destruct (decide (u = t)) as [->|]].
    + rewrite Hpi. simpl. by rewrite Esi, Eci.
    + rewrite Hti. simpl. by rewrite Es.
    + by rewrite HN.
  - intros u. rewrite Hw by done. simpl. rewrite Ef. destruct (decide (u = p)) as [->|]; [|destruct (decide (u = t)) as [->|]].
    + rewrite b2z_false, (b2z_true (is_Some _)), b2z_true by set_solver. lia.
    + rewrite b2z_false, (b2z_true (is_Some _)), b2z_true by set_solver. lia.
    + rewrite HN by done. rewrite (b2z_false (is_Some None)) by (by intros []).
      rewrite (b2z_ext (u ∈ pool_pages st ∖ {[p]}) (u ∈ pool_pages st \/ u = t)) by set_solver. lia.
  - intros u. rewrite Hw by done. rewrite b2z_false by (intros [? <-]; done). done.
Qed.
End Booted.

(** ** Symbolic execution *)

Section Boot.
Context {PC : PageChoice}.

Lemma runs_bind n st Q : returns (run st) (fun st' => returns (runs n st') Q) -> returns (runs (S n) st) Q.
Proof. apply returns_bind. Qed.

Ltac unfold_kernel :=
  cbv beta iota zeta delta [run get_thread exec thread_init boot_state lock_init_st sema_init put_sema put_holder
    set_threads set_ready_list set_all_list set_all_push set_idle_thread set_initial_thread set_current set_intr set_stats
    set_sema set_holder set_cond set_free_pages upd_thread set_status push_code with_status with_code with_tid
    push_begin push_end init_thread allocate_tid lock_check lock_take lock_drop lock_held_by_current_thread thread_current is_thread
    sema_down sema_wait sema_up intr_get_level intr_context intr_disable intr_enable intr_set_level write_flag
    thread_start create_code acquire_code release_code create_page create_init create_tid create_frames func_code
    thread_unblock thread_block schedule next_thread_to_run thread_schedule_tail reset_thread_ticks
    idle_init idle_loop ASSERT mbind res_bind
    threads ready_list all_list all_push idle_thread initial_thread current intr stats sema holder cond free_pages
    pool_pages
    intr_flag in_external_intr yield_on_return next_tid thread_ticks idle_ticks kernel_ticks ticks
    status priority tid code value waiters negb andb app INTR_ON INTR_OFF].

Ltac lookups :=
  repeat first
    [ match goal with H : choose_page _ = _ |- _ => rewrite H end
    | rewrite alter_insert_id | rewrite lookup_insert_eq | rewrite lookup_insert_ne by done
    | rewrite fn_lookup_insert | rewrite fn_lookup_insert_ne by done
    | rewrite insert_insert_eq | rewrite bool_decide_true by (done || eauto)
    | rewrite alter_insert_ne by done | rewrite (proj2 (Z.eqb_neq _ _)) by done | rewrite Z.eqb_refl ].

(** Comparisons of numbers. *)
Ltac numbers :=
  repeat match goal with
  | |- context [?a =? ?b] =>
      let v := eval vm_compute in (a =? b) in
      lazymatch v with true => change (a =? b) with true | false => change (a =? b) with false end
  | |- context [?a <=? ?b] =>
      let v := eval vm_compute in (a <=? b) in
      lazymatch v with true => change (a <=? b) with true | false => change (a <=? b) with false end
  | |- context [u32 ?a] => let v := eval vm_compute in (u32 a) in lazymatch v with Zpos _ => change (u32 a) with v end
  | |- context [i32 ?a] => let v := eval vm_compute in (i32 a) in lazymatch v with Zpos _ => change (i32 a) with v end
  end.

Ltac sym := repeat (progress (unfold_kernel; lookups; numbers)).

Context (t : Z) (pages : gset Z) (p : Z).
Context (Ht : t <> NULL) (Htp : t ∉ pages) (Hnp : NULL ∉ pages) (Hp : choose_page pages = Some p).

Ltac run1 := apply runs_bind; sym; apply returns_ok; cbv beta.

Lemma boot_running : returns (boot t pages) running.
Proof.
  assert (Hpt : p <> t) by (intros ->; by apply choose_page_some in Hp).
  assert (Htp' : t <> p) by done.
  assert (Hpn : p <> NULL) by (intros ->; by apply choose_page_some in Hp).
  unfold boot. apply returns_bind. sym. apply returns_ok. sym.
  do 23 run1. apply returns_ok, (booted_running t p). split; simpl; try done.
  - eexists _, _. split_and!; reflexivity.
  - intros s. destruct s as [[]|n|]; try done. destruct (decide (n = 0)) as [->|]; [done|].
    by rewrite !fn_lookup_insert_ne by congruence.
  - intros s. destruct s as [[]|n|]; try done. destruct (decide (n = 0)) as [->|]; [done|].
    by rewrite !fn_lookup_insert_ne by congruence.
  - by intros [].
  - split_and!; try done. by apply choose_page_some.
Qed.
End Boot.
