(* ===== verification/KernelFair.v ===== *)
(** * The ready list is served in order

    What one step of the machine does to the ready list: threads are added at its back,
    and [schedule] takes the thread at its front. *)

From stdpp Require Import base list gmap numbers functions.
From Stdlib Require Import ZArith Lia.
From S2P Require Import Prelude CString Kernel.

Local Open Scope Z_scope.

(** [queued cur q st']: [cur] was running and the ready list was [q]; threads were added
    at the back, and then the CPU may have been given to the first one. *)
Inductive queued (cur : Z) (q : list Z) (st' : kstate) : Prop :=
| queued_keep l : ready_list st' = q ++ l -> current st' = cur -> queued cur q st'
| queued_switch l : q ++ l = current st' :: ready_list st' -> queued cur q st'
| queued_idle : q = [] -> ready_list st' = [] -> current st' = idle_thread st' -> queued cur q st'.

(** [invert_ok H] decomposes a computation that returned. *)
Ltac invert_ok H :=
  repeat match type of H with
  | _ ≫= _ = Ok _ =>
      let H1 := fresh "Hm" in apply bind_ok_inv in H as (? & H1 & H); try (apply assert_ok_inv in H1)
  | (if ?b then _ else _) = Ok _ => destruct b eqn:?; try discriminate H
  | match ?x with _ => _ end = Ok _ => destruct x eqn:?; try discriminate H
  | Ok _ = Ok _ => injection H as H; try subst
  end.

Section Queue.
Context {PC : PageChoice}.
Implicit Types (st : kstate) (q : list Z).

(** Operations that only add threads at the back. *)
Definition appends (st st' : kstate) : Prop :=
  current st' = current st /\ exists l, ready_list st' = ready_list st ++ l.

(** Operations that leave the ready list and the running thread as they are. *)
Definition same_queue (st st' : kstate) : Prop := ready_list st' = ready_list st /\ current st' = current st.

Lemma appends_same st st' : same_queue st st' -> appends st st'.
Proof. intros [E Ec]. split; [done|]. exists []. by rewrite app_nil_r. Qed.

Lemma appends_trans st st1 st2 : appends st st1 -> appends st1 st2 -> appends st st2.
Proof. intros [Ec [l E]] [Ec' [l' E']]. split; [congruence|]. exists (l ++ l'). by rewrite E', E, app_assoc. Qed.

Lemma appends_queued st st' : appends st st' -> queued (current st) (ready_list st) st'.
Proof. intros [? [l ?]]. by eapply queued_keep. Qed.

Lemma set_level_ready b st st' : intr_set_level b st = Ok st' -> same_queue st st'.
Proof. unfold intr_set_level, intr_enable. intros H. invert_ok H; done. Qed.

Lemma unblock_appends t st st' : thread_unblock t st = Ok st' -> appends st st'.
Proof.
  unfold thread_unblock. intros H. invert_ok H. apply set_level_ready in H as [H Hc]. split; [done|]. by exists [t].
Qed.

Lemma sema_up_appends s st st' : sema_up s st = Ok st' -> appends st st'.
Proof.
  unfold sema_up. intros H. invert_ok H. apply set_level_ready in H.
  apply (appends_trans _ x); [|by apply appends_same].
  destruct (waiters _); [by simplify_eq; apply (appends_same st)|]. by apply unblock_appends in Hm.
Qed.

Lemma schedule_queued cur st st' q l : ready_list st = q ++ l -> schedule st = Ok st' -> queued cur q st'.
Proof.
  intros E H. unfold schedule, next_thread_to_run, thread_schedule_tail, palloc_free_page in H.
  destruct (ready_list st) as [|t r] eqn:Er; invert_ok H.
  all: repeat match goal with H : negb (_ =? _) = false |- _ => apply negb_false_iff, Z.eqb_eq in H end.
  all: try (apply (queued_switch _ _ _ l); rewrite <- E; simpl; congruence).
  all: symmetry in E; apply app_eq_nil in E as [-> ->]; by apply queued_idle.
Qed.

Lemma yield_queued st st' : thread_yield st = Ok st' -> queued (current st) (ready_list st) st'.
Proof.
  unfold thread_yield. intros H. invert_ok H. destruct (negb (x =? _)); simpl in H.
  - by apply (schedule_queued (current st) _ _ (ready_list st) [x]) in H.
  - apply (schedule_queued (current st) _ _ (ready_list st) []) in H; [done|]. by rewrite app_nil_r.
Qed.

Lemma block_queued st st' : thread_block st = Ok st' -> queued (current st) (ready_list st) st'.
Proof.
  unfold thread_block. intros H. invert_ok H. apply (schedule_queued (current st) _ _ (ready_list st) []) in H; [done|]. by rewrite app_nil_r.
Qed.

Lemma sema_wait_queued s old st st' : sema_wait s old st = Ok st' -> queued (current st) (ready_list st) st'.
Proof.
  unfold sema_wait. intros H. invert_ok H; [by apply block_queued in H|].
  apply set_level_ready in H. by apply (appends_queued st), appends_same.
Qed.

Lemma exit_queued st st' : thread_exit st = Ok st' -> queued (current st) (ready_list st) st'.
Proof.
  unfold thread_exit. intros H. invert_ok H. apply (schedule_queued (current st) _ _ (ready_list st) []) in H; [done|].
  by rewrite app_nil_r.
Qed.

Lemma try_down_ready s st b st' : sema_try_down s st = Ok (b, st') -> same_queue st st'.
Proof.
  unfold sema_try_down. intros H. destruct (0 <? _) in H; invert_ok H; simplify_eq; by apply set_level_ready in Hm.
Qed.

Lemma init_ready t pri st st' : init_thread t pri st = Ok st' -> same_queue st st'.
Proof. unfold init_thread, push_begin. intros H. by invert_ok H. Qed.

(** Points that do not call [schedule]. *)
Definition switches (i : instr) : bool :=
  match i with Sema_down _ | Sema_wait _ _ | Yield | Exit | Idle_loop => true | _ => false end.

Lemma exec_appends i st st' : switches i = false -> exec i st = Ok st' -> appends st st'.
Proof.
  intros Hi H. destruct i; try discriminate Hi; simpl in H.
  all: try (apply appends_same; by apply set_level_ready in H).
  all: try (by apply sema_up_appends in H); try (by apply unblock_appends in H).
  all: unfold lock_check, lock_take, lock_try_acquire, lock_drop, cond_enqueue, cond_signal, cond_broadcast,
    lock_held_by_current_thread, create_page, create_init, create_tid, create_frames, pool_free,
    intr_enable, idle_init, sleep_start, sleep_loop in H.
  all: invert_ok H; try by apply appends_same.
  all: apply appends_same; try match goal with H' : sema_try_down _ _ = _ |- _ => by apply try_down_ready in H' end.
  - by apply init_ready in Hm.
  - by invert_ok Hm.
Qed.

Lemma exec_queued i st st' : exec i st = Ok st' -> queued (current st) (ready_list st) st'.
Proof.
  intros H. destruct (switches i) eqn:Hi; [|by apply appends_queued, (exec_appends i)].
  destruct i; try discriminate Hi; simpl in H.
  - unfold sema_down in H. invert_ok H. by apply sema_wait_queued in H.
  - by eapply sema_wait_queued.
  - by apply yield_queued.
  - by apply exit_queued.
  - unfold idle_loop in H. by apply block_queued in H.
Qed.

Lemma run_queued st st' : run st = Ok st' -> queued (current st) (ready_list st) st'.
Proof. unfold run. intros H. invert_ok H. by apply exec_queued in H. Qed.

Lemma handler_appends h st st' : run_handler h st = Ok st' -> appends st st'.
Proof.
  destruct h; simpl; [|by apply sema_up_appends]. unfold thread_tick, intr_yield_on_return. intros H.
  invert_ok H; by apply appends_same.
Qed.

Lemma intr_handler_queued h st st' : intr_handler h st = Ok st' -> queued (current st) (ready_list st) st'.
Proof.
  unfold intr_handler. intros H. invert_ok H; match goal with Hm : run_handler _ _ = Ok _ |- _ => apply handler_appends in Hm as [Ec [l El]] end.
  - apply yield_queued in H. simpl in H, El, Ec. rewrite El in H. destruct H as [l' H Hc|l' H|H1 H2 H3].
    + apply (queued_keep _ _ _ (l ++ l')); [by rewrite H, app_assoc|congruence].
    + apply (queued_switch _ _ _ (l ++ l')). by rewrite app_assoc.
    + apply app_eq_nil in H1 as [-> ->]. by apply queued_idle.
  - by apply (queued_keep _ _ _ l).
Qed.

(** ** What no step changes *)

(** The pages of the pool and the initial thread. *)
Definition fixed (st st' : kstate) : Prop :=
  pool_pages st' = pool_pages st /\ initial_thread st' = initial_thread st.

Lemma fixed_trans st st1 st2 : fixed st st1 -> fixed st1 st2 -> fixed st st2.
Proof. intros [E1 E2] [E3 E4]. split; congruence. Qed.

Lemma set_level_fixed b st st' : intr_set_level b st = Ok st' -> fixed st st'.
Proof. unfold intr_set_level, intr_enable. intros H. by invert_ok H. Qed.

Lemma schedule_fixed st st' : schedule st = Ok st' -> fixed st st'.
Proof.
  unfold schedule, next_thread_to_run, thread_schedule_tail, palloc_free_page. intros H.
  destruct (ready_list st); by invert_ok H.
Qed.

Lemma unblock_fixed t st st' : thread_unblock t st = Ok st' -> fixed st st'.
Proof. unfold thread_unblock. intros H. invert_ok H. by apply set_level_fixed in H. Qed.

Lemma sema_up_fixed s st st' : sema_up s st = Ok st' -> fixed st st'.
Proof.
  unfold sema_up. intros H. invert_ok H. apply set_level_fixed in H. apply (fixed_trans _ x); [|done].
  destruct (waiters _); [by simplify_eq|by apply unblock_fixed in Hm].
Qed.

Lemma sema_wait_fixed s old st st' : sema_wait s old st = Ok st' -> fixed st st'.
Proof.
  unfold sema_wait, thread_block. intros H. invert_ok H; [by apply schedule_fixed in H|by apply set_level_fixed in H].
Qed.

Lemma try_down_fixed s st b st' : sema_try_down s st = Ok (b, st') -> fixed st st'.
Proof.
  unfold sema_try_down. intros H. destruct (0 <? _) in H; invert_ok H; simplify_eq; by apply set_level_fixed in Hm.
Qed.

Lemma yield_fixed st st' : thread_yield st = Ok st' -> fixed st st'.
Proof. unfold thread_yield. intros H. invert_ok H. apply schedule_fixed in H. by destruct (negb (x =? _)). Qed.

Lemma init_fixed t pri st st' : init_thread t pri st = Ok st' -> fixed st st'.
Proof. unfold init_thread, push_begin. intros H. by invert_ok H. Qed.

Lemma exec_fixed i st st' : exec i st = Ok st' -> fixed st st'.
Proof.
  intros H. destruct i; simpl in H;
    try first [by apply set_level_fixed in H|by apply sema_up_fixed in H|by apply unblock_fixed in H
              |by apply sema_wait_fixed in H|by apply yield_fixed in H].
  all: unfold sema_down, thread_exit, idle_loop, thread_block, lock_check, lock_take, lock_try_acquire, lock_drop,
    cond_enqueue, cond_signal, cond_broadcast, lock_held_by_current_thread, create_page, create_init, create_tid,
    create_frames, pool_free, intr_enable, idle_init, sleep_start, sleep_loop in H.
  all: invert_ok H; try done.
  all: try first [by apply sema_wait_fixed in H|by apply schedule_fixed in H
                 |match goal with H' : sema_try_down _ _ = _ |- _ => by apply try_down_fixed in H' end].
  - by apply init_fixed in Hm.
  - by invert_ok Hm.
Qed.

Lemma run_fixed st st' : run st = Ok st' -> fixed st st'.
Proof. unfold run. intros H. invert_ok H. by apply exec_fixed in H. Qed.

Lemma handler_fixed h st st' : run_handler h st = Ok st' -> fixed st st'.
Proof.
  destruct h; simpl; [|by apply sema_up_fixed]. unfold thread_tick, intr_yield_on_return. intros H. by invert_ok H.
Qed.

Lemma intr_handler_fixed h st st' : intr_handler h st = Ok st' -> fixed st st'.
Proof.
  unfold intr_handler. intros H. invert_ok H;
    match goal with Hm : run_handler _ _ = Ok _ |- _ => apply handler_fixed in Hm end; [|done].
  apply yield_fixed in H. by eapply fixed_trans.
Qed.

Lemma runs_fixed n st st' : runs n st = Ok st' -> fixed st st'.
Proof.
  revert st. induction n as [|n IH]; intros st; simpl; [by intros [= ->]|]. intros H. invert_ok H.
  eapply fixed_trans; [by apply run_fixed|by apply IH].
Qed.

Lemma allocate_tid_fixed st n st' : allocate_tid st = Ok (n, st') -> fixed st st'.
Proof.
  unfold allocate_tid. intros H. invert_ok H.
  match goal with
  | H1 : lock_check _ _ = Ok _, H2 : sema_down _ _ = Ok _, H3 : lock_take _ _ = Ok _, H4 : lock_drop _ _ = Ok _,
    H5 : sema_up _ _ = Ok _ |- _ =>
      pose proof (exec_fixed (Lock_check TidLock) _ _ H1); pose proof (exec_fixed (Sema_down (SemOf TidLock)) _ _ H2);
      pose proof (exec_fixed (Lock_take TidLock) _ _ H3); pose proof (exec_fixed (Lock_drop TidLock) _ _ H4);
      pose proof (sema_up_fixed _ _ _ H5)
  end. simplify_eq. eauto 10 using fixed_trans.
Qed.

Lemma boot_fixed t pages st : boot t pages = Ok st -> pool_pages st = pages /\ initial_thread st = t.
Proof.
  unfold boot, thread_init. intros H. invert_ok H. apply runs_fixed in H as [H1 H2]. simpl in H1, H2.
  apply bind_ok_inv in Hm as (x1 & _ & Hm). apply bind_ok_inv in Hm as (x2 & [I1 I2]%init_fixed & Hm).
  apply bind_ok_inv in Hm as ([n x3] & [A1 A2]%allocate_tid_fixed & [= <-]). simpl in *. split; congruence.
Qed.
End Queue.
