(* ===== verification/KernelSpec.v ===== *)
(** * What the kernel promises to its threads

    The step relation of the machine, the states it reaches from boot, and the theorems
    on them: no assertion fails, locks exclude, wakeups are not lost, pages are never
    shared, ready threads are served in order. *)

From stdpp Require Import base list gmap numbers functions relations.
From Stdlib Require Import ZArith Lia.
From S2P Require Import Prelude CString Kernel KernelInv KernelStep KernelSched KernelSwitch.
From S2P Require Import KernelSafe KernelBoot KernelFair.

Local Open Scope Z_scope.

(** ** Steps *)

(** What happens next: the running thread executes a point of a kernel function, its own
    function calls the kernel, or an interrupt arrives. *)
Inductive action := Run | Invoke (a : call) | Interrupt (h : handler).

#[export] Instance action_run_dec x : Decision (x = Run).
Proof. destruct x; [by left|by right..]. Defined.

Section Spec.
Context {PC : PageChoice}.
Implicit Types (st : kstate) (x : action) (t : Z) (l : lock_id) (s : sem_id).

Definition act x st : res kstate :=
  match x with
  | Run => run st
  | Invoke a =>
      c ← get_thread st (current st);
      match code c with [] => Ok (push_code (call_code (current st) a) st) | _ => Err WouldBlock end
  | Interrupt h => if intr_get_level st then intr_handler h st else Err WouldBlock
  end.

Definition in_function st : Prop := exists c, threads st !! current st = Some c /\ code c = [].

(** The contract of the environment. *)
Definition permitted st x : Prop :=
  match x with
  | Run => has_point st
  | Invoke a => in_function st /\ allowed st a
  | Interrupt h => intr_get_level st = INTR_ON /\ handler_ok h
  end.

(** A step of the kernel: anything that the contract permits and that returns, except for
    the one case of [thread_exit] that [exit_busy] describes. *)
Inductive kstep st : kstate -> Prop :=
| kstep_act x st' : permitted st x -> ~ (x = Run /\ exit_busy st) -> act x st = Ok st' -> kstep st st'.

(** The states of the runs from boot.  A run ends at a race; it has no [exit_busy] step,
    after which threads wait for the pool inside [thread_schedule_tail]. *)
Definition reachable t (pages : gset Z) st : Prop := exists st0, boot t pages = Ok st0 /\ rtc kstep st0 st.

(** The memory the kernel starts with: its first thread's page and the pool. *)
Record boot_ok t (pages : gset Z) : Prop := {
  bo_null : t <> NULL /\ (NULL ∉ pages);
  bo_page : t ∉ pages;
  bo_some : pages <> ∅
}.

Lemma act_running st x : running st -> permitted st x -> ~ (x = Run /\ exit_busy st) ->
  ~ (x = Run /\ race st) -> returns (act x st) running.
Proof.
  intros Hk. destruct x as [|a|h]; simpl.
  - intros Hp Hq Hr. apply run_running; tauto.
  - intros [(c & Hc & E) Ha] _ _. unfold get_thread. rewrite Hc. simpl. rewrite E. by apply (call_running st c).
  - intros [Hon Hh] _ _. rewrite Hon. by apply intr_handler_running.
Qed.

Lemma kstep_running st st' : running st -> kstep st st' -> running st'.
Proof.
  intros Hk [x st1 Hx Hq E]. assert (Hr : ~ (x = Run /\ race st)).
  { intros [-> Hr]. simpl in E. by rewrite (run_race st Hk Hr) in E. }
  pose proof (act_running st x Hk Hx Hq Hr) as H. by rewrite E in H.
Qed.

Lemma boot_returns t pages : boot_ok t pages -> returns (boot t pages) running.
Proof.
  intros [[Ht Hn] Htp Hp]. destruct (choose_page pages) as [p|] eqn:E; [|by apply choose_page_none in E].
  by apply (boot_running t pages p).
Qed.

Lemma reachable_running t pages st : boot_ok t pages -> reachable t pages st -> running st.
Proof.
  intros Hb (st0 & E & Hr). pose proof (boot_returns t pages Hb) as Hk. rewrite E in Hk. simpl in Hk.
  clear E. induction Hr as [|st0 st1 st Hs Hr IH]; [done|]. apply IH. by eapply kstep_running.
Qed.

Lemma reachable_step t pages st st' : reachable t pages st -> kstep st st' -> reachable t pages st'.
Proof. intros (st0 & E & Hr) Hs. exists st0. split; [done|]. by eapply rtc_r. Qed.

Lemma kstep_fixed st st' : kstep st st' -> fixed st st'.
Proof.
  intros [x st1 _ _ E]. destruct x as [|a|h]; simpl in E.
  - by apply run_fixed.
  - by invert_ok E.
  - invert_ok E. by apply intr_handler_fixed in E.
Qed.

Lemma reachable_fixed t pages st : reachable t pages st -> pool_pages st = pages /\ initial_thread st = t.
Proof.
  intros (st0 & E & Hr). apply boot_fixed in E. induction Hr as [|st0 st1 st Hs _ IH]; [done|].
  apply IH. destruct (kstep_fixed st0 st1 Hs), E. split; congruence.
Qed.

(** ** Safety *)

(** C1: Fault freedom up to two hazards of the kernel itself.  From every state reached
    from boot, whatever happens next within the contract of the callers (a point of a
    kernel function, a call, an interrupt) completes in a state that is again reached: no
    assertion fails and no freed or foreign struct thread is accessed.  There are two
    exceptions, which callers cannot avoid.  One is [race]: a thread was interrupted inside
    its push on [all_list], and the running one begins another push or removes the last
    element.  The other is [exit_busy]: a thread calls [thread_exit] while another one is
    inside the lock of the page pool. *)
Theorem kernel_no_fault t pages st x : boot_ok t pages -> reachable t pages st -> permitted st x ->
  returns (act x st) (reachable t pages) \/
  (x = Run /\ race st /\ act x st = Err DataRace) \/
  (x = Run /\ exit_busy st).
Proof.
  intros Hb Hr Hx. pose proof (reachable_running t pages st Hb Hr) as Hk.
  destruct (decide (x = Run /\ exit_busy st)) as [?|Hq]; [auto|].
  destruct (decide (x = Run /\ race st)) as [[-> Hra]|Hra]; [right; left; split_and!; [done|done|by apply run_race]|]. left.
  pose proof (act_running st x Hk Hx Hq Hra) as H.
  destruct (act x st) as [st'|] eqn:E; [|done]. apply (reachable_step t pages st); [done|by apply (kstep_act st x)].
Qed.

(** ** Locks *)

(** [t] owns lock [l]: it is its recorded holder, or it is between the semaphore and the
    store of [holder] in [lock_acquire] or [lock_release]. *)
Definition owns st t l : Prop :=
  t <> NULL /\ holder st l = t \/ exists c, threads st !! t = Some c /\ 1 <= wcode (tok_w l) (code c).

Section Owners.
Context {run : option Z} (st : kstate) (Hk : kinv run st) (l : lock_id).

Lemma owner_unique t1 t2 : owns st t1 l -> owns st t2 l -> t1 = t2.
Proof.
  intros [[Hn1 E1]|(c1 & Hc1 & Hw1)] [[Hn2 E2]|(c2 & Hc2 & Hw2)].
  - congruence.
  - destruct (held_taken _ st Hk l) as [_ H]; [congruence|]. specialize (H _ _ Hc2). lia.
  - destruct (held_taken _ st Hk l) as [_ H]; [congruence|]. specialize (H _ _ Hc1). lia.
  - destruct (decide (t1 = t2)) as [|Hne]; [done|]. exfalso.
    pose proof (sumt_ge2 (fun c => wcode (tok_w l) (code c)) _ _ _ _ _ (tok_nonneg _ st Hk l) Hc1 Hc2 Hne) as Hs.
    pose proof (k_lock Hk l). pose proof (k_value Hk (SemOf l)). pose proof (b2z_range (holder st l <> NULL)).
    simpl in Hs. lia.
Qed.

Lemma owner_exists : value (sema st (SemOf l)) = 0 -> exists t, owns st t l.
Proof.
  intros Hv. pose proof (k_lock Hk l) as Hl. destruct (decide (holder st l = NULL)) as [E|Hne].
  - rewrite b2z_false in Hl by auto.
    destruct (sumt_pos (fun c => wcode (tok_w l) (code c)) (threads st)) as (t & c & Hc & Hw); [lia|].
    exists t. right. exists c. split; [done|]. simpl in Hw. lia.
  - exists (holder st l). by left.
Qed.

Lemma no_owner t : value (sema st (SemOf l)) <> 0 -> ~ owns st t l.
Proof.
  intros Hv. destruct (up_free _ st Hk l Hv) as (_ & Hh & Ht). intros [[? ?]|(c & Hc & Hw)]; [congruence|].
  specialize (Ht _ _ Hc). lia.
Qed.
End Owners.

(** C3: Locks are mutually exclusive at every moment, also inside [lock_acquire] and
    [lock_release]: at most one thread owns a lock, and its semaphore's value is 1 when
    none does and 0 when one does. *)
Theorem lock_exclusion t pages st l : boot_ok t pages -> reachable t pages st ->
  (forall t1 t2, owns st t1 l -> owns st t2 l -> t1 = t2) /\
  (value (sema st (SemOf l)) = 0 /\ (exists t1, owns st t1 l) \/
   value (sema st (SemOf l)) = 1 /\ (forall t1, ~ owns st t1 l)).
Proof.
  intros Hb Hr. pose proof (reachable_running t pages st Hb Hr) as Hk. split.
  - intros t1 t2. by apply (owner_unique st Hk).
  - destruct (decide (value (sema st (SemOf l)) = 0)) as [Hv|Hv]; [left; eauto using owner_exists|right].
    split; [by apply (up_free _ st Hk l)|]. intros t1. by apply (no_owner st Hk).
Qed.

(** ** Semaphores *)

(** A thread on its way back to the loop of [sema_down (s)] is not asleep. *)
Lemma wait_w_le s k : 0 <= wcode (wait_w s) k <= wcode waits k.
Proof. induction k as [|[] k IH]; simpl; repeat case_decide; lia. Qed.

Lemma pending_awake_thread run st s t c : kinv run st -> threads st !! t = Some c -> 0 < pending s c ->
  status c = THREAD_READY \/ status c = THREAD_RUNNING.
Proof.
  intros Hk Hc Hp. pose proof (k_wait_ok Hk t c Hc) as Hok. unfold pending in Hp.
  destruct (status c) eqn:Es; auto; exfalso.
  - pose proof (k_blocked Hk t c Hc Es) as Hb.
    destruct (code c) as [|i k] eqn:Ec; [simpl in Hp; case_decide; lia|]. pose proof (wait_w_le s k).
    destruct i; try done; try (destruct k; [|done]; simpl in Hp; case_decide; lia).
    simpl in Hok, Hp. destruct (decide (s0 = s)) as [->|Hne]; [|case_decide; lia].
    rewrite decide_True in Hp by (split; eauto). lia.
  - destruct (k_dying Hk t c Hc Es) as [Ec _]. rewrite Ec in Hp. simpl in Hp. case_decide; lia.
Qed.

Lemma wait_w_elem s k : 0 < wcode (wait_w s) k -> exists b, Sema_wait s b ∈ k.
Proof.
  induction k as [|i k IH]; simpl; [lia|]. intros Hw. destruct (decide (wait_w s i = 0)) as [E|Hne].
  - destruct IH as [b Hb]; [lia|]. exists b. by apply list_elem_of_further.
  - destruct i; simpl in Hne; try done. case_decide; [subst|done]. eexists. apply list_elem_of_here.
Qed.

(** C9: No wakeup is lost.  Whenever threads sleep on a semaphore whose value is
    positive, some thread that is ready or running is on its way back to the loop of
    [sema_down] on that semaphore, where it will take the value or find it taken. *)
Theorem no_lost_wakeup t0 pages st s : boot_ok t0 pages -> reachable t0 pages st ->
  waiters (sema st s) <> [] -> 0 < value (sema st s) ->
  exists t c b, threads st !! t = Some c /\ (status c = THREAD_READY \/ status c = THREAD_RUNNING) /\
    Sema_wait s b ∈ code c.
Proof.
  intros Hb Hr Hw Hv. pose proof (reachable_running t0 pages st Hb Hr) as Hk. pose proof (k_wake Hk s Hw).
  destruct (sumt_pos (pending s) (threads st)) as (t & c & Hc & Hp); [lia|].
  destruct (wait_w_elem s (code c)) as [b Hin]; [pose proof (pending_le c s); lia|].
  exists t, c, b. split; [done|]. split; [by eapply pending_awake_thread|done].
Qed.

(** [sema_up] is first in, first out: it makes the thread that has waited longest
    ready, puts it at the back of the ready list, and adds one to the value (modulo
    2^32), and nothing else changes. *)
Theorem sema_up_fifo t0 pages st s t r : boot_ok t0 pages -> reachable t0 pages st ->
  waiters (sema st s) = t :: r ->
  exists c, threads st !! t = Some c /\ status c = THREAD_BLOCKED /\
  returns (sema_up s st) (fun st' =>
    threads st' = <[t := with_status THREAD_READY c]> (threads st) /\ ready_list st' = ready_list st ++ [t] /\
    sema st' s = mk_semaphore (u32 (value (sema st s) + 1)) r /\ (forall s', s' <> s -> sema st' s' = sema st s') /\
    current st' = current st /\ intr st' = intr st /\ holder st' = holder st /\ all_list st' = all_list st).
Proof.
  intros Hb Hr Hw. pose proof (reachable_running t0 pages st Hb Hr) as Hk.
  destruct (first_waiter _ _ _ _ _ Hk Hw) as (c & Hc & [Hs _] & _). exists c. split; [done|]. split; [done|].
  rewrite sema_up_eq; [|left; apply (k_ext Hk)|intros t' r' Hw'; rewrite Hw in Hw'; simplify_eq; eauto].
  unfold raised. rewrite Hw. simpl. split_and!; try done.
  - by apply alter_some.
  - by rewrite !fn_lookup_insert.
  - intros s' Hne. by rewrite !fn_lookup_insert_ne.
Qed.

(** ** Threads *)

(** C18: Every thread is where its status says: the running thread is [current] and in no
    list, a ready thread is in the ready list once (the idle thread in none), a blocked
    thread is in exactly one wait list or is the idle thread or is still being created.
    [all_list] has every thread that is not dead, once, except for the one that is being
    pushed on it, and that one is still being created. *)
Theorem thread_place t0 pages st t c : boot_ok t0 pages -> reachable t0 pages st -> threads st !! t = Some c ->
  (status c = THREAD_RUNNING <-> t = current st) /\
  (t ∈ ready_list st <-> status c = THREAD_READY /\ t <> idle_thread st) /\ NoDup (ready_list st) /\
  (t ∈ all_list st <-> t <> all_push st /\ status c <> THREAD_DYING) /\ NoDup (all_list st) /\
  (t = all_push st -> status c = THREAD_BLOCKED /\ code c = []) /\
  (forall s, t ∈ waiters (sema st s) -> status c = THREAD_BLOCKED /\ forall s', t ∈ waiters (sema st s') -> s' = s) /\
  (status c = THREAD_BLOCKED -> (exists s, t ∈ waiters (sema st s)) \/ code c = [] \/ code c = [Kernel_thread] \/
    t = idle_thread st).
Proof.
  intros Hb Hr Hc. pose proof (reachable_running t0 pages st Hb Hr) as Hk. split_and!.
  - split; [by apply (running_only st t c Hk)|]. intros ->. by apply (running_current st c Hk).
  - rewrite (ready_iff st t c Hk Hc). tauto.
  - apply (k_ready_nodup Hk).
  - apply (all_iff st t c Hk Hc).
  - apply (k_all_nodup Hk).
  - intros ->. destruct (pushed_unborn _ st Hk) as (x & Hx & ?); [|by simplify_eq].
    intros En. rewrite En, (null_no_thread _ _ Hk) in Hc. done.
  - intros s. rewrite (wait_iff st t c Hk Hc). intros [Hs (b & k & E)]. split; [done|]. intros s'.
    rewrite (wait_iff st t c Hk Hc). intros [_ (b' & k' & E')]. congruence.
  - intros Hs. pose proof (k_blocked Hk t c Hc Hs) as Hbl. destruct (code c) as [|i k] eqn:E; [auto|].
    destruct (decide (t = idle_thread st)) as [|Hne]; [auto|]. destruct i; try done.
    + left. exists s. apply (wait_iff st t c Hk Hc). split; eauto.
    + destruct k; [auto|done].
    + pose proof (k_code Hk t c Hc Hne) as Hok. rewrite E in Hok. apply list.Forall_cons in Hok as [[] _].
Qed.

Lemma page_somewhere st p : (forall c, 0 <= wcode (page_w p) (code c)) ->
  (exists t c, threads st !! t = Some c /\ 0 < wcode (page_w p) (code c)) <->
  0 < sumt (fun c => wcode (page_w p) (code c)) (threads st).
Proof.
  intros Hn. split; [|apply sumt_pos]. intros (t & c & Hc & Hw).
  pose proof (sumt_ge (fun c => wcode (page_w p) (code c)) _ t c (fun _ y _ => Hn y) Hc) as Hs. simpl in Hs. lia.
Qed.

(** Some thread has page [p] in hand: taken from the pool and not yet a thread, or left by
    a dead thread and not yet given back. *)
Definition in_hand st p t : Prop := exists c, threads st !! t = Some c /\ 0 < wcode (page_w p) (code c).

(** C19: Pages are neither shared nor lost.  Every page of the kernel pool, and the page
    of the initial thread, is at every moment in exactly one of three places: free, a
    thread, or in the hands of one thread, which has it there once; no other page is in
    any of them. *)
Theorem page_exclusive t0 pages st p : boot_ok t0 pages -> reachable t0 pages st ->
  (p ∈ pages \/ p = t0 <-> p ∈ free_pages st \/ is_Some (threads st !! p) \/ exists t, in_hand st p t) /\
  (p ∈ free_pages st -> threads st !! p = None /\ forall t, ~ in_hand st p t) /\
  (is_Some (threads st !! p) -> forall t, ~ in_hand st p t) /\
  (forall t t', in_hand st p t -> in_hand st p t' -> t' = t) /\
  (forall t c, threads st !! t = Some c -> wcode (page_w p) (code c) <= 1).
Proof.
  intros Hb Hr. pose proof (reachable_running t0 pages st Hb Hr) as Hk. pose proof (k_page Hk p) as Hp. simpl in Hp.
  destruct (reachable_fixed t0 pages st Hr) as [Ep Ei]. rewrite Ep, Ei in Hp.
  pose proof (fun c => page_nonneg p c) as Hn. set (f := fun c => wcode (page_w p) (code c)) in *.
  pose proof (sumt_nonneg f (threads st) (fun _ c _ => Hn c)) as Hs.
  assert (Hge : forall t c, threads st !! t = Some c -> f c <= sumt f (threads st)).
  { intros t c. apply (sumt_ge f). intros u y _. apply Hn. }
  assert (Hh : forall t, in_hand st p t -> 1 <= sumt f (threads st)).
  { intros t (c & Hc & Hw). specialize (Hge t c Hc). unfold f in Hge at 1. lia. }
  assert (Hle : b2z (p ∈ free_pages st) + b2z (is_Some (threads st !! p)) + sumt f (threads st) <= 1).
  { pose proof (b2z_range (p ∈ pages \/ p = t0)). lia. }
  split_and!.
  - unfold in_hand. rewrite (page_somewhere st p Hn). fold f. unfold b2z in *. repeat case_decide; naive_solver lia.
  - intros Hf. rewrite (b2z_true (p ∈ free_pages st)) in Hle by done. split.
    + apply eq_None_not_Some. intros Ht. rewrite (b2z_true (is_Some _)) in Hle by done. lia.
    + intros t Ht%Hh. pose proof (b2z_range (is_Some (threads st !! p))). lia.
  - intros Ht t Hi%Hh. rewrite (b2z_true (is_Some _)) in Hle by done. pose proof (b2z_range (p ∈ free_pages st)). lia.
  - intros t t' (c & Hc & Hw) (c' & Hc' & Hw'). destruct (decide (t' = t)) as [|Hne]; [done|].
    pose proof (sumt_ge2 f _ _ _ _ _ (fun _ y _ => Hn y) Hc Hc' (not_eq_sym Hne)).
    pose proof (b2z_range (is_Some (threads st !! p))). pose proof (b2z_range (p ∈ free_pages st)). unfold f in *. lia.
  - intros t c Hc. specialize (Hge t c Hc). unfold f in Hge at 1.
    pose proof (b2z_range (is_Some (threads st !! p))). pose proof (b2z_range (p ∈ free_pages st)). lia.
Qed.

(** ** Scheduling *)

(** [ksteps n st st']: steps from [st] to [st'], after [n] of which another thread is
    running than before. *)
Inductive ksteps : nat -> kstate -> kstate -> Prop :=
| ks_done st : ksteps 0 st st
| ks_step n st st1 st' : kstep st st1 -> ksteps n st1 st' ->
    ksteps (if decide (current st1 = current st) then n else S n) st st'.

Lemma ksteps_rtc n st st' : ksteps n st st' -> rtc kstep st st'.
Proof. induction 1; [done|by eapply rtc_l]. Qed.

Lemma kstep_queued st st' : kstep st st' -> queued (current st) (ready_list st) st'.
Proof.
  intros [x st1 _ _ E]. destruct x as [|a|h]; simpl in E.
  - by apply run_queued.
  - invert_ok E. by apply (appends_queued st), appends_same.
  - invert_ok E. by apply intr_handler_queued in E.
Qed.

(** One step seen by a thread in the ready list: it keeps its place and the running thread
    stays, or the running thread changes and it moves up by one place. *)
Lemma kstep_position st st' pre t post : running st -> kstep st st' -> ready_list st = pre ++ t :: post ->
  (current st' = current st /\ exists post', ready_list st' = pre ++ t :: post') \/
  (current st' <> current st /\ exists post', pre ++ t :: post' = current st' :: ready_list st').
Proof.
  intros Hk Hs E. destruct (kstep_queued st st' Hs) as [l H Hc|l H|H _ _]; rewrite E in H.
  - left. split; [done|]. exists (post ++ l). by rewrite H, <- app_assoc.
  - right. rewrite <- app_assoc in H. split; [|by exists (post ++ l)]. intros Ec.
    assert (Hin : current st' ∈ ready_list st).
    { rewrite E. destruct pre; simpl in H; injection H as <- _; apply list_elem_of_here. }
    rewrite Ec in Hin. apply (k_ready Hk) in Hin as (_ & c & Hc & Hst).
    rewrite (running_current st c Hk Hc) in Hst. done.
  - by destruct pre.
Qed.

(** C30: Bounded waiting: a ready thread with [n] threads in front of it gets the CPU at
    the latest when the running thread changes for the [n + 1]-st time, whatever the
    threads do and whichever interrupts arrive. *)
Theorem bounded_waiting t0 pages n st st' pre t post : boot_ok t0 pages -> reachable t0 pages st ->
  ready_list st = pre ++ t :: post -> ksteps n st st' -> (length pre < n)%nat ->
  exists m st1, ksteps m st st1 /\ (m <= S (length pre))%nat /\ current st1 = t /\ rtc kstep st1 st'.
Proof.
  intros Hb Hr E Hs. pose proof (reachable_running t0 pages st Hb Hr) as Hk. clear Hr. revert pre post Hk E.
  induction Hs as [st|n st st1 st' Hs Hss IH]; intros pre post Hk E Hn; [lia|].
  pose proof (kstep_running st st1 Hk Hs) as Hk1.
  destruct (kstep_position st st1 pre t post Hk Hs E) as [[Hc [post' E']]|[Hc [post' E']]].
  - rewrite decide_True in Hn by done. destruct (IH pre post' Hk1 E' Hn) as (m & st2 & Hm & Hle & ?).
    exists m, st2. split; [|done]. pose proof (ks_step m st st1 st2 Hs Hm) as Hk2. by rewrite decide_True in Hk2.
  - rewrite decide_False in Hn by done. destruct pre as [|y pre]; injection E' as Ec Er.
    + exists 1%nat, st1. split_and!; [|simpl; lia|done|by eapply ksteps_rtc].
      pose proof (ks_step 0 st st1 st1 Hs (ks_done st1)) as Hk2. by rewrite decide_False in Hk2.
    + simpl in Hn. destruct (IH pre post' Hk1 (eq_sym Er)) as (m & st2 & Hm & Hle & ?); [lia|].
      exists (S m), st2. split; [|split; [simpl; lia|done]].
      pose proof (ks_step m st st1 st2 Hs Hm) as Hk2. by rewrite decide_False in Hk2.
Qed.

(** Time slices: a timer interrupt counts a tick for the running thread; at the
    [TIME_SLICE]-th tick the thread goes to the back of the ready list and the thread at
    the front gets the CPU, before that the interrupted thread keeps it. *)
Theorem timer_preempts t0 pages st : boot_ok t0 pages -> reachable t0 pages st -> intr_get_level st = INTR_ON ->
  returns (intr_handler Timer_interrupt st) (fun st' =>
    if TIME_SLICE <=? u32 (thread_ticks (stats st) + 1)
    then current st' = hd (idle_thread st) (requeued st) /\ ready_list st' = tail (requeued st)
    else current st' = current st /\ ready_list st' = ready_list st /\ stats st' = ticked st).
Proof.
  intros Hb Hr Hon. pose proof (reachable_running t0 pages st Hb Hr) as Hk. rewrite timer_eq by done.
  destruct (after_tick_running st Hk Hon) as (Hk1 & c & Hc & Hf). destruct (TIME_SLICE <=? _); [|done].
  eapply returns_mono; [by apply (thread_yield_spec _ c Hk1)|]. intros st' (_ & E1 & E2). done.
Qed.
(** *** A thread exits while another one holds the pool's lock *)

Lemma exit_point st : running st -> next_point st = Some Exit -> exists c, at_point st c Exit [].
Proof.
  intros Hk Hn. unfold next_point in Hn. destruct (threads st !! current st) as [c|] eqn:Hc; [|done]. simpl in Hn.
  destruct (code c) as [|i k] eqn:E; [done|]. injection Hn as ->. exists c.
  assert (H : at_point st c Exit k) by done. by destruct (leaves_exit st c k H) as [-> _].
Qed.

Lemma not_racing st c : at_point st c Exit [] -> ~ race st ->
  all_push st = NULL \/ list.last (all_list st) <> Some (current st).
Proof.
  intros H Hr. unfold race in Hr. rewrite (at_next_point _ _ _ _ H) in Hr.
  destruct (decide (all_push st = NULL)); tauto.
Qed.

(** The thread that is to free a page holds the pool's lock itself. *)
Lemma free_by_holder st p (x : tcb) : threads st !! current st = Some x -> status x = THREAD_RUNNING -> current st <> p ->
  intr_context st = false -> holder st PoolLock = current st -> run (palloc_free_page p st) = Err AssertFail.
Proof.
  intros Hx Hs Hp He Hh.
  set (x1 := with_code (free_code p ++ code x) x).
  assert (E : threads (palloc_free_page p st) !! current st = Some x1).
  { simpl. by rewrite lookup_alter_eq, lookup_delete_ne, Hx. }
  rewrite (run_point (palloc_free_page p st) x1 (Lock_check PoolLock) (tail (free_code p ++ code x)) E eq_refl).
  simpl. unfold lock_check. change (intr_context (popped _ _)) with (intr_context st). rewrite He. simpl.
  rewrite (popped_held _ x1) by done. change (holder (palloc_free_page p st)) with (holder st).
  change (current (palloc_free_page p st)) with (current st). rewrite Hh, Z.eqb_refl. done.
Qed.

(** C37: [thread_exit] can panic the kernel although every caller keeps its contract.
    Whenever a thread other than the initial one exits while the thread at the front of
    the ready list, preempted inside [palloc_get_multiple] or [palloc_free_multiple], is
    the holder of the page pool's lock, [thread_schedule_tail] frees the dead thread's
    page in the context of that holder, and [lock_acquire]'s assertion that the lock is
    not held by the current thread fails. *)
Theorem exit_under_pool_lock_panics t0 pages st h r : boot_ok t0 pages -> reachable t0 pages st ->
  next_point st = Some Exit -> current st <> initial_thread st -> ~ race st ->
  ready_list st = h :: r -> holder st PoolLock = h ->
  exists st1, run st = Ok st1 /\ current st1 = h /\ holder st1 PoolLock = h /\ run st1 = Err AssertFail.
Proof.
  intros Hb Hr Hn Hi Hra Er Hh. pose proof (reachable_running t0 pages st Hb Hr) as Hk.
  destruct (exit_point st Hk Hn) as (c & H). pose proof (ap_lookup _ _ _ _ H) as Hc.
  destruct (leaves_exit st c [] H) as [_ Hl]. pose proof (kinv_leave st c _ _ Hk Hc Hl) as Hk1.
  assert (Hd : threads (dead st) !! current (dead st) = Some (with_status THREAD_DYING (with_code [] c))).
  { rewrite (lv_threads _ _ _ _ Hl). apply lookup_insert_eq. }
  assert (Hnext : next_thread (dead st) = h) by (unfold next_thread; simpl; by rewrite Er).
  assert (Hne : h <> current st).
  { intros ->. assert (Hin : current st ∈ ready_list st) by (rewrite Er; apply list_elem_of_here).
    apply (k_ready Hk) in Hin as (_ & y & Hy & Hs). rewrite (running_current st y Hk Hy) in Hs. done. }
  destruct (next_is_thread (dead st) Hk1) as (x & Hx & _). rewrite Hnext in Hx.
  exists (palloc_free_page (current st) (switched (dead st))). split_and!.
  - rewrite (run_point st c Exit []), (exit_eq st c []); [|done|by apply (not_racing st c)|done|apply (ap_code _ _ _ _ H)].
    rewrite (schedule_eq (dead st) _ Hk1 Hd); [|done]. by rewrite decide_True.
  - exact Hnext.
  - done.
  - apply (free_by_holder (switched (dead st)) (current st) (with_status THREAD_RUNNING x)); [|done|..].
    + change (threads (switched (dead st))) with (alter (with_status THREAD_RUNNING) (next_thread (dead st)) (threads (dead st))).
      change (current (switched (dead st))) with (next_thread (dead st)). by rewrite Hnext, lookup_alter_eq, Hx.
    + change (next_thread (dead st) <> current st). by rewrite Hnext.
    + apply (k_ext Hk).
    + change (holder st PoolLock = next_thread (dead st)). congruence.
Qed.
End Spec.

(** ** Executions *)

(** A page allocator that takes the first free page, for concrete runs. *)
Definition first_page : PageChoice.
Proof.
  refine {| choose_page := fun X => head (elements X) |}.
  - intros X p H. apply elem_of_elements. destruct (elements X); simpl in *; simplify_eq. apply list_elem_of_here.
  - intros X H. apply leibniz_equiv, elements_empty_inv. by destruct (elements X).
Defined.

Fixpoint acts `{PC : PageChoice} (xs : list action) (st : kstate) : res kstate :=
  match xs with [] => Ok st | x :: xs => st ← act x st; acts xs st end.

Definition demo_pages : gset Z := {[8192; 12288; 16384]}.

(** The initial thread creates another one. *)
Definition create_script : list action := Invoke (Call_thread_create 31) :: replicate 16 Run.

(** [permitted], decided, without [thread_exit] and its hazards. *)
Definition allowedb (st : kstate) (a : call) : bool :=
  match a with
  | Call_lock_acquire n | Call_lock_try_acquire n => negb (holder st (UserLock n) =? current st)
  | Call_lock_release n | Call_cond_wait _ n | Call_cond_signal _ n | Call_cond_broadcast _ n =>
      holder st (UserLock n) =? current st
  | Call_thread_exit => false
  | Call_thread_create pri => (PRI_MIN <=? pri) && (pri <=? PRI_MAX)
  | Call_timer_sleep _ => intr_get_level st
  | _ => true
  end.

Definition permittedb (st : kstate) (x : action) : bool :=
  match threads st !! current st with
  | None => false
  | Some c =>
      match x with
      | Run => match code c with [] | Halt :: _ | Exit :: _ => false | _ => true end
      | Invoke a => bool_decide (length (code c) = 0%nat) && allowedb st a
      | Interrupt h => intr_get_level st && match h with Device_interrupt (SemUser _) | Timer_interrupt => true | _ => false end
      end
  end.

Lemma permittedb_sound st x : permittedb st x = true -> permitted st x.
Proof.
  unfold permittedb. destruct (threads st !! current st) as [c|] eqn:Hc; [|done]. destruct x as [|a|h]; simpl.
  - intros H. destruct (code c) as [|i k] eqn:E; [done|]. exists c, i, k. split_and!; try done. by intros ->.
  - intros [Hl Ha]%andb_true_iff. apply bool_decide_eq_true, nil_length_inv in Hl. split; [by exists c|].
    destruct a; simpl in *; try done; try (by apply Z.eqb_eq); try (by apply Z.eqb_neq, negb_true_iff).
    apply andb_true_iff in Ha as [?%Z.leb_le ?%Z.leb_le]. lia.
  - intros [Hon Hh]%andb_true_iff. split; [done|]. destruct h as [|[]]; try done. by eexists.
Qed.

Lemma permittedb_quiet st x : permittedb st x = true -> ~ (x = Run /\ exit_busy st).
Proof.
  intros H [-> [Hn _]]. revert H. unfold permittedb, next_point in *. destruct (threads st !! current st) as [c|]; [|done].
  simpl in Hn. by destruct (code c) as [|[] k].
Qed.

Section Runs.
Context {PC : PageChoice}.

Fixpoint permitted_run (xs : list action) (st : kstate) : bool :=
  match xs with
  | [] => true
  | x :: xs => permittedb st x && match act x st with Ok st' => permitted_run xs st' | Err _ => false end
  end.

Lemma permitted_run_steps xs st : permitted_run xs st = true -> returns (acts xs st) (rtc kstep st).
Proof.
  revert st. induction xs as [|x xs IH]; intros st; simpl; [done|]. intros [Hp Hx]%andb_true_iff.
  destruct (act x st) as [st'|] eqn:E; [|done]. simpl. eapply returns_mono; [by apply IH|].
  intros st2. apply rtc_l. econstructor; [by apply permittedb_sound|by apply permittedb_quiet|done].
Qed.
End Runs.

(** The state after a script, run from a boot on page 4096 with three free pages. *)
Definition demo (xs : list action) : res kstate :=
  st ← boot (PC := first_page) 4096 demo_pages; acts (PC := first_page) xs st.

Definition demo_state (xs : list action) : kstate :=
  match demo xs with Ok st => st | Err _ => boot_state 4096 ∅ end.

Definition demo_permitted (xs : list action) : bool :=
  match boot (PC := first_page) 4096 demo_pages with Ok st => permitted_run (PC := first_page) xs st | Err _ => false end.

Lemma demo_boot_ok : boot_ok 4096 demo_pages.
Proof. split; [split; [done|]|..]; set_solver. Qed.

Lemma demo_reachable xs : demo_permitted xs = true -> reachable (PC := first_page) 4096 demo_pages (demo_state xs).
Proof.
  unfold demo_permitted, demo_state, demo. destruct (boot (PC := first_page) 4096 demo_pages) as [st0|] eqn:E; [|discriminate 1]. intros H.
  pose proof (permitted_run_steps (PC := first_page) xs st0 H) as Hr. cbn [mbind res_bind].
  destruct (acts xs st0) as [st|]; [|destruct Hr]. exists st0. split; [exact E|exact Hr].
Qed.

(** *** Witnesses *)

(** The initial thread has taken a page for a new thread; in the second script it has
    begun to push that thread on [all_list]. *)
Definition hand_script : list action := create_script ++ Invoke (Call_thread_create 31) :: replicate 6 Run.
Definition link_script : list action := create_script ++ Invoke (Call_thread_create 31) :: replicate 7 Run.

Lemma kernel_no_fault_witness :
  let st := demo_state hand_script in
  next_point st = Some (Create_init 8192 31 Function) /\
  (returns (act (PC := first_page) Run st) (reachable (PC := first_page) 4096 demo_pages) \/
   (Run = Run /\ race st /\ act (PC := first_page) Run st = Err DataRace) \/
   (Run = Run /\ exit_busy st)).
Proof.
  split; [vm_compute; reflexivity|]. apply (kernel_no_fault (PC := first_page) 4096 demo_pages).
  - exact demo_boot_ok.
  - apply demo_reachable. vm_compute. reflexivity.
  - apply permittedb_sound. vm_compute. reflexivity.
Defined.

(** The initial thread is inside [palloc_get_multiple], holding the pool's lock. *)
Definition hold_script : list action := create_script ++ [Invoke (Call_thread_create 31); Run; Run; Run].

(** The initial thread sleeps on a semaphore, the second thread runs. *)
Definition wait_script : list action := create_script ++ [Invoke (Call_sema_down 1); Run; Run].

(** Both sleep, and a device's interrupt raises the semaphore while the idle thread runs. *)
Definition wake_script : list action :=
  wait_script ++ [Invoke (Call_sema_down 1); Run; Run; Interrupt (Device_interrupt (SemUser 1))].

Lemma lock_exclusion_witness :
  let st := demo_state hold_script in
  (forall t1 t2, owns st t1 PoolLock -> owns st t2 PoolLock -> t1 = t2) /\
  (value (sema st (SemOf PoolLock)) = 0 /\ (exists t1, owns st t1 PoolLock) \/
   value (sema st (SemOf PoolLock)) = 1 /\ (forall t1, ~ owns st t1 PoolLock)).
Proof.
  apply (lock_exclusion (PC := first_page) 4096 demo_pages).
  - exact demo_boot_ok.
  - apply demo_reachable. vm_compute. reflexivity.
Defined.

Lemma no_lost_wakeup_witness :
  let st := demo_state wake_script in
  waiters (sema st (SemUser 1)) = [16384] /\ value (sema st (SemUser 1)) = 1 /\
  exists t c b, threads st !! t = Some c /\ (status c = THREAD_READY \/ status c = THREAD_RUNNING) /\
    Sema_wait (SemUser 1) b ∈ code c.
Proof.
  split; [vm_compute; reflexivity|]. split; [vm_compute; reflexivity|].
  apply (no_lost_wakeup (PC := first_page) 4096 demo_pages).
  - exact demo_boot_ok.
  - apply demo_reachable. vm_compute. reflexivity.
  - vm_compute. discriminate.
  - vm_compute. reflexivity.
Defined.

Lemma sema_up_fifo_witness :
  let st := demo_state wait_script in
  exists c, threads st !! 4096 = Some c /\ status c = THREAD_BLOCKED /\
  returns (sema_up (SemUser 1) st) (fun st' =>
    threads st' = <[4096 := with_status THREAD_READY c]> (threads st) /\ ready_list st' = ready_list st ++ [4096] /\
    sema st' (SemUser 1) = mk_semaphore (u32 (value (sema st (SemUser 1)) + 1)) [] /\
    (forall s', s' <> SemUser 1 -> sema st' s' = sema st s') /\
    current st' = current st /\ intr st' = intr st /\ holder st' = holder st /\ all_list st' = all_list st).
Proof.
  apply (sema_up_fifo (PC := first_page) 4096 demo_pages).
  - exact demo_boot_ok.
  - apply demo_reachable. vm_compute. reflexivity.
  - vm_compute. reflexivity.
Defined.

Lemma page_exclusive_witness :
  let st := demo_state hand_script in
  in_hand st 8192 4096 /\
  (8192 ∈ demo_pages \/ 8192 = 4096 <->
    8192 ∈ free_pages st \/ is_Some (threads st !! 8192) \/ exists t, in_hand st 8192 t) /\
  (8192 ∈ free_pages st -> threads st !! 8192 = None /\ forall t, ~ in_hand st 8192 t) /\
  (is_Some (threads st !! 8192) -> forall t, ~ in_hand st 8192 t) /\
  (forall t t', in_hand st 8192 t -> in_hand st 8192 t' -> t' = t) /\
  (forall t c, threads st !! t = Some c -> wcode (page_w 8192) (code c) <= 1).
Proof.
  split; [eexists; split; vm_compute; reflexivity|].
  apply (page_exclusive (PC := first_page) 4096 demo_pages).
  - exact demo_boot_ok.
  - apply demo_reachable. vm_compute. reflexivity.
Defined.

Lemma timer_preempts_witness :
  let st := demo_state create_script in
  returns (intr_handler Timer_interrupt st) (fun st' =>
    if TIME_SLICE <=? u32 (thread_ticks (stats st) + 1)
    then current st' = hd (idle_thread st) (requeued st) /\ ready_list st' = tail (requeued st)
    else current st' = current st /\ ready_list st' = ready_list st /\ stats st' = ticked st).
Proof.
  apply (timer_preempts (PC := first_page) 4096 demo_pages).
  - exact demo_boot_ok.
  - apply demo_reachable. vm_compute. reflexivity.
  - vm_compute. reflexivity.
Defined.

Definition demo_thread (st : kstate) (t : Z) : tcb := default (mk_tcb THREAD_DYING 0 0 []) (threads st !! t).

Lemma thread_place_witness :
  let st := demo_state link_script in
  let c := demo_thread st 8192 in
  all_push st = 8192 /\
  (status c = THREAD_RUNNING <-> 8192 = current st) /\
  (8192 ∈ ready_list st <-> status c = THREAD_READY /\ 8192 <> idle_thread st) /\ NoDup (ready_list st) /\
  (8192 ∈ all_list st <-> 8192 <> all_push st /\ status c <> THREAD_DYING) /\ NoDup (all_list st) /\
  (8192 = all_push st -> status c = THREAD_BLOCKED /\ code c = []) /\
  (forall s, 8192 ∈ waiters (sema st s) -> status c = THREAD_BLOCKED /\
    forall s', 8192 ∈ waiters (sema st s') -> s' = s) /\
  (status c = THREAD_BLOCKED -> (exists s, 8192 ∈ waiters (sema st s)) \/ code c = [] \/ code c = [Kernel_thread] \/
    8192 = idle_thread st).
Proof.
  split; [vm_compute; reflexivity|].
  apply (thread_place (PC := first_page) 4096 demo_pages).
  - exact demo_boot_ok.
  - apply demo_reachable. vm_compute. reflexivity.
  - vm_compute. reflexivity.
Defined.

(** The initial thread yields to the one it created. *)
Definition yield_script : list action := create_script ++ [Invoke Call_thread_yield].

Lemma demo_snoc xs x st : demo xs = Ok st -> demo (xs ++ [x]) = act (PC := first_page) x st.
Proof.
  unfold demo. destruct (boot (PC := first_page) 4096 demo_pages) as [st0|]; [|discriminate 1].
  cbn [mbind res_bind]. revert st0. induction xs as [|y xs IH]; intros st0; simpl.
  - intros [= ->]. by destruct (act x st).
  - destruct (act y st0) as [st1|]; [|discriminate 1]. simpl. apply IH.
Qed.

(** One more permitted action is a step. *)
Lemma demo_step xs x : permittedb (demo_state xs) x = true ->
  (match demo (xs ++ [x]) with Ok _ => true | Err _ => false end) = true ->
  kstep (PC := first_page) (demo_state xs) (demo_state (xs ++ [x])).
Proof.
  intros Hp Hd. apply (kstep_act (PC := first_page) _ x); [by apply permittedb_sound|by apply permittedb_quiet|]. revert Hd.
  unfold demo_state at 1 2. destruct (demo xs) as [st|] eqn:E.
  - rewrite (demo_snoc xs x st E). destruct (act x st) as [st'|]; [done|discriminate 1].
  - exfalso. revert Hp. unfold demo_state. rewrite E. discriminate 1.
Qed.

Lemma bounded_waiting_witness :
  let st := demo_state yield_script in
  exists m st1, ksteps (PC := first_page) m st st1 /\ (m <= S (length ([] : list Z)))%nat /\ current st1 = 16384 /\
    rtc (kstep (PC := first_page)) st1 (demo_state (yield_script ++ [Run])).
Proof.
  apply (bounded_waiting (PC := first_page) 4096 demo_pages 1 _ _ [] 16384 []).
  - exact demo_boot_ok.
  - apply demo_reachable. vm_compute. reflexivity.
  - vm_compute. reflexivity.
  - apply (ks_step (PC := first_page) 0 (demo_state yield_script) (demo_state (yield_script ++ [Run]))).
    + apply demo_step; vm_compute; reflexivity.
    + apply ks_done.
  - apply Nat.lt_0_1.
Defined.

(** *** The initial thread is preempted with the lock of the pool in hand; the second
    thread starts and calls [thread_exit] *)

Definition four_ticks : list action :=
  [Interrupt Timer_interrupt; Run; Interrupt Timer_interrupt; Run; Interrupt Timer_interrupt; Run;
   Interrupt Timer_interrupt].

Definition preempt_script : list action := hold_script ++ four_ticks ++ [Run].
Definition panic_script : list action := preempt_script ++ [Invoke Call_thread_exit].

Lemma panic_reachable : reachable (PC := first_page) 4096 demo_pages (demo_state panic_script).
Proof.
  apply (reachable_step (PC := first_page) 4096 demo_pages (demo_state preempt_script)).
  - apply demo_reachable. vm_compute. reflexivity.
  - apply (kstep_act (PC := first_page) _ (Invoke Call_thread_exit)).
    + split; [eexists; split; vm_compute; reflexivity|]. intros n. vm_compute. discriminate.
    + intros [? _]. discriminate.
    + vm_compute. reflexivity.
Qed.

Lemma exit_under_pool_lock_panics_witness :
  let st := demo_state panic_script in
  exists st1, run (PC := first_page) st = Ok st1 /\ current st1 = 4096 /\ holder st1 PoolLock = 4096 /\
    run (PC := first_page) st1 = Err AssertFail.
Proof.
  apply (exit_under_pool_lock_panics (PC := first_page) 4096 demo_pages _ 4096 []).
  - exact demo_boot_ok.
  - exact panic_reachable.
  - vm_compute. reflexivity.
  - vm_compute. discriminate.
  - intros [H _]. revert H. vm_compute. intros H. by apply H.
  - vm_compute. reflexivity.
  - vm_compute. reflexivity.
Defined.

(** *** The initial thread is preempted in the middle of its push on [all_list]; the
    second thread, the last one of the list, calls [thread_exit] *)

Definition unlink_script : list action := link_script ++ four_ticks ++ [Run].
Definition race_script : list action := unlink_script ++ [Invoke Call_thread_exit].

(** The race of [kernel_no_fault] does happen in a run in which every call is within its
    contract, and it is not a case of [exit_busy]. *)
Lemma race_happens :
  let st := demo_state race_script in
  reachable (PC := first_page) 4096 demo_pages st /\ race st /\ ~ exit_busy st /\
  act (PC := first_page) Run st = Err DataRace.
Proof.
  split; [|split_and!; vm_compute; try reflexivity; [split; [discriminate|reflexivity]|by intros (_ & _ & ?)]].
  apply (reachable_step (PC := first_page) 4096 demo_pages (demo_state unlink_script)).
  - apply demo_reachable. vm_compute. reflexivity.
  - apply (kstep_act (PC := first_page) _ (Invoke Call_thread_exit)).
    + split; [eexists; split; vm_compute; reflexivity|]. intros n. vm_compute. discriminate.
    + intros [? _]. discriminate.
    + vm_compute. reflexivity.
Qed.
