(* ===== verification/Rtc.v ===== *)
(** * The real-time clock (devices/rtc.c)

    Reading the clock's registers through the CMOS ports, and the conversion to seconds
    since 1970. *)

From stdpp Require Import base list numbers.
From Stdlib Require Import ZArith Lia.
From S2P Require Import Prelude Ports.

Local Open Scope Z_scope.

Definition CMOS_REG_SET : Z := 0x70.
Definition CMOS_REG_IO : Z := 0x71.
Definition RTC_REG_SEC : Z := 0.
Definition RTC_REG_MIN : Z := 2.
Definition RTC_REG_HOUR : Z := 4.
Definition RTC_REG_MDAY : Z := 7.
Definition RTC_REG_MON : Z := 8.
Definition RTC_REG_YEAR : Z := 9.

Definition bcd_to_bin (x : Z) : Z := Z.land x 0x0f + Z.shiftr x 4 * 10.

Definition days_per_month : list Z := [31; 28; 31; 30; 31; 30; 31; 31; 30; 31; 30; 31].

(** The components in the order in which they are read. *)
Record rtc_time := mk_rtc_time { t_sec : Z; t_min : Z; t_hour : Z; t_mday : Z; t_mon : Z; t_year : Z }.

(** The second half of [rtc_get_time]; int and time_t have 32 bits. *)
Definition rtc_seconds (t : rtc_time) : res Z :=
  let year := (if t_year t <? 70 then t_year t + 100 else t_year t) - 70 in
  let time := i32 ((year * 365 + Z.quot (year - 1) 4) * 24 * 60 * 60) in
  time ← while (fun '(i, time) =>
    if i <=? t_mon t then
      d ← rd days_per_month (i - 1);
      Ok (inl (i + 1, u32 (time + d * 24 * 60 * 60)))
    else Ok (inr time)) (1, u32 time);
  let time := if (2 <? t_mon t) && (Z.rem year 4 =? 0) then u32 (time + 24 * 60 * 60) else time in
  let time := u32 (time + (t_mday t - 1) * 24 * 60 * 60) in
  let time := u32 (time + t_hour t * 60 * 60) in
  let time := u32 (time + t_min t * 60) in
  Ok (u32 (time + t_sec t)).

Section Clock.
Context {D : Device}.

Definition cmos_read (index : Z) (tr : list io_event) : Z * list io_event :=
  inb CMOS_REG_IO (outb CMOS_REG_SET index tr).

Definition rtc_get_time (tr : list io_event) : res (Z * list io_event) :=
  '(t, tr) ← while (fun tr =>
    let '(sec, tr) := cmos_read RTC_REG_SEC tr in
    let '(min, tr) := cmos_read RTC_REG_MIN tr in
    let '(hour, tr) := cmos_read RTC_REG_HOUR tr in
    let '(mday, tr) := cmos_read RTC_REG_MDAY tr in
    let '(mon, tr) := cmos_read RTC_REG_MON tr in
    let '(year, tr) := cmos_read RTC_REG_YEAR tr in
    let '(sec', tr) := cmos_read RTC_REG_SEC tr in
    if negb (bcd_to_bin sec =? bcd_to_bin sec') then Ok (inl tr)
    else Ok (inr (mk_rtc_time (bcd_to_bin sec) (bcd_to_bin min) (bcd_to_bin hour) (bcd_to_bin mday)
                    (bcd_to_bin mon) (bcd_to_bin year), tr))) tr;
  time ← rtc_seconds t;
  Ok (time, tr).
End Clock.

(** ** The calendar *)

Definition leap_year (y : Z) : bool := (y mod 4 =? 0) && (negb (y mod 100 =? 0) || (y mod 400 =? 0)).
Definition days_in_month (y m : Z) : Z :=
  if m =? 2 then (if leap_year y then 29 else 28) else nth (Z.to_nat (m - 1)) days_per_month 0.
Definition sum (l : list Z) : Z := foldr Z.add 0 l.
Definition days_in_year (y : Z) : Z := sum (days_in_month y <$> seqZ 1 12).

(** Days from 1 January 1970 to the first day of month [m] of year [y], and the seconds to
    a time of day. *)
Definition month_start (y m : Z) : Z :=
  sum (days_in_year <$> seqZ 1970 (y - 1970)) + sum (days_in_month y <$> seqZ 1 (m - 1)).
Definition unix_time (y : Z) (t : rtc_time) : Z :=
  (month_start y (t_mon t) + t_mday t - 1) * 86400 + t_hour t * 3600 + t_min t * 60 + t_sec t.

(** The year of a time read from the clock, which has two digits. *)
Definition full_year (t : rtc_time) : Z := if t_year t <? 70 then 2000 + t_year t else 1900 + t_year t.

(** A time of the clock up to the end of 2037.  The clock can show years up to 2069, for
    which the first product of [rtc_get_time] overflows int, which is undefined in C. *)
Definition valid_time (t : rtc_time) : Prop :=
  0 <= t_year t < 100 /\ full_year t <= 2037 /\ 1 <= t_mon t <= 12 /\ 1 <= t_mday t <= days_in_month (full_year t) (t_mon t) /\
  0 <= t_hour t < 24 /\ 0 <= t_min t < 60 /\ 0 <= t_sec t < 60.

(** What the code counts up to the first day of a month, in days. *)
Definition code_start (year mon : Z) : Z :=
  year * 365 + Z.quot (year - 1) 4 + sum (take (Z.to_nat mon) days_per_month) +
  (if (2 <? mon) && (Z.rem year 4 =? 0) then 1 else 0).

Lemma code_starts : forallb (fun y => forallb (fun m =>
  (27 <=? code_start (y - 1970) m - month_start y m) && (code_start (y - 1970) m - month_start y m <=? 32) &&
  (0 <=? month_start y m) && (month_start y m <? 25000)) (seqZ 1 12)) (seqZ 1970 68) = true.
Proof. vm_compute. reflexivity. Qed.

Lemma foldr_sum (l : list Z) z : foldr Z.add z l = foldr Z.add 0 l + z.
Proof. induction l as [|x l IH]; simpl; lia. Qed.

Lemma u32_i32 z : u32 (i32 z) = u32 z.
Proof. unfold u32, i32. rewrite Zminus_mod_idemp_l. f_equal. lia. Qed.

Lemma u32_add_l a b : u32 (u32 a + b) = u32 (a + b).
Proof. apply Z.add_mod_idemp_l. done. Qed.

(** Removes the inner wrap-arounds of a sum, innermost first. *)
Ltac u32_flat :=
  match goal with |- context [u32 (u32 ?a + ?b)] =>
    lazymatch a with context [u32 _] => fail | _ => rewrite (u32_add_l a b) end
  end.

Lemma months_loop mon time : 0 <= mon <= 12 -> 0 <= time < 2 ^ 32 ->
  while (fun '(i, time) =>
    if i <=? mon then
      d ← rd days_per_month (i - 1);
      Ok (inl (i + 1, u32 (time + d * 24 * 60 * 60)))
    else Ok (inr time)) (1, time) = Ok (u32 (time + sum (take (Z.to_nat mon) days_per_month) * 86400)).
Proof.
  intros Hm Ht. apply returns_eq.
  apply (returns_while (fun '(i, x) => 1 <= i <= mon + 1 /\ x = u32 (time + sum (take (Z.to_nat (i - 1)) days_per_month) * 86400))
    (fun '(i, _) => mon + 1 - i)); [| |lia].
  - intros [i x] [Hi ->]. split; [lia|]. destruct (Z.leb_spec i mon).
    + destruct (rd_inr days_per_month (i - 1)) as [d Hd]; [simpl; lia|]. rewrite Hd, bind_ok. apply returns_ok. split; [|lia].
      split; [lia|]. apply rd_ok in Hd as [_ Hd]. replace (Z.to_nat (i + 1 - 1)) with (S (Z.to_nat (i - 1))) by lia.
      rewrite (take_S_r _ _ _ Hd). unfold sum, u32. rewrite foldr_app. simpl. rewrite Z.add_mod_idemp_l by lia. f_equal.
      rewrite (foldr_sum (take _ _) (d + 0)). lia.
    + apply returns_ok. by replace (Z.to_nat (i - 1)) with (Z.to_nat mon) by lia.
  - split; [lia|]. symmetry. simpl. rewrite Z.add_0_r. by apply Z.mod_small.
Qed.

Lemma days_in_month_le y m : days_in_month y m <= 31.
Proof.
  unfold days_in_month. destruct (m =? 2); [by destruct (leap_year y)|]. generalize (Z.to_nat (m - 1)). intros k.
  do 12 (destruct k as [|k]; [simpl; lia|]). by destruct k.
Qed.

(** What [rtc_seconds] computes, without wrap-around. *)
Lemma rtc_seconds_eq t : valid_time t -> exists c, rtc_seconds t = Ok (c * 86400 + unix_time (full_year t) t) /\ 27 <= c <= 32.
Proof.
  intros (Hy & Hfy & Hmon & Hd & Hh & Hmi & Hs). set (y := full_year t) in *.
  assert (1970 <= y <= 2037) as Hyr by (subst y; unfold full_year in *; zbool).
  pose proof code_starts as Hc. rewrite forallb_forall in Hc. specialize (Hc y ltac:(apply list_elem_of_In, elem_of_seqZ; lia)).
  rewrite forallb_forall in Hc. specialize (Hc (t_mon t) ltac:(apply list_elem_of_In, elem_of_seqZ; lia)).
  set (st := month_start y (t_mon t)) in *. set (cs := code_start (y - 1970) (t_mon t)) in *.
  exists (cs - st). split; [|zbool].
  pose proof (days_in_month_le y (t_mon t)) as Hdm.
  assert (rtc_seconds t = Ok (u32 (cs * 86400 + (t_mday t - 1) * 24 * 60 * 60 + t_hour t * 60 * 60 + t_min t * 60 + t_sec t))) as ->.
  - unfold rtc_seconds. assert ((if t_year t <? 70 then t_year t + 100 else t_year t) - 70 = y - 1970) as -> by (subst y; unfold full_year; zcases; lia).
    rewrite u32_i32, months_loop, bind_ok by (lia || apply Z.mod_pos_bound; lia).
    subst cs. unfold code_start. f_equal. destruct ((2 <? t_mon t) && _); repeat u32_flat; f_equal; lia.
  - unfold unix_time. fold y. fold st. f_equal. rewrite u32_small by zbool. lia.
Qed.

(** ** A clock that stands still *)

Definition bcd (n : Z) : Z := n / 10 * 16 + n mod 10.

(** The device shows the time [t] in its registers. *)
Definition shows {D : Device} (t : rtc_time) : Prop := forall tr,
  let reg i := dev (outb CMOS_REG_SET i tr) CMOS_REG_IO in
  reg RTC_REG_SEC = bcd (t_sec t) /\ reg RTC_REG_MIN = bcd (t_min t) /\ reg RTC_REG_HOUR = bcd (t_hour t) /\
  reg RTC_REG_MDAY = bcd (t_mday t) /\ reg RTC_REG_MON = bcd (t_mon t) /\ reg RTC_REG_YEAR = bcd (t_year t).

Lemma bcd_round_trip n : 0 <= n < 100 -> bcd_to_bin (u8 (bcd n)) = n.
Proof.
  intros Hn. assert (forallb (fun n => bcd_to_bin (u8 (bcd n)) =? n) (seqZ 0 100) = true) as H by (vm_compute; reflexivity).
  rewrite forallb_forall in H. apply Z.eqb_eq, H, list_elem_of_In, elem_of_seqZ. lia.
Qed.

Lemma cmos_read_shown {D : Device} i tr n : dev (outb CMOS_REG_SET i tr) CMOS_REG_IO = bcd n -> 0 <= n < 100 ->
  exists v tr', cmos_read i tr = (v, tr') /\ bcd_to_bin v = n.
Proof. intros Hd Hn. unfold cmos_read, inb. rewrite Hd. eexists _, _. split; [done|]. by apply bcd_round_trip. Qed.

Lemma rtc_get_time_shown {D : Device} t tr : shows t -> valid_time t ->
  exists tr', rtc_get_time tr = (time ← rtc_seconds t; Ok (time, tr')).
Proof.
  intros Hs (Hy & Hfy & Hmon & Hd & Hh & Hmi & Hsec). pose proof (days_in_month_le (full_year t) (t_mon t)).
  destruct (cmos_read_shown RTC_REG_SEC tr (t_sec t)) as (v1 & tr1 & E1 & B1); [apply Hs|lia|].
  destruct (cmos_read_shown RTC_REG_MIN tr1 (t_min t)) as (v2 & tr2 & E2 & B2); [apply Hs|lia|].
  destruct (cmos_read_shown RTC_REG_HOUR tr2 (t_hour t)) as (v3 & tr3 & E3 & B3); [apply Hs|lia|].
  destruct (cmos_read_shown RTC_REG_MDAY tr3 (t_mday t)) as (v4 & tr4 & E4 & B4); [apply Hs|lia|].
  destruct (cmos_read_shown RTC_REG_MON tr4 (t_mon t)) as (v5 & tr5 & E5 & B5); [apply Hs|lia|].
  destruct (cmos_read_shown RTC_REG_YEAR tr5 (t_year t)) as (v6 & tr6 & E6 & B6); [apply Hs|lia|].
  destruct (cmos_read_shown RTC_REG_SEC tr6 (t_sec t)) as (v7 & tr7 & E7 & B7); [apply Hs|lia|].
  exists tr7. unfold rtc_get_time. match goal with |- context [while ?b tr] => assert (b tr = Ok (inr (t, tr7))) as Hb end.
  { rewrite E1, E2, E3, E4, E5, E6, E7, B1, B2, B3, B4, B5, B6, B7, Z.eqb_refl. by destruct t. }
  rewrite (while_stop _ _ _ Hb). exact (bind_ok _ _).
Qed.

(** C38: The clock is read a month late.  For every date from 1970 to 2037 and every time
    of day that a clock standing still shows, [rtc_get_time] returns, and its result exceeds the Unix time of
    that date by 27 to 32 days: the days of the current month are counted as past, and the
    leap days are counted for the wrong years. *)
Theorem rtc_month_late {D : Device} t tr : shows t -> valid_time t ->
  exists days tr', rtc_get_time tr = Ok (unix_time (full_year t) t + days * 86400, tr') /\ 27 <= days <= 32.
Proof.
  intros Hs Hv. destruct (rtc_get_time_shown t tr Hs Hv) as [tr' ->]. destruct (rtc_seconds_eq t Hv) as (c & -> & Hc).
  exists c, tr'. rewrite bind_ok, Z.add_comm. done.
Qed.

(** 29 February 2000, 12:34:56. *)
Definition leap_noon : rtc_time := mk_rtc_time 56 34 12 29 2 0.

Definition still_clock : Device := fun tr _ =>
  match list.last tr with
  | Some (Out _ i) =>
    bcd (if i =? RTC_REG_SEC then t_sec leap_noon else if i =? RTC_REG_MIN then t_min leap_noon
         else if i =? RTC_REG_HOUR then t_hour leap_noon else if i =? RTC_REG_MDAY then t_mday leap_noon
         else if i =? RTC_REG_MON then t_mon leap_noon else t_year leap_noon)
  | _ => 0
  end.

Lemma rtc_month_late_witness : exists days tr',
  rtc_get_time (D := still_clock) [] = Ok (unix_time 2000 leap_noon + days * 86400, tr') /\ 27 <= days <= 32.
Proof.
  apply (rtc_month_late (D := still_clock) leap_noon []).
  - intros tr reg. repeat split; unfold reg, outb, dev, still_clock; rewrite list.last_snoc; reflexivity.
  - repeat split; vm_compute; congruence.
Defined.
