(* ===== verification/Pit.v ===== *)
(** * The programmable interval timer (devices/pit.c)

    The programming of a channel of the 8254, as port accesses, and the frequency the
    chip then runs at. *)

From stdpp Require Import base list numbers.
From Stdlib Require Import ZArith Lia.
From S2P Require Import Prelude Ports Kernel.

Local Open Scope Z_scope.

Definition PIT_PORT_CONTROL : Z := 0x43.
Definition PIT_PORT_COUNTER (channel : Z) : Z := 0x40 + channel.
Definition PIT_HZ : Z := 1193180.
Definition TIMER_FREQ : Z := 100.

(** [count], of type uint16_t. *)
Definition pit_count (frequency : Z) : Z :=
  if frequency <? 19 then 0
  else if PIT_HZ <? frequency then 2
  else u16 (Z.quot (PIT_HZ + Z.quot frequency 2) frequency).

Definition pit_configure_channel (channel mode frequency : Z) (st : kstate) (tr : list io_event) : res (kstate * list io_event) :=
  ASSERT ((channel =? 0) || (channel =? 2));;
  ASSERT ((mode =? 2) || (mode =? 3));;
  let count := pit_count frequency in
  let old_level := intr_get_level st in
  let st := intr_disable st in
  let tr := outb PIT_PORT_CONTROL (Z.lor (Z.lor (Z.shiftl channel 6) 0x30) (Z.shiftl mode 1)) tr in
  let tr := outb (PIT_PORT_COUNTER channel) count tr in
  let tr := outb (PIT_PORT_COUNTER channel) (Z.shiftr count 8) tr in
  st ← intr_set_level old_level st;
  Ok (st, tr).

(** ** The chip

    After a control word that selects a channel with access to both bytes, the low and the
    high byte of the count are written to the channel's port; 0 stands for 65536. *)
Record pit_channel := mk_pit_channel { pc_mode : Z; pc_count : Z }.

Definition pit_program (channel : Z) (es : list io_event) : option pit_channel :=
  match es with
  | [Out p c; Out q lo; Out q' hi] =>
    if (p =? 0x43) && (q =? 0x40 + channel) && (q' =? 0x40 + channel) &&
       (Z.shiftr c 6 =? channel) && (Z.land (Z.shiftr c 4) 3 =? 3)
    then let n := lo + 256 * hi in Some (mk_pit_channel (Z.land (Z.shiftr c 1) 7) (if n =? 0 then 65536 else n))
    else None
  | _ => None
  end.

Lemma pit_count_range f : 0 <= pit_count f < 2 ^ 16.
Proof. unfold pit_count, PIT_HZ. zcases; try lia. unfold u16. apply Z.mod_pos_bound. lia. Qed.

(** The count in the range of frequencies that the chip can do. *)
Lemma pit_count_mid f : 19 <= f <= PIT_HZ -> pit_count f = (PIT_HZ + f / 2) / f /\ 1 <= pit_count f.
Proof.
  unfold PIT_HZ, pit_count. intros Hf. rewrite (proj2 (Z.ltb_ge f 19)), (proj2 (Z.ltb_ge _ f)) by (unfold PIT_HZ; lia).
  unfold PIT_HZ. pose proof (Z.div_pos f 2 ltac:(lia) ltac:(lia)). rewrite (Z.quot_div_nonneg f 2), Z.quot_div_nonneg by lia.
  assert (1 <= (1193180 + f / 2) / f) by (apply Z.div_le_lower_bound; lia).
  assert ((1193180 + f / 2) / f < 2 ^ 16) by (apply Z.div_lt_upper_bound; Z.div_mod_to_equations; lia).
  unfold u16. rewrite Z.mod_small by lia. done.
Qed.

(** The bytes that [pit_configure_channel] writes, as the chip takes them. *)
Lemma pit_programmed channel mode f st tr : channel = 0 \/ channel = 2 -> mode = 2 \/ mode = 3 ->
  intr_context st = false ->
  exists es st', pit_configure_channel channel mode f st tr = Ok (st', tr ++ es) /\ intr_get_level st' = intr_get_level st /\
    pit_program channel es = Some (mk_pit_channel mode (if pit_count f =? 0 then 65536 else pit_count f)).
Proof.
  intros Hc Hm Hi. unfold pit_configure_channel. rewrite !assert_bind by zbool.
  exists [Out PIT_PORT_CONTROL (u8 (Z.lor (Z.lor (Z.shiftl channel 6) 0x30) (Z.shiftl mode 1)));
          Out (PIT_PORT_COUNTER channel) (u8 (pit_count f)); Out (PIT_PORT_COUNTER channel) (u8 (Z.shiftr (pit_count f) 8))].
  pose proof (pit_count_range f) as Hr. assert (exists st', intr_set_level (intr_get_level st) (intr_disable st) = Ok st' /\
    intr_get_level st' = intr_get_level st) as (st' & -> & Hl).
  { destruct (intr_get_level st) eqn:E; simpl; [|eauto]. unfold intr_enable. rewrite assert_bind by (change (intr_context (intr_disable st)) with (intr_context st); by rewrite Hi). eauto. }
  exists st'. unfold outb. rewrite <- !app_assoc. split; [done|]. split; [done|]. unfold pit_program, PIT_PORT_COUNTER.
  assert (u8 (pit_count f) + 256 * u8 (Z.shiftr (pit_count f) 8) = pit_count f) as ->.
  { rewrite Z.shiftr_div_pow2 by lia. unfold u8. Z.div_mod_to_equations; lia. }
  destruct Hc as [-> | ->], Hm as [-> | ->]; done.
Qed.

(** The timer chip runs at the frequency asked for.  From 19 Hz to the clock of the
    chip the count that [pit_configure_channel] programs is the divisor nearest to
    [PIT_HZ / frequency]; below 19 Hz it is the largest divisor, above the clock the
    smallest legal one.  From 795454 Hz to the clock the divisor is 1, which the chip does
    not support in mode 2.  The mode is the one asked for and the interrupt level is kept. *)
Theorem pit_frequency channel mode f st tr : channel = 0 \/ channel = 2 -> mode = 2 \/ mode = 3 -> intr_context st = false ->
  exists es st' n, pit_configure_channel channel mode f st tr = Ok (st', tr ++ es) /\ intr_get_level st' = intr_get_level st /\
    pit_program channel es = Some (mk_pit_channel mode n) /\ 1 <= n <= 65536 /\
    (19 <= f <= PIT_HZ -> forall n', Z.abs (PIT_HZ - n * f) <= Z.abs (PIT_HZ - n' * f)) /\
    (f < 19 -> n = 65536) /\ (PIT_HZ < f -> n = 2) /\ (n = 1 <-> 795454 <= f <= PIT_HZ).
Proof.
  intros Hc Hm Hi. destruct (pit_programmed channel mode f st tr Hc Hm Hi) as (es & st' & H1 & H2 & H3).
  exists es, st', (if pit_count f =? 0 then 65536 else pit_count f). split; [done|]. split; [done|]. split; [done|].
  pose proof (pit_count_range f). split; [zcases; lia|]. split; [|split; [|split]].
  - intros Hf n'. destruct (pit_count_mid f Hf) as [Hq H0]. rewrite (proj2 (Z.eqb_neq _ _)) by lia. rewrite Hq.
    assert (Z.abs (PIT_HZ - (PIT_HZ + f / 2) / f * f) * 2 <= f) as Hn by (unfold PIT_HZ; Z.div_mod_to_equations; nia).
    set (c := (PIT_HZ + f / 2) / f) in *. destruct (decide (n' = c)) as [->|]; [lia|]. nia.
  - intros Hf. unfold pit_count. by rewrite (proj2 (Z.ltb_lt _ _)) by lia.
  - intros Hf. unfold pit_count. rewrite (proj2 (Z.ltb_ge _ _)) by (unfold PIT_HZ in *; lia). by rewrite (proj2 (Z.ltb_lt _ _)) by lia.
  - destruct (decide (19 <= f <= PIT_HZ)) as [Hf|Hf].
    + destruct (pit_count_mid f Hf) as [Hq H0]. rewrite (proj2 (Z.eqb_neq _ _)) by lia. rewrite Hq. unfold PIT_HZ in *.
      split; intros; Z.div_mod_to_equations; nia.
    + unfold pit_count. destruct (Z.ltb_spec f 19), (Z.ltb_spec PIT_HZ f); simpl; unfold PIT_HZ in *; lia.
Qed.

Lemma pit_frequency_witness : exists es st' n,
  pit_configure_channel 0 2 TIMER_FREQ (boot_state 4096 ∅) [] = Ok (st', es) /\ pit_program 0 es = Some (mk_pit_channel 2 n) /\
  forall n', Z.abs (PIT_HZ - n * TIMER_FREQ) <= Z.abs (PIT_HZ - n' * TIMER_FREQ).
Proof.
  destruct (pit_frequency 0 2 TIMER_FREQ (boot_state 4096 ∅) []) as (es & st' & n & H1 & _ & H2 & _ & H3 & _);
    [by left|by left|done|]. exists es, st', n. split; [exact H1|]. split; [exact H2|]. apply H3. unfold TIMER_FREQ, PIT_HZ. lia.
Defined.
