(* ===== verification/Timer.v ===== *)
(** * Delays (devices/timer.c)

    The calibration of the busy-wait loop and the conversion of real time into ticks or
    loops.  How long a loop takes is a matter of the machine: [too_many_loops] is a
    parameter.  The tick itself and [timer_sleep] are in [Kernel]. *)

From stdpp Require Import base list numbers.
From Stdlib Require Import ZArith Lia.
From S2P Require Import Prelude Ports Kernel Pit.

Local Open Scope Z_scope.

Section Calibrate.
Context (too_many_loops : Z -> bool).

(** The first loop: doubling. *)
Definition double_loops (loops_per_tick : Z) : res (Z + Z) :=
  if negb (too_many_loops (u32 (Z.shiftl loops_per_tick 1))) then
    let loops_per_tick := u32 (Z.shiftl loops_per_tick 1) in
    ASSERT (negb (loops_per_tick =? 0));;
    Ok (inl loops_per_tick)
  else Ok (inr loops_per_tick).

(** The second loop: the next bits. *)
Definition refine_loops (high_bit : Z) (s : Z * Z) : res (Z * Z + Z) :=
  let '(test_bit, loops_per_tick) := s in
  if negb (test_bit =? Z.shiftr high_bit 10) then
    let loops_per_tick := if negb (too_many_loops (Z.lor high_bit test_bit)) then Z.lor loops_per_tick test_bit
                          else loops_per_tick in
    Ok (inl (Z.shiftr test_bit 1, loops_per_tick))
  else Ok (inr loops_per_tick).

(** The result is [loops_per_tick]; the messages are left out. *)
Definition timer_calibrate (st : kstate) : res Z :=
  ASSERT (intr_get_level st);;
  high_bit ← while double_loops (Z.shiftl 1 10);
  while (refine_loops high_bit) (Z.shiftr high_bit 1, high_bit).
End Calibrate.

(** What a delay comes down to: sleeping for ticks, or busy-waiting for loops. *)
Inductive pause := Sleep (ticks : Z) | Busy_wait (loops : Z).

Section Delay.
Context (loops_per_tick : Z).

Definition real_time_delay (num denom : Z) : res pause :=
  ASSERT (Z.rem denom 1000 =? 0);;
  Ok (Busy_wait (Z.quot (i64 (Z.quot (i64 (loops_per_tick * num)) 1000 * TIMER_FREQ)) (Z.quot denom 1000))).

Definition real_time_sleep (num denom : Z) (st : kstate) : res pause :=
  let ticks := Z.quot (i64 (num * TIMER_FREQ)) denom in
  ASSERT (intr_get_level st);;
  if 0 <? ticks then Ok (Sleep ticks) else real_time_delay num denom.

Definition timer_msleep (ms : Z) (st : kstate) : res pause := real_time_sleep ms 1000 st.
Definition timer_usleep (us : Z) (st : kstate) : res pause := real_time_sleep us (1000 * 1000) st.
Definition timer_nsleep (ns : Z) (st : kstate) : res pause := real_time_sleep ns (1000 * 1000 * 1000) st.
Definition timer_mdelay (ms : Z) : res pause := real_time_delay ms 1000.
Definition timer_udelay (us : Z) : res pause := real_time_delay us (1000 * 1000).
Definition timer_ndelay (ns : Z) : res pause := real_time_delay ns (1000 * 1000 * 1000).
End Delay.

(** The calibrated speed, and what other threads, interrupts and devices do while a thread
    pauses: a parameter of the drivers that pause. *)
Class Pausing := {
  loops_per_tick : Z;
  during : pause -> kstate * list io_event -> res (kstate * list io_event)
}.

(** ** Calibration *)

Section Calibrated.
(** The machine does [limit] loops in a tick and not more. *)
Context (limit : Z).
Let too_many (loops : Z) : bool := limit <? loops.

Lemma double_loops_spec : 2 ^ 10 <= limit < 2 ^ 31 ->
  returns (while (double_loops too_many) (Z.shiftl 1 10)) (fun h => exists k, 10 <= k < 31 /\ h = 2 ^ k /\ 2 ^ k <= limit < 2 ^ (k + 1)).
Proof.
  intros Hl. apply (returns_while_ix (fun n h => exists k, 10 <= k < 31 /\ h = 2 ^ k /\ 2 ^ k <= limit /\ n = 31 - k)) with 21.
  - intros n h (k & Hk & -> & Hle & ->). split; [lia|]. unfold double_loops, too_many.
    rewrite Z.shiftl_mul_pow2 by lia. replace (2 ^ k * 2 ^ 1) with (2 ^ (k + 1)) by (rewrite Z.pow_add_r; lia).
    assert (2 ^ (k + 1) <= 2 ^ 31) by (apply Z.pow_le_mono_r; lia). assert (0 < 2 ^ (k + 1)) by (apply Z.pow_pos_nonneg; lia).
    rewrite u32_small by lia. destruct (Z.ltb_spec limit (2 ^ (k + 1))); simpl.
    + exists k. lia.
    + rewrite assert_bind by zbool. apply returns_ok. exists (31 - (k + 1)). split; [lia|]. exists (k + 1). split; [|lia].
      split; [lia|]. apply (Z.pow_lt_mono_r_iff 2); lia.
  - exists 10. split; [lia|]. split; [done|]. lia.
  - lia.
Qed.

(** After the bits above [e]: what has been added is a multiple of 2^e and, once it is not
    0, at most twice what was missing; it is all ones if the first bit fits. *)
Record refined (k e s : Z) : Prop := mk_refined {
  rf_e : k - 9 <= e <= k;
  rf_s : 0 <= s;
  rf_below : s * 2 ^ e + 2 ^ e <= 2 ^ k;
  rf_over : s = 0 \/ s * 2 ^ e + 2 ^ e <= 2 * (limit - 2 ^ k);
  rf_under : limit - 2 ^ k < s * 2 ^ e + 2 ^ e;
  rf_fill : 2 ^ (k - 1) <= limit - 2 ^ k -> s * 2 ^ e + 2 ^ e = 2 ^ k
}.

Lemma refine_loops_spec k : 10 <= k < 31 -> 2 ^ k <= limit < 2 ^ (k + 1) ->
  returns (while (refine_loops too_many (2 ^ k)) (Z.shiftr (2 ^ k) 1, 2 ^ k)) (fun l => exists s, l = 2 ^ k + s * 2 ^ (k - 9) /\ refined k (k - 9) s).
Proof.
  intros Hk Hl. apply (returns_while_ix (fun n '(tb, l) => exists s, refined k n s /\ tb = 2 ^ (n - 1) /\ l = 2 ^ k + s * 2 ^ n)) with k.
  - intros e [tb l] (s & [] & -> & ->). split; [lia|]. unfold refine_loops, too_many.
    rewrite (Z.shiftr_div_pow2 (2 ^ k)), <- Z.pow_sub_r by lia. assert (2 ^ e = 2 * 2 ^ (e - 1)) as E by (rewrite <- Z.pow_succ_r by lia; f_equal; lia).
    assert (0 < 2 ^ (e - 1)) as Hp by (apply Z.pow_pos_nonneg; lia). destruct (Z.eqb_spec (2 ^ (e - 1)) (2 ^ (k - 10))) as [Eq|Hne]; simpl.
    + apply Z.pow_inj_r in Eq; [|lia..]. assert (e = k - 9) as -> by lia. exists s. split; [done|]. by split.
    + assert (e <> k - 9) by (intros ->; apply Hne; f_equal; lia). exists (e - 1). split; [lia|].
      assert (2 ^ k = 2 ^ (k - e) * 2 ^ e) as Ek by (rewrite <- Z.pow_add_r by lia; f_equal; lia).
      assert (forall x, Z.lor (2 ^ k + x * 2 ^ e) (2 ^ (e - 1)) = 2 ^ k + x * 2 ^ e + 2 ^ (e - 1)) as Hor.
      { intros x. rewrite Z.lor_comm. replace (2 ^ k + x * 2 ^ e) with ((2 ^ (k - e) + x) * 2 ^ e) by lia. rewrite lor_low by lia. lia. }
      assert (2 ^ (e - 1) <= 2 ^ (k - 1)) by (apply Z.pow_le_mono_r; lia). pose proof (Hor 0) as Hor0. rewrite Z.mul_0_l, Z.add_0_r in Hor0. rewrite Hor0, Hor.
      rewrite Z.shiftr_div_pow2, <- Z.pow_sub_r by lia. destruct (Z.ltb_spec limit (2 ^ k + 2 ^ (e - 1))); simpl.
      * exists (2 * s). split; [|split; [done|lia]]. split; try lia.
      * exists (2 * s + 1). split; [|split; [done|lia]]. split; try lia.
  - exists 0. rewrite Z.shiftr_div_pow2, <- Z.pow_sub_r by lia. split; [|split; [done|lia]]. split; try lia.
    rewrite Z.pow_add_r in Hl by lia. lia.
  - lia.
Qed.
End Calibrated.

(** C36: The calibration of the delay loop.  On a machine that does [limit] loops in a tick,
    from 2^10 up to 2^31, [timer_calibrate] returns; its result misses at most one part in
    512 of [limit] from below.  From above it can be off by a third, and nearly is for
    [limit] = 3 * 2^k, since from there to 4 * 2^k the result is the same: the second loop tests each bit together with the highest one only
    and not with the bits already found, and so sets all bits below the first that fits. *)
Theorem timer_calibrate_bounds limit st : 2 ^ 10 <= limit < 2 ^ 31 -> intr_get_level st = true ->
  returns (timer_calibrate (fun loops => limit <? loops) st) (fun l =>
    limit - limit / 2 ^ 9 <= l + 1 /\ 3 * l <= 4 * limit /\
    (forall k, 3 * 2 ^ k <= limit < 4 * 2 ^ k -> l = 4 * 2 ^ k - 2 ^ (k - 8))).
Proof.
  intros Hl Hi. unfold timer_calibrate. rewrite assert_bind by done. apply returns_bind.
  eapply returns_mono; [by apply double_loops_spec|]. intros h (k & Hk & -> & Hlk).
  eapply returns_mono; [by apply refine_loops_spec|]. intros l (s & -> & [_ H0 Hb Ho Hu Hfill]).
  assert (2 ^ k = 512 * 2 ^ (k - 9)) as E by (change 512 with (2 ^ 9); rewrite <- Z.pow_add_r by lia; f_equal; lia).
  assert (0 < 2 ^ (k - 9)) as Hp by (apply Z.pow_pos_nonneg; lia). split; [|split].
  - assert (2 ^ (k - 9) <= limit / 2 ^ 9) by (apply Z.div_le_lower_bound; lia). lia.
  - destruct Ho as [-> |Ho]; lia.
  - intros j Hj. assert (j = k - 1) as ->.
    { rewrite Z.pow_add_r in Hlk by lia. destruct (Z.lt_trichotomy j (k - 1)) as [Hlt|[Heq|Hgt]]; [|done|].
      - assert (4 * 2 ^ j <= 2 ^ k); [|lia]. destruct (Z.lt_ge_cases j 0); [rewrite Z.pow_neg_r in * by lia; lia|].
        replace (4 * 2 ^ j) with (2 ^ (j + 2)) by (rewrite Z.pow_add_r; lia). apply Z.pow_le_mono_r; lia.
      - assert (2 ^ k <= 2 ^ j) by (apply Z.pow_le_mono_r; lia). lia. }
    assert (2 ^ k = 2 * 2 ^ (k - 1)) as E1 by (rewrite <- Z.pow_succ_r by lia; f_equal; lia).
    replace (k - 1 - 8) with (k - 9) by lia. rewrite Hfill in * by lia. lia.
Qed.

Lemma timer_calibrate_bounds_witness :
  returns (timer_calibrate (fun loops => 1572864 <? loops) (set_intr (boot_state 4096 ∅) (mk_cpu true false false))) (fun l =>
    1572864 - 1572864 / 2 ^ 9 <= l + 1 /\ 3 * l <= 4 * 1572864 /\
    (forall k, 3 * 2 ^ k <= 1572864 < 4 * 2 ^ k -> l = 4 * 2 ^ k - 2 ^ (k - 8))).
Proof. apply (timer_calibrate_bounds 1572864); [lia|reflexivity]. Defined.

(** ** Real time *)

(** Without overflow, a sleep of at least a tick is the exact number of ticks, rounded
    down; a shorter one and a delay busy-wait for at most the exact number of loops, and
    for less than one loop and one part in [denom / 1000] of a tick's loops less. *)
Lemma real_time_pause lpt num denom st : intr_get_level st = true -> 0 <= lpt < 2 ^ 32 -> 0 <= num < 2 ^ 24 ->
  denom = 1000 \/ denom = 1000 * 1000 \/ denom = 1000 * 1000 * 1000 ->
  real_time_sleep lpt num denom st = (if denom <=? num * TIMER_FREQ then Ok (Sleep (num * TIMER_FREQ / denom)) else real_time_delay lpt num denom) /\
  exists loops, real_time_delay lpt num denom = Ok (Busy_wait loops) /\
    loops * denom <= lpt * num * TIMER_FREQ < (loops + 1) * denom + TIMER_FREQ * 1000.
Proof.
  intros Hi Hl Hn Hd. unfold real_time_sleep, real_time_delay, TIMER_FREQ.
  assert (forall z, - 2 ^ 63 <= z < 2 ^ 63 -> i64 z = z) as H64.
  { intros z Hz. unfold i64. rewrite Z.mod_small; lia. }
  rewrite (H64 (num * 100)) by lia. rewrite (H64 (lpt * num)) by nia. rewrite assert_bind by done.
  assert (0 < denom) by lia. rewrite Z.quot_div_nonneg by lia. split.
  - destruct (Z.leb_spec denom (num * 100)).
    + rewrite (proj2 (Z.ltb_lt _ _)); [done|]. apply Z.div_str_pos. lia.
    + rewrite Z.div_small by lia. done.
  - rewrite assert_bind by (destruct Hd as [->|[->| ->]]; done). eexists. split; [done|].
    assert (0 <= lpt * num) by nia. rewrite (Z.quot_div_nonneg (lpt * num)) by lia.
    assert (0 <= lpt * num / 1000 < 2 ^ 56) by (split; [apply Z.div_pos; lia|apply Z.div_lt_upper_bound; nia]).
    rewrite H64 by lia. assert (exists dm, denom = dm * 1000 /\ 0 < dm) as (dm & -> & Hdm)
      by (destruct Hd as [->|[->| ->]]; [exists 1|exists 1000|exists 1000000]; lia).
    rewrite Z.quot_mul, Z.quot_div_nonneg by lia.
    pose proof (Z.div_mod (lpt * num / 1000 * 100) dm ltac:(lia)). pose proof (Z.mod_pos_bound (lpt * num / 1000 * 100) dm Hdm).
    pose proof (Z.div_mod (lpt * num) 1000 ltac:(lia)). pose proof (Z.mod_pos_bound (lpt * num) 1000 ltac:(lia)). lia.
Qed.
