(* ===== verification/Vga.v ===== *)
(** * The text display (devices/vga.c, devices/speaker.c)

    The driver on byte memory, with the frame buffer at its address, and a terminal as its
    specification: a grid of characters and a cursor. *)

From stdpp Require Import base list numbers.
From Stdlib Require Import ZArith Lia.
From S2P Require Import Prelude CString Vaddr Ports Kernel Pit Timer.
Import Round Vaddr.

Local Open Scope Z_scope.

Definition COL_CNT : Z := 80.
Definition ROW_CNT : Z := 25.
Definition GRAY_ON_BLACK : Z := 0x07.
Definition SPEAKER_PORT_GATE : Z := 0x61.
Definition SPEAKER_GATE_ENABLE : Z := 0x03.

(** The static variables, the memory, the accesses to ports and the threads' state, of
    which only the interrupt level matters here. *)
Record vga := mk_vga {
  inited : bool;
  fb : Z;
  cx : Z;
  cy : Z;
  vmem : mem;
  vtrace : list io_event;
  vk : kstate
}.

Definition at_cursor (x y : Z) (s : vga) : vga := mk_vga (inited s) (fb s) x y (vmem s) (vtrace s) (vk s).
Definition with_mem (m : mem) (s : vga) : vga := mk_vga (inited s) (fb s) (cx s) (cy s) m (vtrace s) (vk s).
Definition with_trace (tr : list io_event) (s : vga) : vga := mk_vga (inited s) (fb s) (cx s) (cy s) (vmem s) tr (vk s).
Definition with_kernel (k : kstate) (s : vga) : vga := mk_vga (inited s) (fb s) (cx s) (cy s) (vmem s) (vtrace s) k.

(** The address of fb[y][x][i]. *)
Definition cell (s : vga) (y x i : Z) : Z := u32 (fb s + (y * COL_CNT + x) * 2 + i).

Section Vga.
Context {D : Device} {W : Pausing}.
Implicit Types (s : vga).

Definition find_cursor (tr : list io_event) : Z * Z * list io_event :=
  let tr := outb 0x3d4 0x0e tr in
  let '(hi, tr) := inb 0x3d5 tr in
  let cp := u16 (Z.shiftl hi 8) in
  let tr := outb 0x3d4 0x0f tr in
  let '(lo, tr) := inb 0x3d5 tr in
  let cp := Z.lor cp lo in
  (Z.rem cp COL_CNT, Z.quot cp COL_CNT, tr).

Definition init s : res vga :=
  if negb (inited s) then
    p ← ptov 0xb8000;
    let '(x, y, tr) := find_cursor (vtrace s) in
    Ok (mk_vga true p x y (vmem s) tr (vk s))
  else Ok s.

Definition move_cursor s : vga :=
  let cp := u16 (cx s + COL_CNT * cy s) in
  let tr := outw 0x3d4 (Z.lor 0x0e (Z.land cp 0xff00)) (vtrace s) in
  with_trace (outw 0x3d4 (Z.lor 0x0f (Z.shiftl cp 8)) tr) s.

Definition put_cell (y x c : Z) s : vga :=
  with_mem (store (store (vmem s) (cell s y x 0) (u8 c)) (cell s y x 1) GRAY_ON_BLACK) s.

Definition clear_row (y : Z) s : res vga :=
  while (fun '(x, s) =>
    if x <? COL_CNT then Ok (inl (x + 1, put_cell y x 32 s)) else Ok (inr s)) (0, s).

Definition cls s : res vga :=
  s ← while (fun '(y, s) =>
    if y <? ROW_CNT then s ← clear_row y s; Ok (inl (y + 1, s)) else Ok (inr s)) (0, s);
  Ok (move_cursor (at_cursor 0 0 s)).

Definition newline s : res vga :=
  let s := at_cursor 0 (u32 (cy s + 1)) s in
  if ROW_CNT <=? cy s then
    let s := at_cursor (cx s) (ROW_CNT - 1) s in
    '(_, m) ← memmove (vmem s) (cell s 0 0 0) (cell s 1 0 0) (COL_CNT * 2 * (ROW_CNT - 1));
    clear_row (ROW_CNT - 1) (with_mem m s)
  else Ok s.

Definition speaker_off (k : kstate) (tr : list io_event) : res (kstate * list io_event) :=
  let old_level := intr_get_level k in
  let k := intr_disable k in
  let '(v, tr) := inb SPEAKER_PORT_GATE tr in
  let tr := outb SPEAKER_PORT_GATE (Z.land v (Z.lnot SPEAKER_GATE_ENABLE)) tr in
  k ← intr_set_level old_level k;
  Ok (k, tr).

Definition speaker_on (frequency : Z) (k : kstate) (tr : list io_event) : res (kstate * list io_event) :=
  if (20 <=? frequency) && (frequency <=? 20000) then
    let old_level := intr_get_level k in
    '(k, tr) ← pit_configure_channel 2 3 frequency (intr_disable k) tr;
    let '(v, tr) := inb SPEAKER_PORT_GATE tr in
    let tr := outb SPEAKER_PORT_GATE (Z.lor v SPEAKER_GATE_ENABLE) tr in
    k ← intr_set_level old_level k;
    Ok (k, tr)
  else speaker_off k tr.

Definition speaker_beep (k : kstate) (tr : list io_event) : res (kstate * list io_event) :=
  if intr_get_level k then
    '(k, tr) ← speaker_on 440 k tr;
    p ← timer_msleep loops_per_tick 250 k;
    '(k, tr) ← during p (k, tr);
    speaker_off k tr
  else Ok (k, tr).

Definition vga_putc (c : Z) s : res vga :=
  let old_level := intr_get_level (vk s) in
  let s := with_kernel (intr_disable (vk s)) s in
  s ← init s;
  s ← (if c =? 10 then newline s
       else if c =? 12 then cls s
       else if c =? 8 then Ok (if 0 <? cx s then at_cursor (u32 (cx s - 1)) (cy s) s else s)
       else if c =? 13 then Ok (at_cursor 0 (cy s) s)
       else if c =? 9 then
         let s := at_cursor (ROUND_UP (u32 (cx s + 1)) 8) (cy s) s in
         if COL_CNT <=? cx s then newline s else Ok s
       else if c =? 7 then
         k ← intr_set_level old_level (vk s);
         '(k, tr) ← speaker_beep k (vtrace s);
         Ok (with_kernel (intr_disable k) (with_trace tr s))
       else
         let s := put_cell (cy s) (cx s) c s in
         let s := at_cursor (u32 (cx s + 1)) (cy s) s in
         if COL_CNT <=? cx s then newline s else Ok s);
  let s := move_cursor s in
  k ← intr_set_level old_level (vk s);
  Ok (with_kernel k s).
End Vga.

(** ** A terminal: a grid of characters with attributes, and a cursor *)

Record term := mk_term { grid : Z -> Z -> Z * Z; tx : Z; ty : Z }.

Definition blank : Z * Z := (32, GRAY_ON_BLACK).

Definition term_ok (t : term) : Prop := 0 <= tx t < COL_CNT /\ 0 <= ty t < ROW_CNT.

Definition scroll (g : Z -> Z -> Z * Z) : Z -> Z -> Z * Z :=
  fun y x => if y =? ROW_CNT - 1 then blank else g (y + 1) x.

Definition term_newline (t : term) : term :=
  if ty t =? ROW_CNT - 1 then mk_term (scroll (grid t)) 0 (ty t) else mk_term (grid t) 0 (ty t + 1).

(** The cursor at column [x], or at the start of the next line when that is off the right edge. *)
Definition term_advance (x : Z) (t : term) : term :=
  if COL_CNT <=? x then term_newline t else mk_term (grid t) x (ty t).

Definition term_putc (t : term) (c : Z) : term :=
  if c =? 10 then term_newline t
  else if c =? 12 then mk_term (fun _ _ => blank) 0 0
  else if c =? 8 then mk_term (grid t) (Z.max 0 (tx t - 1)) (ty t)
  else if c =? 13 then mk_term (grid t) 0 (ty t)
  else if c =? 9 then term_advance (8 * (tx t / 8 + 1)) t
  else if c =? 7 then t
  else term_advance (tx t + 1)
    (mk_term (fun y x => if (y =? ty t) && (x =? tx t) then (u8 c, GRAY_ON_BLACK) else grid t y x) (tx t) (ty t)).

(** The frame buffer at its virtual address. *)
Definition FB : Z := 0xc00b8000.
Definition FB_SIZE : Z := ROW_CNT * COL_CNT * 2.

Definition displays (m : mem) (g : Z -> Z -> Z * Z) : Prop := forall y x, 0 <= y < ROW_CNT -> 0 <= x < COL_CNT ->
  m (FB + (y * COL_CNT + x) * 2) = (g y x).1 /\ m (FB + (y * COL_CNT + x) * 2 + 1) = (g y x).2.

(** What the display controller's registers 14 and 15 hold, written as words: the register
    in the low byte and its value in the high one. *)
Definition crtc (tr : list io_event) (reg : Z) : option Z :=
  foldl (fun v e => match e with
    | Outw 0x3d4 w => if w mod 256 =? reg then Some (w / 256) else v | _ => v end) None tr.

Definition hw_cursor (tr : list io_event) : option Z :=
  hi ← crtc tr 0x0e; lo ← crtc tr 0x0f; Some (hi * 256 + lo).

(** The driver before or after its initialisation, and the terminal it stands for: before,
    the cursor is where the display controller reports it. *)
Definition located `{Device} (s : vga) (t : term) : Prop :=
  if inited s then fb s = FB /\ cx s = tx t /\ cy s = ty t
  else exists tr, find_cursor (vtrace s) = (tx t, ty t, tr).

Record stands_for `{Device} (s : vga) (t : term) : Prop := mk_stands_for {
  sf_ok : term_ok t;
  sf_at : located s t;
  sf_grid : displays (vmem s) (grid t);
  sf_level : intr_get_level (vk s) = true -> intr_context (vk s) = false
}.

Fixpoint vga_puts `{Device, Pausing} (text : list Z) (s : vga) : res vga :=
  match text with [] => Ok s | c :: text => s ← vga_putc c s; vga_puts text s end.

(** ** Proofs *)

Definition outside_fb (a : Z) : Prop := ~ FB <= a < FB + FB_SIZE.

(** What the bodies of the driver keep while interrupts are off. *)
Record kept (s s' : vga) : Prop := mk_kept {
  kept_inited : inited s' = inited s;
  kept_fb : fb s' = fb s;
  kept_mem a : outside_fb a -> vmem s' a = vmem s a;
  kept_kernel : vk s' = vk s
}.

(** The initialised driver with the terminal it shows. *)
Record showing (s : vga) (t : term) : Prop := mk_showing {
  sh_fb : fb s = FB;
  sh_x : cx s = tx t;
  sh_y : cy s = ty t;
  sh_ok : term_ok t;
  sh_grid : displays (vmem s) (grid t)
}.

Section Display.
Context {D : Device} {W : Pausing}.
Implicit Types (s : vga) (t : term).

Ltac consts := unfold outside_fb, FB_SIZE, FB, COL_CNT, ROW_CNT in *.

Lemma kept_trans s1 s2 s3 : kept s1 s2 -> kept s2 s3 -> kept s1 s3.
Proof.
  intros [? ? M1 ?] [? ? M2 ?]. split; [congruence.. | | congruence].
  intros a Ha. by rewrite (M2 a Ha), (M1 a Ha).
Qed.

Lemma kept_refl s : kept s s.
Proof. by split. Qed.

Lemma cell_at s y x i : fb s = FB -> 0 <= y < ROW_CNT -> 0 <= x < COL_CNT -> 0 <= i <= 1 ->
  cell s y x i = FB + (y * COL_CNT + x) * 2 + i.
Proof. intros E ???. unfold cell. rewrite E. consts. rewrite u32_small; lia. Qed.

(** One character changes one cell. *)
Lemma put_cell_spec s y x c g : fb s = FB -> 0 <= y < ROW_CNT -> 0 <= x < COL_CNT -> displays (vmem s) g ->
  kept s (put_cell y x c s) /\
  displays (vmem (put_cell y x c s)) (fun y' x' => if (y' =? y) && (x' =? x) then (u8 c, GRAY_ON_BLACK) else g y' x').
Proof.
  intros E Hy Hx Hg. unfold put_cell, with_mem, store. simpl. rewrite !cell_at by (done || lia).
  split; [split; simpl; try done|].
  - intros a Ha. consts. zbool; lia.
  - intros y' x' Hy' Hx'. destruct (Hg y' x' Hy' Hx') as [Hc Ha]. simpl. consts.
    destruct (Z.eqb_spec y' y), (Z.eqb_spec x' x); subst; simpl; zbool; done || lia.
Qed.

(** Clearing a row. *)
Lemma clear_row_spec s y g : fb s = FB -> 0 <= y < ROW_CNT -> displays (vmem s) g ->
  returns (clear_row y s) (fun s' => kept s s' /\ cx s' = cx s /\ cy s' = cy s /\ vtrace s' = vtrace s /\
    displays (vmem s') (fun y' x' => if y' =? y then blank else g y' x')).
Proof.
  intros E Hy Hg. unfold clear_row.
  apply (returns_while (fun '(x, s') => 0 <= x <= COL_CNT /\ kept s s' /\ cx s' = cx s /\ cy s' = cy s /\ vtrace s' = vtrace s /\
      displays (vmem s') (fun y' x' => if (y' =? y) && (x' <? x) then blank else g y' x')) (fun '(x, _) => COL_CNT - x)).
  - intros [x s'] (Hx & Hk & Ex & Ey & Et & Hd). split; [lia|]. destruct (Z.ltb_spec x COL_CNT); simpl.
    + destruct (put_cell_spec s' y x 32 _ (eq_trans (kept_fb _ _ Hk) E) Hy ltac:(lia) Hd) as [Hk' Hd'].
      split; [|lia]. split; [lia|]. split; [by eapply kept_trans|]. split_and!; try done.
      intros y' x' Hy' Hx'. specialize (Hd' y' x' Hy' Hx'). simpl in Hd'. consts.
      destruct (Z.eqb_spec y' y), (Z.eqb_spec x' x), (Z.ltb_spec x' x), (Z.ltb_spec x' (x + 1)); simpl in *; done || lia.
    + split_and!; try done. intros y' x' Hy' Hx'. specialize (Hd y' x' Hy' Hx'). simpl in *. consts.
      destruct (Z.ltb_spec x' x); [|lia]. by rewrite andb_true_r in Hd.
  - split_and!; [consts; lia..|apply kept_refl|done|done|done|].
    intros y' x' Hy' Hx'. destruct (Z.ltb_spec x' 0); [lia|]. rewrite andb_false_r. by apply Hg.
  - consts. lia.
Qed.

Lemma cls_rows s g : fb s = FB -> displays (vmem s) g ->
  returns (while (fun '(y, s) =>
    if y <? ROW_CNT then s ← clear_row y s; Ok (inl (y + 1, s)) else Ok (inr s)) (0, s))
    (fun s' => kept s s' /\ displays (vmem s') (fun _ _ => blank)).
Proof.
  intros E Hg.
  apply (returns_while (fun '(y, s') => 0 <= y <= ROW_CNT /\ kept s s' /\
      displays (vmem s') (fun y' x' => if y' <? y then blank else g y' x')) (fun '(y, _) => ROW_CNT - y)).
  - intros [y s'] (Hy & Hk & Hd). split; [lia|]. destruct (Z.ltb_spec y ROW_CNT); simpl.
    + apply returns_bind. eapply returns_mono; [apply (clear_row_spec s' y _ (eq_trans (kept_fb _ _ Hk) E) ltac:(lia) Hd)|].
      intros s'' (Hk' & _ & _ & _ & Hd'). split; [|lia]. split; [lia|]. split; [by eapply kept_trans|].
      intros y' x' Hy' Hx'. specialize (Hd' y' x' Hy' Hx'). simpl in Hd'.
      destruct (Z.eqb_spec y' y), (Z.ltb_spec y' y), (Z.ltb_spec y' (y + 1)); simpl in *; done || lia.
    + split; [done|]. intros y' x' Hy' Hx'. specialize (Hd y' x' Hy' Hx'). simpl in Hd.
      destruct (Z.ltb_spec y' y); [done|lia].
  - split; [consts; lia|]. split; [apply kept_refl|].
    intros y' x' Hy' Hx'. destruct (Z.ltb_spec y' 0); [lia|]. by apply Hg.
  - consts. lia.
Qed.

(** The next line, with scrolling. *)
Lemma newline_spec s t : showing s t ->
  returns (newline s) (fun s' => kept s s' /\ vtrace s' = vtrace s /\ showing s' (term_newline t)).
Proof.
  intros [E Ex Ey [Hx Hy] Hg]. unfold newline, term_newline. cbn [cy at_cursor]. rewrite Ey, u32_small by (consts; lia).
  destruct (Z.leb_spec ROW_CNT (ty t + 1)), (Z.eqb_spec (ty t) (ROW_CNT - 1)); [|lia..|].
  - apply returns_bind. unfold cell. cbn [vmem fb at_cursor]. rewrite E.
    change (u32 (FB + (0 * COL_CNT + 0) * 2 + 0)) with FB. change (u32 (FB + (1 * COL_CNT + 0) * 2 + 0)) with (FB + 160).
    eapply returns_mono; [apply memmove_spec; unfold block_ok, NULL; consts; lia|]. intros [p m] [Hm _].
    eapply returns_mono; [apply (clear_row_spec _ (ROW_CNT - 1) (fun y x => if y =? ROW_CNT - 1 then grid t y x else grid t (y + 1) x))|].
    + done.
    + consts. lia.
    + intros y x Hy' Hx'. cbn [vmem with_mem]. rewrite !Hm. consts.
      destruct (Z.eqb_spec y (25 - 1)) as [->|]; simpl; zbool; try lia; [by apply Hg|].
      destruct (Hg (y + 1) x ltac:(consts; lia) Hx') as [<- <-]. consts. split; f_equal; lia.
    + intros s' (Hk & Ex' & Ey' & Et & Hd). simpl in Ex', Ey', Et. split_and!; [|done|].
      * eapply kept_trans; [|exact Hk]. split; try done. intros a Ha. cbn [vmem with_mem]. rewrite Hm. consts. zbool; lia.
      * split; simpl; [by rewrite (kept_fb _ _ Hk)|done|congruence|consts; unfold term_ok; simpl; consts; lia|].
        intros y x Hy' Hx'. specialize (Hd y x Hy' Hx'). simpl in Hd. unfold scroll.
        destruct (Z.eqb_spec y (ROW_CNT - 1)); done.
  - simpl. split_and!; [by split|done|]. split; simpl; try done. unfold term_ok; simpl; consts; lia.
Qed.

Lemma advance_spec s t x : showing s t -> 0 <= x -> u32 x = x ->
  returns (let s := at_cursor x (cy s) s in if COL_CNT <=? cx s then newline s else Ok s)
    (fun s' => kept s s' /\ vtrace s' = vtrace s /\ showing s' (term_advance x t)).
Proof.
  intros [E Ex Ey [Hx Hy] Hg] H0 Hw. cbv zeta. cbn [cx at_cursor]. unfold term_advance.
  destruct (Z.leb_spec COL_CNT x).
  - unfold newline. cbn [cy at_cursor cx]. fold (at_cursor 0 (u32 (cy s + 1)) s).
    apply (newline_spec s t). by split.
  - simpl. split_and!; [by split|done|]. by split.
Qed.

(** The hardware cursor follows. *)
Lemma cursor_words cp : 0 <= cp < 2 ^ 16 ->
  u16 (Z.lor 0x0e (Z.land cp 0xff00)) = cp / 256 * 256 + 14 /\ u16 (Z.lor 0x0f (Z.shiftl cp 8)) = cp mod 256 * 256 + 15.
Proof.
  intros Hc. assert (El : Z.land cp 0xff00 = Z.shiftl (cp / 256) 8).
  { apply Z.bits_inj'. intros n Hn. rewrite Z.land_spec, Z.shiftl_spec by done. change 256 with (2 ^ 8).
    destruct (Z.ltb_spec n 8).
    - rewrite (Z.testbit_neg_r _ (n - 8)) by lia. replace (Z.testbit 0xff00 n) with false; [apply andb_false_r|].
      change 0xff00 with (Z.shiftl 255 8). by rewrite Z.shiftl_spec, Z.testbit_neg_r by lia.
    - rewrite Z.div_pow2_bits by lia. replace (n - 8 + 8) with n by lia. change 0xff00 with (Z.shiftl (Z.ones 8) 8).
      rewrite Z.shiftl_spec, Z.testbit_ones_nonneg by lia. destruct (Z.ltb_spec (n - 8) 8); [apply andb_true_r|].
      rewrite andb_false_r. symmetry. apply (testbit_small cp 16); lia. }
  rewrite El, !Z.shiftl_mul_pow2, !lor_low by lia.
  unfold u16. change (2 ^ 8) with 256. change (2 ^ 16) with 65536 in *. split; Z.div_mod_to_equations; lia.
Qed.

Lemma crtc_snoc tr w reg : crtc (tr ++ [Outw 0x3d4 w]) reg = if w mod 256 =? reg then Some (w / 256) else crtc tr reg.
Proof. unfold crtc. by rewrite foldl_app. Qed.

Lemma move_cursor_spec s t : showing s t ->
  kept s (move_cursor s) /\ showing (move_cursor s) t /\ hw_cursor (vtrace (move_cursor s)) = Some (ty t * COL_CNT + tx t).
Proof.
  intros [E Ex Ey [Hx Hy] Hg]. split; [by split|]. split; [by split|]. unfold move_cursor, with_trace. cbn [vtrace].
  rewrite Ex, Ey. assert (Hc : 0 <= tx t + COL_CNT * ty t < 2000) by (consts; lia).
  replace (u16 _) with (tx t + COL_CNT * ty t) by (unfold u16; rewrite Z.mod_small; lia).
  revert Hc. replace (ty t * COL_CNT + tx t) with (tx t + COL_CNT * ty t) by lia. generalize (tx t + COL_CNT * ty t) as cp.
  intros cp Hc. destruct (cursor_words cp ltac:(lia)) as [E1 E2]. unfold outw, hw_cursor. rewrite E1, E2, !crtc_snoc.
  rewrite !Z.div_add_l, !(Z.add_comm (_ * 256)), !Z_mod_plus_full by lia. simpl. f_equal. Z.div_mod_to_equations; lia.
Qed.

Lemma init_spec s t : stands_for s t ->
  returns (init s) (fun s' => showing s' t /\ inited s' = true /\ vmem s' = vmem s /\ vk s' = vk s).
Proof.
  intros [Hok Hat Hg _]. unfold located in Hat. unfold init. destruct (inited s) eqn:Ei; cbn [negb].
  - destruct Hat as (? & ? & ?). split_and!; by try split.
  - change (ptov 0xb8000) with (Ok FB). rewrite bind_ok. destruct Hat as [tr ->]. simpl. split_and!; by try split.
Qed.

(** The interrupt level is off inside the function, and comes back at its end. *)
Lemma level_restored k : (intr_get_level k = true -> intr_context k = false) ->
  intr_set_level (intr_get_level k) (intr_disable k) = Ok k.
Proof.
  destruct k as [? ? ? ? ? ? ? [f x y] ? ? ? ? ? ?]. unfold intr_set_level, intr_get_level, intr_context, intr_enable, intr_context. simpl.
  destruct f; simpl; [|done]. intros H. by rewrite (H eq_refl).
Qed.

Lemma tab_stop x : 0 <= x < COL_CNT -> ROUND_UP (u32 (x + 1)) 8 = 8 * (x / 8 + 1).
Proof.
  intros Hx. consts. unfold ROUND_UP. rewrite (u32_small (x + 1)), (u32_small (x + 1 + 8 - 1)) by lia.
  assert (x + 1 + 8 - 1 = x + 1 * 8) as -> by lia. rewrite Z.div_add by lia. rewrite u32_small; Z.div_mod_to_equations; lia.
Qed.

(** One character. *)
Lemma vga_putc_spec c s t : stands_for s t -> (intr_get_level (vk s) = false \/ c <> 7) ->
  returns (vga_putc c s) (fun s' => stands_for s' (term_putc t c) /\
    (forall a, outside_fb a -> vmem s' a = vmem s a) /\
    hw_cursor (vtrace s') = Some (ty (term_putc t c) * COL_CNT + tx (term_putc t c)) /\ vk s' = vk s).
Proof.
  intros Hs Hbell. pose proof (sf_level _ _ Hs) as Hl. unfold vga_putc. apply returns_bind.
  assert (Hs0 : stands_for (with_kernel (intr_disable (vk s)) s) t) by (destruct Hs; by split).
  eapply returns_mono; [apply (init_spec _ _ Hs0)|]. intros s1 (Hsh & Ei & Em & Ek).
  simpl in Em, Ek. apply returns_bind.
  eapply (returns_mono _ (fun s2 => kept s1 s2 /\ showing s2 (term_putc t c))).
  - pose proof Hsh as [Ef Ex Ey [Hx Hy] Hg]. unfold term_putc.
    repeat match goal with |- context [c =? ?n] => destruct (Z.eqb_spec c n); cbv iota end.
    + eapply returns_mono; [by apply newline_spec|]. by intros s2 (? & _ & ?).
    + unfold cls. apply returns_bind. eapply returns_mono; [by eapply cls_rows|]. intros s2 [Hk Hd]. simpl.
      destruct (move_cursor_spec (at_cursor 0 0 s2) (mk_term (fun _ _ => blank) 0 0)) as (? & ? & _).
      { split; simpl; try done. by rewrite (kept_fb _ _ Hk). }
      split; [|done]. eapply kept_trans; [exact Hk|]. eapply kept_trans; [|eassumption]. by split.
    + destruct (Z.ltb_spec 0 (cx s1)); (split; [by split|]); (split; simpl; try done); rewrite ?u32_small; unfold term_ok; simpl; consts; lia.
    + split; [by split|]. split; simpl; try done; unfold term_ok; simpl; consts; lia.
    + rewrite Ex, tab_stop by done. rewrite <- Ex. eapply returns_mono; [apply (advance_spec s1 t)|]; [done| | |by intros s2 (? & _ & ?)].
      all: consts; rewrite ?u32_small; Z.div_mod_to_equations; lia.
    + destruct Hbell as [Hb|]; [|lia]. rewrite Hb, Ek. simpl. unfold speaker_beep. simpl. split; [by split|by split].
    + rewrite u32_small by (simpl; consts; lia).
      destruct (put_cell_spec s1 (cy s1) (cx s1) c (grid t) Ef ltac:(lia) ltac:(lia) Hg) as [Hk Hd].
      eapply returns_mono; [eapply (advance_spec (put_cell (cy s1) (cx s1) c s1) (mk_term _ (tx t) (ty t)) (cx s1 + 1))|].
      * split; simpl; try done; exact Hd.
      * lia.
      * rewrite u32_small; consts; lia.
      * intros s2 (Hk' & _ & Hsh'). split; [by eapply kept_trans|]. by rewrite Ex, Ey in Hsh'.
  - intros s2 [Hk Hsh2]. destruct (move_cursor_spec _ _ Hsh2) as (Hk' & Hsh3 & Hcur).
    pose proof (kept_trans _ _ _ Hk Hk') as [Ki Kf Km Kk]. rewrite Kk, Ek, level_restored by done. simpl.
    destruct Hsh3. split_and!; try done.
    + split; try done. unfold located. simpl. by rewrite (kept_inited _ _ Hk), Ei.
    + intros a Ha. rewrite <- Em. exact (Km a Ha).
Qed.

(** Text, by induction; an empty text leaves the hardware cursor where it is. *)
Lemma vga_puts_spec text s t : stands_for s t -> (intr_get_level (vk s) = false \/ 7 ∉ text) ->
  returns (vga_puts text s) (fun s' => let t' := foldl term_putc t text in
    stands_for s' t' /\ (forall a, outside_fb a -> vmem s' a = vmem s a) /\
    (text <> [] \/ hw_cursor (vtrace s) = Some (ty t * COL_CNT + tx t) ->
       hw_cursor (vtrace s') = Some (ty t' * COL_CNT + tx t')) /\ vk s' = vk s).
Proof.
  revert s t. induction text as [|c text IH]; intros s t Hs Hb; simpl.
  - split_and!; try done. by intros [|].
  - apply returns_bind. eapply returns_mono; [apply (vga_putc_spec c s t Hs)|].
    { destruct Hb as [|Hb]; [by left|right]. intros ->. apply Hb. constructor. }
    intros s1 (Hs1 & Hm1 & Hc1 & Hk1). eapply returns_mono; [apply (IH s1 _ Hs1)|].
    { rewrite Hk1. destruct Hb as [|Hb]; [by left|right]. intros Hin. apply Hb. by constructor. }
    intros s2 (Hs2 & Hm2 & Hc2 & Hk2). split_and!; [done| |by intros _; apply Hc2; right|congruence].
    intros a Ha. by rewrite Hm2, Hm1.
Qed.
End Display.

(** C27: Whatever text is written to the display, it shows what a terminal of 25 lines and 80
    columns shows: every character (control characters included) does to the frame buffer
    what it does to the terminal's grid, scrolling keeps the last 24 lines, the cursor of the
    driver and that of the hardware stay at the terminal's position, no byte outside the
    4000 bytes of the frame buffer changes, and the interrupt level is as before.  A bell is
    allowed only with interrupts off, since it sleeps otherwise and other threads run. *)
Theorem vga_refines_terminal {D : Device} {W : Pausing} text s t :
  stands_for s t -> (intr_get_level (vk s) = false \/ 7 ∉ text) ->
  returns (vga_puts text s) (fun s' => let t' := foldl term_putc t text in
    stands_for s' t' /\ (forall a, outside_fb a -> vmem s' a = vmem s a) /\
    (text <> [] -> hw_cursor (vtrace s') = Some (ty t' * COL_CNT + tx t')) /\ vk s' = vk s).
Proof.
  intros Hs Hb. eapply returns_mono; [by apply vga_puts_spec|]. intros s' (? & ? & Hc & ?). split_and!; auto.
Qed.

(** A display whose controller reports the cursor in the last line, and one line of text
    that scrolls it. *)
Definition cursor_low : Device := fun tr _ =>
  match list.last tr with Some (Out 0x3d4 0x0e) => 1920 / 256 | _ => 1920 mod 256 end.

Definition boot_screen : vga := mk_vga false 0 0 0 (fun _ => 0) [] (mk_kstate ∅ [] [] 0 0 0 0 (mk_cpu true false false) (mk_counters 0 0 0 0 0) (fun _ => mk_semaphore 0 []) (fun _ => 0) (fun _ => []) ∅ ∅).

Definition no_pauses : Pausing := {| loops_per_tick := 2 ^ 20; during := fun _ s => Ok s |}.

Lemma vga_refines_terminal_witness :
  returns (vga_puts (H := cursor_low) (H0 := no_pauses) [72; 105; 10; 33] boot_screen) (fun s' =>
    vmem s' (FB + 23 * 160) = 72 /\ vmem s' (FB + 24 * 160) = 33 /\ hw_cursor (vtrace s') = Some 1921).
Proof.
  assert (H : stands_for (H := cursor_low) boot_screen (mk_term (fun _ _ => (0, 0)) 0 24)).
  { split; [unfold term_ok, COL_CNT, ROW_CNT; simpl; lia|by eexists|by intros|done]. }
  eapply returns_mono; [apply (vga_refines_terminal (D := cursor_low) (W := no_pauses) [72; 105; 10; 33] _ _ H)|].
  - right. by apply (bool_decide_unpack _).
  - intros s' (Hs & _ & Hc & _). split_and!.
    + apply (proj1 (sf_grid _ _ Hs 23 0 ltac:(done) ltac:(done))).
    + apply (proj1 (sf_grid _ _ Hs 24 0 ltac:(done) ltac:(done))).
    + by apply Hc.
Defined.
