(* ===== verification/Kbd.v ===== *)
(** * Keys and characters (devices/kbd.c)

    The key maps of the keyboard driver and the interpretation of one scancode: what
    [keyboard_interrupt] does apart from reading the port and storing the character. *)

From Stdlib Require Import ZArith Lia.
From stdpp Require Import base list numbers strings.
From S2P Require Import Prelude Ctype.

Local Open Scope Z_scope.

Definition DATA_REG : Z := 0x60.

(** The static variables. *)
Record kbd_state := mk_kbd_state {
  left_shift : bool; right_shift : bool;
  left_alt : bool; right_alt : bool;
  left_ctrl : bool; right_ctrl : bool;
  caps_lock : bool;
  key_cnt : Z
}.

(** struct keymap; the end of the list is the entry with first scancode 0. *)
Record keymap := mk_keymap { first_scancode : Z; key_chars : list Z }.

Definition invariant_keymap : list keymap :=
  [mk_keymap 0x01 [27]; mk_keymap 0x0e [8]; mk_keymap 0x0f (9 :: chars "QWERTYUIOP"); mk_keymap 0x1c [13];
   mk_keymap 0x1e (chars "ASDFGHJKL"); mk_keymap 0x2c (chars "ZXCVBNM"); mk_keymap 0x37 (chars "*");
   mk_keymap 0x39 (chars " "); mk_keymap 0x53 [127]].

Definition unshifted_keymap : list keymap :=
  [mk_keymap 0x02 (chars "1234567890-="); mk_keymap 0x1a (chars "[]"); mk_keymap 0x27 (chars ";'`");
   mk_keymap 0x2b (chars "\"); mk_keymap 0x33 (chars ",./")].

Definition shifted_keymap : list keymap :=
  [mk_keymap 0x02 (chars "!@#$%^&*()_+"); mk_keymap 0x1a (chars "{}"); mk_keymap 0x27 (chars ":" ++ [34] ++ chars "~");
   mk_keymap 0x2b (chars "|"); mk_keymap 0x33 (chars "<>?")].

Fixpoint map_key (k : list keymap) (scancode : Z) : option Z :=
  match k with
  | [] => None
  | m :: k =>
    if (first_scancode m <=? scancode) && (scancode <? first_scancode m + Z.of_nat (length (key_chars m)))
    then Some (nth (Z.to_nat (scancode - first_scancode m)) (key_chars m) 0)
    else map_key k scancode
  end.

Definition set_shift_key (code : Z) (v : bool) (k : kbd_state) : kbd_state :=
  let '(mk_kbd_state ls rs la ra lc rc caps n) := k in
  if code =? 0x2a then mk_kbd_state v rs la ra lc rc caps n
  else if code =? 0x36 then mk_kbd_state ls v la ra lc rc caps n
  else if code =? 0x38 then mk_kbd_state ls rs v ra lc rc caps n
  else if code =? 0xe038 then mk_kbd_state ls rs la v lc rc caps n
  else if code =? 0x1d then mk_kbd_state ls rs la ra v rc caps n
  else if code =? 0xe01d then mk_kbd_state ls rs la ra lc v caps n
  else k.

Definition toggle_caps_lock (k : kbd_state) : kbd_state :=
  mk_kbd_state (left_shift k) (right_shift k) (left_alt k) (right_alt k) (left_ctrl k) (right_ctrl k)
    (negb (caps_lock k)) (key_cnt k).

Definition count_key (k : kbd_state) : kbd_state :=
  mk_kbd_state (left_shift k) (right_shift k) (left_alt k) (right_alt k) (left_ctrl k) (right_ctrl k)
    (caps_lock k) (i64 (key_cnt k + 1)).

Definition shift (k : kbd_state) : bool := left_shift k || right_shift k.
Definition alt (k : kbd_state) : bool := left_alt k || right_alt k.
Definition ctrl (k : kbd_state) : bool := left_ctrl k || right_ctrl k.

(** The condition of the branch for ordinary characters, with the character it sets. *)
Definition key_char (k : kbd_state) (code : Z) : option Z :=
  match map_key invariant_keymap code with
  | Some c => Some c
  | None => if negb (shift k) then map_key unshifted_keymap code else map_key shifted_keymap code
  end.

(** What a scancode asks for: nothing outside the driver, a reset, or a character. *)
Inductive key_result := No_char | Reboot | Char (c : Z).

(** [keyboard_interrupt] after the scancode has been read, up to [input_putc]. *)
Definition interpret_key (code : Z) (k : kbd_state) : key_result * kbd_state :=
  let release := negb (Z.land code 0x80 =? 0) in
  let code := Z.land code (u32 (Z.lnot 0x80)) in
  if code =? 0x3a then (No_char, if negb release then toggle_caps_lock k else k)
  else
    match key_char k code with
    | Some c =>
      if negb release then
        if (c =? 127) && ctrl k && alt k then (Reboot, k)
        else
          let c := if ctrl k && (0x40 <=? c) && (c <? 0x60) then u8 (c - 0x40)
                   else if Bool.eqb (shift k) (caps_lock k) then tolower c else c in
          let c := if alt k then u8 (c + 0x80) else c in
          (Char c, k)
      else (No_char, k)
    | None => (No_char, set_shift_key code (negb release) k)
    end.

(** ** What can be typed *)

(** The characters of a sequence of scancodes, none of which resets the machine. *)
Fixpoint typed (codes : list Z) (k : kbd_state) : option (list Z * kbd_state) :=
  match codes with
  | [] => Some ([], k)
  | code :: codes =>
    match interpret_key code k with
    | (No_char, k) => typed codes k
    | (Reboot, _) => None
    | (Char c, k) => match typed codes k with Some (cs, k) => Some (c :: cs, k) | None => None end
    end
  end.

(** A key pressed and released while some of the left Shift, Ctrl and Alt keys are down. *)
Definition chord (mods : list Z) (code : Z) : list Z :=
  mods ++ [code; Z.lor code 0x80] ++ ((fun m => Z.lor m 0x80) <$> mods).

Definition chords : list (list Z) :=
  mods ← [[]; [0x2a]; [0x1d]; [0x38]; [0x2a; 0x1d]; [0x2a; 0x38]; [0x1d; 0x38]; [0x2a; 0x1d; 0x38]];
  code ← seqZ 1 0x53;
  mret (chord mods code).

Definition no_keys (caps : bool) (n : Z) : kbd_state := mk_kbd_state false false false false false false caps n.

(** The character that a chord types if it types one and leaves no key down. *)
Definition chord_char (caps : bool) (codes : list Z) : option Z :=
  match typed codes (no_keys caps 0) with
  | Some ([c], k) => if negb (shift k) && negb (alt k) && negb (ctrl k) && Bool.eqb (caps_lock k) caps then Some c else None
  | _ => None
  end.

Lemma all_bytes_typed : forallb (fun caps =>
  let cs := omap (chord_char caps) chords in forallb (fun b => existsb (Z.eqb b) cs) (seqZ 0 256)) [false; true] = true.
Proof. vm_compute. reflexivity. Qed.

(** The count of keys does not influence the rest. *)
Definition with_count (n : Z) (k : kbd_state) : kbd_state :=
  mk_kbd_state (left_shift k) (right_shift k) (left_alt k) (right_alt k) (left_ctrl k) (right_ctrl k) (caps_lock k) n.

Lemma set_shift_count n code v k : set_shift_key code v (with_count n k) = with_count n (set_shift_key code v k).
Proof. destruct k. unfold set_shift_key, with_count. simpl. repeat (destruct (code =? _); [done|]). done. Qed.

Lemma interpret_count n code k : interpret_key code (with_count n k) = prod_map id (with_count n) (interpret_key code k).
Proof.
  unfold interpret_key. change (key_char (with_count n k)) with (key_char k). change (ctrl (with_count n k)) with (ctrl k).
  change (alt (with_count n k)) with (alt k). change (shift (with_count n k)) with (shift k).
  change (caps_lock (with_count n k)) with (caps_lock k). rewrite set_shift_count.
  destruct (Z.land code _ =? 0x3a); [by destruct (negb _)|]. destruct (key_char k _); [|done].
  destruct (negb _); [|done]. by destruct (_ && ctrl k && alt k).
Qed.

Lemma typed_count n codes k : typed codes (with_count n k) = (prod_map id (with_count n)) <$> typed codes k.
Proof.
  revert k. induction codes as [|code codes IH]; intros k; [done|]. cbn [typed]. rewrite interpret_count.
  destruct (interpret_key code k) as [[| |c] k']; cbn [prod_map fst snd]; [apply IH|done|].
  rewrite IH. by destruct (typed codes k') as [[]|].
Qed.

(** Every byte can be typed.  On a keyboard with no key down, whatever the state of
    Caps Lock, there are keys to press and release that make the driver produce exactly
    that byte and leave no modifier key recorded as down. *)
Theorem kbd_types_every_byte caps n b : 0 <= b < 256 ->
  exists codes k, typed codes (no_keys caps n) = Some ([b], k) /\
    shift k = false /\ alt k = false /\ ctrl k = false /\ caps_lock k = caps.
Proof.
  intros Hb. pose proof all_bytes_typed as Ha. rewrite forallb_forall in Ha. specialize (Ha caps ltac:(destruct caps; simpl; auto)).
  cbv beta zeta in Ha. rewrite forallb_forall in Ha. specialize (Ha b ltac:(apply list_elem_of_In, elem_of_seqZ; lia)).
  apply existsb_exists in Ha as (c & Hc & ->%Z.eqb_eq). apply list_elem_of_In, list_elem_of_omap in Hc as (codes & _ & Hc).
  exists codes. unfold chord_char in Hc. change (no_keys caps n) with (with_count n (no_keys caps 0)). rewrite typed_count.
  destruct (typed codes (no_keys caps 0)) as [[[|x [|]] k]|]; try done. exists (with_count n k).
  destruct (negb _ && _ && _ && _) eqn:E; [|done]. simplify_eq. apply andb_prop in E as [[[E1 E2]%andb_prop E3]%andb_prop E4].
  change (shift (with_count n k)) with (shift k). change (alt (with_count n k)) with (alt k).
  change (ctrl (with_count n k)) with (ctrl k). change (caps_lock (with_count n k)) with (caps_lock k).
  split; [done|]. apply Bool.eqb_prop in E4. by destruct (shift k), (alt k), (ctrl k).
Qed.

Lemma kbd_types_every_byte_witness : exists codes k, typed codes (no_keys false 7) = Some ([0xe1], k) /\
  shift k = false /\ alt k = false /\ ctrl k = false /\ caps_lock k = false.
Proof. apply (kbd_types_every_byte false 7 0xe1). lia. Defined.
