(* ===== verification/Cmdline.v ===== *)
(** * The kernel command line (threads/init.c, tests/threads/tests.c)

    Reading the arguments that the loader left in memory, parsing the options, and running
    the actions, which are tests.  String literals live in memory at addresses given by
    [lit]; what a test does is a parameter. *)

From Stdlib Require Import ZArith Lia.
From stdpp Require Import base list numbers strings.
From S2P Require Import Prelude CString StringLib Vaddr Palloc Random Ports Rtc Ctype.
Import Vaddr.

Local Open Scope Z_scope.

Definition LOADER_BASE : Z := 0x7c00.
Definition LOADER_END : Z := 0x7e00.
Definition LOADER_SIG_LEN : Z := 2.
Definition LOADER_PARTS_LEN : Z := 64.
Definition LOADER_ARGS_LEN : Z := 128.
Definition LOADER_ARG_CNT_LEN : Z := 4.
Definition LOADER_SIG : Z := LOADER_END - LOADER_SIG_LEN.
Definition LOADER_PARTS : Z := LOADER_SIG - LOADER_PARTS_LEN.
Definition LOADER_ARGS : Z := LOADER_PARTS - LOADER_ARGS_LEN.
Definition LOADER_ARG_CNT : Z := LOADER_ARGS - LOADER_ARG_CNT_LEN.

(** How to shut down (devices/shutdown.c). *)
Inductive shutdown_type := SHUTDOWN_NONE | SHUTDOWN_POWER_OFF | SHUTDOWN_REBOOT.

Section Cmdline.
Context {D : Device} (lit : string -> Z).

(** The loop that fills [argv]. *)
Definition collect_args (m : mem) (argc fin : Z) (s : Z * Z * list Z) : res (Z * Z * list Z + list Z) :=
  let '(i, p, argv) := s in
  if i <? argc then
    if fin <=? p then Err KernelPanic
    else
      argv ← wr argv i p;
      n ← strnlen m p (u32 (fin - p));
      Ok (inl (i + 1, u32 (p + u32 (n + 1)), argv))
  else Ok (inr argv).

(** The loop that prints the arguments: for each, its address and whether it is printed in
    quotes. *)
Definition print_args (m : mem) (argc : Z) (argv : list Z) (s : Z * list (Z * bool)) : res (Z * list (Z * bool) + list (Z * bool)) :=
  let '(i, out) := s in
  if i <? argc then
    a ← rd argv i;
    sp ← strchr m a 32;
    Ok (inl (i + 1, out ++ [(a, negb (sp =? NULL))]))
  else Ok (inr out).

(** [argv] is static; the result is the array and what is printed. *)
Definition read_command_line (m : mem) : res (list Z * list (Z * bool)) :=
  cnt ← ptov LOADER_ARG_CNT;
  let argc := i32 (load32 m cnt) in
  p ← ptov LOADER_ARGS;
  let fin := u32 (p + LOADER_ARGS_LEN) in
  argv ← while (collect_args m argc fin) (0, p, replicate 65 NULL);
  argv ← wr argv argc NULL;
  out ← while (print_args m argc argv) (0, []);
  Ok (argv, out).

(** One round of the loop of [parse_options]; [i] is the pointer argv. *)
Definition parse_option (argv : list Z) (s : Z * shutdown_type * mem) : res (Z * shutdown_type * mem + Z * shutdown_type * mem) :=
  let '(i, how, m) := s in
  a ← rd argv i;
  if negb (a =? NULL) && (m a =? 45) then
    '(name, save_ptr, m) ← strtok_r m a (lit "=") NULL;
    '(value, save_ptr, m) ← strtok_r m NULL (lit EmptyString) save_ptr;
    h ← strcmp m name (lit "-h");
    if h =? 0 then Err MachineOff
    else
      q ← strcmp m name (lit "-q");
      if q =? 0 then Ok (inl (i + 1, SHUTDOWN_POWER_OFF, m))
      else
        r ← strcmp m name (lit "-r");
        if r =? 0 then Ok (inl (i + 1, SHUTDOWN_REBOOT, m))
        else Err KernelPanic
  else Ok (inr (i, how, m)).

Definition parse_options (argv : list Z) (how : shutdown_type) (m : mem) (rng : rc4) (tr : list io_event) :
    res (Z * shutdown_type * mem * rc4 * list io_event) :=
  '(i, how, m) ← while (parse_option argv) (0, how, m);
  '(time, tr) ← rtc_get_time tr;
  rng ← random_init rng time;
  Ok (i, how, m, rng, tr).

(** The tests of tests/threads/tests.c, by name; [A] is what they act on. *)
Context {A : Type} (test : string -> A -> res A).
Definition tests : list string := ["firstfit"%string; "nextfit"%string; "bestfit"%string; "buddy"%string].

Fixpoint run_test_from (ts : list string) (m : mem) (name : Z) (st : A) : res A :=
  match ts with
  | [] => Err KernelPanic
  | t :: ts =>
    c ← strcmp m name (lit t);
    if c =? 0 then test t st else run_test_from ts m name st
  end.

Definition run_test (m : mem) (name : Z) (st : A) : res A := run_test_from tests m name st.

Definition run_task (argv : list Z) (i : Z) (m : mem) (st : A) : res A :=
  task ← rd argv (i + 1);
  run_test m task st.

(** One round of the loop of [run_actions]; the table has the one action run, which takes
    one argument. *)
Definition run_action (argv : list Z) (m : mem) (s : Z * A) : res (Z * A + A) :=
  let '(i, st) := s in
  a ← rd argv i;
  if negb (a =? NULL) then
    c ← strcmp m a (lit "run");
    if negb (c =? 0) then Err KernelPanic
    else
      arg ← rd argv (i + 1);
      if arg =? NULL then Err KernelPanic
      else
        st ← run_task argv i m st;
        Ok (inl (i + 2, st))
  else Ok (inr st).

Definition run_actions (argv : list Z) (i : Z) (m : mem) (st : A) : res A :=
  while (run_action argv m) (i, st).
End Cmdline.

(** ** What the loader leaves in memory *)

(** Strings one after the other from [p] on, and their addresses. *)
Fixpoint packed (m : mem) (p : Z) (args : list (list Z)) : Prop :=
  match args with
  | [] => True
  | a :: args => cstring m p a /\ packed m (past p a + 1) args
  end.

Fixpoint addresses (p : Z) (args : list (list Z)) : list Z :=
  match args with
  | [] => []
  | a :: args => p :: addresses (past p a + 1) args
  end.

Fixpoint packed_size (args : list (list Z)) : Z :=
  match args with
  | [] => 0
  | a :: args => Z.of_nat (length a) + 1 + packed_size args
  end.

Definition args_at : Z := 0xc0007d3e.

Record loaded (m : mem) (args : list (list Z)) : Prop := mk_loaded {
  ld_count : load32 m 0xc0007d3a = Z.of_nat (length args);
  ld_packed : packed m args_at args;
  ld_size : packed_size args <= LOADER_ARGS_LEN;
  ld_words : Forall (fun a => a <> []) args
}.

(** The array [argv]. *)
Definition argv_of (args : list (list Z)) : list Z :=
  addresses args_at args ++ replicate (65 - length args) NULL.

Lemma addresses_length p args : length (addresses p args) = length args.
Proof. revert p. induction args as [|a args IH]; intros p; simpl; [done|]. by rewrite IH. Qed.

Lemma packed_size_words args : Forall (fun a => a <> []) args -> 2 * Z.of_nat (length args) <= packed_size args.
Proof. induction 1 as [|a args Ha _ IH]; simpl; [lia|]. destruct a; [done|]. simpl. lia. Qed.

Lemma packed_size_app a b : packed_size (a ++ b) = packed_size a + packed_size b.
Proof. induction a as [|x a IH]; simpl; [lia|]. rewrite IH. lia. Qed.

(** The addresses of what comes after a prefix. *)
Lemma addresses_app p a b : addresses p (a ++ b) = addresses p a ++ addresses (p + packed_size a) b.
Proof.
  revert p. induction a as [|x a IH]; intros p; simpl; [by rewrite Z.add_0_r|]. rewrite IH. unfold past.
  by replace (p + Z.of_nat (length x) + 1 + packed_size a) with (p + (Z.of_nat (length x) + 1 + packed_size a)) by lia.
Qed.

Lemma packed_app m p a b : packed m p (a ++ b) <-> packed m p a /\ packed m (p + packed_size a) b.
Proof.
  revert p. induction a as [|x a IH]; intros p; simpl; [rewrite Z.add_0_r; tauto|]. rewrite IH. unfold past.
  replace (p + Z.of_nat (length x) + 1 + packed_size a) with (p + (Z.of_nat (length x) + 1 + packed_size a)) by lia. tauto.
Qed.

Section Read.
Context (m : mem) (args : list (list Z)) (Hl : loaded m args).

Lemma args_few : (length args <= 64)%nat.
Proof. pose proof (packed_size_words args (ld_words _ _ Hl)). pose proof (ld_size _ _ Hl). unfold LOADER_ARGS_LEN in *. lia. Qed.

Lemma collect_args_spec : while (collect_args m (Z.of_nat (length args)) (args_at + 128)) (0, args_at, replicate 65 NULL) = Ok (argv_of args).
Proof.
  apply returns_eq. pose proof args_few as Hf.
  apply (returns_while_ix (fun n '(i, p, argv) => exists pre rest, args = pre ++ rest /\ n = Z.of_nat (length rest) /\
    i = Z.of_nat (length pre) /\ p = args_at + packed_size pre /\
    argv = addresses args_at pre ++ replicate (65 - length pre) NULL)) with (Z.of_nat (length args)).
  - intros n [[i p] argv] (pre & rest & E & -> & -> & -> & ->). split; [lia|]. unfold collect_args.
    rewrite E, length_app in Hf. destruct rest as [|a rest].
    + rewrite app_nil_r in E. subst pre. rewrite Z.ltb_irrefl. by apply returns_ok.
    + pose proof (ld_size _ _ Hl) as Hs. rewrite E, packed_size_app in Hs. unfold LOADER_ARGS_LEN in Hs. cbn [packed_size length] in Hs, Hf.
      assert (0 <= packed_size pre /\ 0 <= packed_size rest) as [H0 H1].
      { split; [generalize pre|generalize rest]; intros l; induction l; simpl; lia. }
      pose proof (ld_packed _ _ Hl) as Hp. rewrite E, packed_app in Hp. destruct Hp as [_ [Ha Hp]].
      rewrite (proj2 (Z.ltb_lt _ _)) by (rewrite E, length_app; simpl; lia). rewrite (proj2 (Z.leb_gt _ _)) by lia.
      rewrite wr_ok, bind_ok by (rewrite length_app, length_replicate, addresses_length; lia).
      rewrite u32_small by (unfold args_at; lia). rewrite (strnlen_spec m _ a Ha), bind_ok by lia.
      rewrite Z.min_l by lia. apply returns_ok. exists (Z.of_nat (length rest)). split; [simpl; lia|].
      exists (pre ++ [a]), rest. rewrite <- app_assoc. split; [done|]. split; [done|]. rewrite length_app, packed_size_app. cbn [length packed_size].
      split; [lia|]. split; [rewrite (u32_small (Z.of_nat (length a) + 1)), u32_small by (unfold args_at; lia); lia|].
      rewrite Nat2Z.id, insert_app_r_alt, addresses_length by (rewrite addresses_length; lia). rewrite Nat.sub_diag.
      replace (65 - length pre)%nat with (S (65 - (length pre + 1)))%nat by lia. simpl. rewrite addresses_app. simpl.
      by rewrite <- app_assoc.
  - exists [], args. simpl. rewrite Z.add_0_r. done.
  - lia.
Qed.

Lemma argv_arg k a : args !! k = Some a -> exists p, rd (argv_of args) (Z.of_nat k) = Ok p /\ cstring m p a.
Proof.
  intros Hk. apply list_elem_of_split_length in Hk as (pre & rest & E & Ek). pose proof (ld_packed _ _ Hl) as Hp.
  rewrite E, packed_app in Hp. destruct Hp as [_ [Ha _]]. exists (args_at + packed_size pre). split; [|done].
  apply rd_ok. split; [lia|]. rewrite Nat2Z.id. unfold argv_of. rewrite E, addresses_app, <- app_assoc.
  rewrite lookup_app_r by (rewrite addresses_length; lia). by rewrite addresses_length, <- Ek, Nat.sub_diag.
Qed.

Lemma argv_end : rd (argv_of args) (Z.of_nat (length args)) = Ok NULL.
Proof.
  pose proof args_few. apply rd_ok. split; [lia|]. rewrite Nat2Z.id. unfold argv_of.
  rewrite lookup_app_r, addresses_length, Nat.sub_diag by (rewrite addresses_length; lia).
  by replace (65 - length args)%nat with (S (64 - length args)) by lia.
Qed.

Lemma read_command_line_spec : returns (read_command_line m) (fun '(argv, out) => argv = argv_of args /\
  out.*1 = addresses args_at args).
Proof.
  pose proof args_few as Hf. unfold read_command_line.
  change (ptov LOADER_ARG_CNT) with (Ok 0xc0007d3a). change (ptov LOADER_ARGS) with (Ok args_at). rewrite !bind_ok.
  rewrite (ld_count _ _ Hl). assert (i32 (Z.of_nat (length args)) = Z.of_nat (length args)) as -> by (unfold i32; rewrite Z.mod_small; lia).
  change (u32 (args_at + LOADER_ARGS_LEN)) with (args_at + 128). rewrite collect_args_spec, bind_ok.
  rewrite wr_ok, bind_ok by (unfold argv_of; rewrite length_app, length_replicate, addresses_length; lia).
  rewrite list_insert_id by (apply rd_ok, argv_end). apply returns_bind.
  eapply returns_mono; [|intros out Ho; apply returns_ok; split; [done|exact Ho]].
  apply (returns_while_ix (fun n '(i, out) => exists k, (k <= length args)%nat /\ n = Z.of_nat (length args - k) /\ i = Z.of_nat k /\
    out.*1 = take k (addresses args_at args))) with (Z.of_nat (length args)); [|exists 0%nat; split; [lia|]; split; [by rewrite Nat.sub_0_r|done]|lia].
  intros n [i out] (k & Hk & -> & -> & Ho). split; [lia|]. unfold print_args.
  destruct (Z.ltb_spec (Z.of_nat k) (Z.of_nat (length args))).
  - destruct (lookup_lt_is_Some_2 args k) as [a Ha]; [lia|]. destruct (argv_arg k a Ha) as (p & Hp & Hc).
    rewrite Hp, bind_ok. apply returns_bind. eapply returns_mono; [by apply (strchr_spec m p a)|]. intros q _. apply returns_ok.
    exists (Z.of_nat (length args - S k)). split; [lia|]. exists (S k). split; [lia|]. split; [done|]. split; [lia|].
    rewrite fmap_app, Ho. simpl. symmetry. apply take_S_r. apply rd_ok in Hp as [_ Hp]. rewrite Nat2Z.id in Hp. unfold argv_of in Hp.
    by rewrite lookup_app_l in Hp by (rewrite addresses_length; lia).
  - apply returns_ok. rewrite Ho. apply take_ge. rewrite addresses_length. lia.
Qed.
End Read.

(** ** Options and actions *)

Lemma loaded_ext m m' args : (forall a, m' a = m a) -> loaded m args -> loaded m' args.
Proof.
  intros Hm [Hc Hp Hs Hw]. split; try done.
  - unfold load32. by rewrite !Hm.
  - clear Hc Hs Hw. revert Hp. generalize args_at. induction args as [|a args IH]; intros p; simpl; [done|].
    intros [Ha Hp]. split; [by apply (cstring_ext m)|by apply IH].
Qed.

Lemma lex_zero s t : lex s t = 0 <-> s = t.
Proof.
  revert t. induction s as [|a s IH]; intros [|b t]; simpl; try done. destruct (Z.eqb_spec a b) as [->|Hne].
  - rewrite IH. split; [congruence|by intros [= ->]].
  - split; [by destruct (a <? b)|congruence].
Qed.

Definition literals : list string := ["="; EmptyString; "-h"; "-q"; "-r"; "run"]%string ++ tests.

(** Membership in a list of strings, by evaluation. *)
Ltac lit_in := apply (bool_decide_unpack _); vm_compute; exact I.

(** The literals of the code are in memory. *)
Definition lits_ok (lit : string -> Z) (m : mem) : Prop := forall s, s ∈ literals -> cstring m (lit s) (chars s).

Lemma lits_ext lit m m' : (forall a, m' a = m a) -> lits_ok lit m -> lits_ok lit m'.
Proof. intros Hm H s Hs. apply (cstring_ext m); [by apply H|by intros; apply Hm]. Qed.

Section Options.
Context {D : Device} (lit : string -> Z).

(** An option without a value. *)
Lemma option_tokens m p w : lits_ok lit m -> cstring m p w -> w <> [] -> (61 ∉ w) ->
  exists save m1 m2, strtok_r m p (lit "=") NULL = Ok (p, save, m1) /\
    strtok_r m1 NULL (lit EmptyString) save = Ok (NULL, save, m2) /\ (forall a, m2 a = m a).
Proof.
  intros Hlit Hw Hne Hin. pose proof (cs_ptr _ _ _ Hw) as Hp.
  assert (Forall (fun c => negb (is_in [61] c) = true) w) as Hall.
  { apply Forall_forall. intros c Hc. unfold is_in. rewrite bool_decide_false; [done|]. intros ->%list_elem_of_singleton. done. }
  assert (next_token [61] w = Some ([], w, [])) as Hnt.
  { unfold next_token. destruct w as [|c w]; [done|]. apply Forall_cons in Hall as Hc. destruct Hc as [Hc _]. simpl span at 1.
    destruct (is_in [61] c); [done|]. by rewrite (span_all _ _ Hall). }
  pose proof (strtok_r_spec m p (lit "=") NULL p w [61]) as H1. rewrite (proj2 (Z.eqb_neq p NULL)) in H1 by (unfold NULL; lia).
  specialize (H1 eq_refl Hw (Hlit "="%string ltac:(lit_in))). rewrite Hnt in H1.
  apply returns_inv in H1 as ([[tok save] m1] & E1 & Hout & Htok & Htw & Hsave & _ & _ & Hend). rewrite past_nil in Htok. subst tok.
  simpl in Hsave. assert (forall a, m1 a = m a) as Hm1.
  { intros a. destruct (decide (p <= a < past p w)) as [Ha|Ha]; [|by apply Hout]. unfold past in Ha.
    destruct (lookup_lt_is_Some_2 w (Z.to_nat (a - p))) as [c Hc]; [lia|]. replace a with (p + Z.of_nat (Z.to_nat (a - p))) by lia.
    by rewrite (cstring_lookup m1 p w _ c Htw Hc), (cstring_lookup m p w _ c Hw Hc). }
  pose proof (strtok_r_spec m1 NULL (lit EmptyString) save save [] [] eq_refl Hsave) as H2.
  specialize (H2 (lits_ext lit m m1 Hm1 Hlit EmptyString ltac:(lit_in))).
  apply returns_inv in H2 as ([[tok save'] m2] & E2 & _ & -> & -> & ->). rewrite past_nil in E2.
  exists save, m1, m1. done.
Qed.

(** The option that asks to power off or to reboot, and what the last one of a list says. *)
Definition option_text (power_off : bool) : list Z := chars (if power_off then "-q" else "-r").

Definition how_of (opts : list bool) : shutdown_type :=
  match list.last opts with None => SHUTDOWN_NONE | Some true => SHUTDOWN_POWER_OFF | Some false => SHUTDOWN_REBOOT end.

Lemma parse_option_step m args k q : lits_ok lit m -> loaded m args -> args !! k = Some (option_text q) ->
  exists m', (forall a, m' a = m a) /\ forall how,
    parse_option lit (argv_of args) (Z.of_nat k, how, m) = Ok (inl (Z.of_nat (S k), if q then SHUTDOWN_POWER_OFF else SHUTDOWN_REBOOT, m')).
Proof.
  intros Hlit Hl Hk. destruct (argv_arg m args Hl k _ Hk) as (p & Hp & Hc).
  destruct (option_tokens m p (option_text q) Hlit Hc) as (save & m1 & m2 & E1 & E2 & Hm); [by destruct q|by destruct q; lit_in|].
  exists m2. split; [done|]. intros how. unfold parse_option. rewrite Hp, bind_ok.
  rewrite (cstring_head m p _ Hc), (cstring_nonnull m p _ Hc). replace (hd 0 (option_text q)) with 45 by by destruct q.
  cbn [negb andb Z.eqb Pos.eqb]. rewrite E1, bind_ok, E2, bind_ok.
  assert (cstring m2 p (option_text q)) as Hc2 by (apply (cstring_ext m); auto). pose proof (lits_ext lit m m2 Hm Hlit) as Hlit2.
  rewrite (strcmp_spec m2 p _ _ _ Hc2 (Hlit2 "-h"%string ltac:(lit_in))), bind_ok.
  rewrite (strcmp_spec m2 p _ _ _ Hc2 (Hlit2 "-q"%string ltac:(lit_in))), bind_ok.
  rewrite (strcmp_spec m2 p _ _ _ Hc2 (Hlit2 "-r"%string ltac:(lit_in))), bind_ok.
  rewrite Nat2Z.inj_succ. by destruct q.
Qed.

Lemma how_of_snoc opts q : how_of (opts ++ [q]) = if q then SHUTDOWN_POWER_OFF else SHUTDOWN_REBOOT.
Proof. unfold how_of. by rewrite list.last_snoc. Qed.

(** Options first, then something that does not begin with a dash, or nothing. *)
Lemma parse_options_spec m opts rest t rng tr : lits_ok lit m -> loaded m ((option_text <$> opts) ++ rest) ->
  match rest with [] => True | a :: _ => hd 0 a <> 45 end ->
  shows t -> valid_time t -> length (Random.s rng) = 256%nat ->
  returns (parse_options lit (argv_of ((option_text <$> opts) ++ rest)) SHUTDOWN_NONE m rng tr) (fun '(i, how, m', rng', _) =>
    i = Z.of_nat (length opts) /\ how = how_of opts /\ (forall a, m' a = m a) /\ rc4_ok rng' /\ inited rng' = true).
Proof.
  intros Hlit Hl Hrest Ht Hv Hr. unfold parse_options. set (args := (option_text <$> opts) ++ rest) in *. apply returns_bind.
  eapply returns_mono; [apply (returns_while_ix (fun n '(i, how, m') => exists k, (k <= length opts)%nat /\ n = Z.of_nat (length opts - k) /\
    i = Z.of_nat k /\ how = how_of (take k opts) /\ (forall a, m' a = m a)) (fun '(i, how, m') => i = Z.of_nat (length opts) /\ how = how_of opts /\
    (forall a, m' a = m a))) with (Z.of_nat (length opts))|].
  - intros n [[i how] m'] (k & Hk & -> & -> & -> & Hm). split; [lia|]. destruct (decide (k < length opts)%nat) as [Hlt|].
    + destruct (lookup_lt_is_Some_2 opts k Hlt) as [q Hq]. destruct (parse_option_step m' args k q) as (m2 & Hm2 & E).
      * by apply (lits_ext lit m).
      * by apply (loaded_ext m).
      * subst args. rewrite lookup_app_l by (rewrite length_fmap; lia). by rewrite list_lookup_fmap, Hq.
      * rewrite E. apply returns_ok. exists (Z.of_nat (length opts - S k)). split; [lia|]. exists (S k). split; [lia|].
        split; [done|]. split; [done|]. rewrite (take_S_r _ _ _ Hq), how_of_snoc. split; [done|]. intros a. by rewrite Hm2.
    + assert (k = length opts) as -> by lia. rewrite take_ge by lia. unfold parse_option.
      assert (exists p, rd (argv_of args) (Z.of_nat (length opts)) = Ok p /\ (p = NULL \/ m' p <> 45)) as (p & -> & Hp).
      { destruct rest as [|a rest].
        - exists NULL. split; [|by left]. replace (length opts) with (length args); [by apply (argv_end m)|].
          subst args. by rewrite length_app, length_fmap, Nat.add_0_r.
        - destruct (argv_arg m args Hl (length opts) a) as (p & Hp & Hc).
          { subst args. rewrite lookup_app_r by (rewrite length_fmap; lia). by rewrite length_fmap, Nat.sub_diag. }
          exists p. split; [done|]. right. by rewrite Hm, (cstring_head m p a Hc). }
      rewrite bind_ok. assert (negb (p =? NULL) && (m' p =? 45) = false) as -> by (destruct Hp as [->|Hp]; [done|zbool]).
      by apply returns_ok.
  - exists 0%nat. split; [lia|]. split; [by rewrite Nat.sub_0_r|]. done.
  - assert (length args <= 64)%nat as Hf by by apply (args_few m). subst args. rewrite length_app, length_fmap in Hf. lia.
  - intros [[i how] m'] (-> & -> & Hm). destruct (rtc_get_time_shown t tr Ht Hv) as [tr' Et]. rewrite Et.
    destruct (rtc_seconds_eq t Hv) as (c & -> & _). rewrite !bind_ok. apply returns_bind.
    eapply returns_mono; [by apply random_init_spec|]. intros rng' (Hok & Hin & _). by apply returns_ok.
Qed.
End Options.

Section Actions.
Context (lit : string -> Z) {A : Type} (test : string -> A -> res A).

(** The tests of a list, one after the other. *)
Fixpoint run_all (tasks : list string) (st : A) : res A :=
  match tasks with [] => Ok st | t :: tasks => st ← test t st; run_all tasks st end.

Definition action_text (task : string) : list (list Z) := [chars "run"; chars task].

Lemma chars_inj a b : chars a = chars b -> a = b.
Proof.
  revert b. induction a as [|c a IH]; intros [|d b]; simpl; try done. intros [= Hc Hr]. f_equal; [|by apply IH].
  apply N2Z.inj in Hc. rewrite <- (Ascii.ascii_N_embedding c), <- (Ascii.ascii_N_embedding d). by rewrite Hc.
Qed.

Lemma run_test_named m p task st : lits_ok lit m -> cstring m p (chars task) -> task ∈ tests ->
  run_test lit test m p st = test task st.
Proof.
  intros Hlit Hc. unfold run_test. assert (forall t, t ∈ tests -> cstring m (lit t) (chars t)) as Hs.
  { intros t Hin. apply Hlit. unfold literals. apply elem_of_app. by right. }
  revert Hs. generalize tests. intros ts. induction ts as [|t ts IH]; intros Hs Hin; [by apply elem_of_nil in Hin|]. cbn [run_test_from].
  rewrite (strcmp_spec m p _ _ _ Hc (Hs t ltac:(by apply list_elem_of_here))), bind_ok.
  destruct (Z.eqb_spec (lex (chars task) (chars t)) 0) as [E|E].
  - by rewrite (chars_inj task t) by by apply lex_zero.
  - apply IH; [intros; apply Hs; by right|]. apply elem_of_cons in Hin as [->|?]; [|done]. exfalso. by apply E, lex_zero.
Qed.

Lemma run_actions_spec m pre tasks st st' : lits_ok lit m -> loaded m (pre ++ flat_map action_text tasks) ->
  Forall (fun t => t ∈ tests) tasks -> run_all tasks st = Ok st' ->
  run_actions lit test (argv_of (pre ++ flat_map action_text tasks)) (Z.of_nat (length pre)) m st = Ok st'.
Proof.
  intros Hlit Hl Hin Hrun. apply returns_eq. unfold run_actions. set (args := pre ++ flat_map action_text tasks) in *.
  assert (length args <= 64)%nat as Hf by by apply (args_few m).
  apply (returns_while_ix (fun n '(i, s) => exists done rest, tasks = done ++ rest /\ n = Z.of_nat (length rest) /\
    i = Z.of_nat (length pre + 2 * length done) /\ run_all rest s = Ok st')) with (Z.of_nat (length tasks)).
  - intros n [i s] (dn & rest & E & -> & -> & Hr). split; [lia|]. unfold run_action.
    assert (args = (pre ++ flat_map action_text dn) ++ flat_map action_text rest) as Ea by (subst args; by rewrite E, flat_map_app, app_assoc).
    assert (length (pre ++ flat_map action_text dn) = length pre + 2 * length dn)%nat as Ep.
    { rewrite length_app. f_equal. clear. induction dn as [|x l IH]; simpl; [done|]. rewrite IH. lia. }
    destruct rest as [|t rest].
    + rewrite app_nil_r in Ea. rewrite <- Ep, <- Ea, (argv_end m args Hl), bind_ok. simpl in Hr. simplify_eq. by apply returns_ok.
    + destruct (argv_arg m args Hl (length pre + 2 * length dn) (chars "run")) as (p & Hp & Hc).
      { rewrite Ea, lookup_app_r by lia. by rewrite Ep, Nat.sub_diag. }
      destruct (argv_arg m args Hl (S (length pre + 2 * length dn)) (chars t)) as (p2 & Hp2 & Hc2).
      { rewrite Ea, lookup_app_r by lia. by replace (S (length pre + 2 * length dn) - length (pre ++ flat_map action_text dn))%nat with 1%nat by lia. }
      rewrite Nat2Z.inj_succ in Hp2. change Z.succ with (fun x => x + 1) in Hp2. cbv beta in Hp2.
      rewrite Hp, bind_ok, (cstring_nonnull m p _ Hc). cbn [negb]. rewrite (strcmp_spec m p _ _ _ Hc (Hlit "run"%string ltac:(lit_in))), bind_ok.
      rewrite (proj2 (lex_zero _ _) eq_refl). cbn [Z.eqb negb]. rewrite Hp2, bind_ok, (cstring_nonnull m p2 _ Hc2).
      unfold run_task. rewrite Hp2, bind_ok, (run_test_named m p2 t s Hlit Hc2).
      * simpl in Hr. destruct (test t s) as [s1|]; [|done]. rewrite bind_ok in Hr. rewrite bind_ok. apply returns_ok.
        exists (Z.of_nat (length rest)). split; [simpl; lia|]. exists (dn ++ [t]), rest. rewrite <- app_assoc. split; [done|].
        split; [done|]. split; [|done]. rewrite length_app. simpl. lia.
      * rewrite E in Hin. apply Forall_app in Hin as [_ Hin]. by apply Forall_cons in Hin as [? _].
  - exists [], tasks. split; [done|]. split; [done|]. split; [|done]. f_equal. simpl. lia.
  - subst args. rewrite length_app in Hf. assert (length tasks <= length (flat_map action_text tasks))%nat; [|lia].
    clear. induction tasks as [|x l IH]; simpl; [done|]. lia.
Qed.
End Actions.

(** C28: The kernel runs what the command line says.  When the loader has left a command
    line of options -q and -r followed by actions "run TEST", at most 128 bytes of it,
    [read_command_line] collects and prints every argument, [parse_options] stops behind
    the options with the last of them configured and the random number generator seeded,
    and [run_actions] runs exactly the tests named, in order. *)
Theorem command_line_runs {D : Device} {A : Type} (lit : string -> Z) (test : string -> A -> res A) m opts tasks t rng tr :
  lits_ok lit m -> loaded m ((option_text <$> opts) ++ flat_map action_text tasks) -> Forall (fun x => x ∈ tests) tasks ->
  shows t -> valid_time t -> length (Random.s rng) = 256%nat ->
  returns (read_command_line m) (fun '(argv, out) => length out = (length opts + 2 * length tasks)%nat /\
    returns (parse_options lit argv SHUTDOWN_NONE m rng tr) (fun '(i, how, m', rng', _) =>
      how = how_of opts /\ inited rng' = true /\
      forall st st', run_all test tasks st = Ok st' -> run_actions lit test argv i m' st = Ok st')).
Proof.
  intros Hlit Hl Hin Ht Hv Hr. eapply returns_mono; [by apply (read_command_line_spec m _ Hl)|]. intros [argv out] [-> Ho]. split.
  - rewrite <- (length_fmap fst), Ho, addresses_length, length_app, length_fmap. f_equal.
    clear. induction tasks as [|x l IH]; simpl; [done|]. lia.
  - eapply returns_mono; [by apply (parse_options_spec lit m opts _ t rng tr); destruct tasks|].
    intros [[[[i how] m'] rng'] tr'] (-> & -> & Hm & _ & Hi). split; [done|]. split; [done|]. intros st st' Hrun.
    rewrite <- (length_fmap option_text opts). apply run_actions_spec; try done; [by apply (lits_ext lit m)|by apply (loaded_ext m)].
Qed.

(** ** An example: -q run bestfit run buddy *)

Definition cstringb (m : mem) (p : Z) (s : list Z) : bool :=
  (0 <? p) && (p + Z.of_nat (length s) <? 2 ^ 32) && forallb (fun c => (0 <? c) && (c <? 2 ^ 8)) s &&
  forallb (fun i => m (p + Z.of_nat i) =? nth i s 0) (seq 0 (S (length s))).

Lemma cstringb_sound m p s : cstringb m p s = true -> cstring m p s.
Proof.
  unfold cstringb. intros [[[H1 H2]%andb_prop H3]%andb_prop H4]%andb_prop. rewrite forallb_forall in H4.
  assert (forall i, (i <= length s)%nat -> m (p + Z.of_nat i) = nth i s 0) as H5.
  { intros i Hi. apply Z.eqb_eq, H4, in_seq. lia. }
  apply cstring_intro; [lia|lia| | |].
  - apply Forall_forall. intros c Hc. rewrite forallb_forall in H3. apply list_elem_of_In in Hc. specialize (H3 c Hc). zbool.
  - intros i c Hi. pose proof (lookup_lt_Some _ _ _ Hi). rewrite H5 by lia. by rewrite nth_lookup, Hi.
  - unfold past. rewrite H5 by lia. by rewrite nth_overflow.
Qed.

Fixpoint packedb (m : mem) (p : Z) (args : list (list Z)) : bool :=
  match args with [] => true | a :: args => cstringb m p a && packedb m (past p a + 1) args end.

Lemma packedb_sound m p args : packedb m p args = true -> packed m p args.
Proof.
  revert p. induction args as [|a args IH]; intros p; simpl; [done|]. intros [Ha Hp]%andb_prop.
  split; [by apply cstringb_sound|by apply IH].
Qed.

Definition example_tasks : list string := ["bestfit"%string; "buddy"%string].
Definition example_args : list (list Z) := (option_text <$> [true]) ++ flat_map action_text example_tasks.

Definition example_lit (s : string) : Z :=
  0x1000 + 32 * match list_find (fun x => x = s) literals with Some (i, _) => Z.of_nat i | None => 31 end.

Definition example_mem : mem := fun a =>
  if (args_at <=? a) && (a <? args_at + 128) then nth (Z.to_nat (a - args_at)) (flat_map (fun w => w ++ [0]) example_args) 0
  else if a =? 0xc0007d3a then Z.of_nat (length example_args)
  else if (0x1000 <=? a) && (a <? 0x1000 + 32 * 10)
  then nth (Z.to_nat ((a - 0x1000) mod 32)) (chars (nth (Z.to_nat ((a - 0x1000) / 32)) literals EmptyString)) 0
  else 0.

Lemma example_loaded : lits_ok example_lit example_mem /\ loaded example_mem example_args.
Proof.
  split.
  - assert (forallb (fun s => cstringb example_mem (example_lit s) (chars s)) literals = true) as H by (vm_compute; reflexivity).
    rewrite forallb_forall in H. intros s Hs. apply cstringb_sound, H. by apply list_elem_of_In.
  - split; [vm_compute; reflexivity|apply packedb_sound; vm_compute; reflexivity|vm_compute; congruence|].
    repeat (apply Forall_cons_2; [by vm_compute|]). apply Forall_nil. done.
Qed.

Lemma still_clock_shows : shows (D := still_clock) leap_noon /\ valid_time leap_noon.
Proof.
  split.
  - intros tr reg. repeat split; unfold reg, outb, dev, still_clock; rewrite list.last_snoc; reflexivity.
  - repeat split; vm_compute; congruence.
Qed.

Lemma command_line_runs_witness :
  returns (read_command_line example_mem) (fun '(argv, out) => length out = 5%nat /\
    returns (parse_options (D := still_clock) example_lit argv SHUTDOWN_NONE example_mem rc4_static []) (fun '(i, how, m', rng', _) =>
      how = SHUTDOWN_POWER_OFF /\ inited rng' = true /\
      forall st st', run_all (fun t st => Ok (st ++ [t])) example_tasks st = Ok st' ->
        run_actions example_lit (fun t st => Ok (st ++ [t])) argv i m' st = Ok st')).
Proof.
  apply (command_line_runs (D := still_clock) example_lit (fun t st => Ok (st ++ [t])) example_mem [true] example_tasks leap_noon rc4_static []).
  - apply example_loaded.
  - apply example_loaded.
  - repeat (apply Forall_cons_2; [lit_in|]). by apply Forall_nil.
  - apply still_clock_shows.
  - apply still_clock_shows.
  - reflexivity.
Defined.

(** [argv] has room for 64 arguments of at least one character; 66 empty ones also fit into
    the 128 bytes of the loader, and the loop writes behind the array. *)
Lemma empty_args_overflow : read_command_line (fun a => if a =? 0xc0007d3a then 66 else 0) = Err BadAccess.
Proof. vm_compute. reflexivity. Qed.
