(* ===== verification/Block.v ===== *)
(** * Block devices (devices/block.c)

    The registry of block devices and the access to their sectors.  Devices are kept in
    blocks of the allocator, which is used through [BlockOps]; the disk driver at the bottom
    is used through the class [Driver], and partitions are devices on top of other devices
    (devices/partition.c), so that a read or write goes down until it meets the driver. *)

From Stdlib Require Import ZArith Lia.
From stdpp Require Import base gmap list numbers strings.
From S2P Require Import Prelude CString Ctype Interfaces.

Local Open Scope Z_scope.

Definition BLOCK_SECTOR_SIZE : Z := 512.

Inductive block_type :=
| BLOCK_KERNEL | BLOCK_FILESYS | BLOCK_SCRATCH | BLOCK_SWAP
| BLOCK_RAW | BLOCK_FOREIGN.

#[export] Instance block_type_eq_dec : EqDecision block_type.
Proof. solve_decision. Defined.

(** The number of an enumeration constant. *)
Definition type_no (t : block_type) : Z :=
  match t with
  | BLOCK_KERNEL => 0 | BLOCK_FILESYS => 1 | BLOCK_SCRATCH => 2 | BLOCK_SWAP => 3
  | BLOCK_RAW => 4 | BLOCK_FOREIGN => 5
  end.
Definition BLOCK_ROLE_CNT : Z := 4.
Definition BLOCK_CNT : Z := 6.

Definition block_type_name (type : block_type) : string :=
  match type with
  | BLOCK_KERNEL => "kernel" | BLOCK_FILESYS => "filesys" | BLOCK_SCRATCH => "scratch"
  | BLOCK_SWAP => "swap" | BLOCK_RAW => "raw" | BLOCK_FOREIGN => "foreign"
  end.

(** The two tables of driver operations in the sources. *)
Inductive block_operations := ide_operations | partition_operations.

Record block := mk_block {
  name : list Z;               (* without its terminator, at most 15 characters *)
  type : block_type;
  size : Z;
  ops : block_operations;
  aux : Z;
  read_cnt : Z;
  write_cnt : Z
}.

(** struct partition of devices/partition.c, the [aux] of a partition's block device. *)
Record partition := mk_partition { underlying : Z; start : Z }.

Definition SIZEOF_BLOCK : Z := 56.

(** What the two files print. *)
Inductive message :=
| Stats (name : list Z) (type : block_type) (reads writes : Z)
| Found (name : list Z) (size : Z) (extra_info : option (list Z))
| No_partitions (name : list Z)
| Table_past_end (name : list Z) (sector : Z)
| Invalid_signature (name : list Z)
| Invalid_extended (name : list Z) (sector : Z)
| Extended_partition (name : list Z) (sector : Z)
| Starts_past_end (name : list Z) (part_nr start : Z)
| Ends_past_end (name : list Z) (part_nr fin size : Z).

(** What strlcpy and snprintf leave in a buffer of [n] bytes. *)
Definition bounded (n : nat) (s : list Z) : list Z := take (n - 1) s.

(** ** The driver *)

Definition blit (m : mem) (p : Z) (l : list Z) : mem :=
  fun a => if (p <=? a) && (a <? p + Z.of_nat (length l)) then default 0 (l !! Z.to_nat (a - p)) else m a.

Definition bytes_at (m : mem) (p : Z) (n : nat) : list Z := map (fun i => m (p + Z.of_nat i)) (seq 0 n).

(** The sector that memory holds at [p]. *)
Definition sector_at (m : mem) (p : Z) : list Z := map u8 (bytes_at m p 512).
Arguments sector_at : simpl never.

(** The operations that the table ide_operations names. *)
Class DriverOps (S : Type) := {
  drv_read : Z -> Z -> Z -> S * mem -> res (S * mem);
  drv_write : Z -> Z -> Z -> S * mem -> res S
}.

(** What a driver promises; [contents s d k] are the bytes of sector [k] of disk [d]. *)
Class Driver (S : Type) {Dops : DriverOps S} := {
  drv_ok : S -> Prop;
  capacity : S -> Z -> Z;
  contents : S -> Z -> Z -> list Z;
  contents_length : forall s d k, length (contents s d k) = 512%nat;
  read_law : forall s m d k buf, drv_ok s -> 0 <= k < capacity s d -> block_ok buf BLOCK_SECTOR_SIZE ->
    returns (drv_read d k buf (s, m)) (fun '(s', m') => drv_ok s' /\
      (forall d', capacity s' d' = capacity s d') /\ (forall d' k', contents s' d' k' = contents s d' k') /\
      forall a, m' a = blit m buf (contents s d k) a);
  write_law : forall s m d k buf, drv_ok s -> 0 <= k < capacity s d -> block_ok buf BLOCK_SECTOR_SIZE ->
    returns (drv_write d k buf (s, m)) (fun s' => drv_ok s' /\
      (forall d', capacity s' d' = capacity s d') /\
      forall d' k', contents s' d' k' = if (d' =? d) && (k' =? k) then sector_at m buf else contents s d' k')
}.

(** The static variables, the devices and partitions by address, the allocator, the driver,
    the memory and the output. *)
Record bstate (A S : Type) := mk_bstate {
  all_blocks : list Z;
  block_by_role : list Z;
  block_at : gmap Z block;
  partition_at : gmap Z partition;
  heap : A;
  driver : S;
  bmem : mem;
  printed : list message
}.
Arguments mk_bstate {A S}.
Arguments all_blocks {A S}.
Arguments block_by_role {A S}.
Arguments block_at {A S}.
Arguments partition_at {A S}.
Arguments heap {A S}.
Arguments driver {A S}.
Arguments bmem {A S}.
Arguments printed {A S}.

Section Block.
Context {A S : Type} `{!BlockOps A} {Dops : DriverOps S}.
Implicit Types (st : bstate A S).

Definition get_block st (b : Z) : res block :=
  match block_at st !! b with Some r => Ok r | None => Err BadAccess end.
Definition get_partition st (p : Z) : res partition :=
  match partition_at st !! p with Some r => Ok r | None => Err BadAccess end.

Definition put_block st (b : Z) (r : block) : bstate A S :=
  mk_bstate (all_blocks st) (block_by_role st) (<[b := r]> (block_at st)) (partition_at st) (heap st) (driver st) (bmem st) (printed st).
Definition put_partition st (p : Z) (r : partition) : bstate A S :=
  mk_bstate (all_blocks st) (block_by_role st) (block_at st) (<[p := r]> (partition_at st)) (heap st) (driver st) (bmem st) (printed st).
Definition put_heap st (h : A) : bstate A S :=
  mk_bstate (all_blocks st) (block_by_role st) (block_at st) (partition_at st) h (driver st) (bmem st) (printed st).
Definition put_driver st (s : S) (m : mem) : bstate A S :=
  mk_bstate (all_blocks st) (block_by_role st) (block_at st) (partition_at st) (heap st) s m (printed st).
Definition put_all_blocks st (l : list Z) : bstate A S :=
  mk_bstate l (block_by_role st) (block_at st) (partition_at st) (heap st) (driver st) (bmem st) (printed st).
Definition put_roles st (l : list Z) : bstate A S :=
  mk_bstate (all_blocks st) l (block_at st) (partition_at st) (heap st) (driver st) (bmem st) (printed st).
Definition print (x : message) st : bstate A S :=
  mk_bstate (all_blocks st) (block_by_role st) (block_at st) (partition_at st) (heap st) (driver st) (bmem st) (printed st ++ [x]).

Definition block_get_role (role : block_type) st : res Z :=
  ASSERT (type_no role <? BLOCK_ROLE_CNT);;
  rd (block_by_role st) (type_no role).

Definition block_set_role (role : block_type) (b : Z) st : res (bstate A S) :=
  ASSERT (type_no role <? BLOCK_ROLE_CNT);;
  l ← wr (block_by_role st) (type_no role) b;
  Ok (put_roles st l).

Definition block_first st : Z := default NULL (head (all_blocks st)).

(** What follows [b] in a list; list_next asserts that its argument is in a list. *)
Fixpoint next_in (b : Z) (l : list Z) : res Z :=
  match l with
  | [] => Err AssertFail
  | x :: l => if x =? b then Ok (default NULL (head l)) else next_in b l
  end.

Definition block_next (b : Z) st : res Z := next_in b (all_blocks st).

Fixpoint find_name (n : list Z) (l : list Z) st : res Z :=
  match l with
  | [] => Ok NULL
  | b :: l =>
      r ← get_block st b;
      if bool_decide (n = name r) then Ok b else find_name n l st
  end.

Definition block_get_by_name (n : list Z) st : res Z := find_name n (all_blocks st) st.

Definition check_sector (b sector : Z) st : res unit :=
  r ← get_block st b;
  if size r <=? sector then Err KernelPanic else Ok tt.

Definition count_read (b : Z) st : res (bstate A S) :=
  r ← get_block st b;
  Ok (put_block st b (mk_block (name r) (type r) (size r) (ops r) (aux r) (u64 (read_cnt r + 1)) (write_cnt r))).
Definition count_write (b : Z) st : res (bstate A S) :=
  r ← get_block st b;
  Ok (put_block st b (mk_block (name r) (type r) (size r) (ops r) (aux r) (read_cnt r) (u64 (write_cnt r + 1)))).

(** partition_read and partition_write, on the operation of the layer below. *)
Definition partition_read (block_read : Z -> Z -> Z -> bstate A S -> res (bstate A S)) (p sector buffer : Z) st : res (bstate A S) :=
  r ← get_partition st p;
  block_read (underlying r) (u32 (start r + sector)) buffer st.
Definition partition_write (block_write : Z -> Z -> Z -> bstate A S -> res (bstate A S)) (p sector buffer : Z) st : res (bstate A S) :=
  r ← get_partition st p;
  block_write (underlying r) (u32 (start r + sector)) buffer st.

(** [depth] bounds the number of devices on top of each other. *)
Fixpoint block_read (depth : nat) (b sector buffer : Z) st : res (bstate A S) :=
  match depth with
  | O => Err NoFuel
  | Datatypes.S depth =>
      check_sector b sector st;;
      r ← get_block st b;
      st ← match ops r with
           | ide_operations =>
               '(s, m) ← drv_read (aux r) sector buffer (driver st, bmem st);
               Ok (put_driver st s m)
           | partition_operations => partition_read (block_read depth) (aux r) sector buffer st
           end;
      count_read b st
  end.

Fixpoint block_write (depth : nat) (b sector buffer : Z) st : res (bstate A S) :=
  match depth with
  | O => Err NoFuel
  | Datatypes.S depth =>
      check_sector b sector st;;
      r ← get_block st b;
      ASSERT (negb (bool_decide (type r = BLOCK_FOREIGN)));;
      st ← match ops r with
           | ide_operations =>
               s ← drv_write (aux r) sector buffer (driver st, bmem st);
               Ok (put_driver st s (bmem st))
           | partition_operations => partition_write (block_write depth) (aux r) sector buffer st
           end;
      count_write b st
  end.

Definition block_print_stats_step st (b : Z) : res (bstate A S) :=
  if b =? NULL then Ok st else
  r ← get_block st b;
  Ok (print (Stats (name r) (type r) (read_cnt r) (write_cnt r)) st).

Fixpoint block_print_stats_from (l : list Z) st : res (bstate A S) :=
  match l with
  | [] => Ok st
  | b :: l => st ← block_print_stats_step st b; block_print_stats_from l st
  end.

Definition block_print_stats st : res (bstate A S) := block_print_stats_from (block_by_role st) st.

Definition block_register (n : list Z) (t : block_type) (extra_info : option (list Z)) (sz : Z) (o : block_operations) (x : Z) st :
    res (Z * bstate A S) :=
  '(b, h) ← bo_malloc (heap st) SIZEOF_BLOCK;
  let st := put_heap st h in
  if b =? NULL then Err KernelPanic else
  let st := put_all_blocks st (all_blocks st ++ [b]) in
  let r := mk_block (bounded 16 n) t sz o x 0 0 in
  let st := put_block st b r in
  Ok (b, print (Found (name r) (size r) extra_info) st).
End Block.

(** ** Well-formed registries *)

(** The part of a device that accesses leave alone. *)
Definition shape (r : block) : list Z * block_type * Z * block_operations * Z := (name r, type r, size r, ops r, aux r).

Section Registry.
Context {A S : Type} `{!BlockOps A} {Dops : DriverOps S} {DR : Driver S}.
Implicit Types (st : bstate A S).

(** A disk is within its capacity; a partition lies inside the device below it. *)
Definition device_ok st (r : block) : Prop :=
  0 <= size r < 2 ^ 32 /\ (length (name r) <= 15)%nat /\
  match ops r with
  | ide_operations => size r <= capacity (driver st) (aux r)
  | partition_operations => exists p r', partition_at st !! aux r = Some p /\ block_at st !! underlying p = Some r' /\
      0 <= start p /\ start p + size r <= size r'
  end.

(** Devices are stacked: the device below has a smaller level. *)
Definition levels_ok (lv : Z -> nat) st : Prop := forall b r, block_at st !! b = Some r ->
  (lv b < length (all_blocks st))%nat /\
  forall p, ops r = partition_operations -> partition_at st !! aux r = Some p -> (lv (underlying p) < lv b)%nat.

Record registry_ok st : Prop := mk_registry_ok {
  ro_heap : heap_ok (heap st);
  ro_driver : drv_ok (driver st);
  ro_nodup : NoDup (all_blocks st);
  ro_all b : b ∈ all_blocks st <-> is_Some (block_at st !! b);
  ro_block b r : block_at st !! b = Some r -> device_ok st r;
  ro_owned b : is_Some (block_at st !! b) \/ is_Some (partition_at st !! b) -> exists sz, blocks (heap st) !! b = Some sz /\ 0 < sz;
  ro_levels : exists lv, levels_ok lv st;
  ro_roles : length (block_by_role st) = 4%nat /\ Forall (fun b => b = NULL \/ b ∈ all_blocks st) (block_by_role st)
}.

(** What an access to a sector keeps: everything but the counters, the driver and memory. *)
Record quiet st st' : Prop := mk_quiet {
  qu_all : all_blocks st' = all_blocks st;
  qu_roles : block_by_role st' = block_by_role st;
  qu_shape b : shape <$> block_at st' !! b = shape <$> block_at st !! b;
  qu_partition : partition_at st' = partition_at st;
  qu_heap : heap st' = heap st;
  qu_printed : printed st' = printed st;
  qu_driver : drv_ok (driver st) -> drv_ok (driver st');
  qu_capacity d : capacity (driver st') d = capacity (driver st) d
}.

#[local] Instance quiet_preorder : PreOrder quiet.
Proof.
  split; [by intros st; split|]. intros s1 s2 s3 [] []. split; try congruence; auto.
Qed.

Lemma shape_lookup st st' b r' : quiet st st' -> block_at st' !! b = Some r' ->
  exists r, block_at st !! b = Some r /\ shape r = shape r'.
Proof.
  intros Hq Hb. pose proof (qu_shape _ _ Hq b) as E. rewrite Hb in E. simpl in E.
  destruct (block_at st !! b) as [r|]; [|done]. exists r. split; [done|]. simpl in E. congruence.
Qed.

Lemma quiet_some st st' b : quiet st st' -> is_Some (block_at st' !! b) <-> is_Some (block_at st !! b).
Proof.
  intros Hq. pose proof (qu_shape _ _ Hq b) as E. destruct (block_at st' !! b), (block_at st !! b); try done; split; eauto.
Qed.

Lemma registry_quiet st st' : quiet st st' -> registry_ok st -> registry_ok st'.
Proof.
  intros Hq [Hh Hd Hn Ha Hb Ho [lv Hl] Hr]. split.
  - by rewrite (qu_heap _ _ Hq).
  - by apply (qu_driver _ _ Hq).
  - by rewrite (qu_all _ _ Hq).
  - intros b. by rewrite (qu_all _ _ Hq), Ha, (quiet_some st st').
  - intros b r' Hr'. destruct (shape_lookup _ _ _ _ Hq Hr') as (r & Er & Es). destruct (Hb b r Er) as (H1 & H2 & H3).
    injection Es as En Et Ez Eo Ex. unfold device_ok. rewrite <- En, <- Ez, <- Eo, <- Ex, (qu_capacity _ _ Hq), (qu_partition _ _ Hq).
    split; [done|]. split; [done|]. destruct (ops r); [done|]. destruct H3 as (p & u & Hp & Hu & Hs).
    pose proof (qu_shape _ _ Hq (underlying p)) as E. rewrite Hu in E. destruct (block_at st' !! underlying p) as [u'|] eqn:Eu; [|done].
    simpl in E. injection E as _ _ Ez' _ _. exists p, u'. by rewrite Ez'.
  - intros b. rewrite (quiet_some st st'), (qu_partition _ _ Hq), (qu_heap _ _ Hq) by done. apply Ho.
  - exists lv. intros b r' Hr'. destruct (shape_lookup _ _ _ _ Hq Hr') as (r & Er & Es). injection Es as _ _ _ Eo Ex.
    rewrite (qu_all _ _ Hq), (qu_partition _ _ Hq), <- Eo, <- Ex. by apply Hl.
  - by rewrite (qu_roles _ _ Hq), (qu_all _ _ Hq).
Qed.

(** ** Windows: where the sectors of a device lie on a disk *)

Fixpoint window (depth : nat) st (b : Z) : option (Z * Z) :=
  match depth with
  | O => None
  | Datatypes.S depth =>
      r ← block_at st !! b;
      match ops r with
      | ide_operations => Some (aux r, 0)
      | partition_operations =>
          p ← partition_at st !! aux r;
          '(d, off) ← window depth st (underlying p);
          Some (d, off + start p)
      end
  end.

Definition depth_of st : nat := length (all_blocks st).

Lemma window_some st lv depth b r : registry_ok st -> levels_ok lv st -> block_at st !! b = Some r -> (lv b < depth)%nat ->
  exists d off, window depth st b = Some (d, off) /\ 0 <= off /\ off + size r <= capacity (driver st) d.
Proof.
  intros Hok Hl. revert b r. induction depth as [|depth IH]; intros b r Hb Hd; [lia|]. simpl. rewrite Hb. simpl.
  destruct (ro_block _ Hok b r Hb) as (Hz & _ & Hr). destruct (Hl b r Hb) as [_ Hlow].
  destruct (ops r); [eexists _, _; split; [done|lia]|].
  destruct Hr as (p & u & Hp & Hu & Hs0 & Hs). rewrite Hp. simpl.
  destruct (IH (underlying p) u Hu) as (d & off & -> & H0 & H1); [specialize (Hlow p eq_refl Hp); lia|].
  simpl. eexists _, _. split; [done|]. lia.
Qed.

(** Counting an access. *)
Lemma count_read_quiet st b r : block_at st !! b = Some r -> returns (count_read b st) (fun st' =>
  quiet st st' /\ driver st' = driver st /\ bmem st' = bmem st).
Proof.
  intros Hb. unfold count_read, get_block. rewrite Hb. simpl. split; [|done]. split; try done.
  intros b'. simpl. destruct (decide (b' = b)) as [->|]; [by rewrite lookup_insert_eq, Hb|by rewrite lookup_insert_ne].
Qed.

Lemma count_write_quiet st b r : block_at st !! b = Some r -> returns (count_write b st) (fun st' =>
  quiet st st' /\ driver st' = driver st /\ bmem st' = bmem st).
Proof.
  intros Hb. unfold count_write, get_block. rewrite Hb. simpl. split; [|done]. split; try done.
  intros b'. simpl. destruct (decide (b' = b)) as [->|]; [by rewrite lookup_insert_eq, Hb|by rewrite lookup_insert_ne].
Qed.

(** Reading a sector of a device reads the sector of its window on the disk. *)
Lemma block_read_spec depth st lv b r k buf : registry_ok st -> levels_ok lv st -> block_at st !! b = Some r -> (lv b < depth)%nat ->
  0 <= k < size r -> block_ok buf BLOCK_SECTOR_SIZE ->
  returns (block_read depth b k buf st) (fun st' => exists d off, window depth st b = Some (d, off) /\ quiet st st' /\
    (forall d' k', contents (driver st') d' k' = contents (driver st) d' k') /\
    forall a, bmem st' a = blit (bmem st) buf (contents (driver st) d (off + k)) a).
Proof.
  intros Hok Hl. revert b r k. induction depth as [|depth IH]; intros b r k Hb Hd Hk Hbuf; [lia|]. cbn [block_read window].
  unfold check_sector, get_block. rewrite Hb. simpl. destruct (Z.leb_spec (size r) k); [lia|]. simpl.
  destruct (ro_block _ Hok b r Hb) as (Hz & _ & Hr). destruct (Hl b r Hb) as [_ Hlow].
  destruct (ops r); simpl.
  - apply returns_bind, returns_bind. eapply returns_mono; [apply read_law; [apply (ro_driver _ Hok)|lia|done]|].
    intros [s m] (H1 & H2 & H3 & H4). apply returns_ok.
    eapply returns_mono; [by apply (count_read_quiet (put_driver st s m) b r)|]. intros st' (Hq & Ed & Em).
    exists (aux r), 0. split; [done|]. rewrite Ed, Em. split; [etransitivity; [|exact Hq]; by split|]. by split.
  - destruct Hr as (p & u & Hp & Hu & Hs0 & Hs). apply returns_bind. unfold partition_read, get_partition. rewrite Hp. simpl.
    destruct (ro_block _ Hok _ u Hu) as [Hu' _]. rewrite u32_small by lia.
    eapply returns_mono; [apply (IH (underlying p) u); [done|specialize (Hlow p eq_refl Hp); lia|lia|done]|].
    intros st1 (d & off & Hw & Hq1 & Hc & Hm). pose proof (quiet_some _ _ b Hq1) as Hs1.
    destruct (block_at st1 !! b) as [r1|] eqn:E1; [|rewrite Hb in Hs1; destruct (proj2 Hs1 ltac:(eauto)); done].
    eapply returns_mono; [by apply (count_read_quiet st1 b r1)|]. intros st' (Hq & Ed & Em).
    exists d, (off + start p). rewrite Hw. split; [done|]. rewrite Ed, Em. split; [by etransitivity|]. split; [done|].
    intros a. rewrite Hm. by rewrite Z.add_assoc.
Qed.

(** No foreign device on the way down. *)
Fixpoint writable (depth : nat) st (b : Z) : bool :=
  match depth with
  | O => false
  | Datatypes.S depth =>
      match block_at st !! b with
      | Some r => negb (bool_decide (type r = BLOCK_FOREIGN)) &&
          match ops r, partition_at st !! aux r with
          | partition_operations, Some p => writable depth st (underlying p)
          | ide_operations, _ => true
          | _, None => false
          end
      | None => false
      end
  end.

Lemma block_write_spec depth st lv b r k buf : registry_ok st -> levels_ok lv st -> block_at st !! b = Some r -> (lv b < depth)%nat ->
  0 <= k < size r -> block_ok buf BLOCK_SECTOR_SIZE ->
  if writable depth st b then
    returns (block_write depth b k buf st) (fun st' => exists d off, window depth st b = Some (d, off) /\ quiet st st' /\
      (forall d' k', contents (driver st') d' k' =
        if (d' =? d) && (k' =? off + k) then sector_at (bmem st) buf else contents (driver st) d' k') /\ bmem st' = bmem st)
  else block_write depth b k buf st = Err AssertFail.
Proof.
  intros Hok Hl. revert b r k. induction depth as [|depth IH]; intros b r k Hb Hd Hk Hbuf; [lia|]. cbn [block_write window writable].
  unfold check_sector, get_block. rewrite Hb. simpl. destruct (Z.leb_spec (size r) k); [lia|]. simpl.
  destruct (ro_block _ Hok b r Hb) as (Hz & _ & Hr). destruct (Hl b r Hb) as [_ Hlow].
  destruct (bool_decide (type r = BLOCK_FOREIGN)); simpl; [done|]. destruct (ops r); simpl.
  - apply returns_bind, returns_bind. eapply returns_mono; [apply write_law; [apply (ro_driver _ Hok)|lia|done]|].
    intros s (H1 & H2 & H3). apply returns_ok.
    eapply returns_mono; [by apply (count_write_quiet (put_driver st s (bmem st)) b r)|]. intros st' (Hq & Ed & Em).
    exists (aux r), 0. split; [done|]. rewrite Ed, Em. split; [etransitivity; [|exact Hq]; by split|]. by split.
  - destruct Hr as (p & u & Hp & Hu & Hs0 & Hs). unfold partition_write, get_partition. rewrite Hp. simpl.
    destruct (ro_block _ Hok _ u Hu) as [Hu' _]. rewrite u32_small by lia.
    specialize (IH (underlying p) u (start p + k) Hu ltac:(specialize (Hlow p eq_refl Hp); lia) ltac:(lia) Hbuf).
    destruct (writable depth st (underlying p)); [|by rewrite IH]. apply returns_bind. eapply returns_mono; [exact IH|].
    intros st1 (d & off & Hw & Hq1 & Hc & Hm). pose proof (quiet_some _ _ b Hq1) as Hs1.
    destruct (block_at st1 !! b) as [r1|] eqn:E1; [|rewrite Hb in Hs1; destruct (proj2 Hs1 ltac:(eauto)); done].
    eapply returns_mono; [by apply (count_write_quiet st1 b r1)|]. intros st' (Hq & Ed & Em).
    exists d, (off + start p). rewrite Hw. split; [done|]. rewrite Ed, Em. split; [by etransitivity|]. split; [|done].
    intros d' k'. rewrite Hc. by rewrite Z.add_assoc.
Qed.

Lemma past_end_panics depth st b r k buf : block_at st !! b = Some r -> size r <= k ->
  block_read (Datatypes.S depth) b k buf st = Err KernelPanic /\ block_write (Datatypes.S depth) b k buf st = Err KernelPanic.
Proof.
  intros Hb Hk. simpl. unfold check_sector, get_block. rewrite Hb. simpl. destruct (Z.leb_spec (size r) k); [done|lia].
Qed.

(** ** Registration *)

Lemma owned_fresh st b p sz : registry_ok st -> is_Some (block_at st !! b) \/ is_Some (partition_at st !! b) ->
  fresh_block (blocks (heap st)) p sz -> 0 < sz -> p <> b.
Proof.
  intros Hok Hb (_ & _ & _ & Hf) Hsz ->. destruct (ro_owned _ Hok b Hb) as (sz' & E & ?). destruct (Hf b sz' E); lia.
Qed.

(** A heap that changed in blocks that no device uses. *)
Lemma registry_heap st h : registry_ok st -> heap_ok h ->
  (forall b sz, is_Some (block_at st !! b) \/ is_Some (partition_at st !! b) -> blocks (heap st) !! b = Some sz -> blocks h !! b = Some sz) ->
  registry_ok (put_heap st h).
Proof.
  intros [Hh Hd Hn Ha Hb Ho Hl Hr] Hh' Hk. split; try done. intros b Hb'. destruct (Ho b Hb') as (sz & E & ?). exists sz. split; [by apply Hk|done].
Qed.

(** ** Running out of memory *)

(** From one state of the allocator to another with at most [n] allocations of no more than
    a sector, and any releases. *)
Inductive within : nat -> A -> A -> Prop :=
| within_none n a : within n a a
| within_malloc n a a' sz p a'' : within n a a' -> 0 <= sz <= BLOCK_SECTOR_SIZE -> bo_malloc a' sz = Ok (p, a'') -> within (Datatypes.S n) a a''
| within_free n a a' p a'' : within n a a' -> bo_free a' p = Ok a'' -> within n a a''.

Definition out_of_memory (n : nat) (a : A) : Prop := exists k a' sz a'', (k < n)%nat /\ within k a a' /\
  0 <= sz <= BLOCK_SECTOR_SIZE /\ bo_malloc a' sz = Ok (NULL, a'').

Lemma within_mono n n' a a' : within n a a' -> (n <= n')%nat -> within n' a a'.
Proof.
  intros Hw. revert n'. induction Hw as [| n a a' sz p a'' Hw IH Hs Hm |]; intros n' Hn.
  - constructor.
  - destruct n' as [|n']; [lia|]. eapply within_malloc; [apply IH; lia|done|done].
  - eapply within_free; eauto.
Qed.

Lemma within_trans n n' a a' a'' : within n a a' -> within n' a' a'' -> within (n + n') a a''.
Proof.
  intros H1 H2. revert H1. induction H2 as [n' a' | n' a' b sz p c Hw IH Hs Hm | n' a' b p c Hw IH Hf]; intros H1.
  - eapply within_mono; [done|lia].
  - rewrite <- plus_n_Sm. eapply within_malloc; eauto.
  - eapply within_free; eauto.
Qed.

(** [m] returns as [Q] says, or panics because one of the next [n] allocations fails. *)
Definition settles {X} (n : nat) (a : A) (m : res X) (Q : X -> Prop) : Prop :=
  returns m Q \/ (m = Err KernelPanic /\ out_of_memory n a).

Lemma settles_returns {X} n a (m : res X) Q : returns m Q -> settles n a m Q.
Proof. by left. Qed.

Lemma settles_mono {X} n n' a (m : res X) (Q Q' : X -> Prop) : settles n a m Q -> (n <= n')%nat -> (forall x, Q x -> Q' x) -> settles n' a m Q'.
Proof.
  intros [H|(E & k & a' & sz & a'' & Hk & H)] Hn HQ; [left; by eapply returns_mono|].
  right. split; [done|]. exists k, a', sz, a''. split; [lia|done].
Qed.

Lemma settles_bind {X Y} n n' a (m : res X) (f : X -> res Y) Q :
  settles n a m (fun x => exists a', within n a a' /\ settles n' a' (f x) Q) -> settles (n + n') a (m ≫= f) Q.
Proof.
  intros [H|[-> (k & a' & sz & a'' & Hk & H)]].
  - apply returns_inv in H as (x & -> & a' & Hw & Hx). simpl. destruct Hx as [Hx|(E & k & b & sz & c & Hk & Hw' & H)]; [by left|].
    right. split; [done|]. exists (n + k)%nat, b, sz, c. split; [lia|]. split; [by eapply within_trans|done].
  - right. split; [done|]. exists k, a', sz, a''. split; [lia|done].
Qed.

Lemma settles_malloc {X} n a sz (f : Z * A -> res X) Q : heap_ok a -> 0 <= sz <= BLOCK_SECTOR_SIZE ->
  (forall a', f (NULL, a') = Err KernelPanic) ->
  (forall p a' sz', heap_ok a' -> sz <= sz' -> fresh_block (blocks a) p sz' -> blocks a' = <[p := sz']> (blocks a) ->
     within 1 a a' -> settles n a' (f (p, a')) Q) ->
  settles (1 + n) a (bo_malloc a sz ≫= f) Q.
Proof.
  intros Ha Hs Hnull Hf. pose proof (malloc_law a sz Ha ltac:(unfold BLOCK_SECTOR_SIZE in Hs; lia)) as H.
  destruct (bo_malloc a sz) as [[p a']|] eqn:E; [|done]. cbn [returns] in H. destruct H as (Ha' & _ & [[-> _]|(sz' & H1 & H2 & H3 & _)]).
  - right. simpl. split; [apply Hnull|]. exists 0%nat, a, sz, a'. split; [lia|]. split; [constructor|done].
  - assert (Hw : within 1 a a') by (eapply within_malloc; [constructor|done|done]).
    apply (settles_bind 1 n a (Ok (p, a')) f). left. exists a'. split; [done|]. by eapply Hf.
Qed.

(** ** Growth: devices are added, blocks in use and disks stay as they are *)

Record extends st st' : Prop := mk_extends {
  ex_all : exists bs, all_blocks st' = all_blocks st ++ bs;
  ex_block b r : block_at st !! b = Some r -> exists r', block_at st' !! b = Some r' /\ shape r' = shape r;
  ex_partition : partition_at st ⊆ partition_at st';
  ex_blocks q sz : blocks (heap st) !! q = Some sz -> 0 < sz -> blocks (heap st') !! q = Some sz;
  ex_mem q sz x : blocks (heap st) !! q = Some sz -> q <= x < q + sz -> bmem st' x = bmem st x;
  ex_contents d k : contents (driver st') d k = contents (driver st) d k;
  ex_capacity d : capacity (driver st') d = capacity (driver st) d;
  ex_roles : block_by_role st' = block_by_role st;
  ex_new b sz : is_Some (block_at st' !! b) \/ is_Some (partition_at st' !! b) -> blocks (heap st) !! b = Some sz -> 0 < sz ->
    is_Some (block_at st !! b) \/ is_Some (partition_at st !! b)
}.

#[export] Instance extends_preorder : PreOrder extends.
Proof.
  split.
  - intros st. split; try done; [exists []; by rewrite app_nil_r|eauto].
  - intros s1 s2 s3 [[b1 A1] B1 C1 D1 E1 F1 G1 H1 I1] [[b2 A2] B2 C2 D2 E2 F2 G2 H2 I2]. split; try congruence.
    + exists (b1 ++ b2). by rewrite A2, A1, app_assoc.
    + intros b r Hb. destruct (B1 b r Hb) as (r1 & Hb1 & ?). destruct (B2 b r1 Hb1) as (r2 & Hb2 & ?). exists r2. split; [done|congruence].
    + by etransitivity.
    + auto.
    + intros q sz x Hq Hx. rewrite (E2 q sz x), (E1 q sz x); try done. apply D1; [done|lia].
    + intros b sz Hb E Hsz. eapply I1; [|done|done]. eapply I2; [done|by apply D1|done].
Qed.

Lemma block_register_spec n t extra sz o x st : registry_ok st ->
  device_ok st (mk_block (bounded 16 n) t sz o x 0 0) ->
  settles 1 (heap st) (block_register n t extra sz o x st) (fun '(b, st') =>
    registry_ok st' /\ extends st st' /\ within 1 (heap st) (heap st') /\ all_blocks st' = all_blocks st ++ [b] /\
    block_at st' !! b = Some (mk_block (bounded 16 n) t sz o x 0 0) /\ partition_at st' = partition_at st).
Proof.
  intros Hok Hdev. pose proof Hok as [Hh Hd Hn Ha Hb Ho [lv Hl] Hr].
  apply (settles_malloc 0); [done|unfold SIZEOF_BLOCK, BLOCK_SECTOR_SIZE; lia|done|].
  intros b h sz' Hh' Hsz Hf Eb Hw. apply settles_returns. cbn beta iota. unfold SIZEOF_BLOCK in Hsz.
  assert (b <> NULL) as Hb0 by (destruct Hf; unfold NULL; lia). apply Z.eqb_neq in Hb0 as ->. simpl.
  assert (Hnew : forall b', is_Some (block_at st !! b') \/ is_Some (partition_at st !! b') -> b <> b') by (intros; eapply owned_fresh; eauto; lia).
  assert (Hno : block_at st !! b = None) by (apply eq_None_not_Some; intros ?; by apply (Hnew b); [left|]).
  assert (Hext : forall b' r, block_at st !! b' = Some r -> <[b := mk_block (bounded 16 n) t sz o x 0 0]> (block_at st) !! b' = Some r).
  { intros b' r E. rewrite lookup_insert_ne; [done|]. apply Hnew. left. eauto. }
  split_and!; try done; [split; simpl| |by rewrite lookup_insert_eq].
  - done.
  - done.
  - apply NoDup_app. split_and!; [done| |apply NoDup_singleton].
    intros b' Hb' ->%list_elem_of_singleton. apply Ha in Hb'. by apply (Hnew b); [left|].
  - intros b'. rewrite elem_of_app, list_elem_of_singleton, Ha. destruct (decide (b' = b)) as [->|]; [rewrite lookup_insert_eq; naive_solver|].
    rewrite lookup_insert_ne by done. naive_solver.
  - assert (Hlift : forall r, device_ok st r -> device_ok (print (Found (bounded 16 n) sz extra) (put_block (put_all_blocks (put_heap st h) (all_blocks st ++ [b])) b (mk_block (bounded 16 n) t sz o x 0 0))) r).
    { intros r (H1 & H2 & H3). split; [done|]. split; [done|]. destruct (ops r); [done|]. destruct H3 as (p & u & Hp & Hu & Hs).
      exists p, u. simpl. split; [done|]. split; [by apply Hext|done]. }
    intros b' r. destruct (decide (b' = b)) as [->|]; [rewrite lookup_insert_eq; intros [= <-]; by apply Hlift|].
    rewrite lookup_insert_ne by done. intros E. apply Hlift. by eapply Hb.
  - intros b'. rewrite Eb. destruct (decide (b' = b)) as [->|]; [rewrite !lookup_insert_eq; intros _; exists sz'; split; [done|lia]|].
    rewrite !lookup_insert_ne by done. apply Ho.
  - exists (fun b' => if decide (b' = b) then length (all_blocks st) else lv b').
    intros b' r. simpl. rewrite length_app. simpl. destruct (decide (b' = b)) as [->|].
    + rewrite lookup_insert_eq. intros [= <-]. split; [lia|]. simpl. intros p -> Hp. destruct Hdev as (_ & _ & p' & u & Hp' & Hu & _).
      simpl in Hp'. assert (p' = p) as -> by congruence. case_decide; [subst; congruence|]. apply (Hl _ u Hu).
    + rewrite lookup_insert_ne by done. intros E. destruct (Hl b' r E) as [H1 H2]. split; [lia|]. intros p Eo Hp. specialize (H2 p Eo Hp).
      case_decide as Hu; [|done]. destruct (Hb b' r E) as (_ & _ & H3). rewrite Eo in H3. destruct H3 as (p' & u & Hp' & Hu' & _). congruence.
  - destruct Hr as [Hr1 Hr2]. split; [done|]. eapply Forall_impl; [exact Hr2|]. intros b' [|]; [by left|right]. by apply elem_of_app; left.
  - split; simpl; try done.
    + by exists [b].
    + intros b' r E. exists r. split; [by apply Hext|done].
    + intros q s' E Hs'. rewrite Eb, lookup_insert_ne; [done|]. intros ->. destruct Hf as (_ & _ & _ & Hf). destruct (Hf q s' E); lia.
    + intros q s' Hq E Hs'. assert (q <> b) by (intros ->; destruct Hf as (_ & _ & _ & Hf); destruct (Hf b s' E); lia).
      by rewrite lookup_insert_ne in Hq.
Qed.
End Registry.
