(* ===== verification/Partition.v ===== *)
(** * Partitions (devices/partition.c)

    Reading a partition table and registering what it describes as block devices. *)

From Stdlib Require Import ZArith Lia.
From stdpp Require Import base gmap list numbers strings.
From S2P Require Import Prelude CString Ctype Interfaces StdioSpec Block.

Local Open Scope Z_scope.

Definition SIZEOF_PARTITION : Z := 8.

(** type_names[], in the order of the source. *)
Definition type_names : list (Z * string) := [
  (0x00, "Empty"%string); (0x01, "FAT12"%string); (0x02, "XENIX root"%string); (0x03, "XENIX usr"%string); (0x04, "FAT16 <32M"%string);
  (0x05, "Extended"%string); (0x06, "FAT16"%string); (0x07, "HPFS/NTFS"%string); (0x08, "AIX"%string); (0x09, "AIX bootable"%string);
  (0x0a, "OS/2 Boot Manager"%string); (0x0b, "W95 FAT32"%string); (0x0c, "W95 FAT32 (LBA)"%string); (0x0e, "W95 FAT16 (LBA)"%string);
  (0x0f, "W95 Ext'd (LBA)"%string); (0x10, "OPUS"%string); (0x11, "Hidden FAT12"%string); (0x12, "Compaq diagnostics"%string);
  (0x14, "Hidden FAT16 <32M"%string); (0x16, "Hidden FAT16"%string); (0x17, "Hidden HPFS/NTFS"%string); (0x18, "AST SmartSleep"%string);
  (0x1b, "Hidden W95 FAT32"%string); (0x1c, "Hidden W95 FAT32 (LBA)"%string); (0x1e, "Hidden W95 FAT16 (LBA)"%string);
  (0x20, "Pintos OS kernel"%string); (0x21, "Pintos file system"%string); (0x22, "Pintos scratch"%string); (0x23, "Pintos swap"%string);
  (0x24, "NEC DOS"%string); (0x39, "Plan 9"%string); (0x3c, "PartitionMagic recovery"%string); (0x40, "Venix 80286"%string);
  (0x41, "PPC PReP Boot"%string); (0x42, "SFS"%string); (0x4d, "QNX4.x"%string); (0x4e, "QNX4.x 2nd part"%string); (0x4f, "QNX4.x 3rd part"%string);
  (0x50, "OnTrack DM"%string); (0x51, "OnTrack DM6 Aux1"%string); (0x52, "CP/M"%string); (0x53, "OnTrack DM6 Aux3"%string);
  (0x54, "OnTrackDM6"%string); (0x55, "EZ-Drive"%string); (0x56, "Golden Bow"%string); (0x5c, "Priam Edisk"%string); (0x61, "SpeedStor"%string);
  (0x63, "GNU HURD or SysV"%string); (0x64, "Novell Netware 286"%string); (0x65, "Novell Netware 386"%string); (0x70, "DiskSecure Multi-Boot"%string);
  (0x75, "PC/IX"%string); (0x80, "Old Minix"%string); (0x81, "Minix / old Linux"%string); (0x82, "Linux swap / Solaris"%string);
  (0x83, "Linux"%string); (0x84, "OS/2 hidden C: drive"%string); (0x85, "Linux extended"%string); (0x86, "NTFS volume set"%string);
  (0x87, "NTFS volume set"%string); (0x88, "Linux plaintext"%string); (0x8e, "Linux LVM"%string); (0x93, "Amoeba"%string);
  (0x94, "Amoeba BBT"%string); (0x9f, "BSD/OS"%string); (0xa0, "IBM Thinkpad hibernation"%string); (0xa5, "FreeBSD"%string); (0xa6, "OpenBSD"%string);
  (0xa7, "NeXTSTEP"%string); (0xa8, "Darwin UFS"%string); (0xa9, "NetBSD"%string); (0xab, "Darwin boot"%string); (0xb7, "BSDI fs"%string);
  (0xb8, "BSDI swap"%string); (0xbb, "Boot Wizard hidden"%string); (0xbe, "Solaris boot"%string); (0xbf, "Solaris"%string);
  (0xc1, "DRDOS/sec (FAT-12)"%string); (0xc4, "DRDOS/sec (FAT-16 < 32M)"%string); (0xc6, "DRDOS/sec (FAT-16)"%string); (0xc7, "Syrinx"%string);
  (0xda, "Non-FS data"%string); (0xdb, "CP/M / CTOS / ..."%string); (0xde, "Dell Utility"%string); (0xdf, "BootIt"%string);
  (0xe1, "DOS access"%string); (0xe3, "DOS R/O"%string); (0xe4, "SpeedStor"%string); (0xeb, "BeOS fs"%string); (0xee, "EFI GPT"%string);
  (0xef, "EFI (FAT-12/16/32)"%string); (0xf0, "Linux/PA-RISC boot"%string); (0xf1, "SpeedStor"%string); (0xf4, "SpeedStor"%string);
  (0xf2, "DOS secondary"%string); (0xfd, "Linux raid autodetect"%string); (0xfe, "LANstep"%string); (0xff, "BBT"%string)].

Definition partition_type_name (t : Z) : string :=
  match list_find (fun e => e.1 = t) type_names with Some (_, (_, n)) => n | None => "Unknown"%string end.

(** Little-endian fields of the packed structures. *)
Definition load8 (m : mem) (a : Z) : Z := u8 (m a).
Definition load16 (m : mem) (a : Z) : Z := load8 m a + 2 ^ 8 * load8 m (a + 1).
Definition load32 (m : mem) (a : Z) : Z := load16 m a + 2 ^ 16 * load16 m (a + 2).

(** The members of pt->partitions[i] that are used, and the signature. *)
Record partition_table_entry := mk_entry { e_type : Z; e_offset : Z; e_size : Z }.

Definition partition_entry (m : mem) (pt i : Z) : partition_table_entry :=
  let e := pt + 446 + 16 * i in
  mk_entry (load8 m (e + 4)) (load32 m (e + 8)) (load32 m (e + 12)).
Definition signature (m : mem) (pt : Z) : Z := load16 m (pt + 510).

Definition extended (t : Z) : bool := (t =? 0x05) || (t =? 0x0f) || (t =? 0x85) || (t =? 0xc5).

Definition hex_digit (d : Z) : Z := if d <? 10 then 48 + d else 97 + (d - 10).

(** "%s (%02x)" *)
Definition type_info (t : Z) : list Z :=
  chars (partition_type_name t) ++ chars " (" ++ [hex_digit (t / 16); hex_digit (t mod 16)] ++ chars ")".

Definition role_of (part_type : Z) : block_type :=
  if part_type =? 0x20 then BLOCK_KERNEL else if part_type =? 0x21 then BLOCK_FILESYS
  else if part_type =? 0x22 then BLOCK_SCRATCH else if part_type =? 0x23 then BLOCK_SWAP else BLOCK_FOREIGN.

Section Partition.
Context {A S : Type} `{!BlockOps A} {Dops : DriverOps S}.
Implicit Types (st : bstate A S).

Definition found_partition (b part_type first cnt part_nr : Z) st : res (bstate A S) :=
  r ← get_block st b;
  if size r <=? first then Ok (print (Starts_past_end (name r) part_nr first) st)
  else if (u32 (first + cnt) <? first) || (size r <? u32 (first + cnt)) then
    Ok (print (Ends_past_end (name r) part_nr (u32 (first + cnt)) (size r)) st)
  else
    let type := role_of part_type in
    '(p, h) ← bo_malloc (heap st) SIZEOF_PARTITION;
    let st := put_heap st h in
    if p =? NULL then Err KernelPanic else
    let st := put_partition st p (mk_partition b first) in
    let name := bounded 16 (name r ++ decimal part_nr) in
    let extra_info := bounded 128 (type_info part_type) in
    '(_, st) ← block_register name type (Some extra_info) cnt partition_operations p st;
    Ok st.

(** The loop over the four entries of the table at [pt]; [recurse] reads another table. *)
Fixpoint parse_partitions (recurse : Z -> Z -> Z * bstate A S -> res (Z * bstate A S)) (idx : list Z)
    (b sector primary pt : Z) (s : Z * bstate A S) : res (Z * bstate A S) :=
  match idx with
  | [] => Ok s
  | i :: idx =>
      let '(part_nr, st) := s in
      let e := partition_entry (bmem st) pt i in
      s ← (if (e_size e =? 0) || (e_type e =? 0) then Ok s
           else if extended (e_type e) then
             r ← get_block st b;
             let st := print (Extended_partition (name r) sector) st in
             if sector =? 0 then recurse (e_offset e) (e_offset e) (part_nr, st)
             else recurse (u32 (e_offset e + primary)) primary (part_nr, st)
           else
             let part_nr := part_nr + 1 in
             st ← found_partition b (e_type e) (u32 (e_offset e + sector)) (e_size e) part_nr st;
             Ok (part_nr, st));
      parse_partitions recurse idx b sector primary pt s
  end.

(** [depth] bounds the recursion over extended partitions. *)
Fixpoint read_partition_table (depth : nat) (b sector primary_extended_sector : Z) (s : Z * bstate A S) : res (Z * bstate A S) :=
  match depth with
  | O => Err NoFuel
  | Datatypes.S depth =>
      let '(part_nr, st) := s in
      r ← get_block st b;
      if size r <=? sector then Ok (part_nr, print (Table_past_end (name r) sector) st) else
      '(pt, h) ← bo_malloc (heap st) BLOCK_SECTOR_SIZE;
      let st := put_heap st h in
      if pt =? NULL then Err KernelPanic else
      st ← block_read (depth_of st) b 0 pt st;
      if negb (signature (bmem st) pt =? 0xaa55) then
        let st := print (if primary_extended_sector =? 0 then Invalid_signature (name r) else Invalid_extended (name r) sector) st in
        h ← bo_free (heap st) pt;
        Ok (part_nr, put_heap st h)
      else
        '(part_nr, st) ← parse_partitions (read_partition_table depth b) [0; 1; 2; 3] b sector primary_extended_sector pt (part_nr, st);
        h ← bo_free (heap st) pt;
        Ok (part_nr, put_heap st h)
  end.

Definition partition_scan (depth : nat) (b : Z) st : res (bstate A S) :=
  '(part_nr, st) ← read_partition_table depth b 0 0 (0, st);
  r ← get_block st b;
  Ok (if part_nr =? 0 then print (No_partitions (name r)) st else st).
End Partition.

Lemma load32_range m a : 0 <= load32 m a < 2 ^ 32.
Proof. unfold load32, load16, load8, u8. pose proof (fun x => Z.mod_pos_bound (m x) 256 ltac:(lia)) as H.
  pose proof (H a). pose proof (H (a + 1)). pose proof (H (a + 2)). pose proof (H (a + 2 + 1)). change (2 ^ 8) with 256 in *. lia.
Qed.
