(* ===== verification/PartitionSpec.v ===== *)
(** * Partition tables: what a scan finds, and when it ends

    A scan is compared with a function on the four entries of the table.  Since the driver
    reads sector 0 also for extended partitions, whether a scan ends depends on the entries
    of that one table. *)

From Stdlib Require Import ZArith Lia.
From stdpp Require Import base gmap list numbers strings.
From S2P Require Import Prelude CString Ctype Interfaces StdioSpec Block Partition.

Local Open Scope Z_scope.

(** ** The table of a disk, and what is found in it *)

(** The bytes of a sector as memory at address 0. *)
Definition sector_mem (l : list Z) : mem := fun a => default 0 (l !! Z.to_nat a).

Definition table (l : list Z) : list partition_table_entry := map (partition_entry (sector_mem l) 0) [0; 1; 2; 3].
Arguments table : simpl never.
Definition signed (l : list Z) : bool := signature (sector_mem l) 0 =? 0xaa55.

Definition unused (e : partition_table_entry) : bool := (e_size e =? 0) || (e_type e =? 0).

(** A partition: its type, first sector and size. *)
Definition part : Type := Z * Z * Z.

(** The entries found by the code that reads the table as that of sector [sector]. *)
Fixpoint scan_entries (recurse : Z -> Z -> option (list part)) (es : list partition_table_entry) (sector primary : Z) : option (list part) :=
  match es with
  | [] => Some []
  | e :: es =>
      l ← (if unused e then Some []
           else if extended (e_type e) then
             (if sector =? 0 then recurse (e_offset e) (e_offset e) else recurse (u32 (e_offset e + primary)) primary)
           else Some [(e_type e, u32 (e_offset e + sector), e_size e)]);
      l' ← scan_entries recurse es sector primary;
      Some (l ++ l')
  end.

Fixpoint scan (l : list Z) (n : Z) (depth : nat) (sector primary : Z) : option (list part) :=
  match depth with
  | O => None
  | S depth =>
      if n <=? sector then Some []
      else if negb (signed l) then Some []
      else scan_entries (scan l n depth) (table l) sector primary
  end.

(** Numbers in the order of the search, and the partitions that lie on the device. *)
Fixpoint numbered (nr : Z) (l : list part) : list (Z * part) :=
  match l with [] => [] | p :: l => (nr + 1, p) :: numbered (nr + 1) l end.

Definition on_device (n : Z) (x : Z * part) : Prop := x.2.1.2 < n /\ x.2.1.2 + x.2.2 <= n.
#[export] Instance on_device_dec n x : Decision (on_device n x).
Proof. unfold on_device. apply _. Defined.

Definition fits (n : Z) (l : list (Z * part)) : list (Z * part) := filter (on_device n) l.

Lemma numbered_app nr l l' : numbered nr (l ++ l') = numbered nr l ++ numbered (nr + Z.of_nat (length l)) l'.
Proof.
  revert nr. induction l as [|p l IH]; intros nr; simpl; [by rewrite Z.add_0_r|]. rewrite IH. do 3 f_equal. lia.
Qed.

Section Scan.
Context {A S : Type} `{!BlockOps A} {Dops : DriverOps S} {DR : Driver S}.
Implicit Types (st : bstate A S).

(** Device [b'] is the partition [x] of disk [b]. *)
Definition registered st (b : Z) (nm : list Z) (x : Z * part) (b' : Z) : Prop :=
  exists r p, block_at st !! b' = Some r /\
    shape r = (bounded 16 (nm ++ decimal x.1), role_of x.2.1.1, x.2.2, partition_operations, p) /\
    partition_at st !! p = Some (mk_partition b x.2.1.2).

(** From [st] to [st'] the partitions [l] were found, numbered from [nr]. *)
Record adds (b : Z) (nm : list Z) (n nr : Z) (l : list part) st st' : Prop := mk_adds {
  ad_ok : registry_ok st';
  ad_extends : extends st st';
  ad_new : exists bs, all_blocks st' = all_blocks st ++ bs /\ Forall2 (registered st' b nm) (fits n (numbered nr l)) bs
}.

(** A disk: a device right on the driver. *)
Definition disk st (b : Z) (nm : list Z) (n d : Z) : Prop :=
  exists r t, block_at st !! b = Some r /\ shape r = (nm, t, n, ide_operations, d).

Lemma registered_extends st st' b nm x b' : extends st st' -> registered st b nm x b' -> registered st' b nm x b'.
Proof.
  intros He (r & p & Hb & Hs & Hp). destruct (ex_block _ _ He b' r Hb) as (r' & Hb' & Hs'). exists r', p.
  split; [done|]. split; [congruence|]. eapply lookup_weaken; [done|apply (ex_partition _ _ He)].
Qed.

Lemma disk_extends st st' b nm n d : extends st st' -> disk st b nm n d -> disk st' b nm n d.
Proof.
  intros He (r & t & Hb & Hs). destruct (ex_block _ _ He b r Hb) as (r' & Hb' & Hs'). exists r', t. split; [done|congruence].
Qed.

Lemma adds_nil b nm n nr st : registry_ok st -> adds b nm n nr [] st st.
Proof. intros Hok. split; [done|done|]. exists []. rewrite app_nil_r. by split. Qed.

Lemma adds_trans b nm n nr l l' s1 s2 s3 : adds b nm n nr l s1 s2 -> adds b nm n (nr + Z.of_nat (length l)) l' s2 s3 ->
  adds b nm n nr (l ++ l') s1 s3.
Proof.
  intros [_ He1 (b1 & E1 & F1)] [Hok He2 (b2 & E2 & F2)]. split; [done|by etransitivity|].
  exists (b1 ++ b2). split; [by rewrite E2, E1, app_assoc|]. rewrite numbered_app. unfold fits. rewrite filter_app.
  apply Forall2_app; [|done]. eapply Forall2_impl; [exact F1|]. intros x b'. by apply registered_extends.
Qed.

(** Output is not part of the registry. *)
Lemma print_registry x st : registry_ok st -> registry_ok (print x st).
Proof. intros []. by split. Qed.

Lemma print_extends x st : extends st (print x st).
Proof. split; simpl; try done; [exists []; by rewrite app_nil_r|eauto]. Qed.

Lemma print_adds b nm n nr x st : registry_ok st -> adds b nm n nr [] st (print x st).
Proof.
  intros Hok. split; [by apply print_registry|apply print_extends|]. exists []. simpl. rewrite app_nil_r. by split.
Qed.

Lemma adds_print b nm n nr l x st st' : adds b nm n nr l (print x st) st' -> adds b nm n nr l st st'.
Proof. intros [H1 H2 H3]. split; [done| |done]. etransitivity; [apply (print_extends x)|done]. Qed.

(** A new partition descriptor. *)
Lemma new_partition st h p sz x : registry_ok st -> heap_ok h -> fresh_block (blocks (heap st)) p sz -> 0 < sz ->
  blocks h = <[p := sz]> (blocks (heap st)) ->
  registry_ok (put_partition (put_heap st h) p x) /\ extends st (put_partition (put_heap st h) p x).
Proof.
  intros Hok Hh Hf Hsz Eb. pose proof Hok as [_ Hd Hn Ha Hb Ho [lv Hl] Hr].
  assert (Hno : partition_at st !! p = None) by (apply eq_None_not_Some; intros ?; by eapply (owned_fresh st p p sz); eauto).
  assert (Hsub : forall q y, partition_at st !! q = Some y -> <[p := x]> (partition_at st) !! q = Some y).
  { intros q y E. rewrite lookup_insert_ne; [done|]. intros ->. congruence. }
  assert (Hold : forall q s', blocks (heap st) !! q = Some s' -> 0 < s' -> q <> p).
  { intros q s' E Hs' ->. destruct Hf as (_ & _ & _ & Hf). destruct (Hf p s' E); lia. }
  split; split; simpl; try done.
  - intros q r E. destruct (Hb q r E) as (H1 & H2 & H3). split; [done|]. split; [done|]. destruct (ops r); [done|].
    destruct H3 as (y & u & Hp & Hu & Hs). exists y, u. split; [by apply Hsub|done].
  - intros q Hq. rewrite Eb. destruct (decide (q = p)) as [->|]; [rewrite lookup_insert_eq; eauto|].
    rewrite lookup_insert_ne in Hq by done. rewrite lookup_insert_ne by done. by apply Ho.
  - exists lv. intros q r E. destruct (Hl q r E) as [H1 H2]. split; [done|]. simpl. intros y Eo Hy. apply H2; [done|].
    destruct (Hb q r E) as (_ & _ & H3). rewrite Eo in H3. destruct H3 as (y' & u & Hp & _). rewrite (Hsub _ _ Hp) in Hy. congruence.
  - exists []. by rewrite app_nil_r.
  - eauto.
  - by apply insert_subseteq.
  - intros q s' E Hs'. rewrite Eb, lookup_insert_ne; [done|]. intros ->. by eapply Hold.
  - intros q s' Hq E Hs'. assert (q <> p) by eauto. by rewrite lookup_insert_ne in Hq.
Qed.

Lemma bounded_twice n s : bounded n (bounded n s) = bounded n s.
Proof. unfold bounded. rewrite take_take. f_equal. lia. Qed.

(** One partition. *)
Lemma found_partition_spec b nm n d t first cnt nr st : registry_ok st -> disk st b nm n d -> 0 <= n < 2 ^ 32 ->
  0 <= first < 2 ^ 32 -> 0 <= cnt < 2 ^ 32 ->
  settles 2 (heap st) (found_partition b t first cnt (nr + 1) st) (fun st' =>
    adds b nm n nr [(t, first, cnt)] st st' /\ within 2 (heap st) (heap st')).
Proof.
  intros Hok (r & ty & Hb & Hs) Hn Hf Hc. injection Hs as En _ Ez _ _. unfold found_partition, get_block. rewrite Hb. simpl.
  assert (Hnot : forall x, ~ on_device n (nr + 1, (t, first, cnt)) -> adds b nm n nr [(t, first, cnt)] st (print x st)).
  { intros x Hx. destruct (print_adds b nm n nr x st Hok) as [H1 H2 H3]. split; [done|done|]. unfold fits in *. simpl. by rewrite filter_cons_False. }
  rewrite Ez. destruct (Z.leb_spec n first).
  { left. split; [apply Hnot; unfold on_device; simpl; lia|constructor]. }
  destruct ((u32 (first + cnt) <? first) || (n <? u32 (first + cnt))) eqn:Ew.
  { left. split; [|constructor]. apply Hnot. unfold on_device; simpl. intros [_ Hend]. rewrite u32_small in Ew by lia. zbool. }
  assert (Hend : first + cnt <= n).
  { destruct (Z.lt_ge_cases (first + cnt) (2 ^ 32)); [rewrite u32_small in Ew by lia; zbool|].
    unfold u32 in Ew. rewrite <- (Z_mod_plus_full (first + cnt) (-1)), Z.mod_small in Ew by lia. zbool. }
  clear Ew Hnot. apply (settles_malloc 1); [apply (ro_heap _ Hok)|unfold SIZEOF_PARTITION, BLOCK_SECTOR_SIZE; lia|done|].
  intros p h sz Hh Hsz Hfr Eb Hw. cbn beta iota. unfold SIZEOF_PARTITION in Hsz.
  assert (p <> NULL) as Hp0 by (destruct Hfr; unfold NULL; lia). apply Z.eqb_neq in Hp0 as ->.
  destruct (new_partition st h p sz (mk_partition b first) Hok Hh Hfr ltac:(lia) Eb) as [Hok1 He1].
  apply (settles_bind 1 0). eapply settles_mono; [apply block_register_spec; [done|]|done|].
  - split; [simpl; lia|]. split; [unfold bounded; simpl; rewrite length_take; lia|]. simpl. exists (mk_partition b first), r.
    rewrite lookup_insert_eq. split; [done|]. split; [done|]. simpl. lia.
  - intros [b' st'] (Hok' & He & Hw' & Ea & Hb' & Ep). exists (heap st'). split; [done|]. apply settles_returns. simpl.
    split; [|change 2%nat with (1 + 1)%nat; by eapply within_trans].
    split; [done|by etransitivity|]. exists [b']. split; [done|]. unfold fits. simpl.
    rewrite filter_cons_True by (unfold on_device; simpl; lia). rewrite filter_nil. constructor; [|constructor].
    eexists _, p. split; [exact Hb'|]. rewrite Ep. simpl. rewrite lookup_insert_eq. split; [|done].
    unfold shape. simpl. by rewrite bounded_twice, En.
Qed.

(** ** One table *)

Section Table.
Variables (b : Z) (nm : list Z) (n d : Z) (l : list Z).
Hypothesis (Hn : 0 <= n < 2 ^ 32).

(** The disk with the table [l] in its first sector. *)
Record has_table st : Prop := mk_has_table {
  ht_ok : registry_ok st;
  ht_disk : disk st b nm n d;
  ht_sector : contents (driver st) d 0 = l
}.

Lemma has_table_extends st st' : has_table st -> registry_ok st' -> extends st st' -> has_table st'.
Proof. intros [_ Hd Hc] Hok He. split; [done|by eapply disk_extends|by rewrite (ex_contents _ _ He)]. Qed.

(** The block at [pt] holds the table. *)
Definition holds st (pt : Z) : Prop := exists sz, blocks (heap st) !! pt = Some sz /\ BLOCK_SECTOR_SIZE <= sz /\
  forall a, pt <= a < pt + BLOCK_SECTOR_SIZE -> bmem st a = sector_mem l (a - pt).

Lemma holds_extends st st' pt : extends st st' -> holds st pt -> holds st' pt.
Proof.
  intros He (sz & Hp & Hsz & Hm). exists sz. unfold BLOCK_SECTOR_SIZE in *. split; [apply (ex_blocks _ _ He); [done|lia]|].
  split; [done|]. intros a Ha. rewrite (ex_mem _ _ He pt sz a Hp) by lia. by apply Hm.
Qed.

Lemma load8_holds st pt j : holds st pt -> 0 <= j < 512 -> load8 (bmem st) (pt + j) = load8 (sector_mem l) j.
Proof. intros (sz & _ & _ & Hm) Hj. unfold load8. rewrite Hm by (unfold BLOCK_SECTOR_SIZE; lia). by replace (pt + j - pt) with j by lia. Qed.

Lemma load16_holds st pt j : holds st pt -> 0 <= j < 511 -> load16 (bmem st) (pt + j) = load16 (sector_mem l) j.
Proof. intros Hh Hj. unfold load16. rewrite <- Z.add_assoc. by rewrite !load8_holds by (done || lia). Qed.

Lemma load32_holds st pt j : holds st pt -> 0 <= j < 509 -> load32 (bmem st) (pt + j) = load32 (sector_mem l) j.
Proof. intros Hh Hj. unfold load32. rewrite <- Z.add_assoc. by rewrite !load16_holds by (done || lia). Qed.

Lemma entry_holds st pt i : holds st pt -> 0 <= i <= 3 -> partition_entry (bmem st) pt i = partition_entry (sector_mem l) 0 i.
Proof.
  intros Hh Hi. unfold partition_entry. rewrite <- !Z.add_assoc.
  by rewrite load8_holds, !load32_holds by (done || lia).
Qed.

(** A code fragment that finds the partitions [s], or cannot return when there is no such list. *)
Definition follows (k : nat) st (nr : Z) (m : res (Z * bstate A S)) (s : option (list part)) : Prop :=
  match s with
  | Some ps => settles k (heap st) m (fun '(nr', st') =>
      nr' = nr + Z.of_nat (length ps) /\ adds b nm n nr ps st st' /\ within k (heap st) (heap st'))
  | None => exists e, m = Err e
  end.

Lemma follows_mono k k' st nr m s : follows k st nr m s -> (k <= k')%nat -> follows k' st nr m s.
Proof.
  intros H Hk. destruct s as [ps|]; [|done]. eapply settles_mono; [exact H|done|]. intros [nr' st'] (? & ? & ?).
  split_and!; [done|done|by eapply within_mono].
Qed.

(** Sequencing. *)
Lemma follows_bind k k' st nr m (f : Z * bstate A S -> res (Z * bstate A S)) s (s' : option (list part)) : follows k st nr m s ->
  (forall ps st', s = Some ps -> adds b nm n nr ps st st' -> follows k' st' (nr + Z.of_nat (length ps)) (f (nr + Z.of_nat (length ps), st')) s') ->
  follows (k + k') st nr (m ≫= f) (ps ← s; ps' ← s'; Some (ps ++ ps')).
Proof.
  intros Hm Hf. destruct s as [ps|]; [|by destruct Hm as [e ->]; exists e]. destruct s' as [ps'|]; simpl.
  - apply settles_bind. eapply settles_mono; [exact Hm|done|]. intros [nr' st'] (-> & Ha & Hw). exists (heap st'). split; [done|].
    eapply settles_mono; [by apply (Hf ps st')|done|]. intros [nr'' st''] (-> & Ha' & Hw'). rewrite length_app.
    split; [lia|]. split; [by eapply adds_trans|by eapply within_trans].
  - destruct Hm as [Hm|[-> _]]; [|by eexists]. apply returns_inv in Hm as ([nr' st'] & -> & -> & Ha & _). simpl.
    by apply (Hf ps st').
Qed.

(** The loop over the entries. *)
Lemma parse_spec recurse rec k sector primary pt : 
  (forall sector primary nr st, has_table st -> 0 <= sector < 2 ^ 32 -> follows k st nr (recurse sector primary (nr, st)) (rec sector primary)) ->
  forall idx nr st, Forall (fun i => 0 <= i <= 3) idx -> has_table st -> holds st pt ->
  follows (length idx * Nat.max 2 k) st nr (parse_partitions recurse idx b sector primary pt (nr, st))
    (scan_entries rec (map (partition_entry (sector_mem l) 0) idx) sector primary).
Proof.
  intros Hrec idx. induction idx as [|i idx IH]; intros nr st Hi Ht Hh; [left; simpl; rewrite Z.add_0_r; split_and!; [done|apply adds_nil, Ht|constructor]|].
  apply Forall_cons in Hi as [Hi Hidx]. cbn [parse_partitions map scan_entries length Nat.mul].
  rewrite (entry_holds st pt i Hh Hi). set (e := partition_entry (sector_mem l) 0 i).
  apply follows_bind.
  - pose proof (load32_range (sector_mem l) (0 + 446 + 16 * i + 8)). pose proof (load32_range (sector_mem l) (0 + 446 + 16 * i + 12)).
    fold (unused e). destruct (unused e); [left; simpl; rewrite Z.add_0_r; split_and!; [done|apply adds_nil, Ht|constructor]|].
    destruct (ht_disk _ Ht) as (r & t & Hb & Hs). destruct (extended (e_type e)).
    + unfold get_block. rewrite Hb. simpl. set (st1 := print _ st).
      assert (Ht1 : has_table st1) by (eapply has_table_extends; [done|apply print_registry, Ht|apply print_extends]).
      enough (Hx : forall sec prim, 0 <= sec < 2 ^ 32 -> follows (Nat.max 2 k) st nr (recurse sec prim (nr, st1)) (rec sec prim)).
      { destruct (sector =? 0); apply Hx; [done|apply u32_range]. }
      intros sec prim Hsec. specialize (Hrec sec prim nr st1 Ht1 Hsec). eapply follows_mono in Hrec; [|apply (Nat.le_max_r 2 k)].
      destruct (rec sec prim) as [ps|]; [|done]. eapply settles_mono; [exact Hrec|done|]. intros [nr' st'] (? & Ha & ?).
      split_and!; [done|by eapply adds_print|done].
    + apply (follows_mono 2 _ st nr); [|lia]. simpl. apply (settles_bind 2 0).
      eapply settles_mono; [apply (found_partition_spec b nm n d); [apply Ht|apply Ht|done|apply u32_range|done]|done|].
      intros st' [Ha Hw]. exists (heap st'). split; [done|]. apply settles_returns. simpl. by split_and!.
  - intros ps st' _ Ha. apply IH; [done|by eapply has_table_extends; [|apply Ha|apply Ha]|by eapply holds_extends; [apply Ha|]].
Qed.

Definition not_device st (pt : Z) : Prop := ~ (is_Some (block_at st !! pt) \/ is_Some (partition_at st !! pt)).

(** Reading the first sector into a new block. *)
Lemma load_table st h pt sz : has_table st -> 0 < n -> heap_ok h -> BLOCK_SECTOR_SIZE <= sz ->
  fresh_block (blocks (heap st)) pt sz -> blocks h = <[pt := sz]> (blocks (heap st)) ->
  returns (block_read (depth_of (put_heap st h)) b 0 pt (put_heap st h)) (fun st2 =>
    has_table st2 /\ extends st st2 /\ holds st2 pt /\ not_device st2 pt /\ heap st2 = h /\ all_blocks st2 = all_blocks st).
Proof.
  intros Ht H0 Hh Hsz Hf Eb. pose proof (ht_ok _ Ht) as Hok. destruct (ht_disk _ Ht) as (r & t & Hb & Hs). unfold BLOCK_SECTOR_SIZE in Hsz.
  assert (Hold : forall q s', blocks (heap st) !! q = Some s' -> 0 < s' -> q <> pt).
  { intros q s' E Hs' ->. destruct Hf as (_ & _ & _ & Hf). destruct (Hf pt s' E); lia. }
  assert (Hok1 : registry_ok (put_heap st h)).
  { apply registry_heap; [done|done|]. intros q s' Hq E. rewrite Eb, lookup_insert_ne; [done|].
    intros <-. by eapply (owned_fresh st pt pt); eauto; lia. }
  destruct (ro_levels _ Hok1) as [lv Hl]. pose proof (Hl b r Hb) as [Hlv _]. injection Hs as _ _ Ez Eo Ed.
  destruct Hf as (Hp0 & Hp1 & _ & Hf).
  eapply returns_mono; [apply (block_read_spec _ _ lv b r 0 pt Hok1 Hl Hb Hlv); [lia|unfold block_ok, BLOCK_SECTOR_SIZE, NULL; lia]|].
  intros st2 (d' & off & Hw & Hq & Hc & Hm). assert (d' = d /\ off = 0) as [-> ->].
  { destruct (length (all_blocks (put_heap st h))); [lia|]. cbn [window] in Hw.
    change (block_at (put_heap st h) !! b) with (block_at st !! b) in Hw. rewrite Hb in Hw. simpl in Hw. rewrite Eo in Hw. by simplify_eq. }
  rewrite Z.add_0_l in Hm. pose proof (contents_length (driver st) d 0) as Hlen.
  assert (Hn' : not_device st2 pt).
  { unfold not_device. rewrite (quiet_some (put_heap st h) st2 pt Hq), (qu_partition _ _ Hq). intros Hdev.
    destruct (ro_owned _ Hok pt Hdev) as (s' & E & ?). by eapply Hold. }
  assert (He : extends st st2).
  { pose proof Hq as [Q1 Q2 Q3 Q4 Q5 Q6 Q7 Q8]. split; simpl in *; try done.
    - exists []. by rewrite app_nil_r, Q1.
    - intros q r' E. specialize (Q3 q). rewrite E in Q3. simpl in Q3. destruct (block_at st2 !! q) as [r2|]; [|done]. exists r2. simpl in Q3. split; [done|congruence].
    - by rewrite Q4.
    - intros q s' E Hs'. rewrite Q5, Eb, lookup_insert_ne; [done|]. intros ->. by eapply Hold.
    - intros q s' x E Hx. rewrite Hm. unfold blit. rewrite Hlen. destruct (Hf q s' E); zbool.
    - intros q s' Hdev _ _. by rewrite <- (quiet_some (put_heap st h) st2 q Hq) , <- Q4. }
  assert (Hok2 : registry_ok st2) by (by eapply registry_quiet). split_and!; [by eapply has_table_extends|done| |done|apply (qu_heap _ _ Hq)|apply (qu_all _ _ Hq)].
  exists sz. split; [rewrite (qu_heap _ _ Hq); simpl; by rewrite Eb, lookup_insert_eq|]. split; [done|]. intros a Ha. rewrite Hm.
  unfold blit, sector_mem. simpl. rewrite Hlen, (ht_sector _ Ht). unfold BLOCK_SECTOR_SIZE in Ha. zbool.
Qed.

(** Releasing the block of a table. *)
Lemma drop_table st st2 st3 pt : (forall sz, blocks (heap st) !! pt = Some sz -> ~ 0 < sz) ->
  holds st2 pt -> not_device st2 pt -> registry_ok st3 -> extends st st3 -> extends st2 st3 ->
  returns (bo_free (heap st3) pt) (fun h => within 0 (heap st3) h /\ registry_ok (put_heap st3 h) /\ extends st (put_heap st3 h)).
Proof.
  intros Hnew (sz & Hp & Hsz & _) Hnd Hok He He2. unfold BLOCK_SECTOR_SIZE in Hsz.
  assert (Hp3 : blocks (heap st3) !! pt = Some sz) by (apply (ex_blocks _ _ He2); [done|lia]).
  assert (Hnd3 : not_device st3 pt) by (intros H; apply Hnd; eapply (ex_new _ _ He2); [done|done|lia]).
  pose proof (free_law (heap st3) pt (ro_heap _ Hok) ltac:(eauto)) as H. apply returns_inv in H as (h & Ef & Hh & Eb & _).
  rewrite Ef. simpl. split_and!.
  - eapply within_free; [constructor|done].
  - apply registry_heap; [done|done|]. intros q s' Hq E. rewrite Eb, lookup_delete_ne; [done|]. by intros ->.
  - destruct He as [E1 E2 E3 E4 E5 E6 E7 E8 E9]. split; simpl; try done.
    intros q s' E Hs'. rewrite Eb, lookup_delete_ne; [by apply E4|]. intros ->. by eapply Hnew.
Qed.

(** How many allocations a scan of bounded depth makes. *)
Fixpoint cost (depth : nat) : nat := match depth with O => 0 | Datatypes.S depth => 1 + 4 * Nat.max 2 (cost depth) end.

Lemma follows_oom k st nr sz a s : bo_malloc (heap st) sz = Ok (NULL, a) -> 0 <= sz <= BLOCK_SECTOR_SIZE -> (0 < k)%nat ->
  follows k st nr (Err KernelPanic) s.
Proof.
  intros E Hsz Hk. destruct s; [|by eexists]. right. split; [done|]. exists 0%nat, (heap st), sz, a. split; [done|]. split; [constructor|done].
Qed.

(** The end of a table: what was found since its block was filled, and the block released. *)
Lemma follows_drop k st st2 nr pt m s : (forall sz, blocks (heap st) !! pt = Some sz -> ~ 0 < sz) -> within 1 (heap st) (heap st2) ->
  extends st st2 -> holds st2 pt -> not_device st2 pt -> all_blocks st2 = all_blocks st -> follows k st2 nr m s ->
  follows (1 + k) st nr ('(nr', st') ← m; h ← bo_free (heap st') pt; Ok (nr', put_heap st' h)) s.
Proof.
  intros Hnew Hw He Hh Hnd Ea Hm. destruct s as [ps|]; [|destruct Hm as [e ->]; by eexists].
  destruct Hm as [Hm|(-> & j & a' & sz & a'' & Hj & Hw' & Hz)].
  - apply returns_inv in Hm as ([nr' st3] & -> & -> & [Hok He2 (bs & Eb & Hbs)] & Hw3). left. simpl.
    assert (He3 : extends st st3) by (by etransitivity).
    apply returns_bind. eapply returns_mono; [by eapply (drop_table st st2 st3)|]. intros h (Hw4 & Hok4 & He4). simpl.
    split_and!; [done| |].
    + split; [done|done|]. exists bs. simpl. by rewrite Eb, Ea.
    + apply (within_mono (1 + k + 0)); [|lia]. eapply within_trans; [by eapply within_trans|done].
  - right. split; [done|]. exists (1 + j)%nat, a', sz, a''. split; [lia|]. split; [by eapply within_trans|done].
Qed.

Lemma read_table_spec depth : forall sector primary nr st, has_table st -> 0 <= sector < 2 ^ 32 ->
  follows (cost depth) st nr (read_partition_table depth b sector primary (nr, st)) (scan l n depth sector primary).
Proof.
  induction depth as [|depth IH]; intros sector primary nr st Ht Hsec; [by eexists|]. cbn [read_partition_table scan cost].
  destruct (ht_disk _ Ht) as (r & t & Hb & Hs). unfold get_block. rewrite Hb. injection Hs as En _ Ez _ _. rewrite bind_ok, Ez.
  destruct (Z.leb_spec n sector) as [|Hlt].
  { left. simpl. rewrite Z.add_0_r. split_and!; [done|apply print_adds, Ht|constructor]. }
  assert (H512 : 0 <= BLOCK_SECTOR_SIZE <= BLOCK_SECTOR_SIZE) by (unfold BLOCK_SECTOR_SIZE; lia).
  pose proof (malloc_law (heap st) BLOCK_SECTOR_SIZE (ro_heap _ (ht_ok _ Ht)) ltac:(done)) as H.
  destruct (bo_malloc (heap st) BLOCK_SECTOR_SIZE) as [[pt h]|] eqn:Em; [|done]. cbn [returns] in H. rewrite bind_ok.
  destruct H as (Hh & _ & [[-> _]|(sz & Hsz & Hf & Ebl & _)]); [by apply (follows_oom _ st nr BLOCK_SECTOR_SIZE h); [| |lia]|].
  assert (pt <> NULL) as Hp0 by (destruct Hf; unfold NULL; lia). apply Z.eqb_neq in Hp0 as ->.
  destruct (returns_inv _ _ (load_table st h pt sz Ht ltac:(lia) Hh Hsz Hf Ebl)) as (st2 & -> & Ht2 & He & Hho & Hnd & Eh & Ea).
  assert (Hw : within 1 (heap st) (heap st2)) by (rewrite Eh; eapply within_malloc; [constructor|done|done]).
  assert (Hnew : forall s', blocks (heap st) !! pt = Some s' -> ~ 0 < s').
  { intros s' E Hs'. destruct Hf as (_ & _ & _ & Hf). unfold BLOCK_SECTOR_SIZE in Hsz. destruct (Hf pt s' E); lia. }
  rewrite bind_ok. unfold signature, signed. rewrite (load16_holds st2 pt 510) by (done || lia). unfold signature. rewrite Z.add_0_l.
  destruct (load16 (sector_mem l) 510 =? 0xaa55); simpl negb; cbv iota.
  - apply (follows_drop _ st st2 nr pt); try done. by apply (parse_spec (read_partition_table depth b) (scan l n depth) (cost depth) sector primary pt IH [0; 1; 2; 3]); [repeat constructor; lia| |].
  - set (st2' := print _ st2).
    apply (follows_drop _ st st2 nr pt (Ok (nr, st2'))); try done. left. simpl. rewrite Z.add_0_r.
    split_and!; [done|apply print_adds, Ht2|constructor].
Qed.
End Table.
End Scan.

(** ** When a scan ends *)

(** The offsets of the extended partitions. *)
Definition extended_offsets (es : list partition_table_entry) : list Z :=
  e_offset <$> filter (fun e => negb (unused e) && extended (e_type e) = true) es.

(** An extended partition that leads back to itself. *)
Definition deep (l : list Z) (n : Z) : bool :=
  let os := extended_offsets (table l) in
  signed l && existsb (fun o => (o <? n) && ((o =? 0) || existsb (fun o' => u32 (o' + o) <? n) os)) os.

(** The primary partitions of a table that is taken for that of sector [base]. *)
Definition primaries (base : Z) (es : list partition_table_entry) : list part :=
  flat_map (fun e => if unused e || extended (e_type e) then [] else [(e_type e, u32 (e_offset e + base), e_size e)]) es.

(** What a scan of a disk of [n] sectors comes upon: the primary partitions of the table
    and, in the place of each extended entry whose offset is on the disk, the same primary
    partitions once more, shifted by that offset, for the driver reads sector 0 where the
    table of the extended partition should be.  No logical partition is ever among them. *)
Definition found_parts (l : list Z) (n : Z) : list part :=
  if signed l then
    flat_map (fun e => if unused e then []
      else if extended (e_type e) then (if n <=? e_offset e then [] else primaries (e_offset e) (table l))
      else [(e_type e, e_offset e, e_size e)]) (table l)
  else [].

(** The partitions that a table without extended entries describes. *)
Definition entries (l : list Z) : list part :=
  if signed l then (fun e => (e_type e, e_offset e, e_size e)) <$> filter (fun e => unused e = false) (table l) else [].

Lemma flat_map_entries (g : partition_table_entry -> list part) es :
  filter (fun e => negb (unused e) && extended (e_type e) = true) es = [] ->
  flat_map (fun e => if unused e then [] else if extended (e_type e) then g e else [(e_type e, e_offset e, e_size e)]) es =
  (fun e => (e_type e, e_offset e, e_size e)) <$> filter (fun e => unused e = false) es.
Proof.
  induction es as [|e es IH]; [done|]. cbn [flat_map]. intros Hx. rewrite filter_cons in Hx.
  destruct (unused e) eqn:Hu; simpl in Hx.
  - rewrite filter_cons_False by congruence. simpl. by apply IH.
  - destruct (extended (e_type e)) eqn:He; simpl in Hx; [done|]. rewrite filter_cons_True by done. simpl. by rewrite IH.
Qed.

Lemma found_entries l n : extended_offsets (table l) = [] -> found_parts l n = entries l.
Proof.
  unfold found_parts, entries, extended_offsets. destruct (signed l); [|done]. intros Hx%fmap_nil_inv. by apply flat_map_entries.
Qed.

Lemma elem_of_offsets e es : e ∈ es -> unused e = false -> extended (e_type e) = true -> e_offset e ∈ extended_offsets es.
Proof.
  intros He Hu Hx. apply list_elem_of_fmap. exists e. split; [done|]. apply list_elem_of_filter. by rewrite Hu, Hx.
Qed.

Lemma offsets_inv o es : o ∈ extended_offsets es -> exists e, e ∈ es /\ e_offset e = o /\ unused e = false /\ extended (e_type e) = true.
Proof.
  intros (e & -> & He)%list_elem_of_fmap. apply list_elem_of_filter in He as [Hb He]. exists e.
  destruct (unused e), (extended (e_type e)); by split_and!.
Qed.

Lemma table_offset l e : e ∈ table l -> 0 <= e_offset e < 2 ^ 32.
Proof. intros (i & -> & _)%list_elem_of_fmap. apply load32_range. Qed.

Lemma flat_map_agree {X Y} (f g : X -> list Y) l : (forall x, x ∈ l -> f x = g x) -> flat_map f l = flat_map g l.
Proof.
  induction l as [|x l IH]; intros H; simpl; [done|]. rewrite (H x) by constructor. rewrite IH; [done|]. intros y Hy. apply H. by constructor.
Qed.

(** Entries whose nested tables end. *)
Lemma scan_entries_some rec (f : partition_table_entry -> list part) es sector primary :
  (forall e, e ∈ es -> unused e = false -> extended (e_type e) = true ->
     (if sector =? 0 then rec (e_offset e) (e_offset e) else rec (u32 (e_offset e + primary)) primary) = Some (f e)) ->
  scan_entries rec es sector primary = Some (flat_map (fun e => if unused e then []
    else if extended (e_type e) then f e else [(e_type e, u32 (e_offset e + sector), e_size e)]) es).
Proof.
  induction es as [|e es IH]; intros Hf; [done|]. cbn [scan_entries flat_map]. rewrite IH by (intros e' He'; apply Hf; by constructor).
  destruct (unused e) eqn:Eu; [done|]. destruct (extended (e_type e)) eqn:Ex; [|done]. by rewrite (Hf e) by (done || constructor).
Qed.

(** One nested table that does not end. *)
Lemma scan_entries_none rec es sector primary e : e ∈ es -> unused e = false -> extended (e_type e) = true ->
  (if sector =? 0 then rec (e_offset e) (e_offset e) else rec (u32 (e_offset e + primary)) primary) = None ->
  scan_entries rec es sector primary = None.
Proof.
  intros He Hu Hx Hn. induction es as [|e' es IH]; [by apply not_elem_of_nil in He|]. cbn [scan_entries].
  apply elem_of_cons in He as [<-|He]; [by rewrite Hu, Hx, Hn|]. rewrite (IH He). by destruct (if unused e' then _ else _).
Qed.

Lemma scan_deep l n depth : 0 < n -> deep l n = true -> scan l n depth 0 0 = None.
Proof.
  intros Hn Hd. apply andb_true_iff in Hd as [Hs Hd]. apply existsb_exists in Hd as (o & Ho%list_elem_of_In & Hd).
  apply andb_true_iff in Hd as [Hlt%Z.ltb_lt Hd]. destruct (offsets_inv o _ Ho) as (e & He & Eo & Hu & Hx).
  assert (Hall : forall sector primary, sector < n -> (sector <> 0 -> primary = o) -> scan l n depth sector primary = None).
  { induction depth as [|depth IH]; intros sector primary Hsec Hp; [done|]. cbn [scan]. destruct (Z.leb_spec n sector); [lia|].
    rewrite Hs. cbn [negb]. destruct (Z.eqb_spec sector 0) as [->|Hne].
    - eapply scan_entries_none; [done|done|done|]. change (0 =? 0) with true. cbv iota. rewrite Eo. by apply IH.
    - rewrite (Hp Hne). apply orb_true_iff in Hd as [H0%Z.eqb_eq|Hd].
      + eapply scan_entries_none; [done|done|done|]. destruct (Z.eqb_spec sector 0); [done|]. rewrite Eo.
        apply IH; [|done]. by rewrite H0.
      + apply existsb_exists in Hd as (o' & Ho'%list_elem_of_In & Hd%Z.ltb_lt). destruct (offsets_inv o' _ Ho') as (e' & He' & Eo' & Hu' & Hx').
        eapply scan_entries_none; [done|done|done|]. destruct (Z.eqb_spec sector 0); [done|]. rewrite Eo'. by apply IH. }
  apply Hall; [done|lia].
Qed.

Lemma scan_shallow l n : 0 < n -> deep l n = false -> scan l n 3 0 0 = Some (found_parts l n).
Proof.
  intros Hn Hd. unfold deep, found_parts in *. cbn [scan]. destruct (Z.leb_spec n 0); [lia|]. destruct (signed l) eqn:Hs; [|done]. cbn [negb andb] in Hd |- *.
  assert (Hx : forall e, e ∈ table l -> unused e = false -> extended (e_type e) = true ->
    n <= e_offset e \/ (e_offset e <> 0 /\ forall e', e' ∈ table l -> unused e' = false -> extended (e_type e') = true -> n <= u32 (e_offset e' + e_offset e))).
  { intros e He Hu Hx. pose proof (elem_of_offsets e _ He Hu Hx) as Ho. destruct (Z.le_gt_cases n (e_offset e)) as [|Hlt]; [by left|right].
    assert (Hfe : forall P os (o : Z), existsb P os = false -> o ∈ os -> P o = false).
    { intros P os o E Hin. apply not_true_is_false. intros Ht. apply not_true_iff_false in E. apply E, existsb_exists. exists o. by split; [apply list_elem_of_In|]. }
    pose proof (Hfe _ _ _ Hd Ho) as E. simpl in E. apply andb_false_iff in E as [E%Z.ltb_ge|E]; [lia|].
    apply orb_false_iff in E as [E0%Z.eqb_neq E]. split; [done|]. intros e' He' Hu' Hx'.
    apply Z.ltb_ge. by apply (Hfe _ _ _ E (elem_of_offsets e' _ He' Hu' Hx')). }
  rewrite (scan_entries_some _ (fun e => if n <=? e_offset e then [] else primaries (e_offset e) (table l))).
  - f_equal. apply flat_map_agree. intros e He. rewrite Z.add_0_r, u32_small; [done|]. by eapply table_offset.
  - intros e He Hu Hext. change (0 =? 0) with true. cbv iota. destruct (Z.leb_spec n (e_offset e)); [done|]. destruct (Hx e He Hu Hext) as [|[Hz Hrec]]; [lia|].
    rewrite (scan_entries_some _ (fun _ => [])).
    + f_equal. unfold primaries. apply flat_map_ext. intros e'. by destruct (unused e'), (extended (e_type e')).
    + intros e' He' Hu' Hx'. destruct (Z.eqb_spec (e_offset e) 0); [done|]. specialize (Hrec e' He' Hu' Hx'). by destruct (Z.leb_spec n (u32 (e_offset e' + e_offset e))); [|lia].
Qed.

(** A scan that ends, with the number of its allocations. *)
Lemma scan_settles {A S : Type} `{!BlockOps A} {Dops : DriverOps S} {DR : Driver S} b nm n d (st : bstate A S) :
  registry_ok st -> disk st b nm n d -> 0 < n -> deep (contents (driver st) d 0) n = false ->
  settles (cost 3) (heap st) (partition_scan 3 b st) (fun st' =>
    adds b nm n 0 (found_parts (contents (driver st) d 0) n) st st' /\ within (cost 3) (heap st) (heap st')).
Proof.
  intros Hok Hdisk Hn Hd. assert (Hr : 0 <= n < 2 ^ 32).
  { destruct Hdisk as (r & t & Hb & Hs). injection Hs as _ _ <- _ _. apply (ro_block _ Hok b r Hb). }
  pose proof (read_table_spec b nm n d (contents (driver st) d 0) Hr 3 0 0 0 st ltac:(by split) ltac:(lia)) as Hscan.
  rewrite (scan_shallow _ n Hn Hd) in Hscan. unfold partition_scan.
  destruct Hscan as [Hs|[-> Ho]]; [|by right]. apply returns_inv in Hs as ([nr st'] & -> & -> & Ha & Hw). left. simpl.
  destruct (disk_extends _ _ _ _ _ _ (ad_extends _ _ _ _ _ _ _ Ha) Hdisk) as (r & t & Hb & _). unfold get_block. rewrite Hb. simpl.
  split; [|by case_match]. case_match; [|done]. destruct Ha as [H1 H2 (bs & H3 & H4)].
  split; [by apply print_registry|etransitivity; [exact H2|apply print_extends]|by exists bs].
Qed.

(** C16: A scan of the partition table of a disk returns exactly when no extended partition
    leads back into the table: for each extended entry, its offset is past the end of the
    disk, or it is not 0 and its sum with the offset of any extended entry is past the end.
    It then registers those of [found_parts] that lie on the disk, in order, with the
    number, name, type and size of their entries, and keeps all devices, disks and blocks
    in use; it panics only when an allocation fails.  When the table has no extended entry
    these are exactly the partitions of the table; with one that lies on the disk they are
    not, since the primary partitions come again, shifted, in the place of the logical
    ones.  In the other case the scan never returns, however deep it recurses. *)
Theorem partition_scan_ends {A S : Type} `{!BlockOps A} {Dops : DriverOps S} {DR : Driver S} b nm n d (st : bstate A S) :
  registry_ok st -> disk st b nm n d -> 0 < n -> let l := contents (driver st) d 0 in
  (if deep l n then forall depth, exists e, partition_scan depth b st = Err e
   else settles (cost 3) (heap st) (partition_scan 3 b st) (fun st' => adds b nm n 0 (found_parts l n) st st')) /\
  (extended_offsets (table l) = [] -> deep l n = false /\ found_parts l n = entries l).
Proof.
  intros Hok Hdisk Hn l. split; [|intros Hx; split; [unfold deep; rewrite Hx; apply andb_false_r|by apply found_entries]].
  destruct (deep l n) eqn:Hd.
  - assert (Hr : 0 <= n < 2 ^ 32).
    { destruct Hdisk as (r & t & Hb & Hs). injection Hs as _ _ <- _ _. apply (ro_block _ Hok b r Hb). }
    intros depth. pose proof (read_table_spec b nm n d l Hr depth 0 0 0 st ltac:(by split) ltac:(lia)) as Hscan.
    rewrite (scan_deep l n depth Hn Hd) in Hscan. destruct Hscan as [e He]. exists e. unfold partition_scan. by rewrite He.
  - eapply settles_mono; [by eapply scan_settles|done|]. by intros st' [Ha _].
Qed.
