(* ===== verification/BlockSpec.v ===== *)
(** * Block devices as windows of disks

    The contract of the block layer: whatever is registered, read, written or scanned, the
    registry stays well formed, and every device is a window of a disk.  An allocator that
    never reuses memory and a disk in memory are instances of the two interfaces. *)

From Stdlib Require Import ZArith Lia.
From stdpp Require Import base gmap list numbers strings.
From S2P Require Import Prelude CString Ctype Interfaces StdioSpec Block Partition PartitionSpec.

Local Open Scope Z_scope.

(** ** An allocator and a disk *)

Definition bump_heap : Type := gmap Z Z * Z.

Definition bump_ok (a : bump_heap) : Prop := 0 < a.2 <= 2 ^ 31 /\ a.2 mod 4 = 0 /\ map_Forall (fun q sz => q + sz <= a.2) a.1.

Definition bump_malloc (a : bump_heap) (sz : Z) : res (Z * bump_heap) :=
  let fin := a.2 + 4 * ((sz + 3) / 4) in
  Ok (if fin <=? 2 ^ 31 then (a.2, (<[a.2 := sz]> a.1, fin)) else (NULL, a)).

Definition bump_free (a : bump_heap) (p : Z) : res bump_heap := Ok (delete p a.1, a.2).

Definition bump_managed (a : bump_heap) (x : Z) : Prop := 0 < x < 2 ^ 31.

Lemma bump_malloc_law a sz : bump_ok a -> 0 <= sz < 2 ^ 31 -> returns (bump_malloc a sz) (fun '(p, a') =>
  bump_ok a' /\ (forall x, bump_managed a' x <-> bump_managed a x) /\
  ((p = NULL /\ a'.1 = a.1) \/ exists sz', sz <= sz' /\ fresh_block a.1 p sz' /\ a'.1 = <[p := sz']> a.1 /\
     forall x, p <= x < p + sz' -> bump_managed a x)).
Proof.
  intros (Hn & Hm & Hb) Hs. unfold bump_malloc, bump_managed. assert (Hq : sz <= 4 * ((sz + 3) / 4) /\ 0 <= (sz + 3) / 4).
  { Z.div_mod_to_equations. lia. }
  revert Hq. generalize ((sz + 3) / 4). intros q Hq. simpl. destruct (Z.leb_spec (a.2 + 4 * q) (2 ^ 31)); [|split; [by split|]; split; [done|by left]].
  split; [|split; [done|right]].
  - split; [simpl; lia|]. split; simpl; [by rewrite (Z.mul_comm 4), Z_mod_plus_full|]. apply map_Forall_insert_2; [lia|].
    intros x s' E. specialize (Hb x s' E). simpl in Hb. lia.
  - exists sz. split; [lia|]. split; [|split; [done|intros; lia]]. unfold fresh_block. split_and!; [lia|lia|done|].
    intros x s' E. specialize (Hb x s' E). simpl in Hb. lia.
Qed.

Lemma bump_free_law a p : bump_ok a -> is_Some (a.1 !! p) -> returns (bump_free a p) (fun a' =>
  bump_ok a' /\ a'.1 = delete p a.1 /\ forall x, bump_managed a' x <-> bump_managed a x).
Proof.
  intros (Hn & Hm & Hb) _. simpl. split_and!; [|done|done]. split; [done|]. split; [done|]. by apply map_Forall_delete.
Qed.

Definition bump_blocks : BlockOps bump_heap := {|
  bo_malloc := bump_malloc; bo_free := bump_free; heap_ok := bump_ok; blocks := fst; managed := bump_managed;
  malloc_law := bump_malloc_law; free_law := bump_free_law |}.

(** Disk, sector and byte. *)
Definition ram_disk : Type := Z -> Z -> Z -> Z.

Definition ram_contents (s : ram_disk) (d k : Z) : list Z := map (s d k) (seqZ 0 512).
Arguments ram_contents : simpl never.

Definition ram_ops : DriverOps ram_disk := {|
  drv_read := fun d k buf '(s, m) => Ok (s, blit m buf (ram_contents s d k));
  drv_write := fun d k buf '(s, m) => Ok (fun d' k' i => if (d' =? d) && (k' =? k) then u8 (m (buf + i)) else s d' k' i) |}.

Definition ram_driver (n : Z) : Driver ram_disk (Dops := ram_ops).
Proof.
  refine {| drv_ok := fun _ => True; capacity := fun _ _ => n; contents := ram_contents |}.
  - intros s d k. unfold ram_contents. by rewrite length_map, length_seqZ.
  - intros s m d k buf _ _ _. simpl. done.
  - intros s m d k buf _ _ _. simpl. split_and!; [done|done|]. intros d' k'. unfold ram_contents, sector_at, bytes_at.
    destruct ((d' =? d) && (k' =? k)); [|done]. rewrite map_map. unfold seqZ. change (Z.to_nat 512) with 512%nat.
    generalize (seq 0 512). intros l. induction l as [|i l IH]; simpl; [done|]. f_equal; [by rewrite Z.add_0_r|exact IH].
Defined.

(** ** Windows *)

Section Windows.
Context {A S : Type} `{!BlockOps A} {Dops : DriverOps S} {DR : Driver S}.
Implicit Types (st : bstate A S).

(** Devices keep their window when the registry grows. *)
Lemma window_grows st st' depth depth' b w :
  (forall b r, block_at st !! b = Some r -> exists r', block_at st' !! b = Some r' /\ shape r' = shape r) ->
  partition_at st ⊆ partition_at st' -> (depth <= depth')%nat -> window depth st b = Some w -> window depth' st' b = Some w.
Proof.
  intros Hb Hp. revert depth' b w. induction depth as [|depth IH]; intros depth' b w Hd Hw; [done|]. destruct depth' as [|depth']; [lia|].
  cbn [window] in *. destruct (block_at st !! b) as [r|] eqn:Er; [|done]. destruct (Hb b r Er) as (r' & -> & Es). injection Es as _ _ _ Eo Ex.
  simpl in *. rewrite Eo, Ex. destruct (ops r); [done|]. destruct (partition_at st !! aux r) as [p|] eqn:Ep; [|done].
  rewrite (lookup_weaken _ _ _ _ Ep Hp). simpl in *. destruct (window depth st (underlying p)) as [[d off]|] eqn:Ew; [|done].
  by rewrite (IH depth' _ _ ltac:(lia) Ew).
Qed.

(** What lasts: the devices with their windows. *)
Definition lasts st st' : Prop := forall b r, block_at st !! b = Some r -> exists r', block_at st' !! b = Some r' /\ shape r' = shape r /\
  window (depth_of st') st' b = window (depth_of st) st b.

#[export] Instance lasts_preorder : PreOrder lasts.
Proof.
  split; [intros st b r Hb; by exists r|]. intros s1 s2 s3 H1 H2 b r Hb. destruct (H1 b r Hb) as (r1 & Hb1 & E1 & W1).
  destruct (H2 b r1 Hb1) as (r2 & Hb2 & E2 & W2). exists r2. split; [done|]. split; congruence.
Qed.

Lemma lasts_grows st st' : registry_ok st -> (length (all_blocks st) <= length (all_blocks st'))%nat ->
  (forall b r, block_at st !! b = Some r -> exists r', block_at st' !! b = Some r' /\ shape r' = shape r) ->
  partition_at st ⊆ partition_at st' -> lasts st st'.
Proof.
  intros Hok Hlen Hb Hp b r Hr. destruct (Hb b r Hr) as (r' & Hr' & Es). exists r'. split; [done|]. split; [done|].
  destruct (ro_levels _ Hok) as [lv Hl]. destruct (window_some st lv (depth_of st) b r Hok Hl Hr (proj1 (Hl b r Hr))) as (d & off & Hw & _).
  rewrite Hw. by eapply window_grows.
Qed.

Lemma lasts_extends st st' : registry_ok st -> extends st st' -> lasts st st'.
Proof.
  intros Hok He. apply lasts_grows; [done| |apply (ex_block _ _ He)|apply (ex_partition _ _ He)].
  destruct (ex_all _ _ He) as [bs ->]. rewrite length_app. lia.
Qed.

Lemma lasts_quiet st st' : registry_ok st -> quiet st st' -> lasts st st'.
Proof.
  intros Hok Hq. apply lasts_grows; [done|by rewrite (qu_all _ _ Hq)| |by rewrite (qu_partition _ _ Hq)].
  intros b r Hb. pose proof (qu_shape _ _ Hq b) as E. rewrite Hb in E. destruct (block_at st' !! b) as [r'|]; [|done].
  exists r'. simpl in E. split; [done|congruence].
Qed.

(** The calls of the block layer: drivers register disks and have them scanned, file
    systems read, write and take roles. *)
Inductive block_step : bstate A S -> bstate A S -> Prop :=
| step_register n t extra sz d st b st' : 0 <= sz < 2 ^ 32 -> sz <= capacity (driver st) d ->
    block_register n t extra sz ide_operations d st = Ok (b, st') -> block_step st st'
| step_scan depth b nm n d st st' : disk st b nm n d -> partition_scan depth b st = Ok st' -> block_step st st'
| step_read b k buf st st' : 0 <= k -> block_ok buf BLOCK_SECTOR_SIZE -> block_read (depth_of st) b k buf st = Ok st' -> block_step st st'
| step_write b k buf st st' : 0 <= k -> block_ok buf BLOCK_SECTOR_SIZE -> block_write (depth_of st) b k buf st = Ok st' -> block_step st st'
| step_role role b st st' : b = NULL \/ is_Some (block_at st !! b) -> block_set_role role b st = Ok st' -> block_step st st'.

(** A call that returned was made for a sector of a registered device. *)
Lemma access_inv {X} b k (f : block -> res X) st x : (check_sector b k st;; r ← get_block st b; f r) = Ok x ->
  exists r, block_at st !! b = Some r /\ k < size r.
Proof.
  unfold check_sector, get_block. destruct (block_at st !! b) as [r|]; [|done]. simpl. destruct (Z.leb_spec (size r) k); [done|]. eauto.
Qed.

Lemma scan_step depth b nm n d st st' : registry_ok st -> disk st b nm n d -> partition_scan depth b st = Ok st' ->
  registry_ok st' /\ extends st st'.
Proof.
  intros Hok Hd Hs. assert (Hr : 0 <= n < 2 ^ 32).
  { destruct Hd as (r & t & Hb & Es). injection Es as _ _ <- _ _. apply (ro_block _ Hok b r Hb). }
  pose proof (read_table_spec b nm n d _ Hr depth 0 0 0 st (mk_has_table b nm n d _ st Hok Hd eq_refl) ltac:(lia)) as H.
  unfold partition_scan in Hs. destruct (read_partition_table depth b 0 0 (0, st)) as [[nr st1]|] eqn:E; [|done].
  destruct (scan _ n depth 0 0) as [ps|]; [|destruct H as [e He]; congruence]. destruct H as [H|[H _]]; [|congruence].
  simpl in H. destruct H as (_ & [Hok1 He1 _] & _). simpl in Hs. destruct (get_block st1 b) as [r|]; [|done]. simpl in Hs.
  injection Hs as <-. case_match; [|done]. split; [by apply print_registry|etransitivity; [exact He1|apply print_extends]].
Qed.

Lemma step_keeps st st' : registry_ok st -> block_step st st' -> registry_ok st' /\ lasts st st'.
Proof.
  intros Hok Hs. destruct Hs as [n t extra sz d st b st' Hsz Hcap E | depth b nm n d st st' Hd E | b k buf st st' Hk Hbuf E | b k buf st st' Hk Hbuf E | role b st st' Hb E].
  - assert (Hdev : device_ok st (mk_block (bounded 16 n) t sz ide_operations d 0 0)).
    { split; [done|]. split; [unfold bounded; simpl; rewrite length_take; lia|done]. }
    destruct (block_register_spec n t extra sz ide_operations d st Hok Hdev) as [H|[H _]]; [|congruence].
    rewrite E in H. destruct H as (Hok' & He & _). split; [done|by apply lasts_extends].
  - destruct (scan_step _ _ _ _ _ _ _ Hok Hd E) as [Hok' He]. split; [done|by apply lasts_extends].
  - destruct (ro_levels _ Hok) as [lv Hl]. unfold depth_of in E. destruct (length (all_blocks st)) eqn:El; [done|]. pose proof E as E'. cbn [block_read] in E'.
    apply access_inv in E' as (r & Hb & Hlt). pose proof (proj1 (Hl b r Hb)) as Hlv. rewrite El in Hlv.
    pose proof (block_read_spec _ st lv b r k buf Hok Hl Hb Hlv ltac:(lia) Hbuf) as H. rewrite E in H. destruct H as (d & off & _ & Hq & _).
    split; [by eapply registry_quiet|by apply lasts_quiet].
  - destruct (ro_levels _ Hok) as [lv Hl]. unfold depth_of in E. destruct (length (all_blocks st)) eqn:El; [done|]. pose proof E as E'. cbn [block_write] in E'.
    apply access_inv in E' as (r & Hb & Hlt). pose proof (proj1 (Hl b r Hb)) as Hlv. rewrite El in Hlv.
    pose proof (block_write_spec _ st lv b r k buf Hok Hl Hb Hlv ltac:(lia) Hbuf) as H. destruct (writable _ st b); [|congruence].
    rewrite E in H. destruct H as (d & off & _ & Hq & _). split; [by eapply registry_quiet|by apply lasts_quiet].
  - unfold block_set_role in E. destruct (type_no role <? BLOCK_ROLE_CNT); [|done]. simpl in E.
    destruct (wr (block_by_role st) (type_no role) b) as [l|] eqn:Ew; [|done]. simpl in E. injection E as <-.
    split; [|apply lasts_grows; simpl; eauto]. destruct Hok as [Hh Hdr Hn Ha Hbl Ho Hl [Hr1 Hr2]]. split; try done. simpl.
    apply wr_ok_inv in Ew as [_ ->]. split; [by rewrite length_insert|]. apply Forall_insert; [done|]. destruct Hb as [|Hb]; [by left|right]. by apply Ha.
Qed.
End Windows.

(** C17: Whatever disks are registered and scanned, whatever sectors are read and written and
    whichever roles are given, the registry stays well formed (every device is registered
    once, has a terminated name, lies on its disk or inside the device below it, and devices
    are stacked without cycles), and no device is ever removed, renamed, resized or moved. *)
Theorem block_registry_typed {A S : Type} `{!BlockOps A} {Dops : DriverOps S} {DR : Driver S} (st st' : bstate A S) :
  registry_ok st -> rtc block_step st st' -> registry_ok st' /\ lasts st st'.
Proof.
  intros Hok Hs. induction Hs as [st|st st1 st' H1 _ IH]; [by split|].
  destruct (step_keeps st st1 Hok H1) as [Hok1 Hl1]. destruct (IH Hok1) as [Hok' Hl']. split; [done|by etransitivity].
Qed.

(** C13: In a well-formed registry every device is a window of a disk, inside its capacity.
    Reading sector k of the device fills the buffer with the sector k of the window and
    changes neither disks nor other memory; writing it changes exactly that sector of that
    disk, and fails its assertion when the device or one below it is foreign; an access past
    the end of the device panics.  So devices with disjoint windows cannot affect each other. *)
Theorem block_device_is_window {A S : Type} `{!BlockOps A} {Dops : DriverOps S} {DR : Driver S} (st : bstate A S) b r :
  registry_ok st -> block_at st !! b = Some r ->
  exists d off, window (depth_of st) st b = Some (d, off) /\ 0 <= off /\ off + size r <= capacity (driver st) d /\
  forall k buf, 0 <= k -> block_ok buf BLOCK_SECTOR_SIZE ->
    if size r <=? k then
      block_read (depth_of st) b k buf st = Err KernelPanic /\ block_write (depth_of st) b k buf st = Err KernelPanic
    else
      returns (block_read (depth_of st) b k buf st) (fun st' => quiet st st' /\
        (forall d' k', contents (driver st') d' k' = contents (driver st) d' k') /\
        forall a, bmem st' a = blit (bmem st) buf (contents (driver st) d (off + k)) a) /\
      if writable (depth_of st) st b then
        returns (block_write (depth_of st) b k buf st) (fun st' => quiet st st' /\ bmem st' = bmem st /\
          forall d' k', contents (driver st') d' k' = if (d' =? d) && (k' =? off + k) then sector_at (bmem st) buf else contents (driver st) d' k')
      else block_write (depth_of st) b k buf st = Err AssertFail.
Proof.
  intros Hok Hb. destruct (ro_levels _ Hok) as [lv Hl]. pose proof (proj1 (Hl b r Hb)) as Hlv. fold (depth_of st) in Hlv.
  destruct (window_some st lv (depth_of st) b r Hok Hl Hb Hlv) as (d & off & Hw & H0 & H1). exists d, off. split_and!; [done..|].
  intros k buf Hk Hbuf. destruct (Z.leb_spec (size r) k).
  { destruct (depth_of st); [lia|]. by apply (past_end_panics _ st b r). }
  pose proof (block_read_spec _ st lv b r k buf Hok Hl Hb Hlv ltac:(lia) Hbuf) as Hread.
  pose proof (block_write_spec _ st lv b r k buf Hok Hl Hb Hlv ltac:(lia) Hbuf) as Hwrite. split.
  - eapply returns_mono; [exact Hread|]. intros st' (d' & off' & Hw' & Hq & Hc & Hm). rewrite Hw in Hw'. injection Hw' as <- <-. by split_and!.
  - destruct (writable (depth_of st) st b); [|done]. eapply returns_mono; [exact Hwrite|].
    intros st' (d' & off' & Hw' & Hq & Hc & Hm). rewrite Hw in Hw'. injection Hw' as <- <-. by split_and!.
Qed.

(** ** A machine with two disks of 100 sectors *)

(** Disk 0 has a file system in sectors 10 to 29 and a foreign partition in 40 to 69; disk 1
    has an extended partition in sectors 10 to 59. *)
Definition example_disks : ram_disk := fun d k i =>
  if negb (k =? 0) then 0
  else if i =? 510 then 0x55 else if i =? 511 then 0xaa
  else if d =? 0 then
    (if i =? 450 then 0x21 else if i =? 454 then 10 else if i =? 458 then 20
     else if i =? 466 then 0x83 else if i =? 470 then 40 else if i =? 474 then 30 else 0)
  else (if i =? 450 then 0x05 else if i =? 454 then 10 else if i =? 458 then 50 else 0).

#[local] Existing Instance bump_blocks.
#[local] Existing Instance ram_ops.
#[local] Instance example_driver : Driver ram_disk := ram_driver 100.

Definition no_devices : bstate bump_heap ram_disk :=
  mk_bstate [] [NULL; NULL; NULL; NULL] ∅ ∅ (∅, 4096) example_disks (fun _ => 0) [].

Definition two_disks : bstate bump_heap ram_disk :=
  match block_register (chars "hda") BLOCK_RAW None 100 ide_operations 0 no_devices with
  | Ok (_, st) => match block_register (chars "hdb") BLOCK_RAW None 100 ide_operations 1 st with Ok (_, st) => st | Err _ => st end
  | Err _ => no_devices
  end.

Lemma no_devices_ok : registry_ok no_devices.
Proof.
  split.
  - split; [done|]. split; [done|]. apply map_Forall_empty.
  - done.
  - constructor.
  - intros b. simpl. rewrite lookup_empty. split; [by intros ?%not_elem_of_nil|by intros []].
  - intros b r. simpl. by rewrite lookup_empty.
  - intros b. simpl. rewrite !lookup_empty. by intros [[]|[]].
  - exists (fun _ => 0%nat). intros b r. simpl. by rewrite lookup_empty.
  - split; [done|]. repeat constructor.
Qed.

Lemma two_disks_steps : rtc block_step no_devices two_disks.
Proof.
  eapply rtc_l; [eapply (step_register (chars "hda") BLOCK_RAW None 100 0)|eapply rtc_l; [eapply (step_register (chars "hdb") BLOCK_RAW None 100 1)|apply rtc_refl]];
    [lia|simpl; lia|reflexivity..|lia|simpl; lia|reflexivity].
Qed.

Lemma two_disks_ok : registry_ok two_disks.
Proof.
  pose proof two_disks_steps as H. pose proof no_devices_ok as Hok. revert H Hok. generalize no_devices, two_disks. intros st st' H.
  induction H as [|st st1 st' H _ IH]; [done|]. intros Hok. by apply IH, (step_keeps st).
Qed.

Lemma hda_disk : disk two_disks 4096 (chars "hda") 100 0.
Proof. eexists _, _. by split. Qed.

Lemma hdb_disk : disk two_disks 4152 (chars "hdb") 100 1.
Proof. eexists _, _. by split. Qed.

Lemma block_registry_typed_witness : registry_ok two_disks /\ lasts no_devices two_disks.
Proof. apply (block_registry_typed no_devices two_disks); [apply no_devices_ok|apply two_disks_steps]. Defined.

Lemma partition_scan_ends_witness :
  settles (cost 3) (heap two_disks) (partition_scan 3 4096 two_disks) (fun st' => exists b1 b2 r1 r2,
    all_blocks st' = [4096; 4152; b1; b2] /\ block_at st' !! b1 = Some r1 /\ block_at st' !! b2 = Some r2 /\
    name r1 = chars "hda1" /\ type r1 = BLOCK_FILESYS /\ size r1 = 20 /\ name r2 = chars "hda2" /\ type r2 = BLOCK_FOREIGN /\ size r2 = 30) /\
  (forall depth, exists e, partition_scan depth 4152 two_disks = Err e).
Proof.
  split.
  - pose proof (partition_scan_ends 4096 (chars "hda") 100 0 two_disks two_disks_ok hda_disk eq_refl) as H. cbv zeta in H. destruct H as [H _].
    assert (deep (contents (driver two_disks) 0 0) 100 = false) as E by (vm_compute; reflexivity). rewrite E in H.
    eapply settles_mono; [exact H|done|]. intros st' [_ _ (bs & Eb & Hbs)]. change (all_blocks two_disks) with [4096; 4152] in Eb.
    assert (fits 100 (numbered 0 (found_parts (contents (driver two_disks) 0 0) 100)) = [(1, (0x21, 10, 20)); (2, (0x83, 40, 30))]) as Ef by (vm_compute; reflexivity).
    rewrite Ef in Hbs. inversion Hbs as [|x b1 xs bs' (r1 & p1 & Hb1 & Es1 & _) Hbs']; subst.
    inversion Hbs' as [|y b2 ys bs'' (r2 & p2 & Hb2 & Es2 & _) Hbs'']; subst. inversion Hbs''; subst.
    exists b1, b2, r1, r2. injection Es1 as -> -> -> _ _. injection Es2 as -> -> -> _ _. by split_and!.
  - pose proof (partition_scan_ends 4152 (chars "hdb") 100 1 two_disks two_disks_ok hdb_disk eq_refl) as H. cbv zeta in H. destruct H as [H _].
    assert (deep (contents (driver two_disks) 1 0) 100 = true) as E by (vm_compute; reflexivity). by rewrite E in H.
Defined.

Lemma block_device_is_window_witness :
  returns (block_write (depth_of two_disks) 4152 7 0x5000 two_disks) (fun st' =>
    contents (driver st') 1 7 = sector_at (bmem two_disks) 0x5000 /\ contents (driver st') 0 7 = contents (driver two_disks) 0 7).
Proof.
  destruct hdb_disk as (r & t & Hb & Hs). destruct (block_device_is_window two_disks 4152 r two_disks_ok Hb) as (d & off & Hw & _ & _ & H).
  assert (d = 1 /\ off = 0) as [-> ->] by (vm_compute in Hw; by simplify_eq).
  specialize (H 7 0x5000 ltac:(lia) ltac:(unfold block_ok, BLOCK_SECTOR_SIZE, NULL; lia)). injection Hs as _ _ Ez _ _. rewrite Ez in H.
  change (100 <=? 7) with false in H. assert (writable (depth_of two_disks) two_disks 4152 = true) as E by (vm_compute; reflexivity). rewrite E in H. destruct H as [_ H].
  eapply returns_mono; [exact H|]. intros st' (_ & _ & Hc). split; by rewrite Hc.
Defined.
