(* ===== verification/Ide.v ===== *)
(** * IDE disks (devices/ide.c): the channels and the transfer of sectors

    The driver on port traces, for a thread that finds the lock of its channel free.  The
    interrupt handler runs where an interrupt can arrive: before a port access, in a pause,
    and while the thread waits for the completion of a command.  The semaphore of a channel
    is its value, since only the holder of the channel's lock waits for it. *)

From Stdlib Require Import ZArith Lia.
From stdpp Require Import base list numbers strings.
From S2P Require Import Prelude CString Ctype Ports Kernel KernelLock Timer Block.

Local Open Scope Z_scope.

Definition reg_data (base : Z) : Z := base + 0.
Definition reg_error (base : Z) : Z := base + 1.
Definition reg_nsect (base : Z) : Z := base + 2.
Definition reg_lbal (base : Z) : Z := base + 3.
Definition reg_lbam (base : Z) : Z := base + 4.
Definition reg_lbah (base : Z) : Z := base + 5.
Definition reg_device (base : Z) : Z := base + 6.
Definition reg_status (base : Z) : Z := base + 7.
Definition reg_command (base : Z) : Z := reg_status base.
Definition reg_ctl (base : Z) : Z := base + 0x206.
Definition reg_alt_status (base : Z) : Z := reg_ctl base.

Definition STA_BSY : Z := 0x80.
Definition STA_DRDY : Z := 0x40.
Definition STA_DRQ : Z := 0x08.
Definition CTL_SRST : Z := 0x04.
Definition DEV_MBS : Z := 0xa0.
Definition DEV_LBA : Z := 0x40.
Definition DEV_DEV : Z := 0x10.
Definition CMD_IDENTIFY_DEVICE : Z := 0xec.
Definition CMD_READ_SECTOR_RETRY : Z := 0x20.
Definition CMD_WRITE_SECTOR_RETRY : Z := 0x30.

Record ata_disk := mk_ata_disk { d_name : list Z; dev_no : Z; is_ata : bool }.

Record channel := mk_channel {
  c_name : list Z;
  reg_base : Z;
  c_irq : Z;
  c_lock : lock_id;
  expecting_interrupt : bool;
  completion_wait : Z;
  devices : list ata_disk
}.

(** What the driver prints. *)
Inductive ide_message :=
| Idle_timeout (name : list Z)
| Busy_waiting (name : list Z)
| Busy_ok
| Busy_failed
| Unexpected_interrupt (name : list Z)
| Ignoring (name : list Z) (size : Z).

Record ide := mk_ide { channels : list channel; itrace : list io_event; ik : kstate; iout : list ide_message }.

(** Whether the controllers request the interrupt with the given vector. *)
Class Irq := irq_at : list io_event -> Z -> bool.

Section Ide.
Context {D : Device} {I : Irq} (loops_per_tick : Z).
Implicit Types (s : ide) (c : channel) (d : ata_disk).

Definition with_trace (tr : list io_event) s : ide := mk_ide (channels s) tr (ik s) (iout s).
Definition with_kernel (k : kstate) s : ide := mk_ide (channels s) (itrace s) k (iout s).
Definition say (x : ide_message) s : ide := mk_ide (channels s) (itrace s) (ik s) (iout s ++ [x]).
Definition put_channel (i : nat) c s : ide := mk_ide (<[i := c]> (channels s)) (itrace s) (ik s) (iout s).
Definition set_expecting (b : bool) c : channel :=
  mk_channel (c_name c) (reg_base c) (c_irq c) (c_lock c) b (completion_wait c) (devices c).
Definition set_completion (v : Z) c : channel :=
  mk_channel (c_name c) (reg_base c) (c_irq c) (c_lock c) (expecting_interrupt c) v (devices c).

Definition get_channel (i : nat) s : res channel :=
  match channels s !! i with Some c => Ok c | None => Err BadAccess end.

(** The loop of interrupt_handler from channel [i] on. *)
Fixpoint handler_from (cs : list channel) (i : nat) (vec_no : Z) s : res ide :=
  match cs with
  | [] => Err KernelPanic
  | c :: cs =>
      if vec_no =? c_irq c then
        if expecting_interrupt c then
          let '(_, tr) := inb (reg_status (reg_base c)) (itrace s) in
          Ok (put_channel i (set_completion (u32 (completion_wait c + 1)) c) (with_trace tr s))
        else Ok (say (Unexpected_interrupt (c_name c)) s)
      else handler_from cs (S i) vec_no s
  end.

Definition interrupt_handler (vec_no : Z) s : res ide := handler_from (channels s) 0 vec_no s.

(** The interrupts that are requested are taken, if the processor takes any. *)
Definition take_interrupt (vec_no : Z) s : res ide :=
  if intr_get_level (ik s) && irq_at (itrace s) vec_no then interrupt_handler vec_no s else Ok s.

Definition take_interrupts s : res ide :=
  s ← take_interrupt (14 + 0x20) s;
  take_interrupt (15 + 0x20) s.

Definition in_port (port : Z) s : res (Z * ide) :=
  s ← take_interrupts s;
  let '(v, tr) := inb port (itrace s) in
  Ok (v, with_trace tr s).

Definition out_port (port v : Z) s : res ide :=
  s ← take_interrupts s;
  Ok (with_trace (outb port v (itrace s)) s).

(** A sleep or a busy wait. *)
Definition nap (p : kstate -> res pause) s : res ide :=
  p ← p (ik s);
  take_interrupts (with_trace (itrace s ++ [Pause]) s).

(** sema_down on the semaphore of channel [i]. *)
Definition wait_completion (i : nat) s : res ide :=
  while (fun s =>
    c ← get_channel i s;
    if 0 <? completion_wait c then Ok (inr (put_channel i (set_completion (completion_wait c - 1) c) s))
    else
      s ← take_interrupts (with_trace (itrace s ++ [Pause]) s);
      Ok (inl s)) s.

Definition wait_until_idle (base : Z) d s : res ide :=
  while (fun '(n, s) =>
    if n <? 1000 then
      '(v, s) ← in_port (reg_status base) s;
      if Z.land v (Z.lor STA_BSY STA_DRQ) =? 0 then Ok (inr s)
      else
        s ← nap (timer_usleep loops_per_tick 10) s;
        Ok (inl (n + 1, s))
    else Ok (inr (say (Idle_timeout (d_name d)) s))) (0, s).

Definition wait_while_busy (base : Z) d s : res (bool * ide) :=
  while (fun '(n, s) =>
    if n <? 3000 then
      let s := if n =? 700 then say (Busy_waiting (d_name d)) s else s in
      '(v, s) ← in_port (reg_alt_status base) s;
      if Z.land v STA_BSY =? 0 then
        let s := if 700 <=? n then say Busy_ok s else s in
        '(v, s) ← in_port (reg_alt_status base) s;
        Ok (inr (negb (Z.land v STA_DRQ =? 0), s))
      else
        s ← nap (timer_msleep loops_per_tick 10) s;
        Ok (inl (n + 1, s))
    else Ok (inr (false, say Busy_failed s))) (0, s).

Definition select_device (base : Z) d s : res ide :=
  let dev := DEV_MBS in
  let dev := if dev_no d =? 1 then Z.lor dev DEV_DEV else dev in
  s ← out_port (reg_device base) dev s;
  '(_, s) ← in_port (reg_alt_status base) s;
  nap (timer_nsleep loops_per_tick 400) s.

Definition select_device_wait (base : Z) d s : res ide :=
  s ← wait_until_idle base d s;
  s ← select_device base d s;
  wait_until_idle base d s.

Definition select_sector (base : Z) d (sec_no : Z) s : res ide :=
  ASSERT (sec_no <? Z.shiftl 1 28);;
  s ← select_device_wait base d s;
  s ← out_port (reg_nsect base) 1 s;
  s ← out_port (reg_lbal base) sec_no s;
  s ← out_port (reg_lbam base) (Z.shiftr sec_no 8) s;
  s ← out_port (reg_lbah base) (Z.shiftr sec_no 16) s;
  out_port (reg_device base)
    (Z.lor (Z.lor (Z.lor DEV_MBS DEV_LBA) (if dev_no d =? 1 then DEV_DEV else 0)) (Z.shiftr sec_no 24)) s.

Definition issue_pio_command (i : nat) (command : Z) s : res ide :=
  ASSERT (intr_get_level (ik s));;
  c ← get_channel i s;
  out_port (reg_command (reg_base c)) command (put_channel i (set_expecting true c) s).

Definition input_sector (base sector : Z) s (m : mem) : res (ide * mem) :=
  s ← take_interrupts s;
  let '(m, tr) := insw (reg_data base) sector (Z.to_nat (BLOCK_SECTOR_SIZE / 2)) m (itrace s) in
  Ok (with_trace tr s, m).

Definition output_sector (base sector : Z) s (m : mem) : res ide :=
  s ← take_interrupts s;
  Ok (with_trace (outsw (reg_data base) sector (Z.to_nat (BLOCK_SECTOR_SIZE / 2)) m (itrace s)) s).

(** A disk of the driver: its channel and its number there. *)
Definition get_disk (i : nat) (dev : Z) s : res (channel * ata_disk) :=
  c ← get_channel i s;
  match devices c !! Z.to_nat dev with Some d => Ok (c, d) | None => Err BadAccess end.

Definition ide_read (i : nat) (dev sec_no buffer : Z) (x : ide * mem) : res (ide * mem) :=
  let '(s, m) := x in
  '(c, d) ← get_disk i dev s;
  k ← lock_acquire_now (c_lock c) (ik s);
  s ← select_sector (reg_base c) d sec_no (with_kernel k s);
  s ← issue_pio_command i CMD_READ_SECTOR_RETRY s;
  s ← wait_completion i s;
  '(ready, s) ← wait_while_busy (reg_base c) d s;
  if negb ready then Err KernelPanic else
  '(s, m) ← input_sector (reg_base c) buffer s m;
  k ← lock_release_now (c_lock c) (ik s);
  Ok (with_kernel k s, m).

Definition ide_write (i : nat) (dev sec_no buffer : Z) (x : ide * mem) : res ide :=
  let '(s, m) := x in
  '(c, d) ← get_disk i dev s;
  k ← lock_acquire_now (c_lock c) (ik s);
  s ← select_sector (reg_base c) d sec_no (with_kernel k s);
  s ← issue_pio_command i CMD_WRITE_SECTOR_RETRY s;
  '(ready, s) ← wait_while_busy (reg_base c) d s;
  if negb ready then Err KernelPanic else
  s ← output_sector (reg_base c) buffer s m;
  s ← wait_completion i s;
  k ← lock_release_now (c_lock c) (ik s);
  Ok (with_kernel k s).

(** The table ide_operations: [aux] is the number of the disk. *)
Definition ide_ops : DriverOps ide := {|
  drv_read := fun a sec buf x => ide_read (Z.to_nat (a / 2)) (a mod 2) sec buf x;
  drv_write := fun a sec buf x => ide_write (Z.to_nat (a / 2)) (a mod 2) sec buf x |}.
End Ide.
