(* ===== verification/IdeInit.v ===== *)
(** * IDE disks (devices/ide.c): detection and identification

    ide_init and what it calls: the reset of a channel, the test for ATA disks, and the
    IDENTIFY DEVICE command, after which the disk is registered with the block layer and its
    partitions are scanned.  [id] is the address of the buffer on the stack; the locks of the
    two channels are parameters, as is the code of the interrupt stubs. *)

From Stdlib Require Import ZArith Lia.
From stdpp Require Import base gmap list numbers strings.
From S2P Require Import Prelude CString StringLib Ctype Interfaces Ports IntrTable Kernel KernelLock Timer Block Partition Ide.

Local Open Scope Z_scope.

Definition CHANNEL_CNT : nat := 2.

(** The bytes of the string at [string] in pairs swapped, cut after the last character that
    is neither white space nor null. *)
Definition descramble_ata_string (string size : Z) (m : mem) : res mem :=
  m ← while (fun '(i, m) =>
    if i + 1 <? size then
      let tmp := m (string + i) in
      let m := store m (string + i) (m (string + (i + 1))) in
      Ok (inl (i + 2, store m (string + (i + 1)) tmp))
    else Ok (inr m)) (0, m);
  size ← while (fun size =>
    if 0 <? size then
      let c := m (string + (size - 1)) in
      if negb (c =? 0) && negb (isspace c) then Ok (inr size) else Ok (inl (size - 1))
    else Ok (inr size)) (size - 1);
  Ok (store m (string + size) 0).

Section Init.
Context {D : Device} {I : Irq} (loops_per_tick : Z).
Implicit Types (s : ide).

(** Whether registers of the selected device keep what is written to them. *)
Definition detect_device (base : Z) (d : ata_disk) s : res (bool * ide) :=
  s ← select_device loops_per_tick base d s;
  s ← out_port (reg_nsect base) 0x55 s;
  s ← out_port (reg_lbal base) 0xaa s;
  s ← out_port (reg_nsect base) 0xaa s;
  s ← out_port (reg_lbal base) 0x55 s;
  s ← out_port (reg_nsect base) 0x55 s;
  s ← out_port (reg_lbal base) 0xaa s;
  '(v, s) ← in_port (reg_nsect base) s;
  if v =? 0x55 then
    '(v, s) ← in_port (reg_lbal base) s;
    Ok (v =? 0xaa, s)
  else Ok (false, s).

Definition wait_signature (base : Z) s : res ide :=
  while (fun '(i, s) =>
    if i <? 3000 then
      '(v, s) ← in_port (reg_nsect base) s;
      x ← (if v =? 1 then '(v, s) ← in_port (reg_lbal base) s; Ok (v =? 1, s) else Ok (false, s));
      let '(found, s) := x : bool * ide in
      if found then Ok (inr s)
      else
        s ← nap (timer_msleep loops_per_tick 10) s;
        Ok (inl (i + 1, s))
    else Ok (inr s)) (0, s).

Definition reset_channel (i : nat) s : res ide :=
  '(c, d0) ← get_disk i 0 s;
  '(_, d1) ← get_disk i 1 s;
  let base := reg_base c in
  '(present0, s) ← detect_device base d0 s;
  '(present1, s) ← detect_device base d1 s;
  s ← out_port (reg_ctl base) 0 s;
  s ← nap (timer_usleep loops_per_tick 10) s;
  s ← out_port (reg_ctl base) CTL_SRST s;
  s ← nap (timer_usleep loops_per_tick 10) s;
  s ← out_port (reg_ctl base) 0 s;
  s ← nap (timer_msleep loops_per_tick 150) s;
  s ← (if present0 : bool then
         s ← select_device loops_per_tick base d0 s;
         '(_, s) ← wait_while_busy loops_per_tick base d0 s;
         Ok s
       else Ok s);
  if present1 : bool then
    s ← select_device loops_per_tick base d1 s;
    s ← wait_signature base s;
    '(_, s) ← wait_while_busy loops_per_tick base d1 s;
    Ok s
  else Ok s.

Definition set_devices (ds : list ata_disk) (c : channel) : channel :=
  mk_channel (c_name c) (reg_base c) (c_irq c) (c_lock c) (expecting_interrupt c) (completion_wait c) ds.

Definition put_is_ata (i : nat) (dev : Z) (b : bool) s : res ide :=
  '(c, d) ← get_disk i dev s;
  Ok (put_channel i (set_devices (<[Z.to_nat dev := mk_ata_disk (d_name d) (dev_no d) b]> (devices c)) c) s).

Definition check_device_type (i : nat) (dev : Z) s : res (bool * ide) :=
  '(c, d) ← get_disk i dev s;
  let base := reg_base c in
  s ← select_device loops_per_tick base d s;
  '(error, s) ← in_port (reg_error base) s;
  '(lbam, s) ← in_port (reg_lbam base) s;
  '(lbah, s) ← in_port (reg_lbah base) s;
  '(status, s) ← in_port (reg_status base) s;
  if (negb (error =? 1) && (negb (error =? 0x81) || (dev_no d =? 1))) || (Z.land status STA_DRDY =? 0) || negb (Z.land status STA_BSY =? 0) then
    s ← put_is_ata i dev false s;
    Ok (negb (error =? 0x81), s)
  else
    s ← put_is_ata i dev (((lbam =? 0) && (lbah =? 0)) || ((lbam =? 0x3c) && (lbah =? 0xc3))) s;
    Ok (true, s).

(** ** Registration *)

Context {A : Type} `{!BlockOps A} (id : Z).

#[local] Instance disk_ops : DriverOps ide := ide_ops loops_per_tick.

Definition put_ide (s : ide) (st : bstate A ide) : bstate A ide := put_driver st s (bmem st).

(** The characters of the string at [p]. *)
Definition string_at (m : mem) (p : Z) : res (list Z) :=
  n ← strlen m p;
  Ok (bytes_at m p (Z.to_nat n)).

(** model "%s", serial "%s" *)
Definition disk_info (model serial : list Z) : list Z :=
  chars "model " ++ [34] ++ model ++ [34] ++ chars ", serial " ++ [34] ++ serial ++ [34].

(** The recursion of a scan that ends is not deeper (PartitionSpec). *)
Definition scan_depth : nat := 3.

Definition identify_ata_device (i : nat) (dev : Z) (st : bstate A ide) : res (bstate A ide) :=
  '(c, d) ← get_disk i dev (driver st);
  ASSERT (is_ata d);;
  let base := reg_base c in
  s ← select_device_wait loops_per_tick base d (driver st);
  s ← issue_pio_command i CMD_IDENTIFY_DEVICE s;
  s ← wait_completion i s;
  '(ready, s) ← wait_while_busy loops_per_tick base d s;
  if negb ready then s ← put_is_ata i dev false s; Ok (put_ide s st) else
  '(s, m) ← input_sector base id s (bmem st);
  let capacity := load32 m (id + 60 * 2) in
  m ← descramble_ata_string (id + 10 * 2) 20 m;
  m ← descramble_ata_string (id + 27 * 2) 40 m;
  model ← string_at m (id + 10 * 2);
  serial ← string_at m (id + 27 * 2);
  let extra_info := bounded 128 (disk_info model serial) in
  if 1024 * 1024 * 1024 / BLOCK_SECTOR_SIZE <=? capacity then
    s ← put_is_ata i dev false (say (Ignoring (d_name d) (u32 (capacity * 512))) s);
    Ok (put_driver st s m)
  else
    '(block, st) ← block_register (d_name d) BLOCK_RAW (Some extra_info) capacity ide_operations (2 * Z.of_nat i + dev) (put_driver st s m);
    partition_scan scan_depth block st.

(** ** The whole subsystem *)

Context {H : Type} (intr_stubs : Z -> Z) (handler : H) (channel_lock : nat -> lock_id).

Definition channel_name (n : nat) : string := match n with O => "ide0" | _ => "ide1" end.
Definition disk_name (n : nat) (dev : Z) : list Z := chars "hd" ++ [97 + Z.of_nat n * 2 + dev].
Definition fresh_disk (n : nat) (dev : Z) : ata_disk := mk_ata_disk (disk_name n dev) dev false.

(** The members of a channel that ide_init sets, before any hardware is touched. *)
Definition fresh_channel (n : nat) : channel :=
  mk_channel (chars (channel_name n)) (match n with O => 0x1f0 | _ => 0x170 end) (match n with O => 14 + 0x20 | _ => 15 + 0x20 end)
    (channel_lock n) false 0 [fresh_disk n 0; fresh_disk n 1].

Definition identify_if_ata (i : nat) (dev : Z) (st : bstate A ide) : res (bstate A ide) :=
  '(_, d) ← get_disk i dev (driver st);
  if is_ata d then identify_ata_device i dev st else Ok st.

Definition init_channel (i : nat) (x : bstate A ide * intr_table H) : res (bstate A ide * intr_table H) :=
  let '(st, t) := x in
  let s := driver st in
  let s := with_kernel (lock_init_st (channel_lock i) (ik s)) (put_channel i (fresh_channel i) s) in
  t ← intr_register_ext intr_stubs (c_irq (fresh_channel i)) handler (channel_name i) t;
  s ← reset_channel i s;
  '(slave, s) ← check_device_type i 0 s;
  s ← (if slave : bool then '(_, s) ← check_device_type i 1 s; Ok s else Ok s);
  st ← identify_if_ata i 0 (put_ide s st);
  st ← identify_if_ata i 1 st;
  Ok (st, t).

Definition ide_init (x : bstate A ide * intr_table H) : res (bstate A ide * intr_table H) :=
  x ← init_channel 0 x;
  init_channel 1 x.
End Init.
