(* ===== verification/IdeSpec.v ===== *)
(** * The IDE driver on ATA disks

    A reference model of a channel with two ATA disks, as an automaton over the accesses to
    its ports, and the proof that on such channels the driver transfers sectors as the block
    layer expects of its [Driver]. *)

From Stdlib Require Import ZArith Lia.
From stdpp Require Import base gmap list numbers strings.
From S2P Require Import Prelude CString Ctype Interfaces Ports Kernel KernelLock PallocSpec Timer Block Ide IdeInit.

Local Open Scope Z_scope.

(** ** A channel of ATA disks *)

(** What a busy channel is about to do: to offer data, to ask for a sector, or nothing. *)
Inductive goal := To_read (ws : list Z) | To_write (d k : Z) | To_rest.

Inductive phase :=
| Rest
| Busy (n : nat) (g : goal)
| Data_in (ws : list Z)
| Data_out (d k : Z) (bs : list Z).

Record ata := mk_ata {
  a_regs : Z -> Z;                 (* the registers 1 to 6 *)
  a_phase : phase;
  a_pending : bool;                (* an interrupt is requested *)
  a_sectors : Z -> Z -> list Z;    (* disk and sector *)
  a_commands : nat                 (* commands so far *)
}.

(** A sector is 512 bytes. *)
Definition fit (l : list Z) : list Z := map u8 (take 512 (l ++ replicate 512 0)).
Arguments fit : simpl never.

Fixpoint words (l : list Z) : list Z :=
  match l with a :: b :: l => (a + 256 * b) :: words l | _ => [] end.

(** The sector and the disk that the registers select. *)
Definition lba (a : ata) : Z := a_regs a 3 + 2 ^ 8 * a_regs a 4 + 2 ^ 16 * a_regs a 5 + 2 ^ 24 * (a_regs a 6 mod 16).
Definition selected (a : ata) : Z := if Z.testbit (a_regs a 6) 4 then 1 else 0.

Definition set_phase (p : phase) (q : bool) (a : ata) : ata := mk_ata (a_regs a) p q (a_sectors a) (a_commands a).

Definition tick (a : ata) : ata :=
  match a_phase a with
  | Busy (S n) g => set_phase (Busy n g) (a_pending a) a
  | Busy O (To_read ws) => set_phase (Data_in ws) true a
  | Busy O (To_write d k) => set_phase (Data_out d k []) (a_pending a) a
  | Busy O To_rest => set_phase Rest true a
  | _ => a
  end.

(** A reset ends what the channel does and leaves the signature of ATA disks in the registers. *)
Definition reset (a : ata) : ata :=
  mk_ata (fun r => if (1 <=? r) && (r <=? 3) then 1 else 0) Rest false (a_sectors a) (a_commands a).

Section Ata.
(** The identification data of the disks; how long the command with a given number keeps
    the channel busy. *)
Context (identity : Z -> list Z) (latency : nat -> nat).

Definition start (g : goal) (a : ata) : ata :=
  mk_ata (a_regs a) (Busy (latency (a_commands a)) g) (a_pending a) (a_sectors a) (S (a_commands a)).

Definition command (v : Z) (a : ata) : ata :=
  match a_phase a with
  | Rest =>
      if v =? CMD_READ_SECTOR_RETRY then start (To_read (words (fit (a_sectors a (selected a) (lba a))))) a
      else if v =? CMD_WRITE_SECTOR_RETRY then start (To_write (selected a) (lba a)) a
      else if v =? CMD_IDENTIFY_DEVICE then start (To_read (words (fit (identity (selected a))))) a
      else a
  | _ => a
  end.

Definition data_read (a : ata) : ata :=
  match a_phase a with
  | Data_in (_ :: []) => set_phase Rest (a_pending a) a
  | Data_in (_ :: ws) => set_phase (Data_in ws) (a_pending a) a
  | _ => a
  end.

Definition data_written (v : Z) (a : ata) : ata :=
  match a_phase a with
  | Data_out d k bs =>
      let bs := bs ++ [v mod 256; v / 256] in
      if (512 <=? length bs)%nat then
        start To_rest (mk_ata (a_regs a) Rest (a_pending a)
          (fun d' k' => if (d' =? d) && (k' =? k) then bs else a_sectors a d' k') (a_commands a))
      else set_phase (Data_out d k bs) (a_pending a) a
  | _ => a
  end.

(** One access; reading the status register withdraws the interrupt request. *)
Definition ata_step (base : Z) (a : ata) (e : io_event) : ata :=
  match e with
  | In p _ => if p =? reg_status base then tick (set_phase (a_phase a) false a)
              else if p =? reg_alt_status base then tick a else a
  | Out p v => if p =? reg_command base then command v a
               else if p =? reg_ctl base then (if Z.testbit v 2 then reset a else a)
               else if (reg_nsect base <=? p) && (p <=? reg_device base) then
                 mk_ata (fun r => if r =? p - base then v else a_regs a r) (a_phase a) (a_pending a) (a_sectors a) (a_commands a)
               else a
  | Inw p _ => if p =? reg_data base then data_read a else a
  | Outw p v => if p =? reg_data base then data_written v a else a
  | Pause => tick a
  end.

Definition status (a : ata) : Z :=
  match a_phase a with
  | Rest => STA_DRDY
  | Busy _ _ => STA_BSY
  | _ => Z.lor STA_DRDY STA_DRQ
  end.

(** What the channel answers to a read of one of its ports. *)
Definition ata_answer (base : Z) (a : ata) (p : Z) : Z :=
  if (p =? reg_status base) || (p =? reg_alt_status base) then status a
  else if p =? reg_data base then match a_phase a with Data_in (w :: _) => w | _ => 0 end
  else a_regs a (p - base).
End Ata.

(** ** Bytes and words *)

Lemma blit_two m p x y l z : blit m p (x :: y :: l) z = blit (store (store m p x) (p + 1) y) (p + 2) l z.
Proof.
  unfold blit, store. cbn [length]. destruct (Z.eqb_spec z p) as [->|H1].
  - replace ((p <=? p) && (p <? p + Z.of_nat (S (S (length l))))) with true by zbool. rewrite Z.sub_diag. replace ((p + 2 <=? p) && (p <? p + 2 + Z.of_nat (length l))) with false by zbool. simpl. by replace (p =? p + 1) with false by zbool.
  - destruct (Z.eqb_spec z (p + 1)) as [->|H2].
    + replace ((p <=? p + 1) && (p + 1 <? p + Z.of_nat (S (S (length l))))) with true by zbool. replace (p + 1 - p) with 1 by lia. by replace ((p + 2 <=? p + 1) && (p + 1 <? p + 2 + Z.of_nat (length l))) with false by zbool.
    + replace ((p <=? z) && (z <? p + Z.of_nat (S (S (length l))))) with ((p + 2 <=? z) && (z <? p + 2 + Z.of_nat (length l))) by zbool.
      destruct ((p + 2 <=? z) && _) eqn:E; [|done]. apply andb_true_iff in E as [E _]. apply Z.leb_le in E.
      by replace (Z.to_nat (z - p)) with (S (S (Z.to_nat (z - (p + 2))))) by lia.
Qed.

Lemma blit_nil m p z : blit m p [] z = m z.
Proof. unfold blit. cbn [length]. by replace ((p <=? z) && (z <? p + Z.of_nat 0)) with false by zbool. Qed.

Lemma bytes_at_two m p n : bytes_at m p (S (S n)) = m p :: m (p + 1) :: bytes_at m (p + 2) n.
Proof.
  unfold bytes_at. cbn [seq map]. rewrite Z.add_0_r. f_equal. f_equal. rewrite <- !fmap_S_seq, <- !list_fmap_compose.
  apply list_fmap_ext. intros _ x _. unfold compose. f_equal. lia.
Qed.

Lemma fit_length l : length (fit l) = 512%nat.
Proof. unfold fit. rewrite length_map, length_take, length_app, length_replicate. lia. Qed.

Lemma fit_bytes l : Forall (fun x => 0 <= x < 256) (fit l).
Proof. unfold fit. apply List.Forall_map, Forall_true. intros x. apply u8_range. Qed.

Lemma fit_id l : length l = 512%nat -> Forall (fun x => 0 <= x < 256) l -> fit l = l.
Proof.
  intros Hl Hf. unfold fit. rewrite take_app_le, <- Hl, firstn_all by lia. clear Hl. induction Hf as [|x l Hx _ IH]; [done|]. simpl. by rewrite IH, u8_small.
Qed.

Lemma sector_at_length m p : length (sector_at m p) = 512%nat.
Proof. unfold sector_at, bytes_at. by rewrite !length_map, length_seq. Qed.

Lemma sector_at_bytes m p : Forall (fun x => 0 <= x < 256) (sector_at m p).
Proof. unfold sector_at. apply List.Forall_map, Forall_true. intros x. apply u8_range. Qed.

(** The ports of the two channels, and the vectors of their interrupts. *)
Definition base_of (i : nat) : Z := match i with O => 0x1f0 | _ => 0x170 end.
Definition vector_of (i : nat) : Z := match i with O => 14 + 0x20 | _ => 15 + 0x20 end.

Definition owns (i : nat) (p : Z) : Prop := base_of i <= p <= base_of i + 7 \/ p = reg_alt_status (base_of i).

Section Channels.
Context {D : Device} {Q : Irq} (loops_per_tick : Z).
Context (identity : nat -> Z -> list Z) (latency : nat -> nat -> nat) (before : nat -> ata).
Implicit Types (s : ide) (a : ata).

(** The channel [i] after the given accesses. *)
Definition channel_after (i : nat) (tr : list io_event) : ata :=
  fold_left (ata_step (identity i) (latency i) (base_of i)) tr (before i).

(** The devices are the two channels. *)
Definition obeys : Prop := forall i tr, (i < 2)%nat ->
  (forall p, owns i p -> dev tr p = ata_answer (base_of i) (channel_after i tr) p) /\
  irq_at tr (vector_of i) = a_pending (channel_after i tr).

(** No command takes too long. *)
Definition prompt : Prop := forall i n, (latency i n < 2998)%nat.

(** The part of a channel's record that does not change. *)
Definition fixed (c : channel) : list Z * Z * Z * lock_id * list ata_disk := (c_name c, reg_base c, c_irq c, c_lock c, devices c).

Definition fixed_ok (i : nat) (x : list Z * Z * Z * lock_id * list ata_disk) : Prop :=
  x.1.1.1.2 = base_of i /\ x.1.1.2 = vector_of i.

Hypothesis (Hobeys : obeys).

Section Channel.
(** One channel at work, with its records, the kernel's state, and the other channel, at rest. *)
Context (i : nat) (Hi : (i < 2)%nat) (cs : list (list Z * Z * Z * lock_id * list ata_disk)) (k : kstate) (b : ata).
Context (Hcs : forall x, cs !! i = Some x -> fixed_ok i x) (Hoff : forall x, cs !! (1 - i)%nat = Some x -> x.1.1.2 <> vector_of i).
Context (Hlen : length cs = 2%nat).
Context (Hrest : a_phase b = Rest) (Hquiet : a_pending b = false) (Hon : intr_get_level k = true).

(** The working channel is in state [a]; the value of its semaphore, and whether it expects
    an interrupt. *)
Record working a (cw : Z) (ex : bool) s : Prop := mk_working {
  w_fixed : map fixed (channels s) = cs;
  w_here : exists c, channels s !! i = Some c /\ completion_wait c = cw /\ (ex = true -> expecting_interrupt c = true);
  w_there : exists c, channels s !! (1 - i)%nat = Some c /\ completion_wait c = 0;
  w_state : channel_after i (itrace s) = a;
  w_other : channel_after (1 - i) (itrace s) = b;
  w_kernel : ik s = k
}.

Lemma channel_snoc j tr e : channel_after j (tr ++ [e]) = ata_step (identity j) (latency j) (base_of j) (channel_after j tr) e.
Proof. unfold channel_after. by rewrite fold_left_app. Qed.

(** Accesses to the ports of one channel, and pauses, do nothing to the other one at rest. *)
Definition ours (e : io_event) : Prop :=
  match e with In p _ | Out p _ | Inw p _ | Outw p _ => owns i p | Pause => True end.

Lemma step_other e : ours e -> ata_step (identity (1 - i)) (latency (1 - i)) (base_of (1 - i)) b e = b.
Proof.
  assert (Hp : forall p, owns i p -> p <> reg_status (base_of (1 - i)) /\ p <> reg_alt_status (base_of (1 - i)) /\
    p <> reg_data (base_of (1 - i)) /\ ~ reg_nsect (base_of (1 - i)) <= p <= reg_device (base_of (1 - i))).
  { intros p [Hp|Hp]; destruct i as [|[|]]; simpl in *; unfold reg_alt_status, reg_ctl, reg_status, reg_data, reg_nsect, reg_device in *; lia. }
  intros He. destruct e as [p v|p v|p v|p v|]; simpl in *; try (destruct (Hp p He) as (H1 & H2 & H3 & H4)).
  - by rewrite (proj2 (Z.eqb_neq _ _) H1), (proj2 (Z.eqb_neq _ _) H2).
  - unfold reg_command. rewrite (proj2 (Z.eqb_neq _ _) H1), (proj2 (Z.eqb_neq p (reg_ctl _)) H2). destruct (Z.leb_spec (reg_nsect (base_of (1 - i))) p), (Z.leb_spec p (reg_device (base_of (1 - i)))); simpl; lia || done.
  - by rewrite (proj2 (Z.eqb_neq _ _) H3).
  - by rewrite (proj2 (Z.eqb_neq _ _) H3).
  - unfold tick. by rewrite Hrest.
Qed.

Definition astep (a : ata) (e : io_event) : ata := ata_step (identity i) (latency i) (base_of i) a e.

(** One access. *)
Lemma working_event a cw ex s e : working a cw ex s -> ours e -> working (astep a e) cw ex (with_trace (itrace s ++ [e]) s).
Proof.
  intros [H1 H2 H3 H4 H5 H6] He. split; simpl; try done.
  - by rewrite channel_snoc, H4.
  - by rewrite channel_snoc, H5, step_other.
Qed.

Lemma one_of_two j : (j < 2)%nat -> j = i \/ j = (1 - i)%nat.
Proof. clear -Hi. lia. Qed.

Lemma irq_state a cw ex s j : working a cw ex s -> (j < 2)%nat ->
  irq_at (itrace s) (vector_of j) = if decide (j = i) then a_pending a else false.
Proof.
  intros Hw Hj. rewrite (proj2 (Hobeys j (itrace s) Hj)). case_decide as E; [subst; by rewrite (w_state _ _ _ _ Hw)|].
  destruct (one_of_two j Hj) as [?| ->]; [done|]. by rewrite (w_other _ _ _ _ Hw).
Qed.

Lemma take_interrupt_none a cw ex s j : working a cw ex s -> (j < 2)%nat -> (j = i -> a_pending a = false) ->
  take_interrupt (vector_of j) s = Ok s.
Proof.
  intros Hw Hj Hp. unfold take_interrupt. rewrite (irq_state a cw ex s j Hw Hj). case_decide as E; [rewrite (Hp E)|]; by rewrite andb_false_r.
Qed.

Lemma take_interrupts_none a cw ex s : working a cw ex s -> a_pending a = false -> take_interrupts s = Ok s.
Proof.
  intros Hw Hp. unfold take_interrupts. change (14 + 32) with (vector_of 0). change (15 + 32) with (vector_of 1).
  rewrite (take_interrupt_none a cw ex s 0) by (done || lia). rewrite bind_ok. by apply (take_interrupt_none a cw ex s 1); [|lia|].
Qed.

Lemma in_port_spec a cw ex s p : working a cw ex s -> a_pending a = false -> owns i p ->
  exists s', in_port p s = Ok (u8 (ata_answer (base_of i) a p), s') /\ working (astep a (In p (u8 (ata_answer (base_of i) a p)))) cw ex s'.
Proof.
  intros Hw Hp Ho. unfold in_port. rewrite (take_interrupts_none a cw ex s Hw Hp), bind_ok. unfold inb.
  destruct (Hobeys i (itrace s) Hi) as [Hd _]. rewrite (Hd p Ho), (w_state _ _ _ _ Hw). eexists. split; [done|]. by apply working_event.
Qed.

Lemma out_port_spec a cw ex s p v : working a cw ex s -> a_pending a = false -> owns i p ->
  exists s', out_port p v s = Ok s' /\ working (astep a (Out p (u8 v))) cw ex s'.
Proof.
  intros Hw Hp Ho. unfold out_port. rewrite (take_interrupts_none a cw ex s Hw Hp), bind_ok. eexists. split; [done|]. by apply working_event.
Qed.

Lemma nap_spec a cw ex s p : working a cw ex s -> a_pending (tick a) = false -> (exists x, p k = Ok x) ->
  exists s', nap p s = Ok s' /\ working (tick a) cw ex s'.
Proof.
  intros Hw Hp [x Hx]. unfold nap. rewrite (w_kernel _ _ _ _ Hw), Hx, bind_ok.
  pose proof (working_event a cw ex s Pause Hw I) as Hw'. eexists. split; [|exact Hw'].
  apply (take_interrupts_none _ _ _ _ Hw' Hp).
Qed.

(** ** A channel at rest *)

Record resting a : Prop := mk_resting { r_phase : a_phase a = Rest; r_pending : a_pending a = false }.

Definition with_reg (r v : Z) a : ata :=
  mk_ata (fun r' => if r' =? r then v else a_regs a r') (a_phase a) (a_pending a) (a_sectors a) (a_commands a).

Lemma with_reg_resting r v a : resting a -> resting (with_reg r v a).
Proof. by intros []. Qed.

Lemma tick_resting a : resting a -> tick a = a.
Proof. intros [Hp _]. unfold tick. by rewrite Hp. Qed.

Lemma owns_reg r : 0 <= r <= 7 -> owns i (base_of i + r).
Proof. left. lia. Qed.

Lemma step_status a v : resting a -> astep a (In (reg_status (base_of i)) v) = a.
Proof.
  intros [Hp Hq]. unfold astep, ata_step. rewrite Z.eqb_refl, Hp. unfold tick. simpl. destruct a. simpl in *. by subst.
Qed.

Lemma step_alt_status a v : resting a -> astep a (In (reg_alt_status (base_of i)) v) = a.
Proof.
  intros Hr. unfold astep, ata_step. destruct (Z.eqb_spec (reg_alt_status (base_of i)) (reg_status (base_of i))) as [E|_].
  - unfold reg_alt_status, reg_ctl, reg_status in E. lia.
  - rewrite Z.eqb_refl. by apply tick_resting.
Qed.

Lemma step_reg a r v : 2 <= r <= 6 -> astep a (Out (base_of i + r) v) = with_reg r v a.
Proof.
  intros Hr. unfold astep, ata_step, reg_command, reg_status, reg_nsect, reg_device. destruct (Z.eqb_spec (base_of i + r) (base_of i + 7)); [lia|].
  unfold reg_ctl. destruct (Z.eqb_spec (base_of i + r) (base_of i + 0x206)); [lia|].
  replace ((base_of i + 2 <=? base_of i + r) && (base_of i + r <=? base_of i + 6)) with true by zbool. unfold with_reg. f_equal.
  by replace (base_of i + r - base_of i) with r by lia.
Qed.

(** A register written. *)
Lemma out_reg_spec a cw ex s r v : working a cw ex s -> resting a -> 2 <= r <= 6 ->
  exists s', out_port (base_of i + r) v s = Ok s' /\ working (with_reg r (u8 v) a) cw ex s'.
Proof.
  intros Hw Hr H. rewrite <- step_reg by done. apply out_port_spec; [done|apply Hr|apply owns_reg; lia].
Qed.

Lemma status_rest a p : resting a -> p = reg_status (base_of i) \/ p = reg_alt_status (base_of i) -> ata_answer (base_of i) a p = STA_DRDY.
Proof.
  intros [Hp _] Ho. unfold ata_answer. replace ((p =? _) || (p =? _)) with true; [unfold status; by rewrite Hp|].
  symmetry. apply orb_true_iff. rewrite !Z.eqb_eq. done.
Qed.

Lemma wait_until_idle_rest a cw ex s d : working a cw ex s -> resting a ->
  exists s', wait_until_idle loops_per_tick (base_of i) d s = Ok s' /\ working a cw ex s'.
Proof.
  intros Hw Hr. destruct (in_port_spec a cw ex s (reg_status (base_of i)) Hw (r_pending _ Hr)) as (s' & Hin & Hw'); [apply (owns_reg 7); lia|].
  unfold astep in *. exists s'. rewrite step_status in Hw' by done. split; [|done]. apply while_stop. cbn beta iota. rewrite Hin, (status_rest a _ Hr) by (by left).
  reflexivity.
Qed.

Lemma pauses : (exists x, timer_usleep loops_per_tick 10 k = Ok x) /\ (exists x, timer_msleep loops_per_tick 10 k = Ok x) /\
  (exists x, timer_nsleep loops_per_tick 400 k = Ok x).
Proof.
  unfold timer_usleep, timer_msleep, timer_nsleep, real_time_sleep. rewrite Hon.
  split_and!; eexists; reflexivity.
Qed.

Lemma select_device_rest a cw ex s d : working a cw ex s -> resting a ->
  exists s' v, select_device loops_per_tick (base_of i) d s = Ok s' /\ working (with_reg 6 v a) cw ex s' /\ Z.testbit v 4 = (dev_no d =? 1).
Proof.
  intros Hw Hr. unfold select_device. cbv zeta. set (v := if dev_no d =? 1 then _ else _).
  destruct (out_reg_spec a cw ex s 6 v Hw Hr ltac:(lia)) as (s1 & E1 & Hw1). unfold reg_device. rewrite E1, bind_ok.
  pose proof (with_reg_resting 6 (u8 v) a Hr) as Hr1.
  destruct (in_port_spec _ cw ex s1 (reg_alt_status (base_of i)) Hw1 (r_pending _ Hr1)) as (s2 & E2 & Hw2); [by right|].
  rewrite E2, bind_ok. rewrite step_alt_status in Hw2 by done.
  destruct (nap_spec _ cw ex s2 (timer_nsleep loops_per_tick 400) Hw2) as (s3 & E3 & Hw3); [rewrite tick_resting by done; apply Hr1|apply pauses|].
  rewrite tick_resting in Hw3 by done. exists s3, (u8 v). split_and!; [done|done|]. unfold v. by destruct (dev_no d =? 1).
Qed.

(** The registers address the sector and the disk. *)
Lemma device_register dev sec : 0 <= dev <= 1 -> 0 <= sec < 2 ^ 28 ->
  let v := u8 (Z.lor (Z.lor (Z.lor DEV_MBS DEV_LBA) (if dev =? 1 then DEV_DEV else 0)) (Z.shiftr sec 24)) in
  v mod 16 = sec / 2 ^ 24 /\ Z.testbit v 4 = (dev =? 1).
Proof.
  intros Hd Hs v. assert (Hx : 0 <= sec / 2 ^ 24 < 16) by (split; [apply Z.div_pos|apply Z.div_lt_upper_bound]; lia).
  assert (E : v = sec / 2 ^ 24 + (if dev =? 1 then 15 else 14) * 2 ^ 4).
  { unfold v. rewrite Z.shiftr_div_pow2, Z.lor_comm by lia. assert (dev = 0 \/ dev = 1) as [-> | ->] by lia.
    - change (Z.lor (Z.lor DEV_MBS DEV_LBA) (if 0 =? 1 then DEV_DEV else 0)) with (14 * 2 ^ 4). rewrite lor_low by lia. simpl. rewrite u8_small; lia.
    - change (Z.lor (Z.lor DEV_MBS DEV_LBA) (if 1 =? 1 then DEV_DEV else 0)) with (15 * 2 ^ 4). rewrite lor_low by lia. simpl. rewrite u8_small; lia. }
  rewrite E. split; [by rewrite (Z_mod_plus_full _ _ 16), Z.mod_small|].
  rewrite <- lor_low, Z.lor_spec, (testbit_small _ 4) by lia. by destruct (dev =? 1).
Qed.

Lemma lba_bytes sec : 0 <= sec < 2 ^ 28 ->
  u8 sec + 2 ^ 8 * u8 (Z.shiftr sec 8) + 2 ^ 16 * u8 (Z.shiftr sec 16) + 2 ^ 24 * (sec / 2 ^ 24) = sec.
Proof.
  intros Hs. rewrite !Z.shiftr_div_pow2 by lia. unfold u8. change (2 ^ 8) with 256. change (2 ^ 16) with 65536. change (2 ^ 24) with 16777216.
  Z.div_mod_to_equations. lia.
Qed.

Lemma select_sector_spec a cw ex s d sec : working a cw ex s -> resting a -> 0 <= dev_no d <= 1 -> 0 <= sec < 2 ^ 28 ->
  exists s' a', select_sector loops_per_tick (base_of i) d sec s = Ok s' /\ working a' cw ex s' /\ resting a' /\
    a_sectors a' = a_sectors a /\ a_commands a' = a_commands a /\ lba a' = sec /\ selected a' = dev_no d.
Proof.
  intros Hw Hr Hd Hs. unfold select_sector. change (Z.shiftl 1 28) with (2 ^ 28). rewrite assert_bind by (apply Z.ltb_lt; lia).
  unfold select_device_wait. destruct (wait_until_idle_rest a cw ex s d Hw Hr) as (s1 & -> & Hw1). rewrite bind_ok.
  destruct (select_device_rest a cw ex s1 d Hw1 Hr) as (s2 & v & -> & Hw2 & _). rewrite bind_ok. pose proof (with_reg_resting 6 v a Hr) as Hr2.
  destruct (wait_until_idle_rest _ cw ex s2 d Hw2 Hr2) as (s3 & -> & Hw3). rewrite bind_ok.
  unfold reg_nsect, reg_lbal, reg_lbam, reg_lbah, reg_device.
  destruct (out_reg_spec _ cw ex s3 2 1 Hw3 Hr2 ltac:(lia)) as (s4 & -> & Hw4). rewrite bind_ok. pose proof (with_reg_resting 2 (u8 1) _ Hr2) as Hr4.
  destruct (out_reg_spec _ cw ex s4 3 sec Hw4 Hr4 ltac:(lia)) as (s5 & -> & Hw5). rewrite bind_ok. pose proof (with_reg_resting 3 (u8 sec) _ Hr4) as Hr5.
  destruct (out_reg_spec _ cw ex s5 4 (Z.shiftr sec 8) Hw5 Hr5 ltac:(lia)) as (s6 & -> & Hw6). rewrite bind_ok. pose proof (with_reg_resting 4 (u8 (Z.shiftr sec 8)) _ Hr5) as Hr6.
  destruct (out_reg_spec _ cw ex s6 5 (Z.shiftr sec 16) Hw6 Hr6 ltac:(lia)) as (s7 & -> & Hw7). rewrite bind_ok. pose proof (with_reg_resting 5 (u8 (Z.shiftr sec 16)) _ Hr6) as Hr7.
  set (dv := Z.lor _ _). destruct (out_reg_spec _ cw ex s7 6 dv Hw7 Hr7 ltac:(lia)) as (s8 & -> & Hw8). pose proof (with_reg_resting 6 (u8 dv) _ Hr7) as Hr8.
  destruct (device_register (dev_no d) sec Hd Hs) as [Em Et]. fold dv in Em, Et.
  eexists s8, _. split; [done|]. split; [exact Hw8|]. split; [done|]. split; [done|]. split; [done|]. split.
  - unfold lba. simpl. rewrite Em. by apply lba_bytes.
  - unfold selected. cbn [a_regs with_reg Z.eqb Pos.eqb]. rewrite Et. destruct (Z.eqb_spec (dev_no d) 1); lia.
Qed.

(** ** Commands and interrupts *)

Lemma working_channel a cw ex s : working a cw ex s -> exists c, channels s !! i = Some c /\ reg_base c = base_of i /\ c_irq c = vector_of i /\
  completion_wait c = cw /\ (ex = true -> expecting_interrupt c = true).
Proof.
  intros Hw. destruct (w_here _ _ _ _ Hw) as (c & Hc & H1 & H2). exists c. split; [done|].
  assert (Hx : cs !! i = Some (fixed c)) by (rewrite <- (w_fixed _ _ _ _ Hw), list_lookup_fmap, Hc; done).
  destruct (Hcs _ Hx) as [E1 E2]. by simpl in E1, E2.
Qed.

(** An update of the channel's semaphore or flag. *)
Lemma put_channel_working a cw ex s c c' : working a cw ex s -> channels s !! i = Some c -> fixed c' = fixed c ->
  working a (completion_wait c') (expecting_interrupt c') (put_channel i c' s).
Proof.
  intros [H1 H2 (c2 & H3 & H3') H4 H5 H6] Hc Hf. split; simpl; try done.
  - rewrite <- H1. apply list_eq. intros j. rewrite !list_lookup_fmap. destruct (decide (j = i)) as [->|Hne].
    + rewrite list_lookup_insert_eq by (by eapply lookup_lt_Some). rewrite Hc. simpl. by rewrite Hf.
    + by rewrite list_lookup_insert_ne.
  - exists c'. split; [|done]. apply list_lookup_insert_eq. by eapply lookup_lt_Some.
  - exists c2. split; [|done]. rewrite list_lookup_insert_ne by lia. done.
Qed.

Lemma say_working a cw ex s x : working a cw ex s -> working a cw ex (say x s).
Proof. by intros []. Qed.

Lemma issue_spec a ex s cmd : working a 0 ex s -> resting a -> 0 <= cmd < 256 ->
  exists s', issue_pio_command i cmd s = Ok s' /\ working (command (identity i) (latency i) cmd a) 0 true s'.
Proof.
  intros Hw Hr Hc. unfold issue_pio_command. rewrite (w_kernel _ _ _ _ Hw), Hon. simpl. destruct (working_channel _ _ _ _ Hw) as (c & Ec & Eb & _ & Ew & _).
  unfold get_channel. rewrite Ec, bind_ok, Eb.
  pose proof (put_channel_working a 0 ex s c (set_expecting true c) Hw Ec eq_refl) as Hw1. simpl in Hw1. rewrite Ew in Hw1.
  destruct (out_port_spec a 0 true _ (reg_command (base_of i)) cmd Hw1 (r_pending _ Hr)) as (s' & E & Hw'); [apply (owns_reg 7); lia|].
  exists s'. split; [done|]. unfold astep, ata_step in Hw'. by rewrite Z.eqb_refl, u8_small in Hw' by lia.
Qed.

Definition not_busy a : Prop := match a_phase a with Busy _ _ => False | _ => True end.

(** The handler acknowledges the interrupt and raises the semaphore. *)
Lemma handler_spec a s : working a 0 true s -> a_pending a = true -> not_busy a ->
  exists s', take_interrupts s = Ok s' /\ working (set_phase (a_phase a) false a) 1 true s'.
Proof.
  intros Hw Hp Hb. destruct (working_channel _ _ _ _ Hw) as (c & Ec & Ebase & Eirq & Ecw & Eex). specialize (Eex eq_refl).
  assert (Hh : exists s', take_interrupt (vector_of i) s = Ok s' /\ working (set_phase (a_phase a) false a) 1 true s').
  { unfold take_interrupt. rewrite (w_kernel _ _ _ _ Hw), Hon, (irq_state a 0 true s i Hw Hi), decide_True, Hp by done. simpl.
    pose proof (Hobeys i (itrace s) Hi) as [Hd _]. specialize (Hd (reg_status (base_of i)) (owns_reg 7 ltac:(lia))).
    pose proof (working_event a 0 true s (In (reg_status (base_of i)) (u8 (dev (itrace s) (reg_status (base_of i))))) Hw (owns_reg 7 ltac:(lia))) as Hw1.
    assert (Es : astep a (In (reg_status (base_of i)) (u8 (dev (itrace s) (reg_status (base_of i))))) = set_phase (a_phase a) false a).
    { unfold astep, ata_step. rewrite Z.eqb_refl. unfold tick, not_busy in *. simpl. by destruct (a_phase a). }
    rewrite Es in Hw1.
    pose proof (put_channel_working _ 0 true _ c (set_completion (u32 (completion_wait c + 1)) c) Hw1 Ec eq_refl) as Hw2. simpl in Hw2. rewrite Ecw, Eex in Hw2.
    eexists. split; [|exact Hw2]. unfold interrupt_handler.
    destruct (channels s) as [|c0 [|c1 [|]]] eqn:El; try (apply (f_equal length) in El; rewrite <- (length_map fixed), (w_fixed _ _ _ _ Hw), Hlen in El; done).
    assert (Hv : forall c', channels s !! (1 - i)%nat = Some c' -> c_irq c' <> vector_of i).
    { intros c' Hc'. apply (Hoff (fixed c')). by rewrite <- (w_fixed _ _ _ _ Hw), list_lookup_fmap, Hc'. }
    rewrite El in Hv. destruct i as [|[|]]; simpl in *; [| |lia].
    - injection Ec as ->. rewrite Eirq. simpl. by rewrite Eex, Ebase, Ecw.
    - injection Ec as ->. specialize (Hv c0 eq_refl). apply not_eq_sym, Z.eqb_neq in Hv. simpl in Hv. rewrite Hv, Eirq. simpl. by rewrite Eex, Ebase, Ecw. }
  destruct Hh as (s' & E' & Hw'). exists s'. split; [|done]. unfold take_interrupts. change (14 + 32) with (vector_of 0). change (15 + 32) with (vector_of 1).
  destruct (decide (i = 0%nat)) as [E0|].
  - rewrite <- E0, E', bind_ok. apply (take_interrupt_none _ _ _ s' 1 Hw'); [lia|done].
  - assert (i = 1%nat) as E1 by lia. rewrite (take_interrupt_none a 0 true s 0 Hw), bind_ok by (lia || (intros; lia)). by rewrite <- E1.
Qed.

(** What a busy channel turns into. *)
Definition done_phase (g : goal) : phase := match g with To_read ws => Data_in ws | To_write d n => Data_out d n [] | To_rest => Rest end.
Definition loud (g : goal) : bool := match g with To_write _ _ => false | _ => true end.

Lemma tick_busy a n g : a_phase a = Busy n g -> a_pending a = false ->
  tick a = match n with O => set_phase (done_phase g) (loud g) a | S n => set_phase (Busy n g) false a end.
Proof. intros Hp Hq. unfold tick. rewrite Hp. destruct n; [by destruct g; simpl; rewrite ?Hq|by rewrite Hq]. Qed.

Lemma set_phase_twice p q p' q' a : set_phase p q (set_phase p' q' a) = set_phase p q a.
Proof. done. Qed.

(** The thread sleeps on the semaphore until the handler raises it. *)
Lemma wait_completion_spec a n g s : working a 0 true s -> a_phase a = Busy n g -> a_pending a = false -> loud g = true -> (n < 3000)%nat ->
  exists s', wait_completion i s = Ok s' /\ working (set_phase (done_phase g) false a) 0 true s'.
Proof.
  intros Hw Hp Hq Hg Hn. apply returns_inv.
  set (Inv := fun (z : Z) (s' : ide) => (exists m, z = Z.of_nat m + 1 /\ working (set_phase (Busy m g) false a) 0 true s') \/
    (z = 0 /\ working (set_phase (done_phase g) false a) 1 true s')).
  unfold wait_completion. apply (returns_while_ix Inv) with (n := Z.of_nat n + 1); [| |lia].
  - intros z s1 [(m & -> & Hw1)|[-> Hw1]]; destruct (working_channel _ _ _ _ Hw1) as (c & Ec & _ & _ & Ew & Ex); unfold get_channel; rewrite Ec, bind_ok, Ew; simpl.
    + split; [lia|]. pose proof (working_event _ _ _ _ Pause Hw1 I) as Hw2. unfold astep, ata_step in Hw2. rewrite (tick_busy _ m g) in Hw2 by done.
      destruct m as [|m]; rewrite set_phase_twice in Hw2.
      * rewrite Hg in Hw2. destruct (handler_spec _ _ Hw2) as (s3 & -> & Hw3); [done|by destruct g|]. simpl. exists 0. split; [lia|]. by right.
      * rewrite (take_interrupts_none _ _ _ _ Hw2) by done. simpl. exists (Z.of_nat m + 1). split; [lia|]. left. by exists m.
    + split; [lia|]. pose proof (put_channel_working _ 1 true s1 c (set_completion 0 c) Hw1 Ec eq_refl) as Hw2. simpl in Hw2. by rewrite (Ex eq_refl) in Hw2.
  - left. exists n. split; [done|]. replace (set_phase (Busy n g) false a) with a; [done|]. destruct a; simpl in *; by subst.
Qed.

Lemma owns_alt : owns i (reg_alt_status (base_of i)).
Proof. by right. Qed.

Lemma alt_answer a : ata_answer (base_of i) a (reg_alt_status (base_of i)) = status a.
Proof. unfold ata_answer. by rewrite Z.eqb_refl, orb_true_r. Qed.

Lemma alt_step a v : astep a (In (reg_alt_status (base_of i)) v) = tick a.
Proof.
  unfold astep, ata_step. destruct (Z.eqb_spec (reg_alt_status (base_of i)) (reg_status (base_of i))) as [E|_].
  - unfold reg_alt_status, reg_ctl, reg_status in E. lia.
  - by rewrite Z.eqb_refl.
Qed.

Lemma alt_spec a cw ex s : working a cw ex s -> a_pending a = false ->
  exists s', in_port (reg_alt_status (base_of i)) s = Ok (status a, s') /\ working (tick a) cw ex s'.
Proof.
  intros Hw Hp. destruct (in_port_spec a cw ex s _ Hw Hp owns_alt) as (s' & E & Hw'). rewrite alt_answer in E. rewrite alt_step in Hw'.
  exists s'. split; [|done]. rewrite E. unfold status. by destruct (a_phase a).
Qed.

Definition offering a : Prop := match a_phase a with Data_in _ | Data_out _ _ _ => True | _ => False end.

Lemma tick_offering a : offering a -> tick a = a.
Proof. unfold offering, tick. by destruct (a_phase a). Qed.

Lemma status_offering a : offering a -> status a = 0x48.
Proof. unfold offering, status. by destruct (a_phase a). Qed.

(** A quiet channel that offers data after at most [n] ticks. *)
Inductive ripens (t : ata) : nat -> ata -> Prop :=
| ripe_now n : ripens t n t
| ripe_soon n m g a : a_phase a = Busy m g -> a_pending a = false -> ripens t n (tick a) -> ripens t (S n) a.

Lemma ripens_tick t n a : offering t -> ripens t (S n) a -> ripens t n (tick a).
Proof. intros Ht Hr. inversion Hr; subst; [rewrite tick_offering by done; constructor|done]. Qed.

Lemma ripens_more t n a : ripens t n a -> ripens t (S n) a.
Proof. induction 1; econstructor; done. Qed.

Lemma ripens_pending t n a : a_pending t = false -> ripens t n a -> a_pending a = false.
Proof. intros Ht []; done. Qed.

Lemma busy_ripens a n d0 k0 : a_phase a = Busy n (To_write d0 k0) -> a_pending a = false -> ripens (set_phase (Data_out d0 k0 []) false a) (S n) a.
Proof.
  revert a. induction n as [|n IH]; intros a Hp Hq; eapply ripe_soon; try done; rewrite (tick_busy _ _ _ Hp Hq); [constructor|].
  apply (IH (set_phase (Busy n (To_write d0 k0)) false a)); done.
Qed.

(** The channel asks for data before the patience of the driver ends. *)
Lemma wait_while_busy_spec t n a d s cw ex : working a cw ex s -> ripens t n a -> offering t -> a_pending t = false -> (n < 3000)%nat ->
  exists s', wait_while_busy loops_per_tick (base_of i) d s = Ok (true, s') /\ working t cw ex s'.
Proof.
  intros Hw Hr Ht Hp Hn. assert (Hx : returns (wait_while_busy loops_per_tick (base_of i) d s) (fun r => r.1 = true /\ working t cw ex r.2)).
  { unfold wait_while_busy. apply (returns_while_ix (fun z '(n, s) => exists m a, z = 3000 - n /\ n + Z.of_nat m < 3000 /\ working a cw ex s /\ ripens t m a)) with (n := 3000).
    - intros z [n' s1] (m & a1 & -> & Hm & Hw1 & Hr1). split; [lia|]. rewrite (proj2 (Z.ltb_lt n' 3000)) by lia. cbv zeta.
      set (s2 := if n' =? 700 then _ else _). assert (Hw2 : working a1 cw ex s2) by (unfold s2; case_match; [by apply say_working|done]).
      destruct (alt_spec _ _ _ _ Hw2 (ripens_pending _ _ _ Hp Hr1)) as (s3 & -> & Hw3). rewrite bind_ok. inversion Hr1 as [|m' ? ? ? Hb Hq Hr2]; subst.
      + rewrite status_offering, tick_offering in * by done. simpl.
        set (s4 := if 700 <=? n' then _ else _). assert (Hw4 : working a1 cw ex s4) by (unfold s4; case_match; [by apply say_working|done]).
        destruct (alt_spec _ _ _ _ Hw4 Hp) as (s5 & -> & Hw5). rewrite bind_ok. simpl. rewrite status_offering, tick_offering in * by done. done.
      + unfold status. rewrite Hb. simpl. assert (Hr3 : ripens t m' (tick (tick a1))).
        { apply ripens_tick; [done|]. by apply ripens_more. }
        destruct (nap_spec _ _ _ _ (timer_msleep loops_per_tick 10) Hw3) as (s4 & -> & Hw4); [by apply (ripens_pending t m')|apply pauses|].
        simpl. exists (3000 - (n' + 1)). split; [lia|]. exists m', (tick (tick a1)). split_and!; lia || done.
    - exists n, a. split_and!; lia || done.
    - lia. }
  apply returns_inv in Hx as ([? s'] & E & H1 & H2). simpl in H1, H2. subst. by exists s'.
Qed.

(** ** The data of a sector *)

Lemma owns_data : owns i (reg_data (base_of i)).
Proof. apply (owns_reg 0). lia. Qed.

Lemma data_answer a w ws : a_phase a = Data_in (w :: ws) -> ata_answer (base_of i) a (reg_data (base_of i)) = w.
Proof.
  intros Hp. unfold ata_answer. rewrite Z.eqb_refl, Hp. unfold reg_status, reg_alt_status, reg_ctl, reg_data.
  destruct (Z.eqb_spec (base_of i + 0) (base_of i + 7)); [lia|]. destruct (Z.eqb_spec (base_of i + 0) (base_of i + 518)); [lia|]. done.
Qed.

Lemma word_bytes x y : 0 <= x < 256 -> 0 <= y < 256 -> u16 (x + 256 * y) = x + 256 * y /\ u8 (x + 256 * y) = x /\ (x + 256 * y) / 256 = y.
Proof. intros Hx Hy. unfold u16, u8. change (2 ^ 16) with 65536. change (2 ^ 8) with 256. split_and!; Z.div_mod_to_equations; lia. Qed.

Lemma insw_S p addr n m tr : insw p addr (S n) m tr =
  insw p (u32 (addr + 2)) n (store (store m addr (u8 (inw p tr).1)) (u32 (addr + 1)) ((inw p tr).1 / 256)) (inw p tr).2.
Proof. done. Qed.

Lemma outsw_S p addr n m tr : outsw p addr (S n) m tr =
  outsw p (u32 (addr + 2)) n m (outw p (u8 (m addr) + 256 * u8 (m (u32 (addr + 1)))) tr).
Proof. done. Qed.

(** The driver reads the words that the channel offers. *)
Lemma insw_spec cw ex n l addr m : (length l = 2 * S n)%nat -> Forall (fun x => 0 <= x < 256) l -> 0 <= addr -> addr + 2 * Z.of_nat (S n) <= 2 ^ 32 ->
  forall a s, working a cw ex s -> a_phase a = Data_in (words l) ->
  let r := insw (reg_data (base_of i)) addr (S n) m (itrace s) in
  working (set_phase Rest (a_pending a) a) cw ex (with_trace r.2 s) /\ forall x, r.1 x = blit m addr l x.
Proof.
  revert l addr m. induction n as [|n IH]; intros l addr m Hl Hf H0 Ha a s Hw Hp; destruct l as [|x [|y l]]; try (simpl in Hl; lia);
    apply Forall_cons_1 in Hf as [Hx Hf]; apply Forall_cons_1 in Hf as [Hy Hf]; destruct (word_bytes x y Hx Hy) as (E1 & E2 & E3);
    pose proof (proj1 (Hobeys i (itrace s) Hi) _ owns_data) as Hd; rewrite (w_state _ _ _ _ Hw), (data_answer _ _ _ Hp) in Hd;
    pose proof (working_event _ _ _ _ (Inw (reg_data (base_of i)) (x + 256 * y)) Hw owns_data) as Hw1;
    unfold astep, ata_step, data_read in Hw1; rewrite Z.eqb_refl, Hp in Hw1; cbn [words] in Hw1.
  - destruct l; [|simpl in Hl; lia]. cbn [insw]. unfold inw. rewrite Hd, E1, E2, E3, (u32_small (addr + 1)) by lia. cbn [fst snd].
    split; [done|]. intros z. by rewrite (blit_two m addr x y []), blit_nil.
  - destruct l as [|x' [|y' l]]; try (simpl in Hl; lia). cbn [words] in Hw1.
    cbv zeta. rewrite insw_S. unfold inw. cbn [fst snd]. rewrite Hd, E1, E2, E3, (u32_small (addr + 1)), (u32_small (addr + 2)) by lia.
    destruct (IH (x' :: y' :: l) (addr + 2) (store (store m addr x) (addr + 1) y) ltac:(simpl in Hl |- *; lia) Hf ltac:(lia) ltac:(lia) _ _ Hw1 eq_refl) as [IH1 IH2].
    split; [exact IH1|]. intros z. rewrite (blit_two m addr x y). apply IH2.
Qed.

(** The driver writes the words of the sector; the channel stores them with the last one. *)
Lemma outsw_spec cw ex n addr m : 0 <= addr -> addr + 2 * Z.of_nat (S n) <= 2 ^ 32 ->
  forall a s d0 k0 bs, working a cw ex s -> a_phase a = Data_out d0 k0 bs -> (length bs + 2 * S n = 512)%nat ->
  working (start (latency i) To_rest (mk_ata (a_regs a) Rest (a_pending a)
      (fun d' k' => if (d' =? d0) && (k' =? k0) then bs ++ map u8 (bytes_at m addr (2 * S n)) else a_sectors a d' k') (a_commands a))) cw ex
    (with_trace (outsw (reg_data (base_of i)) addr (S n) m (itrace s)) s).
Proof.
  revert addr. induction n as [|n IH]; intros addr H0 Ha a s d0 k0 bs Hw Hp Hl;
    pose proof (word_bytes (u8 (m addr)) (u8 (m (addr + 1))) (u8_range _) (u8_range _)) as (E1 & E2 & E3);
    set (w := u8 (m addr) + 256 * u8 (m (addr + 1))) in *;
    pose proof (working_event _ _ _ _ (Outw (reg_data (base_of i)) w) Hw owns_data) as Hw1;
    unfold astep, ata_step, data_written in Hw1; rewrite Z.eqb_refl, Hp in Hw1; change (w mod 256) with (u8 w) in Hw1; rewrite E2, E3 in Hw1; cbv zeta in Hw1;
    rewrite length_app in Hw1; cbn [length] in Hw1.
  - rewrite (proj2 (Nat.leb_le 512 _)) in Hw1 by lia. cbn [outsw]. rewrite (u32_small (addr + 1)) by lia. unfold outw. fold w. rewrite E1.
    change (2 * 1)%nat with 2%nat. rewrite bytes_at_two. exact Hw1.
  - rewrite (proj2 (Nat.leb_gt 512 _)) in Hw1 by lia. rewrite outsw_S. rewrite (u32_small (addr + 1)), (u32_small (addr + 2)) by lia. unfold outw at 1. fold w. rewrite E1.
    pose proof (IH (addr + 2) ltac:(lia) ltac:(lia) _ _ d0 k0 _ Hw1 eq_refl) as H. rewrite length_app in H. specialize (H ltac:(simpl; lia)).
    replace (2 * S (S n))%nat with (S (S (2 * S n))) by lia. rewrite bytes_at_two. cbn [map]. rewrite <- app_assoc in H. exact H.
Qed.

(** ** Whole transfers *)

Lemma start_phase g a : a_phase (start (latency i) g a) = Busy (latency i (a_commands a)) g.
Proof. done. Qed.

Lemma read_steps a ex s d sec buf m : working a 0 ex s -> resting a -> prompt -> 0 <= dev_no d <= 1 -> 0 <= sec < 2 ^ 28 -> block_ok buf BLOCK_SECTOR_SIZE ->
  exists s1 s2 s3 s4 s5 m' a', select_sector loops_per_tick (base_of i) d sec s = Ok s1 /\ issue_pio_command i CMD_READ_SECTOR_RETRY s1 = Ok s2 /\
    wait_completion i s2 = Ok s3 /\ wait_while_busy loops_per_tick (base_of i) d s3 = Ok (true, s4) /\ input_sector (base_of i) buf s4 m = Ok (s5, m') /\
    working a' 0 true s5 /\ resting a' /\ a_sectors a' = a_sectors a /\ forall x, m' x = blit m buf (fit (a_sectors a (dev_no d) sec)) x.
Proof.
  intros Hw Hr Hlat Hd Hs (Hb & _ & Hb' & _). change BLOCK_SECTOR_SIZE with 512 in Hb'.
  destruct (select_sector_spec a 0 ex s d sec Hw Hr Hd Hs) as (s1 & a1 & E1 & Hw1 & Hr1 & Es & _ & El & Ed).
  destruct (issue_spec a1 ex s1 CMD_READ_SECTOR_RETRY Hw1 Hr1 ltac:(by split)) as (s2 & E2 & Hw2).
  unfold command in Hw2. rewrite (r_phase _ Hr1), Z.eqb_refl, Es, El, Ed in Hw2.
  destruct (wait_completion_spec _ _ _ _ Hw2 (start_phase _ _) (r_pending _ Hr1) eq_refl) as (s3 & E3 & Hw3); [pose proof (Hlat i (a_commands a1)); lia|].
  destruct (wait_while_busy_spec _ 0 _ d _ _ _ Hw3 (ripe_now _ _) I eq_refl ltac:(lia)) as (s4 & E4 & Hw4).
  pose proof (insw_spec _ _ 255 (fit (a_sectors a (dev_no d) sec)) buf m (fit_length _) (fit_bytes _) ltac:(lia) ltac:(lia) _ _ Hw4 eq_refl) as [Hw5 Hm].
  eexists s1, s2, s3, s4, _, _, _. do 4 (split; [eassumption|]). split; [|split; [exact Hw5|split; [done|split; [exact Es|exact Hm]]]].
  unfold input_sector. rewrite (take_interrupts_none _ _ _ _ Hw4 eq_refl), bind_ok. change (Z.to_nat (BLOCK_SECTOR_SIZE / 2)) with (S 255). by destruct (insw _ _ _ _ _).
Qed.

Lemma write_steps a ex s d sec buf m : working a 0 ex s -> resting a -> prompt -> 0 <= dev_no d <= 1 -> 0 <= sec < 2 ^ 28 -> block_ok buf BLOCK_SECTOR_SIZE ->
  exists s1 s2 s3 s4 s5 a', select_sector loops_per_tick (base_of i) d sec s = Ok s1 /\ issue_pio_command i CMD_WRITE_SECTOR_RETRY s1 = Ok s2 /\
    wait_while_busy loops_per_tick (base_of i) d s2 = Ok (true, s3) /\ output_sector (base_of i) buf s3 m = Ok s4 /\ wait_completion i s4 = Ok s5 /\
    working a' 0 true s5 /\ resting a' /\
    forall d' k', a_sectors a' d' k' = if (d' =? dev_no d) && (k' =? sec) then sector_at m buf else a_sectors a d' k'.
Proof.
  intros Hw Hr Hlat Hd Hs (Hb & _ & Hb' & _). change BLOCK_SECTOR_SIZE with 512 in Hb'.
  destruct (select_sector_spec a 0 ex s d sec Hw Hr Hd Hs) as (s1 & a1 & E1 & Hw1 & Hr1 & Es & _ & El & Ed).
  destruct (issue_spec a1 ex s1 CMD_WRITE_SECTOR_RETRY Hw1 Hr1 ltac:(by split)) as (s2 & E2 & Hw2).
  unfold command in Hw2. rewrite (r_phase _ Hr1), Z.eqb_refl, El, Ed in Hw2. change (CMD_WRITE_SECTOR_RETRY =? CMD_READ_SECTOR_RETRY) with false in Hw2. cbv iota in Hw2.
  destruct (wait_while_busy_spec _ _ _ d _ _ _ Hw2 (busy_ripens _ _ _ _ (start_phase _ _) (r_pending _ Hr1)) I eq_refl) as (s3 & E3 & Hw3); [pose proof (Hlat i (a_commands a1)); lia|].
  pose proof (outsw_spec _ _ 255 buf m ltac:(lia) ltac:(lia) _ _ _ _ [] Hw3 eq_refl eq_refl) as Hw4.
  destruct (wait_completion_spec _ _ _ _ Hw4 (start_phase _ _) eq_refl eq_refl) as (s5 & E5 & Hw5); [pose proof (Hlat i (S (a_commands a1))); simpl; lia|].
  eexists s1, s2, s3, _, s5, _. do 3 (split; [eassumption|]). split; [|split; [exact E5|split; [exact Hw5|split; [done|]]]].
  - unfold output_sector. by rewrite (take_interrupts_none _ _ _ _ Hw3 eq_refl), bind_ok.
  - intros d' k'. simpl. by rewrite Es.
Qed.

(** ** Reset and identification *)

Lemma in_reg_spec a cw ex s r : working a cw ex s -> resting a -> 1 <= r <= 6 ->
  exists s', in_port (base_of i + r) s = Ok (u8 (a_regs a r), s') /\ working a cw ex s'.
Proof.
  intros Hw Hr H. destruct (in_port_spec a cw ex s (base_of i + r) Hw (r_pending _ Hr)) as (s' & E & Hw'); [apply owns_reg; lia|].
  exists s'. unfold ata_answer, astep, ata_step, reg_status, reg_alt_status, reg_ctl, reg_data in *.
  destruct (Z.eqb_spec (base_of i + r) (base_of i + 7)); [lia|]. destruct (Z.eqb_spec (base_of i + r) (base_of i + 518)); [lia|].
  destruct (Z.eqb_spec (base_of i + r) (base_of i + 0)); [lia|]. simpl in *. by replace (base_of i + r - base_of i) with r in E by lia.
Qed.

Lemma nap_rest a cw ex s p : working a cw ex s -> resting a -> (exists x, p k = Ok x) -> exists s', nap p s = Ok s' /\ working a cw ex s'.
Proof.
  intros Hw Hr Hp. destruct (nap_spec a cw ex s p Hw) as (s' & E & Hw'); [by rewrite tick_resting by done; apply Hr|done|].
  rewrite tick_resting in Hw' by done. eauto.
Qed.

Lemma long_pause : exists x, timer_msleep loops_per_tick 150 k = Ok x.
Proof. unfold timer_msleep, real_time_sleep. rewrite Hon. eexists. reflexivity. Qed.

(** At rest on the way from [a]. *)
Definition idle a a' : Prop := resting a' /\ a_sectors a' = a_sectors a /\ a_commands a' = a_commands a.

Lemma detect_spec a cw ex s d : working a cw ex s -> resting a ->
  exists s' a', detect_device loops_per_tick (base_of i) d s = Ok (true, s') /\ working a' cw ex s' /\ idle a a'.
Proof.
  intros Hw Hr. unfold detect_device. destruct (select_device_rest a cw ex s d Hw Hr) as (s1 & v & -> & Hw1 & _). rewrite bind_ok. pose proof (with_reg_resting 6 v a Hr) as Hr1.
  unfold reg_nsect, reg_lbal.
  destruct (out_reg_spec _ cw ex s1 2 0x55 Hw1 Hr1 ltac:(lia)) as (s2 & -> & Hw2). rewrite bind_ok. pose proof (with_reg_resting 2 (u8 0x55) _ Hr1) as Hr2.
  destruct (out_reg_spec _ cw ex s2 3 0xaa Hw2 Hr2 ltac:(lia)) as (s3 & -> & Hw3). rewrite bind_ok. pose proof (with_reg_resting 3 (u8 0xaa) _ Hr2) as Hr3.
  destruct (out_reg_spec _ cw ex s3 2 0xaa Hw3 Hr3 ltac:(lia)) as (s4 & -> & Hw4). rewrite bind_ok. pose proof (with_reg_resting 2 (u8 0xaa) _ Hr3) as Hr4.
  destruct (out_reg_spec _ cw ex s4 3 0x55 Hw4 Hr4 ltac:(lia)) as (s5 & -> & Hw5). rewrite bind_ok. pose proof (with_reg_resting 3 (u8 0x55) _ Hr4) as Hr5.
  destruct (out_reg_spec _ cw ex s5 2 0x55 Hw5 Hr5 ltac:(lia)) as (s6 & -> & Hw6). rewrite bind_ok. pose proof (with_reg_resting 2 (u8 0x55) _ Hr5) as Hr6.
  destruct (out_reg_spec _ cw ex s6 3 0xaa Hw6 Hr6 ltac:(lia)) as (s7 & -> & Hw7). rewrite bind_ok. pose proof (with_reg_resting 3 (u8 0xaa) _ Hr6) as Hr7.
  destruct (in_reg_spec _ cw ex s7 2 Hw7 Hr7 ltac:(lia)) as (s8 & -> & Hw8). rewrite bind_ok. cbn [with_reg a_regs]. simpl.
  destruct (in_reg_spec _ cw ex s8 3 Hw8 Hr7 ltac:(lia)) as (s9 & -> & Hw9). rewrite bind_ok. cbn [with_reg a_regs]. simpl.
  eexists s9, _. split; [done|]. split; [exact Hw9|]. by split.
Qed.

Lemma ctl_spec a cw ex s v : working a cw ex s -> resting a -> 0 <= v < 256 ->
  exists s', out_port (reg_ctl (base_of i)) v s = Ok s' /\ working (if Z.testbit v 2 then reset a else a) cw ex s'.
Proof.
  intros Hw Hr Hv. destruct (out_port_spec a cw ex s (reg_ctl (base_of i)) v Hw (r_pending _ Hr) owns_alt) as (s' & E & Hw').
  exists s'. split; [done|]. unfold astep, ata_step in Hw'. rewrite Z.eqb_refl, u8_small in Hw' by lia.
  destruct (Z.eqb_spec (reg_ctl (base_of i)) (reg_command (base_of i))) as [F|]; [unfold reg_ctl, reg_command, reg_status in F; lia|done].
Qed.

Lemma wait_while_busy_rest a cw ex s d : working a cw ex s -> resting a ->
  exists s', wait_while_busy loops_per_tick (base_of i) d s = Ok (false, s') /\ working a cw ex s'.
Proof.
  intros Hw Hr. destruct (alt_spec a cw ex s Hw (r_pending _ Hr)) as (s1 & E1 & Hw1). rewrite tick_resting in Hw1 by done.
  destruct (alt_spec a cw ex s1 Hw1 (r_pending _ Hr)) as (s2 & E2 & Hw2). rewrite tick_resting in Hw2 by done.
  exists s2. split; [|done]. apply while_stop. cbn beta iota. change (0 <? 3000) with true. change (0 =? 700) with false. cbv zeta iota. rewrite E1, bind_ok.
  assert (Es : status a = STA_DRDY) by (unfold status; by rewrite (r_phase _ Hr)). rewrite Es in *. change (Z.land STA_DRDY STA_BSY =? 0) with true. change (700 <=? 0) with false. cbv iota.
  by rewrite E2, bind_ok.
Qed.

(** The registers after a reset, up to the selected device. *)
Definition signature_set a : Prop := forall r, 1 <= r <= 5 -> a_regs a r = a_regs (reset a) r.

Lemma signature_reset a : signature_set (reset a).
Proof. done. Qed.

Lemma signature_select a v : signature_set a -> signature_set (with_reg 6 v a).
Proof. intros Hs r Hr. simpl. destruct (Z.eqb_spec r 6); [lia|]. by apply Hs. Qed.

Lemma wait_signature_spec a cw ex s : working a cw ex s -> resting a -> signature_set a ->
  exists s', wait_signature loops_per_tick (base_of i) s = Ok s' /\ working a cw ex s'.
Proof.
  intros Hw Hr Hs. destruct (in_reg_spec a cw ex s 2 Hw Hr ltac:(lia)) as (s1 & E1 & Hw1). destruct (in_reg_spec a cw ex s1 3 Hw1 Hr ltac:(lia)) as (s2 & E2 & Hw2).
  rewrite Hs in E1, E2 by lia. exists s2. split; [|done]. apply while_stop. cbn beta iota. unfold reg_nsect, reg_lbal. rewrite E1. change (0 <? 3000) with true. cbn -[in_port].
  by rewrite E2.
Qed.

Lemma idle_refl a : resting a -> idle a a.
Proof. by split. Qed.

Lemma idle_trans a1 a2 a3 : idle a1 a2 -> idle a2 a3 -> idle a1 a3.
Proof. unfold idle. intros (H1 & H2 & H3) (H4 & H5 & H6). split; [done|]. by rewrite H5, H6. Qed.

Lemma idle_reg a r v : resting a -> idle a (with_reg r v a).
Proof. intros Hr. split; [by apply with_reg_resting|done]. Qed.

(** From the presence test to the end of the reset. *)
Lemma soft_reset_spec a cw ex s : working a cw ex s -> resting a -> exists s1 s2 s3 s4 s5 s6,
  out_port (reg_ctl (base_of i)) 0 s = Ok s1 /\ nap (timer_usleep loops_per_tick 10) s1 = Ok s2 /\
  out_port (reg_ctl (base_of i)) CTL_SRST s2 = Ok s3 /\ nap (timer_usleep loops_per_tick 10) s3 = Ok s4 /\
  out_port (reg_ctl (base_of i)) 0 s4 = Ok s5 /\ nap (timer_msleep loops_per_tick 150) s5 = Ok s6 /\ working (reset a) cw ex s6.
Proof.
  intros Hw Hr. assert (Hr' : resting (reset a)) by done.
  destruct (ctl_spec a cw ex s 0 Hw Hr ltac:(lia)) as (s1 & E1 & Hw1). destruct (nap_rest a cw ex s1 _ Hw1 Hr (proj1 pauses)) as (s2 & E2 & Hw2).
  destruct (ctl_spec a cw ex s2 CTL_SRST Hw2 Hr ltac:(unfold CTL_SRST; lia)) as (s3 & E3 & Hw3). destruct (nap_rest (reset a) cw ex s3 _ Hw3 Hr' (proj1 pauses)) as (s4 & E4 & Hw4).
  destruct (ctl_spec (reset a) cw ex s4 0 Hw4 Hr' ltac:(lia)) as (s5 & E5 & Hw5). destruct (nap_rest (reset a) cw ex s5 _ Hw5 Hr' long_pause) as (s6 & E6 & Hw6).
  by exists s1, s2, s3, s4, s5, s6.
Qed.

Lemma reset_channel_spec a cw ex s c c' d0 d1 : working a cw ex s -> resting a -> get_disk i 0 s = Ok (c, d0) -> get_disk i 1 s = Ok (c', d1) -> reg_base c = base_of i ->
  exists s' a', reset_channel loops_per_tick i s = Ok s' /\ working a' cw ex s' /\ idle a a' /\ signature_set a'.
Proof.
  intros Hw Hr G0 G1 Hb. unfold reset_channel. rewrite G0, bind_ok, G1, bind_ok, Hb. cbv zeta.
  destruct (detect_spec a cw ex s d0 Hw Hr) as (s1 & a1 & -> & Hw1 & I1). rewrite bind_ok.
  destruct (detect_spec a1 cw ex s1 d1 Hw1 (proj1 I1)) as (s2 & a2 & -> & Hw2 & I2). rewrite bind_ok.
  destruct (soft_reset_spec a2 cw ex s2 Hw2 (proj1 I2)) as (s3 & s4 & s5 & s6 & s7 & s8 & -> & E4 & E5 & E6 & E7 & E8 & Hw8).
  rewrite bind_ok, E4, bind_ok, E5, bind_ok, E6, bind_ok, E7, bind_ok, E8, bind_ok. assert (Hr8 : resting (reset a2)) by done.
  destruct (select_device_rest _ cw ex s8 d0 Hw8 Hr8) as (s9 & v & -> & Hw9 & _). rewrite bind_ok. pose proof (with_reg_resting 6 v _ Hr8) as Hr9.
  destruct (wait_while_busy_rest _ cw ex s9 d0 Hw9 Hr9) as (s10 & -> & Hw10). rewrite !bind_ok.
  destruct (select_device_rest _ cw ex s10 d1 Hw10 Hr9) as (s11 & v' & -> & Hw11 & _). rewrite bind_ok. pose proof (with_reg_resting 6 v' _ Hr9) as Hr11.
  destruct (wait_signature_spec _ cw ex s11 Hw11 Hr11) as (s12 & -> & Hw12); [apply signature_select, signature_select, signature_reset|]. rewrite bind_ok.
  destruct (wait_while_busy_rest _ cw ex s12 d1 Hw12 Hr11) as (s13 & -> & Hw13). rewrite bind_ok.
  eexists s13, _. split; [done|]. split; [exact Hw13|]. split; [|apply signature_select, signature_select, signature_reset].
  eapply idle_trans; [exact I1|]. eapply idle_trans; [exact I2|]. split; done.
Qed.

(** The signature says that the device is an ATA disk. *)
Lemma check_steps a cw ex s d : working a cw ex s -> resting a -> signature_set a -> exists s1 s2 s3 s4 s5 a',
  select_device loops_per_tick (base_of i) d s = Ok s1 /\ in_port (reg_error (base_of i)) s1 = Ok (1, s2) /\ in_port (reg_lbam (base_of i)) s2 = Ok (0, s3) /\
  in_port (reg_lbah (base_of i)) s3 = Ok (0, s4) /\ in_port (reg_status (base_of i)) s4 = Ok (STA_DRDY, s5) /\ working a' cw ex s5 /\ idle a a' /\ signature_set a'.
Proof.
  intros Hw Hr Hs. destruct (select_device_rest a cw ex s d Hw Hr) as (s1 & v & E1 & Hw1 & _). pose proof (with_reg_resting 6 v a Hr) as Hr1. pose proof (signature_select a v Hs) as Hs1.
  destruct (in_reg_spec _ cw ex s1 1 Hw1 Hr1 ltac:(lia)) as (s2 & E2 & Hw2). destruct (in_reg_spec _ cw ex s2 4 Hw2 Hr1 ltac:(lia)) as (s3 & E3 & Hw3).
  destruct (in_reg_spec _ cw ex s3 5 Hw3 Hr1 ltac:(lia)) as (s4 & E4 & Hw4). rewrite Hs1 in E2, E3, E4 by lia.
  destruct (in_port_spec _ cw ex s4 (reg_status (base_of i)) Hw4 (r_pending _ Hr1)) as (s5 & E5 & Hw5); [apply (owns_reg 7); lia|].
  rewrite step_status in Hw5 by done. rewrite (status_rest _ _ Hr1) in E5 by (by left).
  eexists s1, s2, s3, s4, s5, _. split_and!; [exact E1|exact E2|exact E3|exact E4|exact E5|exact Hw5|by apply idle_reg|done].
Qed.

Lemma identify_steps a ex s d buf m : working a 0 ex s -> resting a -> prompt -> 0 <= dev_no d <= 1 -> block_ok buf BLOCK_SECTOR_SIZE ->
  exists s1 s2 s3 s4 s5 m' a', select_device_wait loops_per_tick (base_of i) d s = Ok s1 /\ issue_pio_command i CMD_IDENTIFY_DEVICE s1 = Ok s2 /\
    wait_completion i s2 = Ok s3 /\ wait_while_busy loops_per_tick (base_of i) d s3 = Ok (true, s4) /\ input_sector (base_of i) buf s4 m = Ok (s5, m') /\
    working a' 0 true s5 /\ resting a' /\ a_sectors a' = a_sectors a /\ forall x, m' x = blit m buf (fit (identity i (dev_no d))) x.
Proof.
  intros Hw Hr Hlat Hd (Hb & _ & Hb' & _). change BLOCK_SECTOR_SIZE with 512 in Hb'.
  destruct (wait_until_idle_rest a 0 ex s d Hw Hr) as (t1 & F1 & Hv1). destruct (select_device_rest a 0 ex t1 d Hv1 Hr) as (t2 & v & F2 & Hv2 & Et).
  pose proof (with_reg_resting 6 v a Hr) as Hr1. destruct (wait_until_idle_rest _ 0 ex t2 d Hv2 Hr1) as (s1 & F3 & Hw1).
  assert (Esel : selected (with_reg 6 v a) = dev_no d) by (unfold selected; cbn [a_regs with_reg Z.eqb Pos.eqb]; rewrite Et; destruct (Z.eqb_spec (dev_no d) 1); lia).
  destruct (issue_spec _ ex s1 CMD_IDENTIFY_DEVICE Hw1 Hr1 ltac:(by split)) as (s2 & E2 & Hw2).
  unfold command in Hw2. rewrite (r_phase _ Hr1), Esel in Hw2. change (CMD_IDENTIFY_DEVICE =? CMD_READ_SECTOR_RETRY) with false in Hw2.
  change (CMD_IDENTIFY_DEVICE =? CMD_WRITE_SECTOR_RETRY) with false in Hw2. rewrite Z.eqb_refl in Hw2. cbv iota in Hw2.
  destruct (wait_completion_spec _ _ _ _ Hw2 (start_phase _ _) (r_pending _ Hr1) eq_refl) as (s3 & E3 & Hw3); [pose proof (Hlat i (a_commands a)); simpl; lia|].
  destruct (wait_while_busy_spec _ 0 _ d _ _ _ Hw3 (ripe_now _ _) I eq_refl ltac:(lia)) as (s4 & E4 & Hw4).
  pose proof (insw_spec _ _ 255 (fit (identity i (dev_no d))) buf m (fit_length _) (fit_bytes _) ltac:(lia) ltac:(lia) _ _ Hw4 eq_refl) as [Hw5 Hm].
  eexists s1, s2, s3, s4, _, _, _. split; [unfold select_device_wait; by rewrite F1, bind_ok, F2, bind_ok|]. do 3 (split; [eassumption|]).
  split; [|split; [exact Hw5|split; [done|split; [done|exact Hm]]]].
  unfold input_sector. rewrite (take_interrupts_none _ _ _ _ Hw4 eq_refl), bind_ok. change (Z.to_nat (BLOCK_SECTOR_SIZE / 2)) with (S 255). by destruct (insw _ _ _ _ _).
Qed.
End Channel.

(** ** The driver as the block layer sees it *)

Section Disks.
(** The number of initialised channels, the records of all, and the number of sectors of each disk. *)
Context (live : nat) (cs : list (list Z * Z * Z * lock_id * list ata_disk)) (cap : Z -> Z).

Record records_ok : Prop := mk_records_ok {
  t_live : (live <= 2)%nat;
  t_two : length cs = 2%nat;
  t_ports : forall i x, (i < live)%nat -> cs !! i = Some x -> fixed_ok i x;
  t_off : forall i x, (live <= i)%nat -> cs !! i = Some x -> x.1.1.2 = 0;
  t_disks : forall i x n, (i < live)%nat -> cs !! i = Some x -> 0 <= n <= 1 -> exists d, x.2 !! Z.to_nat n = Some d /\ dev_no d = n;
  t_small : forall d, cap d <= 2 ^ 28;
  t_some : forall d, 0 < cap d -> 0 <= d < 2 * Z.of_nat live
}.

(** No transfer is under way. *)
Record ide_ok s : Prop := mk_ide_ok {
  i_fixed : map fixed (channels s) = cs;
  i_done : forall i c, channels s !! i = Some c -> completion_wait c = 0;
  i_rest : forall i, (i < 2)%nat -> resting (channel_after i (itrace s));
  i_free : forall i x, (i < live)%nat -> cs !! i = Some x -> free_lock x.1.2 (ik s);
  i_on : intr_get_level (ik s) = true
}.

Definition sectors_of s (d k : Z) : list Z :=
  if (0 <=? d) && (d <? 4) then fit (a_sectors (channel_after (Z.to_nat (d / 2)) (itrace s)) (d mod 2) k) else fit [].

Hypothesis (Ht : records_ok) (Hlat : prompt).

(** The disk of a transfer. *)
Lemma get_disk_ok s i n : ide_ok s -> (i < live)%nat -> 0 <= n <= 1 -> exists c d, get_disk i n s = Ok (c, d) /\
  channels s !! i = Some c /\ reg_base c = base_of i /\ dev_no d = n /\ free_lock (c_lock c) (ik s).
Proof.
  intros Hs Hi Hn. assert (exists c, channels s !! i = Some c) as (c & Hc).
  { apply lookup_lt_is_Some. pose proof (t_live Ht). rewrite <- (length_map fixed), (i_fixed _ Hs), (t_two Ht). lia. }
  assert (Hx : cs !! i = Some (fixed c)) by (rewrite <- (i_fixed _ Hs), list_lookup_fmap, Hc; done).
  destruct (t_disks Ht _ _ n Hi Hx Hn) as (d & Hd & En). exists c, d. unfold get_disk, get_channel. rewrite Hc, bind_ok. simpl in Hd. rewrite Hd.
  split_and!; try done; [apply (t_ports Ht _ _ Hi Hx)|apply (i_free _ Hs _ _ Hi Hx)].
Qed.

(** Taking the lock of the channel starts the transfer. *)
Lemma ide_ok_working s i k : ide_ok s -> (i < 2)%nat ->
  working i cs k (channel_after (1 - i) (itrace s)) (channel_after i (itrace s)) 0 false (with_kernel k s).
Proof.
  intros [H1 H2 H3 _ _] Hi. assert (Hc : forall j, (j < 2)%nat -> exists c, channels s !! j = Some c /\ completion_wait c = 0).
  { intros j Hj. destruct (lookup_lt_is_Some_2 (channels s) j) as [c Hc]; [rewrite <- (length_map fixed), H1, (t_two Ht); done|]. eauto. }
  split; simpl; try done; [|apply Hc; lia]. destruct (Hc i Hi) as (c & ? & ?). exists c. split_and!; done.
Qed.

Lemma working_ide_ok s i k k' a b ex : (i < 2)%nat -> working i cs k b a 0 ex s -> resting a -> resting b ->
  (forall i x, (i < live)%nat -> cs !! i = Some x -> free_lock x.1.2 k') -> intr_get_level k' = true -> ide_ok (with_kernel k' s).
Proof.
  intros Hi [H1 (c & H2 & H2' & _) (c' & H3 & H3') H4 H5 H6] Ha Hb Hf Hon. split; simpl; try done.
  - intros j c1 Hj. assert (j = i \/ j = (1 - i)%nat) as [-> | ->]; [|by simplify_eq|by simplify_eq].
    apply lookup_lt_Some in Hj. rewrite <- (length_map fixed), H1, (t_two Ht) in Hj. lia.
  - intros j Hj. assert (j = i \/ j = (1 - i)%nat) as [-> | ->] by lia; by rewrite ?H4, ?H5.
Qed.

(** The locks are as before after the release. *)
Lemma lock_cycle s l : ide_ok s -> free_lock l (ik s) -> exists k1, lock_acquire_now l (ik s) = Ok k1 /\ intr_get_level k1 = true /\
  exists k2, lock_release_now l k1 = Ok k2 /\ intr_get_level k2 = true /\ forall i x, (i < live)%nat -> cs !! i = Some x -> free_lock x.1.2 k2.
Proof.
  intros Hs Hl. pose proof (acquire_held l _ Hl) as Ha. rewrite lock_acquire_now_eq in * by done. destruct Ha as [Hh Ha].
  exists (acquired l (ik s)). split; [done|]. split; [apply (i_on _ Hs)|]. pose proof (release_free l _ Hh) as Hr. rewrite lock_release_now_eq in * by done. destruct Hr as [Hf Hr].
  eexists. split; [done|]. split.
  - destruct (raised_rest (SemOf l) (put_holder (acquired l (ik s)) l NULL)) as [Ei _]. pose proof (i_on _ Hs) as Hon. unfold intr_get_level in *. unfold released. by rewrite Ei.
  - intros i x Hi Hx. destruct (decide (x.1.2 = l)) as [->|Hne]; [done|]. apply Hr, Ha; [done..|]. apply (i_free _ Hs _ _ Hi Hx).
Qed.

(** The two channels keep apart. *)
Lemma other_vector i x : (i < live)%nat -> cs !! (1 - i)%nat = Some x -> x.1.1.2 <> vector_of i.
Proof.
  intros Hi Hx. pose proof (t_live Ht). destruct (decide (1 - i < live)%nat) as [Hl|Hl].
  - destruct (t_ports Ht _ _ Hl Hx) as [_ ->]. destruct i as [|[|]]; [done|done|lia].
  - rewrite (t_off Ht (1 - i)%nat x ltac:(lia) Hx). by destruct i.
Qed.

Lemma half d : 0 <= d < 4 -> (Z.to_nat (d / 2) < 2)%nat /\ 0 <= d mod 2 <= 1.
Proof. intros Hd. assert (d = 0 \/ d = 1 \/ d = 2 \/ d = 3) as [-> | [-> | [-> | ->]]] by lia; (split; [by apply Nat.ltb_lt|split; by apply Z.leb_le]). Qed.

Lemma half_live d : 0 <= d < 2 * Z.of_nat live -> (Z.to_nat (d / 2) < live)%nat.
Proof. intros Hd. assert (0 <= d / 2 < Z.of_nat live) by (split; [apply Z.div_pos|apply Z.div_lt_upper_bound]; lia). lia. Qed.

Lemma same_disk d d' : 0 <= d < 4 -> 0 <= d' < 4 -> (d' =? d) = (Z.to_nat (d' / 2) =? Z.to_nat (d / 2))%nat && (d' mod 2 =? d mod 2).
Proof.
  intros Hd Hd'. assert (d = 0 \/ d = 1 \/ d = 2 \/ d = 3) as [-> | [-> | [-> | ->]]] by lia;
    assert (d' = 0 \/ d' = 1 \/ d' = 2 \/ d' = 3) as [-> | [-> | [-> | ->]]] by lia; reflexivity.
Qed.

Lemma ide_read_law s m d sec buf : ide_ok s -> 0 <= sec < cap d -> block_ok buf BLOCK_SECTOR_SIZE ->
  returns (ide_read loops_per_tick (Z.to_nat (d / 2)) (d mod 2) sec buf (s, m)) (fun '(s', m') => ide_ok s' /\
    (forall d' k', sectors_of s' d' k' = sectors_of s d' k') /\ forall z, m' z = blit m buf (sectors_of s d sec) z).
Proof.
  intros Hs Hk Hb. pose proof (t_some Ht d ltac:(lia)) as Hd'. pose proof (t_small Ht d) as Hsm. pose proof (t_live Ht). assert (Hd : 0 <= d < 4) by lia.
  destruct (half d Hd) as [Hi Hn]. assert (Hl : (Z.to_nat (d / 2) < live)%nat) by (apply half_live; lia).
  destruct (get_disk_ok s _ _ Hs Hl Hn) as (c & x & E & Hc & Ebase & Ex & Hf). destruct (lock_cycle s (c_lock c) Hs Hf) as (k1 & E1 & Hon1 & k2 & E2 & Hon2 & Hfree).
  set (i := Z.to_nat (d / 2)) in *. pose proof (ide_ok_working s i k1 Hs Hi) as Hw. pose proof (i_rest _ Hs (1 - i) ltac:(lia)) as Hr'.
  destruct (read_steps i Hi cs k1 _ (fun x => t_ports Ht _ x Hl) (fun x => other_vector _ x Hl) (t_two Ht) (r_phase _ Hr') (r_pending _ Hr') Hon1 _ _ _ x sec buf m Hw (i_rest _ Hs i Hi) Hlat ltac:(lia) ltac:(lia) Hb)
    as (s1 & s2 & s3 & s4 & s5 & m' & a' & P1 & P2 & P3 & P4 & P5 & Hw5 & Hr5 & Es5 & Hm).
  unfold ide_read. rewrite E, bind_ok, E1, bind_ok, Ebase, P1, bind_ok, P2, bind_ok, P3, bind_ok, P4, bind_ok. cbn [negb]. rewrite P5, bind_ok.
  rewrite (w_kernel _ _ _ _ _ _ _ _ Hw5), E2, bind_ok. split; [by eapply working_ide_ok|]. split.
  - intros d' k'. unfold sectors_of. destruct ((0 <=? d') && (d' <? 4)) eqn:Ed; [|done]. apply andb_true_iff in Ed as [?%Z.leb_le ?%Z.ltb_lt].
    cbn [with_kernel itrace]. destruct (half d') as [Hi' _]; [lia|]. destruct (one_of_two i Hi _ Hi') as [-> | ->].
    + by rewrite (w_state _ _ _ _ _ _ _ _ Hw5), Es5.
    + by rewrite (w_other _ _ _ _ _ _ _ _ Hw5).
  - intros z. rewrite Hm. unfold sectors_of. replace ((0 <=? d) && (d <? 4)) with true by zbool. by rewrite Ex.
Qed.

Lemma ide_write_law s m d sec buf : ide_ok s -> 0 <= sec < cap d -> block_ok buf BLOCK_SECTOR_SIZE ->
  returns (ide_write loops_per_tick (Z.to_nat (d / 2)) (d mod 2) sec buf (s, m)) (fun s' => ide_ok s' /\
    forall d' k', sectors_of s' d' k' = if (d' =? d) && (k' =? sec) then sector_at m buf else sectors_of s d' k').
Proof.
  intros Hs Hk Hb. pose proof (t_some Ht d ltac:(lia)) as Hd'. pose proof (t_small Ht d) as Hsm. pose proof (t_live Ht). assert (Hd : 0 <= d < 4) by lia.
  destruct (half d Hd) as [Hi Hn]. assert (Hl : (Z.to_nat (d / 2) < live)%nat) by (apply half_live; lia).
  destruct (get_disk_ok s _ _ Hs Hl Hn) as (c & x & E & Hc & Ebase & Ex & Hf). destruct (lock_cycle s (c_lock c) Hs Hf) as (k1 & E1 & Hon1 & k2 & E2 & Hon2 & Hfree).
  set (i := Z.to_nat (d / 2)) in *. pose proof (ide_ok_working s i k1 Hs Hi) as Hw. pose proof (i_rest _ Hs (1 - i) ltac:(lia)) as Hr'.
  destruct (write_steps i Hi cs k1 _ (fun x => t_ports Ht _ x Hl) (fun x => other_vector _ x Hl) (t_two Ht) (r_phase _ Hr') (r_pending _ Hr') Hon1 _ _ _ x sec buf m Hw (i_rest _ Hs i Hi) Hlat ltac:(lia) ltac:(lia) Hb)
    as (s1 & s2 & s3 & s4 & s5 & a' & P1 & P2 & P3 & P4 & P5 & Hw5 & Hr5 & Es5).
  unfold ide_write. rewrite E, bind_ok, E1, bind_ok, Ebase, P1, bind_ok, P2, bind_ok, P3, bind_ok. cbn [negb]. rewrite P4, bind_ok, P5, bind_ok.
  rewrite (w_kernel _ _ _ _ _ _ _ _ Hw5), E2, bind_ok. split; [by eapply working_ide_ok|].
  intros d' k'. unfold sectors_of. cbn [with_kernel itrace]. destruct ((0 <=? d') && (d' <? 4)) eqn:Ed.
  - apply andb_true_iff in Ed as [?%Z.leb_le ?%Z.ltb_lt]. rewrite (same_disk d d') by lia. fold i. destruct (half d') as [Hi' _]; [lia|].
    destruct (one_of_two i Hi _ Hi') as [Ej|Ej]; rewrite Ej.
    + rewrite (w_state _ _ _ _ _ _ _ _ Hw5), Es5, Ex, Nat.eqb_refl. cbn [andb]. destruct ((d' mod 2 =? d mod 2) && (k' =? sec)); [|done].
      apply fit_id; [by rewrite sector_at_length|apply sector_at_bytes].
    + rewrite (w_other _ _ _ _ _ _ _ _ Hw5). by replace (1 - i =? i)%nat with false by (symmetry; apply Nat.eqb_neq; lia).
  - destruct (Z.eqb_spec d' d) as [->|]; [|done]. by replace ((0 <=? d) && (d <? 4)) with true in Ed by zbool.
Qed.

(** The driver keeps what the block layer relies on. *)
Definition ide_driver : Driver ide (Dops := ide_ops loops_per_tick).
Proof.
  refine {| drv_ok := ide_ok; capacity := fun _ => cap; contents := sectors_of |}.
  - intros s d sec. unfold sectors_of. case_match; apply fit_length.
  - intros s m d sec buf Hs Hk Hb. eapply returns_mono; [exact (ide_read_law s m d sec buf Hs Hk Hb)|]. intros [s' m'] (H1 & H2 & H3). exact (conj H1 (conj (fun _ => eq_refl) (conj H2 H3))).
  - intros s m d sec buf Hs Hk Hb. eapply returns_mono; [exact (ide_write_law s m d sec buf Hs Hk Hb)|]. intros s' (H1 & H2). exact (conj H1 (conj (fun _ => eq_refl) H2)).
Defined.

(** C14: on channels that obey the ATA protocol for reading and writing a sector, with no
    command that takes longer than the driver waits, the driver writes a sector and then
    reads any sector: it takes and releases the lock of the channel, addresses the disk and
    the sector through the registers, issues the commands, sleeps until the interrupt
    handler has acknowledged the completion, and moves the words between the data port and
    memory.  The sector written holds the buffer, the other sectors of the four disks what
    they held; a read changes only its buffer, and both leave the driver ready for the next
    transfer. *)
Theorem ide_transfers_sectors s m d sec buf d' sec' buf' m' : ide_ok s ->
  0 <= sec < cap d -> block_ok buf BLOCK_SECTOR_SIZE -> 0 <= sec' < cap d' -> block_ok buf' BLOCK_SECTOR_SIZE ->
  returns (ide_write loops_per_tick (Z.to_nat (d / 2)) (d mod 2) sec buf (s, m)) (fun s1 =>
    ide_ok s1 /\ returns (ide_read loops_per_tick (Z.to_nat (d' / 2)) (d' mod 2) sec' buf' (s1, m')) (fun '(s2, m2) =>
      ide_ok s2 /\ (forall e k, sectors_of s2 e k = if (e =? d) && (k =? sec) then sector_at m buf else sectors_of s e k) /\
      forall z, m2 z = blit m' buf' (if (d' =? d) && (sec' =? sec) then sector_at m buf else sectors_of s d' sec') z)).
Proof.
  intros Hs Hk Hb Hk' Hb'. eapply returns_mono; [exact (ide_write_law s m d sec buf Hs Hk Hb)|]. intros s1 [Hs1 E1]. split; [done|].
  eapply returns_mono; [exact (ide_read_law s1 m' d' sec' buf' Hs1 Hk' Hb')|]. intros [s2 m2] (Hs2 & E2 & Hm). split; [done|]. split.
  - intros e k. by rewrite E2, E1.
  - intros z. by rewrite Hm, E1.
Qed.
End Disks.
End Channels.

(** ** A machine with four disks *)

(** The first disk of a channel has one partition, of type 0x20, at sector 2; all other
    sectors are empty. *)
Definition one_partition : list Z :=
  replicate 446 0 ++ [0x80; 0; 0; 0; 0x20; 0; 0; 0; 2; 0; 0; 0; 50; 0; 0; 0] ++ replicate 48 0 ++ [0x55; 0xaa].
Definition new_disks : ata :=
  mk_ata (fun _ => 0) Rest false (fun d k => if (d =? 0) && (k =? 0) then one_partition else []) 0.
(** Three disks of 100 sectors and one of 1 GB. *)
Definition example_identity : nat -> Z -> list Z := fun i d =>
  replicate 120 0 ++ (if (i =? 1)%nat && (d =? 1) then [0; 0; 32; 0] else [100]).
Definition three_ticks : nat -> nat -> nat := fun _ _ => 3%nat.
Definition four_disks (i : nat) (tr : list io_event) : ata := channel_after example_identity three_ticks (fun _ => new_disks) i tr.

Definition disk_device : Device := fun tr p =>
  if ((0x1f0 <=? p) && (p <=? 0x1f7)) || (p =? 0x3f6) then ata_answer 0x1f0 (four_disks 0 tr) p
  else ata_answer 0x170 (four_disks 1 tr) p.
Definition disk_irq : Irq := fun tr v => a_pending (four_disks (if v =? 46 then 0 else 1) tr).

Lemma disks_obey : @obeys disk_device disk_irq example_identity three_ticks (fun _ => new_disks).
Proof.
  intros i tr Hi. destruct i as [|[|]]; [| |lia]; (split; [|done]); intros p Hp; unfold dev, disk_device, owns, reg_alt_status, reg_ctl in *; simpl in Hp.
  - by replace (_ || _) with true by (symmetry; apply orb_true_iff; rewrite andb_true_iff, !Z.leb_le, Z.eqb_eq; lia).
  - replace (((496 <=? p) && (p <=? 503)) || (p =? 1014)) with false by (symmetry; apply orb_false_iff; rewrite andb_false_iff, !Z.leb_gt, Z.eqb_neq; lia). done.
Qed.

Definition example_table : list (list Z * Z * Z * lock_id * list ata_disk) :=
  [(chars "ide0", 0x1f0, 46, UserLock 0, [mk_ata_disk (chars "hda") 0 true; mk_ata_disk (chars "hdb") 1 true]);
   (chars "ide1", 0x170, 47, UserLock 1, [mk_ata_disk (chars "hdc") 0 true; mk_ata_disk (chars "hdd") 1 true])].
Definition hundred (d : Z) : Z := if (0 <=? d) && (d <? 4) then 100 else 0.

Definition example_kernel : kstate := lock_init_st (UserLock 1) (lock_init_st (UserLock 0) (write_flag kernel_at_init true)).

Definition example_ide : ide :=
  mk_ide (map (fun x => mk_channel x.1.1.1.1 x.1.1.1.2 x.1.1.2 x.1.2 false 0 x.2) example_table) [] example_kernel [].

Lemma flag_context k : thread_context k -> thread_context (write_flag k true).
Proof. intros []. by split. Qed.

Lemma example_kernel_free : free_lock (UserLock 0) example_kernel /\ free_lock (UserLock 1) example_kernel.
Proof.
  destruct (init_free (UserLock 0) _ (flag_context _ kernel_at_init_context)) as (H1 & H2 & _). destruct (init_free (UserLock 1) _ H1) as (_ & H3 & H4).
  exact (conj (H4 (UserLock 0) ltac:(discriminate) H2) H3).
Qed.

Lemma example_records_ok : records_ok 2 example_table hundred.
Proof.
  split.
  - done.
  - done.
  - intros [|[|]] x _ [= <-]; done.
  - intros [|[|]] x Hi [= <-]; lia.
  - intros [|[|]] x z _ [= <-] Hn; assert (z = 0 \/ z = 1) as [-> | ->] by lia; eexists; done.
  - intros d. unfold hundred. case_match; lia.
  - intros d. unfold hundred. destruct ((0 <=? d) && (d <? 4)) eqn:E; [|lia]. apply andb_true_iff in E. lia.
Qed.

Lemma example_ide_ok : ide_ok example_identity three_ticks (fun _ => new_disks) 2 example_table example_ide.
Proof.
  destruct example_kernel_free as [H0 H1]. split.
  - reflexivity.
  - intros [|[|]] c [= <-]; reflexivity.
  - intros i _. split; reflexivity.
  - intros [|[|]] x _ [= <-]; [exact H0|exact H1].
  - reflexivity.
Qed.

(** Sector 7 of disk 2 written from 0x1000 and read back to 0x2000. *)
Lemma ide_transfers_sectors_witness : returns (@ide_write disk_device disk_irq 0 1 0 7 0x1000 (example_ide, fun a => a mod 251)) (fun s1 =>
  returns (@ide_read disk_device disk_irq 0 1 0 7 0x2000 (s1, fun _ => 0)) (fun '(_, m2) => m2 0x2003 = 0x1003 mod 251)).
Proof.
  eapply returns_mono; [refine (@ide_transfers_sectors disk_device disk_irq 0 example_identity three_ticks (fun _ => new_disks) disks_obey 2 example_table hundred
    example_records_ok _ example_ide (fun a => a mod 251) 2 7 0x1000 2 7 0x2000 (fun _ => 0) example_ide_ok _ _ _ _)|].
  - intros i n. unfold three_ticks. lia.
  - vm_compute. split; congruence.
  - unfold block_ok, NULL. vm_compute. repeat split; try congruence. left. congruence.
  - vm_compute. split; congruence.
  - unfold block_ok, NULL. vm_compute. repeat split; try congruence. left. congruence.
  - intros s1 [_ H]. eapply returns_mono; [exact H|]. intros [s2 m2] (_ & _ & Hm). rewrite Hm. vm_compute. reflexivity.
Defined.
