(* ===== verification/IdeBoot.v ===== *)
(** * The disks at boot

    What ide_init finds on channels of ATA disks: the strings of the identification data,
    the channels one after the other, and the registry of block devices that results. *)

From Stdlib Require Import ZArith Lia.
From stdpp Require Import base gmap list numbers strings.
From S2P Require Import Prelude CString StringLib Ctype Interfaces Ports IntrTable Kernel KernelLock PallocSpec Timer Block Partition PartitionSpec BlockSpec Ide IdeInit IdeSpec.

Local Open Scope Z_scope.

(** ** Strings of the identification data *)

Definition blank_char (c : Z) : bool := (c =? 0) || isspace c.

(** The place of a byte among swapped pairs. *)
Definition swapped (j : Z) : Z := if Z.even j then j + 1 else j - 1.

Definition swap_below (n : Z) (m : mem) (p : Z) : mem :=
  fun x => if (p <=? x) && (x <? p + n) then m (p + swapped (x - p)) else m x.

Lemma swap_pair t m m1 p : 0 <= t -> (forall x, m1 x = swap_below (2 * t) m p x) ->
  forall x, store (store m1 (p + 2 * t) (m1 (p + (2 * t + 1)))) (p + (2 * t + 1)) (m1 (p + 2 * t)) x = swap_below (2 * (t + 1)) m p x.
Proof.
  intros Ht Hm x. unfold store. rewrite !Hm. unfold swap_below.
  replace ((p <=? p + (2 * t + 1)) && (p + (2 * t + 1) <? p + 2 * t)) with false by zbool.
  replace ((p <=? p + 2 * t) && (p + 2 * t <? p + 2 * t)) with false by zbool.
  destruct (Z.eqb_spec x (p + (2 * t + 1))) as [->|H1].
  - replace ((p <=? p + (2 * t + 1)) && (p + (2 * t + 1) <? p + 2 * (t + 1))) with true by zbool.
    unfold swapped. replace (p + (2 * t + 1) - p) with (1 + 2 * t) by lia. rewrite Z.even_add_mul_2. simpl; f_equal; lia.
  - destruct (Z.eqb_spec x (p + 2 * t)) as [->|H2].
    + replace ((p <=? p + 2 * t) && (p + 2 * t <? p + 2 * (t + 1))) with true by zbool.
      unfold swapped. replace (p + 2 * t - p) with (0 + 2 * t) by lia. rewrite Z.even_add_mul_2. simpl; f_equal; lia.
    + by replace ((p <=? x) && (x <? p + 2 * (t + 1))) with ((p <=? x) && (x <? p + 2 * t)) by zbool.
Qed.

(** The pairs are swapped and the string is cut after the last character that is not blank,
    the very last one not considered. *)
Lemma descramble_spec m p n : 1 <= n < 2 ^ 30 -> returns (descramble_ata_string p (2 * n) m) (fun m' => exists len, 0 <= len < 2 * n /\
  (forall x, m' x = if x =? p + len then 0 else swap_below (2 * n) m p x) /\
  (forall j, len <= j < 2 * n - 1 -> blank_char (m (p + swapped j)) = true) /\
  (0 < len -> blank_char (m (p + swapped (len - 1))) = false)).
Proof.
  intros Hn. unfold descramble_ata_string. apply returns_bind.
  eapply returns_mono with (Q := fun m1 => forall x, m1 x = swap_below (2 * n) m p x).
  { apply (returns_while (fun '(i, m1) => exists t, i = 2 * t /\ 0 <= t <= n /\ forall x, m1 x = swap_below (2 * t) m p x) (fun '(i, _) => 2 * n - i)).
    - intros [i m1] (t & -> & Ht & Hm). split; [lia|]. destruct (Z.ltb_spec (2 * t + 1) (2 * n)).
      + apply returns_ok. split; [|lia]. exists (t + 1). split; [lia|]. split; [lia|]. apply swap_pair; [lia|done].
      + apply returns_ok. by replace n with t by lia.
    - exists 0. split; [done|]. split; [lia|]. intros x. unfold swap_below. by replace ((p <=? x) && (x <? p + 2 * 0)) with false by zbool.
    - lia. }
  intros m1 Hm1. apply returns_bind. assert (Hc : forall j, 0 <= j < 2 * n -> m1 (p + j) = m (p + swapped j)).
  { intros j Hj. rewrite Hm1. unfold swap_below. replace ((p <=? p + j) && (p + j <? p + 2 * n)) with true by zbool. by replace (p + j - p) with j by lia. }
  eapply returns_mono with (Q := fun len => 0 <= len < 2 * n /\ (forall j, len <= j < 2 * n - 1 -> blank_char (m (p + swapped j)) = true) /\
    (0 < len -> blank_char (m (p + swapped (len - 1))) = false)).
  { apply (returns_while (fun len => 0 <= len < 2 * n /\ (forall j, len <= j < 2 * n - 1 -> blank_char (m (p + swapped j)) = true)) (fun len => len)); [|split; [lia|lia]|lia].
    intros len [Hl Hb]. split; [lia|]. destruct (Z.ltb_spec 0 len); [|apply returns_ok; by split_and!; try lia].
    cbv zeta. rewrite Hc by lia. rewrite <- negb_orb. change ((m (p + swapped (len - 1)) =? 0) || isspace (m (p + swapped (len - 1)))) with (blank_char (m (p + swapped (len - 1)))).
    destruct (blank_char (m (p + swapped (len - 1)))) eqn:E; apply returns_ok; simpl.
    - split; [|lia]. split; [lia|]. intros j Hj. destruct (decide (j = len - 1)) as [->|]; [done|]. apply Hb. lia.
    - done. }
  intros len (Hl & Hb & Hnb). apply returns_ok. exists len. split_and!; try lia; [|done|done]. intros x. unfold store. by destruct (x =? p + len).
Qed.

(** The string that ends in the field of [n] bytes. *)
Lemma string_in n : forall m p, 0 < p -> p + Z.of_nat n < 2 ^ 32 -> (forall j, 0 <= j < Z.of_nat n -> 0 <= m (p + j) < 256) -> m (p + Z.of_nat n) = 0 ->
  exists s, cstring m p s.
Proof.
  induction n as [|n IH]; intros m p Hp He Hb Hz.
  - exists []. split; simpl; try done. intros [|i] c; [|done]. simpl. intros [= <-]. done.
  - destruct (decide (m p = 0)) as [E|E].
    + exists []. split; simpl; try done; [lia|]. intros [|i] c; [|done]. simpl. intros [= <-]. by rewrite Z.add_0_r.
    + destruct (IH m (p + 1)) as (s & [H1 H2 H3 H4]); [lia|lia| |by rewrite <- Hz; f_equal; lia|].
      { intros j Hj. replace (p + 1 + j) with (p + (j + 1)) by lia. apply Hb. lia. }
      exists (m p :: s). specialize (Hb 0 ltac:(lia)). rewrite Z.add_0_r in Hb. split; [lia|simpl; lia|constructor; [lia|done]|].
      intros [|i] c Hc; simpl in Hc; [injection Hc as <-; by rewrite Z.add_0_r|]. rewrite <- (H4 i c Hc). f_equal. lia.
Qed.

Lemma string_at_returns m p s : cstring m p s -> exists l, string_at m p = Ok l.
Proof. intros Hs. unfold string_at. rewrite (strlen_spec _ _ _ Hs). by eexists. Qed.

Lemma swapped_range n j : 0 <= j < 2 * n -> 0 <= swapped j < 2 * n.
Proof.
  intros Hj. unfold swapped. destruct (Z.even j) eqn:E; [apply Z.even_spec in E as [t ->]; lia|]. rewrite <- Z.negb_odd in E. apply negb_false_iff, Z.odd_spec in E as [t ->]. lia.
Qed.

Definition bytes_in (m : mem) (p n : Z) : Prop := forall x, p <= x < p + n -> 0 <= m x < 256.

Lemma descramble_bytes m p n q len : 1 <= n < 2 ^ 30 -> bytes_in m q len -> q <= p -> p + 2 * n <= q + len ->
  returns (descramble_ata_string p (2 * n) m) (fun m' => bytes_in m' q len /\ (forall x, ~ p <= x < p + 2 * n -> m' x = m x) /\ exists k, 0 <= k < 2 * n /\ m' (p + k) = 0).
Proof.
  intros Hn Hb H1 H2. eapply returns_mono; [by apply descramble_spec|]. intros m' (k & Hk & Hm & _). split_and!.
  - intros x Hx. rewrite Hm. destruct (x =? p + k); [lia|]. unfold swap_below. destruct (Z.leb_spec p x), (Z.ltb_spec x (p + 2 * n)); simpl; try (by apply Hb).
    apply Hb. pose proof (swapped_range n (x - p) ltac:(lia)). lia.
  - intros x Hx. rewrite Hm. destruct (Z.eqb_spec x (p + k)); [lia|]. unfold swap_below. by replace ((p <=? x) && (x <? p + 2 * n)) with false by zbool.
  - exists k. split; [done|]. by rewrite Hm, Z.eqb_refl.
Qed.

(** The strings of the identification data can be printed. *)
Lemma strings_ok m id : 0 < id -> id + 512 <= 2 ^ 32 -> bytes_in m id 512 -> exists m6 m7 model serial,
  descramble_ata_string (id + 10 * 2) 20 m = Ok m6 /\ descramble_ata_string (id + 27 * 2) 40 m6 = Ok m7 /\
  string_at m7 (id + 10 * 2) = Ok model /\ string_at m7 (id + 27 * 2) = Ok serial.
Proof.
  intros H0 He Hb. destruct (returns_inv _ _ (descramble_bytes m (id + 10 * 2) 10 id 512 ltac:(lia) Hb ltac:(lia) ltac:(lia))) as (m6 & E6 & B6 & K6 & k & Hk & Z6).
  destruct (returns_inv _ _ (descramble_bytes m6 (id + 27 * 2) 20 id 512 ltac:(lia) B6 ltac:(lia) ltac:(lia))) as (m7 & E7 & B7 & K7 & j & Hj & Z7).
  destruct (string_in (Z.to_nat k) m7 (id + 10 * 2)) as (l1 & H1); [lia|lia|intros x Hx; apply B7; lia|rewrite Z2Nat.id, K7 by lia; done|].
  destruct (string_in (Z.to_nat j) m7 (id + 27 * 2)) as (l2 & H2); [lia|lia|intros x Hx; apply B7; lia|rewrite Z2Nat.id by lia; done|].
  destruct (string_at_returns _ _ _ H1) as [model E1]. destruct (string_at_returns _ _ _ H2) as [serial E2]. change (2 * 10) with 20 in E6. change (2 * 20) with 40 in E7.
  exists m6, m7, model, serial. exact (conj E6 (conj E7 (conj E1 E2))).
Qed.

Lemma blit_byte m p l j : 0 <= j < Z.of_nat (length l) -> blit m p l (p + j) = default 0 (l !! Z.to_nat j).
Proof. intros Hj. unfold blit. replace ((p <=? p + j) && (p + j <? p + Z.of_nat (length l))) with true by zbool. by replace (p + j - p) with j by lia. Qed.

Lemma load32_blit m m' p l j : 0 <= j -> j + 4 <= Z.of_nat (length l) -> (forall x, m' x = blit m p l x) ->
  load32 m' (p + j) = load32 (blit (fun _ => 0) 0 l) j.
Proof.
  intros H0 Hj Hm. assert (E : forall i, j <= i < j + 4 -> m' (p + i) = blit (fun _ => 0) 0 l i).
  { intros i Hi. rewrite Hm, blit_byte by lia. pose proof (blit_byte (fun _ => 0) 0 l i ltac:(lia)) as <-. f_equal. }
  unfold load32, load16, load8. rewrite <- !Z.add_assoc. by rewrite !E by lia.
Qed.

(** ** The tables of the channels *)

Section Boot.
Context {D : Device} {Q : Irq} (loops_per_tick : Z).
Context (identity : nat -> Z -> list Z) (latency : nat -> nat -> nat) (before : nat -> ata) (channel_lock : nat -> lock_id).
Hypothesis (Hobeys : obeys identity latency before) (Hlat : prompt latency).

Notation "'after'" := (channel_after identity latency before).
Notation "'sectors'" := (sectors_of identity latency before).

(** A channel before its initialisation, and after it with the flags is_ata of its disks. *)
Definition static_channel (i : nat) : channel :=
  mk_channel [] 0 0 (channel_lock i) false 0 [mk_ata_disk [] 0 false; mk_ata_disk [] 0 false].

Definition entry (i : nat) (f : bool * bool) : list Z * Z * Z * lock_id * list ata_disk :=
  (chars (channel_name i), base_of i, vector_of i, channel_lock i, [mk_ata_disk (disk_name i 0) 0 f.1; mk_ata_disk (disk_name i 1) 1 f.2]).

(** The channels of which the first ones are initialised, with these flags. *)
Definition table (l : list (bool * bool)) : list (list Z * Z * Z * lock_id * list ata_disk) :=
  match l with
  | [] => [fixed (static_channel 0); fixed (static_channel 1)]
  | [f0] => [entry 0 f0; fixed (static_channel 1)]
  | f0 :: f1 :: _ => [entry 0 f0; entry 1 f1]
  end.

(** The number of sectors that a disk reports. *)
Definition disk_size (d : Z) : Z := load32 (blit (fun _ => 0) 0 (fit (identity (Z.to_nat (d / 2)) (d mod 2)))) 120.
Definition usable (d : Z) : bool := disk_size d <? 2 ^ 21.

Definition cap_of (live : nat) (d : Z) : Z := if (0 <=? d) && (d <? 2 * Z.of_nat live) && usable d then disk_size d else 0.

Lemma table_records l : (length l <= 2)%nat -> records_ok (length l) (table l) (cap_of (length l)).
Proof.
  intros Hl. split.
  - done.
  - by destruct l as [|? [|? ?]].
  - intros i x Hi Hx. destruct l as [|f0 [|f1 [|]]]; simpl in Hi, Hl; try lia; (destruct i as [|[|]]; [| |simpl in Hi; lia]); simpl in Hx; try lia; by injection Hx as <-.
  - intros i x Hi Hx. destruct l as [|f0 [|f1 [|]]]; simpl in Hi, Hl; try lia; destruct i as [|[|[|]]]; simpl in Hx; try lia; by simplify_eq.
  - intros i x n Hi Hx Hn. destruct l as [|f0 [|f1 [|]]]; simpl in Hi, Hl; try lia; (destruct i as [|[|]]; [| |simpl in Hi; lia]); simpl in Hx; try lia; injection Hx as <-;
      assert (n = 0 \/ n = 1) as [-> | ->] by lia; by eexists.
  - intros d. unfold cap_of, usable. destruct (Z.ltb_spec (disk_size d) (2 ^ 21)); repeat case_match; lia.
  - intros d. unfold cap_of. destruct (Z.leb_spec 0 d); simpl; [|lia]. destruct (Z.ltb_spec d (2 * Z.of_nat (length l))); simpl; lia.
Qed.

(** No transfer is under way on the channels that are initialised. *)
Definition ready (l : list (bool * bool)) (s : ide) : Prop := (length l <= 2)%nat /\ ide_ok identity latency before (length l) (table l) s.

Lemma table_lock l j x : table l !! j = Some x -> x.1.2 = channel_lock j.
Proof. intros Hx. destruct l as [|f0 [|f1 l]], j as [|[|[|]]]; simpl in Hx; by simplify_eq. Qed.

Lemma table_insert l i f : (i < length l)%nat -> (length l <= 2)%nat -> <[i := entry i f]> (table l) = table (<[i := f]> l).
Proof. intros Hi Hl. destruct l as [|f0 [|f1 [|]]], i as [|[|]]; simpl in *; try lia; done. Qed.

Lemma ready_locks l s j : ready l s -> (j < length l)%nat -> free_lock (channel_lock j) (ik s).
Proof.
  intros [Hl Hs] Hj. destruct (lookup_lt_is_Some_2 (table l) j) as [x Hx]; [rewrite (t_two _ _ _ (table_records l Hl)); lia|].
  rewrite <- (table_lock l j x Hx). by apply (i_free _ _ _ _ _ _ Hs j).
Qed.

Lemma ready_intro l s : (length l <= 2)%nat -> map fixed (channels s) = table l -> (forall i c, channels s !! i = Some c -> completion_wait c = 0) ->
  (forall i, (i < 2)%nat -> resting (after i (itrace s))) -> (forall j, (j < length l)%nat -> free_lock (channel_lock j) (ik s)) -> intr_get_level (ik s) = true -> ready l s.
Proof. intros Hl H1 H2 H3 H4 H5. split; [done|]. split; try done. intros j x Hj Hx. rewrite (table_lock l j x Hx). by apply H4. Qed.

(** ** One visit to a channel *)

Section Visit.
Context (l : list (bool * bool)) (s : ide) (Hs : ready l s) (i : nat) (Hi : (i < length l)%nat).
Notation "'busy'" := (working identity latency before i (table l) (ik s) (after (1 - i) (itrace s))).

Lemma channel_number : (i < 2)%nat.
Proof. destruct Hs. lia. Qed.

Lemma other_rests : resting (after (1 - i) (itrace s)).
Proof. apply (i_rest _ _ _ _ _ _ (proj2 Hs)). lia. Qed.

Lemma this_rests : resting (after i (itrace s)).
Proof. apply (i_rest _ _ _ _ _ _ (proj2 Hs)), channel_number. Qed.

Lemma arrive : busy (after i (itrace s)) 0 false s.
Proof.
  pose proof (ide_ok_working identity latency before _ _ _ (table_records l (proj1 Hs)) s i (ik s) (proj2 Hs) channel_number) as H.
  by destruct s.
Qed.

(** What a visit keeps. *)
Definition keeps (s s' : ide) : Prop := (forall d k, sectors s' d k = sectors s d k) /\ ik s' = ik s.

Lemma leave s' a' ex : busy a' 0 ex s' -> resting a' -> a_sectors a' = a_sectors (after i (itrace s)) ->
  ready l s' /\ keeps s s' /\ after i (itrace s') = a'.
Proof.
  intros Hw Hr Es. pose proof (w_state _ _ _ _ _ _ _ _ _ _ _ Hw) as Ea. pose proof (w_other _ _ _ _ _ _ _ _ _ _ _ Hw) as Eo. pose proof (w_kernel _ _ _ _ _ _ _ _ _ _ _ Hw) as Ek.
  destruct Hs as [Hl Hs']. split; [split; [done|]|split; [split; [|done]|done]].
  - pose proof (working_ide_ok identity latency before _ _ _ (table_records l Hl) s' i (ik s) (ik s) _ _ ex channel_number Hw Hr other_rests
      (i_free _ _ _ _ _ _ Hs') (i_on _ _ _ _ _ _ Hs')) as H. rewrite <- Ek in H. by destruct s'.
  - intros d k. unfold sectors_of. destruct ((0 <=? d) && (d <? 4)) eqn:Ed; [|done]. apply andb_true_iff in Ed as [?%Z.leb_le ?%Z.ltb_lt].
    destruct (half d ltac:(lia)) as [Hd _]. pose proof channel_number. assert (Z.to_nat (d / 2) = i \/ Z.to_nat (d / 2) = (1 - i)%nat) as [-> | ->] by lia.
    + by rewrite Ea, Es.
    + by rewrite Eo.
Qed.

(** The channel and the disks in the state are those of the table. *)
Lemma disk_here f n : l !! i = Some f -> 0 <= n <= 1 -> exists c, get_disk i n s = Ok (c, mk_ata_disk (disk_name i n) n (if n =? 0 then f.1 else f.2)) /\
  channels s !! i = Some c /\ fixed c = entry i f.
Proof.
  intros Hf Hn. assert (Ht : table l !! i = Some (entry i f)).
  { destruct Hs as [Hl _]. destruct l as [|f0 [|f1 [|]]], i as [|[|]]; simpl in *; try lia; by simplify_eq. }
  rewrite <- (i_fixed _ _ _ _ _ _ (proj2 Hs)), list_lookup_fmap in Ht. destruct (channels s !! i) as [c|] eqn:Hc; [|done]. injection Ht as E.
  exists c. unfold get_disk, get_channel. rewrite Hc, bind_ok. assert (devices c = (entry i f).2) as -> by (unfold entry; simpl; congruence).
  split; [by assert (n = 0 \/ n = 1) as [-> | ->] by lia|]. split; [done|]. unfold fixed, entry. congruence.
Qed.

(** A lemma about the channel at work. *)
Notation "'on_channel' f" := (f loops_per_tick identity latency before Hobeys i channel_number (table l) (ik s) (after (1 - i) (itrace s))
  (fun y => t_ports _ _ _ (table_records l (proj1 Hs)) _ y Hi) (fun y => other_vector _ _ _ (table_records l (proj1 Hs)) _ y Hi) (t_two _ _ _ (table_records l (proj1 Hs)))
  (r_phase _ other_rests) (r_pending _ other_rests) (i_on _ _ _ _ _ _ (proj2 Hs))) (at level 10, f at level 9, only parsing).

Lemma reset_ok : exists s', reset_channel loops_per_tick i s = Ok s' /\ ready l s' /\ keeps s s' /\ signature_set (after i (itrace s')).
Proof.
  destruct (lookup_lt_is_Some_2 l i Hi) as [f Hf]. destruct (disk_here f 0 Hf ltac:(lia)) as (c & G0 & _ & Ec). destruct (disk_here f 1 Hf ltac:(lia)) as (c' & G1 & _).
  destruct ((on_channel reset_channel_spec) _ _ _ s c c' _ _ arrive this_rests G0 G1) as (s' & a' & E & Hw & (Hr & Es & _) & Hg); [unfold fixed, entry in Ec; congruence|].
  destruct (leave s' a' _ Hw Hr Es) as (H1 & H2 & H3). exists s'. by rewrite H3.
Qed.

Definition with_flag (n : Z) (b : bool) (f : bool * bool) : bool * bool := if n =? 0 then (b, f.2) else (f.1, b).

Lemma flag_ok f n b : l !! i = Some f -> 0 <= n <= 1 ->
  exists s', put_is_ata i n b s = Ok s' /\ ready (<[i := with_flag n b f]> l) s' /\ itrace s' = itrace s /\ ik s' = ik s.
Proof.
  intros Hf Hn. destruct (disk_here f n Hf Hn) as (c & G & Hc & Ec). unfold put_is_ata. rewrite G, bind_ok. eexists. split; [done|].
  split; [|done]. pose proof Hs as [Hl [F1 F2 F3 F4 F5]]. apply ready_intro; rewrite ?length_insert; simpl; try done.
  - rewrite list_fmap_insert. change (fixed <$> channels s) with (map fixed (channels s)). rewrite F1, <- table_insert by done. f_equal. unfold fixed, entry in *. simpl. injection Ec as -> -> -> -> ->.
    assert (n = 0 \/ n = 1) as [-> | ->] by lia; done.
  - intros j c1. destruct (decide (j = i)) as [->|Hne]; [|rewrite list_lookup_insert_ne by done; apply F2].
    rewrite list_lookup_insert_eq by (by eapply lookup_lt_Some). intros [= <-]. simpl. by apply (F2 i).
  - intros j Hj. by apply (ready_locks l).
Qed.

(** The registers of the selected device have the signature of an ATA disk. *)
Lemma check_visit f n : l !! i = Some f -> 0 <= n <= 1 -> signature_set (after i (itrace s)) -> exists c s1 s2 s3 s4 s5,
  let d := mk_ata_disk (disk_name i n) n (if n =? 0 then f.1 else f.2) in
  get_disk i n s = Ok (c, d) /\ select_device loops_per_tick (reg_base c) d s = Ok s1 /\
  in_port (reg_error (reg_base c)) s1 = Ok (1, s2) /\ in_port (reg_lbam (reg_base c)) s2 = Ok (0, s3) /\ in_port (reg_lbah (reg_base c)) s3 = Ok (0, s4) /\
  in_port (reg_status (reg_base c)) s4 = Ok (STA_DRDY, s5) /\ ready l s5 /\ keeps s s5 /\ signature_set (after i (itrace s5)).
Proof.
  intros Hf Hn Hg. destruct (disk_here f n Hf Hn) as (c & G & _ & Ec). assert (reg_base c = base_of i) as Eb by (unfold fixed, entry in Ec; congruence).
  destruct ((on_channel check_steps) _ _ _ s (mk_ata_disk (disk_name i n) n (if n =? 0 then f.1 else f.2)) arrive this_rests Hg)
    as (s1 & s2 & s3 & s4 & s5 & a' & E1 & E2 & E3 & E4 & E5 & Hw & (Hr & Es & _) & Hg').
  destruct (leave s5 a' _ Hw Hr Es) as (H1 & H2 & H3). exists c, s1, s2, s3, s4, s5. cbv zeta. rewrite Eb, H3. by split_and!.
Qed.

Lemma identify_visit f n buf m : l !! i = Some f -> 0 <= n <= 1 -> block_ok buf BLOCK_SECTOR_SIZE -> exists c s1 s2 s3 s4 s5 m',
  let d := mk_ata_disk (disk_name i n) n (if n =? 0 then f.1 else f.2) in
  get_disk i n s = Ok (c, d) /\ select_device_wait loops_per_tick (reg_base c) d s = Ok s1 /\ issue_pio_command i CMD_IDENTIFY_DEVICE s1 = Ok s2 /\
  wait_completion i s2 = Ok s3 /\ wait_while_busy loops_per_tick (reg_base c) d s3 = Ok (true, s4) /\ input_sector (reg_base c) buf s4 m = Ok (s5, m') /\
  ready l s5 /\ keeps s s5 /\ forall x, m' x = blit m buf (fit (identity i n)) x.
Proof.
  intros Hf Hn Hb. destruct (disk_here f n Hf Hn) as (c & G & _ & Ec). assert (reg_base c = base_of i) as Eb by (unfold fixed, entry in Ec; congruence).
  destruct ((on_channel identify_steps) _ _ s (mk_ata_disk (disk_name i n) n (if n =? 0 then f.1 else f.2)) buf m arrive this_rests Hlat Hn Hb)
    as (s1 & s2 & s3 & s4 & s5 & m' & a' & E1 & E2 & E3 & E4 & E5 & Hw & Hr & Es & Hm).
  destruct (leave s5 a' _ Hw Hr Es) as (H1 & H2 & H3). exists c, s1, s2, s3, s4, s5, m'. cbv zeta. rewrite Eb. by split_and!.
Qed.
End Visit.

Lemma keeps_trace s1 s2 s3 : keeps s1 s2 -> itrace s3 = itrace s2 -> ik s3 = ik s2 -> keeps s1 s3.
Proof. intros [H1 H2] E1 E2. split; [|congruence]. intros d k. rewrite <- H1. unfold sectors_of. by rewrite E1. Qed.

(** The disk is found. *)
Lemma check_ok l s i f n : ready l s -> l !! i = Some f -> 0 <= n <= 1 -> signature_set (after i (itrace s)) ->
  exists s', check_device_type loops_per_tick i n s = Ok (true, s') /\ ready (<[i := with_flag n true f]> l) s' /\ keeps s s' /\ signature_set (after i (itrace s')).
Proof.
  intros Hs Hf Hn Hg. pose proof (lookup_lt_Some _ _ _ Hf) as Hi. destruct (check_visit l s Hs i Hi f n Hf Hn Hg) as (c & s1 & s2 & s3 & s4 & s5 & G & E1 & E2 & E3 & E4 & E5 & H5 & K5 & G5).
  unfold check_device_type. rewrite G, bind_ok. cbv zeta in *. rewrite E1, bind_ok, E2, bind_ok, E3, bind_ok, E4, bind_ok, E5, bind_ok.
  change (negb (1 =? 1) && (negb (1 =? 0x81) || (dev_no (mk_ata_disk (disk_name i n) n (if n =? 0 then f.1 else f.2)) =? 1)) || (Z.land STA_DRDY STA_DRDY =? 0) || negb (Z.land STA_DRDY STA_BSY =? 0)) with false.
  cbv iota. change ((0 =? 0) && (0 =? 0) || (0 =? 0x3c) && (0 =? 0xc3)) with true.
  destruct (flag_ok l s5 H5 i Hi f n true Hf Hn) as (s' & -> & H6 & Et & Ek). rewrite bind_ok. exists s'. split; [done|]. split; [done|]. split; [by eapply keeps_trace|by rewrite Et].
Qed.

(** ** Registration *)

Section Register.
Context {A : Type} `{!BlockOps A} (id : Z) (Hid : block_ok id BLOCK_SECTOR_SIZE).
Implicit Types (st : bstate A ide) (l : list (bool * bool)).

#[local] Instance drive_ops : DriverOps ide := ide_ops loops_per_tick.

Definition drive l (Hl : (length l <= 2)%nat) : Driver ide :=
  ide_driver loops_per_tick identity latency before Hobeys (length l) (table l) (cap_of (length l)) (table_records l Hl) Hlat.

(** The registry is well formed, on the driver with these channels. *)
Definition registry l st : Prop := exists Hl, registry_ok (DR := drive l Hl) st.

Lemma registry_ready l st : registry l st -> ready l (driver st).
Proof. intros [Hl Hr]. split; [done|]. apply (ro_driver _ Hr). Qed.

Lemma cap_mono n n' d : (n <= n')%nat -> cap_of n d <= cap_of n' d.
Proof.
  intros Hn. unfold cap_of. pose proof (load32_range (blit (fun _ => 0) 0 (fit (identity (Z.to_nat (d / 2)) (d mod 2)))) 120) as H. change (load32 _ 120) with (disk_size d) in H.
  destruct (Z.leb_spec 0 d), (usable d), (Z.ltb_spec d (2 * Z.of_nat n)), (Z.ltb_spec d (2 * Z.of_nat n')); simpl; lia.
Qed.

(** The driver moves on to more channels. *)
Lemma registry_move l l' st s' m' : registry l st -> ready l' s' -> (length l <= length l')%nat -> registry l' (put_driver st s' m').
Proof.
  intros [Hl [H1 H2 H3 H4 H5 H6 [lv H7] H8]] [Hl' Hs'] Hle. exists Hl'. split; simpl; try done.
  - intros b r Hb. destruct (H5 b r Hb) as (P1 & P2 & P3). split; [done|]. split; [done|]. destruct (ops r); [|done].
    simpl in *. etransitivity; [exact P3|by apply cap_mono].
  - by exists lv.
Qed.

(** What was registered stays. *)
Record grown st st' : Prop := mk_grown {
  gr_block : forall b r, block_at st !! b = Some r -> exists r', block_at st' !! b = Some r' /\ shape r' = shape r;
  gr_partition : partition_at st ⊆ partition_at st'
}.

#[local] Instance grown_preorder : PreOrder grown.
Proof.
  split; [intros st; split; [eauto|done]|]. intros s1 s2 s3 [B1 P1] [B2 P2]. split; [|by etransitivity].
  intros b r Hb. destruct (B1 b r Hb) as (r1 & Hb1 & E1). destruct (B2 b r1 Hb1) as (r2 & Hb2 & E2). exists r2. split; [done|congruence].
Qed.

(** The name of disk [d], and the devices [bs] of the disks [ds] with their partitions, in order. *)
Definition name_of (d : Z) : list Z := disk_name (Z.to_nat (d / 2)) (d mod 2).

Fixpoint scanned (sector0 : Z -> list Z) st (ds bs : list Z) : Prop :=
  match ds with
  | [] => bs = []
  | d :: ds => exists b ps rest, bs = b :: ps ++ rest /\
      (exists r, block_at st !! b = Some r /\ shape r = (name_of d, BLOCK_RAW, disk_size d, ide_operations, d)) /\
      Forall2 (registered st b (name_of d)) (fits (disk_size d) (numbered 0 (found_parts (sector0 d) (disk_size d)))) ps /\ scanned sector0 st ds rest
  end.

Lemma registered_grown st st' b nm x b' : grown st st' -> registered st b nm x b' -> registered st' b nm x b'.
Proof.
  intros [Hg Hp] (r & p & Hb & Hs & Hx). destruct (Hg b' r Hb) as (r' & Hb' & Hs'). exists r', p. split; [done|]. split; [congruence|]. by eapply lookup_weaken.
Qed.

Lemma scanned_grown sector0 st st' ds bs : grown st st' -> scanned sector0 st ds bs -> scanned sector0 st' ds bs.
Proof.
  intros Hg. revert bs. induction ds as [|d ds IH]; intros bs; [done|]. intros (b & ps & rest & -> & (r & Hb & Hs) & Hp & Hr).
  destruct (gr_block _ _ Hg b r Hb) as (r' & Hb' & Hs'). exists b, ps, rest. split; [done|]. split; [exists r'; split; [done|congruence]|]. split; [|by apply IH].
  eapply Forall2_impl; [exact Hp|]. intros x b'. by apply registered_grown.
Qed.

Lemma scanned_app sector0 st ds ds' bs bs' : scanned sector0 st ds bs -> scanned sector0 st ds' bs' -> scanned sector0 st (ds ++ ds') (bs ++ bs').
Proof.
  revert bs. induction ds as [|d ds IH]; intros bs; simpl; [by intros ->|]. intros (b & ps & rest & -> & Hd & Hp & Hr) H'.
  exists b, ps, (rest ++ bs'). split; [by rewrite <- app_comm_cons, app_assoc|]. split; [done|]. split; [done|]. by apply IH.
Qed.

(** From [st] to [st'] the disks [ds] were registered, on a driver that keeps all sectors. *)
Record discovers (k : nat) (ds : list Z) st st' : Prop := mk_discovers {
  dc_grown : grown st st';
  dc_sectors : forall d x, sectors (driver st') d x = sectors (driver st) d x;
  dc_within : within k (heap st) (heap st');
  dc_new : exists bs, all_blocks st' = all_blocks st ++ bs /\ scanned (fun d => sectors (driver st) d 0) st' ds bs
}.

Lemma discovers_trans k k' ds ds' s1 s2 s3 : discovers k ds s1 s2 -> discovers k' ds' s2 s3 -> discovers (k + k') (ds ++ ds') s1 s3.
Proof.
  intros [G1 S1 W1 (b1 & E1 & N1)] [G2 S2 W2 (b2 & E2 & N2)]. split.
  - by etransitivity.
  - intros d x. by rewrite S2.
  - by eapply within_trans.
  - exists (b1 ++ b2). split; [by rewrite E2, E1, app_assoc|]. apply scanned_app; [by eapply scanned_grown|]. revert N2. clear -S1. revert b2. 
    induction ds' as [|d ds' IH]; intros b2; [done|]. intros (b & ps & rest & -> & Hd & Hp & Hr). exists b, ps, rest. split; [done|]. split; [done|].
    rewrite S1 in Hp. split; [done|]. by apply IH.
Qed.

Lemma discovers_none k st st' : grown st st' -> (forall d x, sectors (driver st') d x = sectors (driver st) d x) -> heap st' = heap st -> all_blocks st' = all_blocks st -> discovers k [] st st'.
Proof. intros H1 H2 H3 H4. split; [done|done|rewrite H3; constructor|]. exists []. rewrite H4, app_nil_r. by split. Qed.

Lemma disk_number (i : nat) n : 0 <= n <= 1 -> Z.to_nat ((2 * Z.of_nat i + n) / 2) = i /\ (2 * Z.of_nat i + n) mod 2 = n.
Proof.
  intros Hn. rewrite (Z.mul_comm 2), Z.div_add_l, (Z.div_small n 2), Z.add_0_r, Nat2Z.id by lia. split; [done|]. rewrite Z.add_comm, Z_mod_plus_full. apply Z.mod_small. lia.
Qed.

Lemma ready_say l x s : ready l s -> ready l (say x s).
Proof. intros [Hl []]. by split. Qed.

Lemma put_driver_grown st s m : grown st (put_driver st s m).
Proof. split; simpl; eauto. Qed.

Lemma extends_grown {DR : Driver ide} st st' : extends st st' -> grown st st'.
Proof. intros He. split; [apply (ex_block _ _ He)|apply (ex_partition _ _ He)]. Qed.

(** Registering the disk and scanning it. *)
Lemma register_disk l st (i : nat) n extra : registry l st -> (i < length l)%nat -> 0 <= n <= 1 -> let d := 2 * Z.of_nat i + n in
  0 < disk_size d -> usable d = true -> deep (sectors (driver st) d 0) (disk_size d) = false ->
  settles (1 + cost 3) (heap st) ('(block, st) ← block_register (disk_name i n) BLOCK_RAW extra (disk_size d) ide_operations d st; partition_scan scan_depth block st)
    (fun st' => registry l st' /\ discovers (1 + cost 3) [d] st st').
Proof.
  intros [Hl Hok] Hi Hn d Hpos Hu Hdeep. destruct (disk_number i n Hn) as [Ed En]. pose proof Hu as Hsz. apply Z.ltb_lt in Hsz.
  assert (Hnm : bounded 16 (disk_name i n) = name_of d) by (unfold name_of, d; by rewrite Ed, En).
  apply settles_bind. eapply settles_mono; [apply (block_register_spec (DR := drive l Hl)); [done|]|done|].
  - split; [simpl; lia|]. split; [rewrite Hnm; simpl; lia|]. simpl. unfold cap_of. rewrite Hu. replace ((0 <=? d) && (d <? 2 * Z.of_nat (length l))) with true by (subst d; zbool). done.
  - intros [b st1] (Hok1 & He1 & Hw1 & Ea1 & Hb1 & _). exists (heap st1). split; [done|]. rewrite Hnm in Hb1.
    assert (Es1 : contents (driver st1) d 0 = sectors (driver st) d 0) by apply (ex_contents _ _ He1).
    assert (Hdisk : disk st1 b (name_of d) (disk_size d) d) by (by exists (mk_block (name_of d) BLOCK_RAW (disk_size d) ide_operations d 0 0), BLOCK_RAW).
    eapply settles_mono; [apply (scan_settles (DR := drive l Hl) _ _ _ _ _ Hok1 Hdisk Hpos); by rewrite Es1|done|].
    intros st2 [[Hok2 He2 (ps & Ea2 & Hp)] Hw2]. split; [by exists Hl|]. rewrite Es1 in Hp.
    pose proof (extends_grown _ _ He1) as G1. pose proof (extends_grown _ _ He2) as G2. split.
    + by etransitivity.
    + intros e x. etransitivity; [apply (ex_contents _ _ He2)|apply (ex_contents _ _ He1)].
    + by eapply within_trans.
    + exists (b :: ps). split; [by rewrite Ea2, Ea1, <- app_assoc|]. destruct (gr_block _ _ G2 _ _ Hb1) as (r & Hr & Sr).
      exists b, ps, []. split; [by rewrite app_nil_r|]. split; [by exists r|]. done.
Qed.

(** The flags of a channel after the identification of a disk. *)
Definition identified (i : nat) (n : Z) (f : bool * bool) : bool * bool :=
  if usable (2 * Z.of_nat i + n) then f else with_flag n false f.

(** The disks that can be scanned: they have a sector 0, and the scan of their table ends. *)
Definition scannable st (d : Z) : Prop :=
  0 < disk_size d /\ (usable d = true -> deep (sectors (driver st) d 0) (disk_size d) = false).

Lemma filter_one (P : Z -> bool) d : filter P [d] = if P d then [d] else [].
Proof. cbn [filter list_filter]. by destruct (P d). Qed.

Lemma identify_ok l st i f n : registry l st -> l !! i = Some f -> 0 <= n <= 1 -> (if n =? 0 then f.1 else f.2) = true ->
  scannable st (2 * Z.of_nat i + n) ->
  settles (1 + cost 3) (heap st) (identify_ata_device loops_per_tick id i n st) (fun st' =>
    registry (<[i := identified i n f]> l) st' /\ discovers (1 + cost 3) (filter usable [2 * Z.of_nat i + n]) st st').
Proof.
  intros Hreg Hf Hn Hata [Hpos Hdeep]. set (d := 2 * Z.of_nat i + n) in *. pose proof (registry_ready _ _ Hreg) as Hs. pose proof (lookup_lt_Some _ _ _ Hf) as Hi.
  destruct (identify_visit l (driver st) Hs i Hi f n id (bmem st) Hf Hn Hid) as (c & s1 & s2 & s3 & s4 & s5 & m5 & G & E1 & E2 & E3 & E4 & E5 & H5 & [K5 _] & Hm).
  cbv zeta in *. unfold identify_ata_device. rewrite G, bind_ok. cbn [is_ata]. rewrite Hata, assert_bind by done. cbv zeta. rewrite Hata in E1, E4.
  rewrite E1, bind_ok, E2, bind_ok, E3, bind_ok, E4, bind_ok. cbn [negb]. rewrite E5, bind_ok.
  destruct (disk_number i n Hn) as [Ed En]. pose proof Hid as (Hid1 & _ & Hid2 & Hid3). change BLOCK_SECTOR_SIZE with 512 in *. unfold NULL in Hid3.
  assert (Hcap : load32 m5 (id + 60 * 2) = disk_size d).
  { rewrite (load32_blit (bmem st) m5 id (fit (identity i n)) (60 * 2)) by (rewrite ?fit_length; lia || done). unfold disk_size, d. by rewrite Ed, En. }
  destruct (strings_ok m5 id) as (m6 & m7 & model & serial & -> & E7 & E8 & E9); [lia|lia| |].
  { intros x Hx. rewrite Hm. replace x with (id + (x - id)) by lia. rewrite blit_byte by (rewrite fit_length; lia).
    destruct (lookup_lt_is_Some_2 (fit (identity i n)) (Z.to_nat (x - id))) as [v Hv]; [rewrite fit_length; lia|]. rewrite Hv.
    exact (proj1 (Forall_lookup _ _) (fit_bytes _) _ _ Hv). }
  rewrite bind_ok, E7, bind_ok, E8, bind_ok, E9, bind_ok, Hcap. change (1024 * 1024 * 1024 / 512) with (2 ^ 21). cbn [d_name]. unfold identified. fold d.
  assert (Hst : forall s' m', (forall e x, sectors s' e x = sectors s5 e x) -> forall e x, sectors (driver (put_driver st s' m')) e x = sectors (driver st) e x).
  { intros s' m' E e x. simpl. by rewrite E, K5. }
  destruct (Z.leb_spec (2 ^ 21) (disk_size d)) as [Hbig|Hsmall].
  - assert (usable d = false) as Hu by (apply Z.ltb_ge; lia). rewrite filter_one, Hu.
    destruct (flag_ok l _ (ready_say l (Ignoring (disk_name i n) (u32 (disk_size d * 512))) s5 H5) i Hi f n false Hf Hn) as (s' & -> & H6 & Et & Ek).
    rewrite bind_ok. apply settles_returns. simpl. split; [eapply registry_move; [done|done|by rewrite length_insert]|].
    apply discovers_none; [apply put_driver_grown| |done|done]. apply Hst. intros e x. unfold sectors_of. by rewrite Et.
  - assert (usable d = true) as Hu by (apply Z.ltb_lt; lia). rewrite filter_one, Hu, (list_insert_id l i f Hf).
    assert (Hreg' : registry l (put_driver st s5 m7)) by (by eapply registry_move).
    eapply settles_mono; [apply (register_disk l (put_driver st s5 m7) i n _ Hreg' Hi Hn Hpos Hu)|done|].
    + rewrite Hst by done. by apply Hdeep.
    + intros st' [Hr Hdc]. split; [done|]. destruct Hdc as [G1 S1 W1 N1]. split.
      * etransitivity; [apply put_driver_grown|exact G1].
      * intros e x. by rewrite S1, Hst.
      * done.
      * destruct N1 as (bs & Ea & Hn1). exists bs. split; [done|]. cbn [scanned filter list_filter] in *. rewrite Hst in Hn1 by done. done.
Qed.

(** ** The initialisation of a channel *)

Context {H : Type} (intr_stubs : Z -> Z) (Hstubs : stubs_ok intr_stubs) (handler : H).
Context (Hlocks : channel_lock 0 <> channel_lock 1).

(** A free vector gets its handler. *)
Lemma register_vector v name (t : intr_table H) : table_ok intr_stubs t -> external v -> intr_handlers t !! Z.to_nat v = Some None ->
  exists t', intr_register_ext intr_stubs v handler name t = Ok t' /\ table_ok intr_stubs t' /\
    intr_handlers t' = <[Z.to_nat v := Some handler]> (intr_handlers t).
Proof.
  intros Ht Hv Hh. unfold external in Hv.
  destruct (make_gate_decode (intr_stubs v) 0 14 (Hstubs v ltac:(lia)) ltac:(lia) ltac:(lia)) as (g & Eg & _).
  assert (E : register_handler intr_stubs v 0 false handler name t = Ok (mk_intr_table (<[Z.to_nat v := g]> (idt t)) (idtr t)
    (<[Z.to_nat v := Some handler]> (intr_handlers t)) (<[Z.to_nat v := name]> (intr_names t)) (unexpected_cnt t))).
  { unfold register_handler. assert (Er : rd (intr_handlers t) v = Ok None) by (apply rd_ok; split; [lia|done]). rewrite Er, bind_ok. unfold make_intr_gate. simpl. rewrite Eg, bind_ok.
    pose proof (to_idt _ _ Ht). pose proof (to_handlers _ _ Ht). pose proof (to_names _ _ Ht).
    by rewrite !wr_ok by lia. }
  eexists. unfold intr_register_ext. rewrite assert_bind by zbool. split; [exact E|]. split; [|done].
  apply (register_ok intr_stubs Hstubs v 0 false handler name t _ Ht ltac:(lia) (fun _ => conj eq_refl eq_refl) E).
Qed.

(** The members of the channel are set. *)
Lemma fresh_ready l s i : ready l s -> length l = i -> (i < 2)%nat -> thread_context (ik s) ->
  ready (l ++ [(false, false)]) (with_kernel (lock_init_st (channel_lock i) (ik s)) (put_channel i (fresh_channel channel_lock i) s)).
Proof.
  intros [Hl [F1 F2 F3 F4 F5]] Hi H2 Hk. destruct (init_free (channel_lock i) (ik s) Hk) as (_ & Hf & Ho). apply ready_intro; rewrite ?length_app; simpl; try done.
  - lia.
  - rewrite list_fmap_insert. change (fixed <$> channels s) with (map fixed (channels s)). rewrite F1. by destruct l as [|f0 [|? ?]]; simpl in Hi; subst i; [| |lia].
  - intros j c. destruct (decide (j = i)) as [->|Hne]; [|rewrite list_lookup_insert_ne by done; apply F2].
    rewrite list_lookup_insert_eq; [by intros [= <-]|]. rewrite <- (length_map fixed), F1, (t_two _ _ _ (table_records l Hl)). lia.
  - intros j Hj. destruct (decide (j = i)) as [->|Hne]; [done|]. apply Ho; [|apply (ready_locks l); [by split|lia]].
    assert (j = 0%nat /\ i = 1%nat) as [-> ->] by lia. done.
Qed.

(** The channel is reset and its two disks are found. *)
Lemma probe_ok l s i : ready (l ++ [(false, false)]) s -> length l = i -> exists s1 s2 s3, reset_channel loops_per_tick i s = Ok s1 /\
  check_device_type loops_per_tick i 0 s1 = Ok (true, s2) /\ check_device_type loops_per_tick i 1 s2 = Ok (true, s3) /\ ready (l ++ [(true, true)]) s3 /\ keeps s s3.
Proof.
  intros Hs Hi. assert (Hlt : (i < length (l ++ [(false, false)]))%nat) by (rewrite length_app; simpl; lia).
  assert (Hat : forall f : bool * bool, (l ++ [f]) !! i = Some f) by (intros f; rewrite <- Hi; apply list_lookup_middle; done).
  assert (Hput : forall f f' : bool * bool, <[i := f']> (l ++ [f]) = l ++ [f']) by (intros f f'; rewrite <- Hi, insert_app_r_alt, Nat.sub_diag by lia; done).
  destruct (reset_ok _ s Hs i Hlt) as (s1 & E1 & H1 & K1 & G1).
  destruct (check_ok _ s1 i _ 0 H1 (Hat _) ltac:(lia) G1) as (s2 & E2 & H2 & K2 & G2). rewrite Hput in H2.
  destruct (check_ok _ s2 i _ 1 H2 (Hat _) ltac:(lia) G2) as (s3 & E3 & H3 & K3 & _). rewrite Hput in H3.
  exists s1, s2, s3. split_and!; try done. destruct K1 as [S1 T1], K2 as [S2 T2], K3 as [S3 T3]. split; [|congruence]. intros d k. by rewrite S3, S2, S1.
Qed.

Lemma scannable_keeps st st' d : (forall e x, sectors (driver st') e x = sectors (driver st) e x) -> scannable st d -> scannable st' d.
Proof. intros E [H1 H2]. split; [done|]. by rewrite E. Qed.

(** Both disks of the last channel are identified. *)
Lemma identify_both l st i : length l = i -> registry (l ++ [(true, true)]) st -> scannable st (2 * Z.of_nat i) -> scannable st (2 * Z.of_nat i + 1) ->
  settles ((1 + cost 3) + (1 + cost 3)) (heap st)
    (st ← identify_if_ata loops_per_tick id i 0 st; identify_if_ata loops_per_tick id i 1 st)
    (fun st' => registry (l ++ [(usable (2 * Z.of_nat i), usable (2 * Z.of_nat i + 1))]) st' /\
      discovers ((1 + cost 3) + (1 + cost 3)) (filter usable [2 * Z.of_nat i; 2 * Z.of_nat i + 1]) st st').
Proof.
  intros Hi Hreg S0 S1. assert (Hat : forall f : bool * bool, (l ++ [f]) !! i = Some f) by (intros f; rewrite <- Hi; apply list_lookup_middle; done).
  assert (Hput : forall f f' : bool * bool, <[i := f']> (l ++ [f]) = l ++ [f']) by (intros f f'; rewrite <- Hi, insert_app_r_alt, Nat.sub_diag by lia; done).
  assert (Hif : forall st f n, registry (l ++ [f]) st -> 0 <= n <= 1 -> (if n =? 0 then f.1 else f.2) = true -> identify_if_ata loops_per_tick id i n st = identify_ata_device loops_per_tick id i n st).
  { intros st' f n Hr Hn Hf. pose proof (registry_ready _ _ Hr) as Hs.
    destruct (disk_here _ _ Hs i ltac:(rewrite length_app; simpl; lia) f n (Hat f) Hn) as (c & G & _). unfold identify_if_ata. rewrite G, bind_ok. simpl. by rewrite Hf. }
  apply settles_bind. rewrite (Hif st _ 0 Hreg ltac:(lia) eq_refl). rewrite <- (Z.add_0_r (2 * Z.of_nat i)) in S0.
  eapply settles_mono; [apply (identify_ok _ st i _ 0 Hreg (Hat _) ltac:(lia) eq_refl S0)|done|].
  rewrite Hput, Z.add_0_r. intros st1 [Hreg1 D1]. exists (heap st1). split; [apply D1|].
  assert (Hf1 : (identified i 0 (true, true)).2 = true) by (unfold identified, with_flag; by case_match). rewrite (Hif st1 _ 1 Hreg1 ltac:(lia) Hf1).
  eapply settles_mono; [apply (identify_ok _ st1 i _ 1 Hreg1 (Hat _) ltac:(lia) Hf1)|done|].
  { eapply scannable_keeps; [apply (dc_sectors _ _ _ _ D1)|done]. }
  rewrite Hput. intros st2 [Hreg2 D2]. split.
  - assert (identified i 1 (identified i 0 (true, true)) = (usable (2 * Z.of_nat i), usable (2 * Z.of_nat i + 1))) as <-; [|done].
    unfold identified. rewrite Z.add_0_r. by destruct (usable (2 * Z.of_nat i)), (usable (2 * Z.of_nat i + 1)).
  - change [2 * Z.of_nat i; 2 * Z.of_nat i + 1] with ([2 * Z.of_nat i] ++ [2 * Z.of_nat i + 1]). rewrite filter_app. by eapply discovers_trans.
Qed.

Lemma init_channel_ok l st (t : intr_table H) i : registry l st -> length l = i -> (i < 2)%nat -> thread_context (ik (driver st)) ->
  table_ok intr_stubs t -> intr_handlers t !! Z.to_nat (vector_of i) = Some None -> scannable st (2 * Z.of_nat i) -> scannable st (2 * Z.of_nat i + 1) ->
  settles ((1 + cost 3) + (1 + cost 3)) (heap st) (init_channel loops_per_tick id intr_stubs handler channel_lock i (st, t)) (fun '(st', t') =>
    registry (l ++ [(usable (2 * Z.of_nat i), usable (2 * Z.of_nat i + 1))]) st' /\
    discovers ((1 + cost 3) + (1 + cost 3)) (filter usable [2 * Z.of_nat i; 2 * Z.of_nat i + 1]) st st' /\
    table_ok intr_stubs t' /\ intr_handlers t' = <[Z.to_nat (vector_of i) := Some handler]> (intr_handlers t)).
Proof.
  intros Hreg Hi H2 Hk Ht Hv S0 S1. pose proof (fresh_ready l _ i (registry_ready _ _ Hreg) Hi H2 Hk) as Hs. unfold init_channel.
  set (s := with_kernel _ _) in *. cbv zeta.
  assert (Hx : external (vector_of i)) by (destruct i as [|[|]]; [..|lia]; done).
  destruct (register_vector (vector_of i) (channel_name i) t Ht Hx Hv) as (t' & Et & Ht' & Eh).
  change (c_irq (fresh_channel channel_lock i)) with (vector_of i). rewrite Et, bind_ok.
  destruct (probe_ok l s i Hs Hi) as (s1 & s2 & s3 & -> & E2 & E3 & H3 & K3). rewrite bind_ok, E2, bind_ok, E3, !bind_ok.
  assert (Hsec : forall e x, sectors (driver (put_ide s3 st)) e x = sectors (driver st) e x) by (intros e x; simpl; by rewrite (proj1 K3)).
  assert (Hreg3 : registry (l ++ [(true, true)]) (put_ide s3 st)) by (eapply registry_move; [done|done|rewrite length_app; lia]).
  pose proof (identify_both l (put_ide s3 st) i Hi Hreg3 (scannable_keeps _ _ _ Hsec S0) (scannable_keeps _ _ _ Hsec S1)) as Hid2.
  destruct Hid2 as [Hr|[He Ho]].
  - left. apply returns_inv in Hr as (st' & E & Hr' & D'). apply bind_ok_inv in E as (st1 & E1 & E1'). rewrite E1, bind_ok, E1', bind_ok. simpl. split; [done|].
    split; [|done]. pose proof (discovers_none 0 st (put_ide s3 st) (put_driver_grown _ _ _) Hsec eq_refl eq_refl) as D0. apply (discovers_trans _ _ _ _ _ _ _ D0 D').
  - right. split; [|done]. destruct (identify_if_ata loops_per_tick id i 0 (put_ide s3 st)) as [st1|e]; [rewrite bind_ok in He; rewrite bind_ok, He; reflexivity|].
    cbn [mbind res_bind] in *. congruence.
Qed.

(** The state before the initialisation: no channel is set up, nothing is going on. *)
Record boots st (t : intr_table H) : Prop := mk_boots {
  bo_registry : registry [] st;
  bo_context : thread_context (ik (driver st));
  bo_table : table_ok intr_stubs t;
  bo_vectors : forall i, (i < 2)%nat -> intr_handlers t !! Z.to_nat (vector_of i) = Some None
}.

(** C15: On a machine with two channels of two ATA disks each, all of which are [scannable]
    (they report at least one sector, and those below 1 GB have a partition table that does
    not lead back into itself), the initialisation of the disks installs the handler on both
    interrupt vectors, resets the channels, recognises and identifies the disks and
    registers, in order, each of those below 1 GB under its name and with the size it
    reports, followed by what the scan of its table finds on it ([found_parts], which are
    the partitions of the table when none of them is extended); it changes no sector of any
    disk, keeps all that was registered, and leaves a well-formed registry on a driver that
    is ready for transfers.  It panics only when an allocation fails. *)
Theorem ide_init_finds_disks st (t : intr_table H) : boots st t -> (forall d, 0 <= d < 4 -> scannable st d) ->
  settles (4 * (1 + cost 3)) (heap st) (ide_init loops_per_tick id intr_stubs handler channel_lock (st, t)) (fun '(st', t') =>
    registry [(usable 0, usable 1); (usable 2, usable 3)] st' /\ discovers (4 * (1 + cost 3)) (filter usable [0; 1; 2; 3]) st st' /\
    table_ok intr_stubs t' /\ forall i, (i < 2)%nat -> intr_handlers t' !! Z.to_nat (vector_of i) = Some (Some handler)).
Proof.
  intros [Hreg Hk Ht Hv] Hsc. change (4 * (1 + cost 3))%nat with (((1 + cost 3) + (1 + cost 3)) + ((1 + cost 3) + (1 + cost 3)))%nat.
  unfold ide_init. apply settles_bind.
  eapply settles_mono; [apply (init_channel_ok [] st t 0 Hreg eq_refl ltac:(lia) Hk Ht (Hv 0%nat ltac:(lia)) (Hsc 0 ltac:(lia)) (Hsc 1 ltac:(lia)))|done|].
  intros [st1 t1] (Hreg1 & D1 & Ht1 & E1). exists (heap st1). split; [apply D1|].
  pose proof (ready_locks _ _ 0 (registry_ready _ _ Hreg1) ltac:(simpl; lia)) as (Hk1 & _).
  assert (Hsc1 : forall d, 0 <= d < 4 -> scannable st1 d) by (intros d Hd; eapply scannable_keeps; [apply (dc_sectors _ _ _ _ D1)|by apply Hsc]).
  eapply settles_mono; [apply (init_channel_ok _ st1 t1 1 Hreg1 eq_refl ltac:(lia) Hk1 Ht1)|done|].
  - rewrite E1, list_lookup_insert_ne by done. apply Hv. lia.
  - apply (Hsc1 2). lia.
  - apply (Hsc1 3). lia.
  - intros [st2 t2] (Hreg2 & D2 & Ht2 & E2). split; [exact Hreg2|]. split; [|split; [done|]].
    + change [0; 1; 2; 3] with ([0; 1] ++ [2; 3]). rewrite filter_app. exact (discovers_trans _ _ _ _ _ _ _ D1 D2).
    + pose proof (to_handlers _ _ Ht). intros i Hi. rewrite E2, E1. destruct i as [|[|]]; [| |lia].
      * rewrite list_lookup_insert_ne by done. apply list_lookup_insert_eq. simpl. lia.
      * apply list_lookup_insert_eq. rewrite length_insert. simpl. lia.
Qed.
End Register.
End Boot.

(** ** A machine with four disks at boot *)

#[local] Existing Instance bump_blocks.
#[local] Existing Instance disk_device.
#[local] Existing Instance disk_irq.

Lemma three_prompt : prompt three_ticks.
Proof. intros i n. unfold three_ticks. lia. Qed.

Definition example_lock (i : nat) : lock_id := UserLock (Z.of_nat i).

Definition boot_ide : ide := mk_ide [static_channel example_lock 0; static_channel example_lock 1] [] (write_flag kernel_at_init true) [].

Definition boot_devices : bstate bump_heap ide :=
  mk_bstate [] [NULL; NULL; NULL; NULL] ∅ ∅ (∅, 4096) boot_ide (fun _ => 0) [].

Lemma boot_registry : registry 0 example_identity three_ticks (fun _ => new_disks) example_lock disks_obey three_prompt [] boot_devices.
Proof.
  exists (Nat.le_0_l 2). split.
  - split; [done|]. split; [done|]. apply map_Forall_empty.
  - split; simpl.
    + reflexivity.
    + intros [|[|]] c [= <-]; reflexivity.
    + intros i _. split; reflexivity.
    + intros i x Hi. lia.
    + reflexivity.
  - constructor.
  - intros b. simpl. rewrite lookup_empty. split; [by intros ?%not_elem_of_nil|by intros []].
  - intros b r. simpl. by rewrite lookup_empty.
  - intros b. simpl. rewrite !lookup_empty. by intros [[]|[]].
  - exists (fun _ => 0%nat). intros b r. simpl. by rewrite lookup_empty.
  - split; [done|]. repeat constructor.
Qed.

Lemma example_stubs_ok : stubs_ok example_stubs.
Proof. intros v Hv. unfold example_stubs. lia. Qed.

(** hda, with its partition, hdb, and hdc, with its partition, are registered; hdd is too
    large. *)
Lemma ide_init_finds_disks_witness : returns (intr_init example_stubs 0xc0040000 (zero_table (H := nat)) []) (fun '(t, _) =>
  settles (4 * (1 + cost 3)) (heap boot_devices) (ide_init 0 0x8000 example_stubs 7%nat example_lock (boot_devices, t)) (fun '(st', _) =>
    exists b1 b2 b3 b4 b5 r1 r2 r3 r4, all_blocks st' = [b1; b2; b3; b4; b5] /\
      block_at st' !! b1 = Some r1 /\ block_at st' !! b2 = Some r2 /\ block_at st' !! b3 = Some r3 /\ block_at st' !! b4 = Some r4 /\
      name r1 = chars "hda" /\ size r1 = 100 /\ name r2 = chars "hda1" /\ type r2 = BLOCK_KERNEL /\ size r2 = 50 /\
      name r3 = chars "hdb" /\ name r4 = chars "hdc")).
Proof.
  eapply returns_mono; [by apply (intr_init_spec example_stubs 0xc0040000 example_stubs_ok zero_table [])|]. intros [t tr] (Ht & Hh & _).
  eapply settles_mono; [refine (ide_init_finds_disks 0 example_identity three_ticks (fun _ => new_disks) example_lock disks_obey three_prompt 0x8000 _ example_stubs example_stubs_ok
    7%nat _ boot_devices t _ _)|done|].
  - unfold block_ok, NULL. vm_compute. repeat split; try congruence. left. congruence.
  - discriminate.
  - split; [exact boot_registry|exact (flag_context _ kernel_at_init_context)|exact Ht|]. intros [|[|]] Hi; [..|lia]; by rewrite Hh.
  - intros d Hd. assert (d = 0 \/ d = 1 \/ d = 2 \/ d = 3) as [-> | [-> | [-> | ->]]] by lia; (split; [vm_compute; reflexivity|intros _; vm_compute; reflexivity]).
  - intros [st' t'] (_ & [_ _ _ (bs & Ea & Hs)] & _).
    assert (filter (usable example_identity) [0; 1; 2; 3] = [0; 1; 2]) as E by (vm_compute; reflexivity). rewrite E in Hs.
    assert (Ef : forall d, d = 0 \/ d = 1 \/ d = 2 -> fits (disk_size example_identity d) (numbered 0
      (found_parts (sectors_of example_identity three_ticks (fun _ => new_disks) (driver boot_devices) d 0) (disk_size example_identity d))) =
      if d =? 1 then [] else [(1, (0x20, 2, 50))]) by (intros d [-> | [-> | ->]]; vm_compute; reflexivity).
    destruct Hs as (b1 & p1 & q1 & -> & (r1 & B1 & S1) & P1 & b2 & p2 & q2 & -> & (r2 & B2 & S2) & P2 & b3 & p3 & q3 & -> & (r3 & B3 & S3) & P3 & ->).
    rewrite Ef in P1, P2, P3 by tauto. simpl in P1, P2, P3. apply Forall2_nil_inv_l in P2 as ->.
    apply Forall2_cons_inv_l in P1 as (b4 & ps1 & (r4 & w4 & B4 & S4 & _) & ->%Forall2_nil_inv_l & ->).
    apply Forall2_cons_inv_l in P3 as (b5 & ps3 & _ & ->%Forall2_nil_inv_l & ->).
    exists b1, b4, b2, b3, b5, r1, r4, r2, r3. assert (E1 : disk_size example_identity 0 = 100) by (vm_compute; reflexivity). unfold shape in *. rewrite E1 in S1.
    injection S1 as -> _ -> _ _. injection S2 as -> _ _ _ _. injection S3 as -> _ _ _ _. injection S4 as -> -> -> _ _. by rewrite Ea.
Defined.
