(* ===== verification/Intq.v ===== *)
(** * Interrupt queues (devices/intq.c)

    The circular buffer that device drivers share between interrupt handlers and threads,
    on the kernel machine of [Kernel].  [intq_getc] and [intq_putc] are split where they
    can sleep: [getc_try] and [putc_try] are one evaluation of the loop condition and,
    if the loop ends, all that follows; [wait] is the call inside the loop.  [contents] is
    the queue of bytes that the buffer stands for. *)

From stdpp Require Import base list gmap numbers.
From Stdlib Require Import ZArith Lia.
From S2P Require Import Prelude.
From S2P Require Import CString.
From S2P Require Import Kernel.

Local Open Scope Z_scope.

Definition INTQ_BUFSIZE : Z := 64.

(** struct intq; the lock is one of the kernel machine's. *)
Record intq := mk_intq {
  q_lock : lock_id;
  not_full : Z;
  not_empty : Z;
  q_buf : list Z;
  q_head : Z;
  q_tail : Z
}.

(** The address of one of the members not_full and not_empty. *)
Inductive waiter := Not_full | Not_empty.

Definition get_waiter (w : waiter) (q : intq) : Z :=
  match w with Not_full => not_full q | Not_empty => not_empty q end.

Definition set_waiter (w : waiter) (t : Z) (q : intq) : intq :=
  match w with
  | Not_full => mk_intq (q_lock q) t (not_empty q) (q_buf q) (q_head q) (q_tail q)
  | Not_empty => mk_intq (q_lock q) (not_full q) t (q_buf q) (q_head q) (q_tail q)
  end.

(** [q] is the memory of the queue before the call. *)
Definition intq_init (q : intq) (st : kstate) : intq * kstate :=
  (mk_intq (q_lock q) NULL NULL (q_buf q) 0 0, lock_init_st (q_lock q) st).

Definition next (pos : Z) : Z := Z.rem (i32 (pos + 1)) INTQ_BUFSIZE.

Definition intq_empty (q : intq) (st : kstate) : res bool :=
  ASSERT (negb (intr_get_level st));;
  Ok (q_head q =? q_tail q).

Definition intq_full (q : intq) (st : kstate) : res bool :=
  ASSERT (negb (intr_get_level st));;
  Ok (next (q_head q) =? q_tail q).

(** The condition that a thread recorded in [w] waits to become false. *)
Definition blocked_on (w : waiter) (q : intq) (st : kstate) : res bool :=
  match w with Not_full => intq_full q st | Not_empty => intq_empty q st end.

Definition wait (w : waiter) (q : intq) (st : kstate) : res (intq * kstate) :=
  ASSERT (negb (intr_context st));;
  ASSERT (negb (intr_get_level st));;
  b ← blocked_on w q st;
  ASSERT b;;
  t ← thread_current st;
  st ← thread_block st;
  Ok (set_waiter w t q, st).

Definition signal (w : waiter) (q : intq) (st : kstate) : res (intq * kstate) :=
  ASSERT (negb (intr_get_level st));;
  b ← blocked_on w q st;
  ASSERT (negb b);;
  if negb (get_waiter w q =? NULL) then
    st ← thread_unblock (get_waiter w q) st;
    Ok (set_waiter w NULL q, st)
  else Ok (q, st).

(** [intq_getc]: [None] when the queue is empty and the loop body is entered. *)
Definition getc_try (q : intq) (st : kstate) : res (option Z * intq * kstate) :=
  ASSERT (negb (intr_get_level st));;
  e ← intq_empty q st;
  if (e : bool) then
    ASSERT (negb (intr_context st));;
    Ok (None, q, st)
  else
    byte ← rd (q_buf q) (q_tail q);
    '(q, st) ← signal Not_full (mk_intq (q_lock q) (not_full q) (not_empty q) (q_buf q) (q_head q) (next (q_tail q))) st;
    Ok (Some byte, q, st).

(** [intq_putc]: [false] when the queue is full and the loop body is entered. *)
Definition putc_try (byte : Z) (q : intq) (st : kstate) : res (bool * intq * kstate) :=
  ASSERT (negb (intr_get_level st));;
  f ← intq_full q st;
  if (f : bool) then
    ASSERT (negb (intr_context st));;
    Ok (false, q, st)
  else
    b ← wr (q_buf q) (q_head q) byte;
    '(q, st) ← signal Not_empty (mk_intq (q_lock q) (not_full q) (not_empty q) b (next (q_head q)) (q_tail q)) st;
    Ok (true, q, st).

(** The two functions where the caller does not have to sleep. *)
Definition intq_getc (q : intq) (st : kstate) : res (Z * intq * kstate) :=
  '(r, q, st) ← getc_try q st;
  match r with Some byte => Ok (byte, q, st) | None => Err WouldBlock end.

Definition intq_putc (byte : Z) (q : intq) (st : kstate) : res (intq * kstate) :=
  '(done, q, st) ← putc_try byte q st;
  if (done : bool) then Ok (q, st) else Err WouldBlock.

(** ** The queue that the buffer stands for *)

Definition used (q : intq) : Z := (q_head q - q_tail q) mod INTQ_BUFSIZE.

Definition contents (q : intq) : list Z :=
  (fun k => nth (Z.to_nat ((q_tail q + k) mod INTQ_BUFSIZE)) (q_buf q) 0) <$> seqZ 0 (used q).

(** A thread is recorded as a waiter only while what it waits for is false. *)
Record intq_ok (q : intq) : Prop := mk_intq_ok {
  iq_buf : length (q_buf q) = 64%nat;
  iq_head : 0 <= q_head q < INTQ_BUFSIZE;
  iq_tail : 0 <= q_tail q < INTQ_BUFSIZE;
  iq_full : not_full q <> NULL -> length (contents q) = 63%nat;
  iq_empty : not_empty q <> NULL -> contents q = []
}.

Section Queue.
Implicit Types (q : intq) (st : kstate) (w : waiter).

Lemma next_mod pos : 0 <= pos < INTQ_BUFSIZE -> next pos = (pos + 1) mod INTQ_BUFSIZE.
Proof.
  unfold next, INTQ_BUFSIZE, i32. intros H.
  rewrite (Z.mod_small (pos + 1 + 2 ^ 31) (2 ^ 32)) by lia. rewrite Z.rem_mod_nonneg by lia. f_equal; lia.
Qed.

Lemma next_range pos : 0 <= pos < INTQ_BUFSIZE -> 0 <= next pos < INTQ_BUFSIZE.
Proof. intros H. rewrite next_mod by done. by apply Z.mod_pos_bound. Qed.

Lemma contents_length q : length (contents q) = Z.to_nat (used q).
Proof. unfold contents. by rewrite length_fmap, length_seqZ. Qed.

Lemma used_bound q : 0 <= used q < INTQ_BUFSIZE.
Proof. apply Z.mod_pos_bound. done. Qed.

Lemma contents_bound q : (length (contents q) <= 63)%nat.
Proof. rewrite contents_length. pose proof (used_bound q). unfold INTQ_BUFSIZE in *. lia. Qed.

Lemma used_nil q : 0 <= q_head q < INTQ_BUFSIZE -> 0 <= q_tail q < INTQ_BUFSIZE ->
  (q_head q =? q_tail q) = (used q =? 0).
Proof. unfold used, INTQ_BUFSIZE. intros. zcases; Z.div_mod_to_equations; lia. Qed.

Lemma used_full q : 0 <= q_head q < INTQ_BUFSIZE -> 0 <= q_tail q < INTQ_BUFSIZE ->
  (next (q_head q) =? q_tail q) = (used q =? 63).
Proof. intros Hh Ht. rewrite next_mod by done. unfold used, INTQ_BUFSIZE in *. zcases; Z.div_mod_to_equations; lia. Qed.

(** What [signal] does to the queue: it resets one waiter. *)
Lemma signal_inv w q st q' st' : signal w q st = Ok (q', st') ->
  q' = set_waiter w NULL q /\ blocked_on w q st = Ok false /\ intr_get_level st = false /\
  (st' = st \/ thread_unblock (get_waiter w q) st = Ok st').
Proof.
  unfold signal. intros H. inv_res. destruct a0; [done|].
  destruct (Z.eqb_spec (get_waiter w q) NULL) as [E|E]; simpl in H; inv_res; simplify_eq/=.
  - split; [|split; [done|split; [by destruct (intr_get_level st')|by left]]]. destruct q', w; simpl in *; by subst.
  - split; [done|split; [done|split; [by destruct (intr_get_level st)|by right]]].
Qed.

Lemma contents_waiter w t q : contents (set_waiter w t q) = contents q.
Proof. by destruct w. Qed.

Lemma contents_get q : length (q_buf q) = 64%nat -> 0 <= q_head q < INTQ_BUFSIZE -> 0 <= q_tail q < INTQ_BUFSIZE ->
  q_head q <> q_tail q ->
  contents q = nth (Z.to_nat (q_tail q)) (q_buf q) 0 ::
    contents (mk_intq (q_lock q) (not_full q) (not_empty q) (q_buf q) (q_head q) (next (q_tail q))).
Proof.
  intros Hb Hh Ht Hne. unfold contents, used. simpl. rewrite next_mod by done. unfold INTQ_BUFSIZE in *.
  replace ((q_head q - q_tail q) mod 64) with (Z.succ ((q_head q - (q_tail q + 1) mod 64) mod 64))
    by (Z.div_mod_to_equations; lia).
  pose proof (Z.mod_pos_bound (q_head q - (q_tail q + 1) mod 64) 64 ltac:(lia)).
  rewrite seqZ_cons by lia. rewrite fmap_cons. f_equal.
  - rewrite Z.add_0_r, Z.mod_small by lia. done.
  - rewrite Z.pred_succ. change (Z.succ 0) with (1 + 0). rewrite <- fmap_add_seqZ, <- list_fmap_compose. apply list_fmap_ext. intros _ k _.
    simpl. do 2 f_equal. Z.div_mod_to_equations; lia.
Qed.

Lemma contents_put q byte : length (q_buf q) = 64%nat -> 0 <= q_head q < INTQ_BUFSIZE -> 0 <= q_tail q < INTQ_BUFSIZE ->
  next (q_head q) <> q_tail q ->
  contents (mk_intq (q_lock q) (not_full q) (not_empty q) (<[Z.to_nat (q_head q) := byte]> (q_buf q)) (next (q_head q)) (q_tail q)) =
  contents q ++ [byte].
Proof.
  intros Hb Hh Ht. rewrite next_mod by done. intros Hne. unfold contents, used. simpl. unfold INTQ_BUFSIZE in *.
  replace (((q_head q + 1) mod 64 - q_tail q) mod 64) with ((q_head q - q_tail q) mod 64 + 1)
    by (Z.div_mod_to_equations; lia).
  pose proof (Z.mod_pos_bound (q_head q - q_tail q) 64 ltac:(lia)).
  rewrite seqZ_app by lia. rewrite fmap_app. f_equal.
  - apply list_fmap_ext. intros k x Hx. apply lookup_seqZ in Hx as [-> Hk].
    rewrite !nth_lookup, list_lookup_insert_ne; [done|].
    pose proof (Z.mod_pos_bound (q_tail q + (0 + Z.of_nat k)) 64 ltac:(lia)). intros E. apply Z2Nat.inj in E; [|lia..].
    Z.div_mod_to_equations; lia.
  - change (seqZ (0 + (q_head q - q_tail q) mod 64) 1) with [0 + (q_head q - q_tail q) mod 64]. simpl. f_equal.
    replace ((q_tail q + (0 + (q_head q - q_tail q) mod 64)) mod 64) with (q_head q) by (Z.div_mod_to_equations; lia).
    rewrite nth_lookup. rewrite list_lookup_insert_eq by lia. done.
Qed.

Lemma getc_inv q st r q' st' : intq_ok q -> getc_try q st = Ok (r, q', st') ->
  intq_ok q' /\ q_lock q' = q_lock q /\
  match r with
  | None => q' = q /\ st' = st /\ contents q = []
  | Some byte => contents q = byte :: contents q'
  end.
Proof.
  intros [Hb Hh Ht Hf He] H. unfold getc_try in H. inv_res. unfold intq_empty in Ha0. inv_res. subst.
  destruct (Z.eqb_spec (q_head q) (q_tail q)) as [E|E]; inv_res; simplify_eq.
  { repeat split; try done; try lia. unfold contents, used. by rewrite E, Z.sub_diag. }
  destruct a0 as [q1 st1]. inv_res. simplify_eq. apply signal_inv in Ha2 as (-> & Hbl & _).
  rewrite (rd_default _ _ 0) in Ha0 by (unfold INTQ_BUFSIZE in *; lia). simplify_eq.
  pose proof (contents_get q Hb Hh Ht E) as Hc. rewrite contents_waiter. split; [|done].
  pose proof (next_range (q_tail q) Ht). split; simpl; try done.
  intros Hn. apply He in Hn. by rewrite Hn in Hc.
Qed.

Lemma putc_inv byte q st r q' st' : intq_ok q -> putc_try byte q st = Ok (r, q', st') ->
  intq_ok q' /\ q_lock q' = q_lock q /\
  if r then contents q' = contents q ++ [byte] else q' = q /\ st' = st /\ length (contents q) = 63%nat.
Proof.
  intros [Hb Hh Ht Hf He] H. unfold putc_try in H. inv_res. unfold intq_full in Ha0. inv_res. subst.
  destruct (Z.eqb_spec (next (q_head q)) (q_tail q)) as [E|E]; inv_res; simplify_eq.
  { repeat split; try done; try lia. rewrite contents_length. apply Z.eqb_eq in E. rewrite used_full in E by done. lia. }
  destruct a0 as [q1 st1]. inv_res. simplify_eq. apply signal_inv in Ha2 as (-> & Hbl & _).
  apply wr_ok_inv in Ha0 as [_ ->]. pose proof (contents_put q byte Hb Hh Ht E) as Hc. rewrite contents_waiter. split; [|done].
  pose proof (next_range (q_head q) Hh). split; simpl; try done; [by rewrite length_insert|].
  intros Hn. apply Hf in Hn. exfalso. apply E, Z.eqb_eq. rewrite used_full by done. rewrite contents_length in Hn. lia.
Qed.

Lemma wait_inv w q st q' st' : intq_ok q -> wait w q st = Ok (q', st') ->
  intq_ok q' /\ q_lock q' = q_lock q /\ contents q' = contents q.
Proof.
  intros [Hb Hh Ht Hf He] H. unfold wait in H. inv_res. simplify_eq. rewrite contents_waiter.
  assert (match w with Not_full => length (contents q) = 63%nat | Not_empty => contents q = [] end) as Hw.
  { destruct w; simpl in Ha1; unfold intq_full, intq_empty in Ha1; inv_res; [rewrite used_full in Ha1 by done|rewrite used_nil in Ha1 by done]; apply Z.eqb_eq in Ha1.
    - rewrite contents_length. lia.
    - apply length_zero_iff_nil. rewrite contents_length. lia. }
  destruct w; (split; [split; simpl; done|done]).
Qed.

Lemma intq_init_ok q st : length (q_buf q) = 64%nat ->
  intq_ok (intq_init q st).1 /\ contents (intq_init q st).1 = [] /\ q_lock (intq_init q st).1 = q_lock q.
Proof. intros H. split; [by split|done]. Qed.
End Queue.
