(* ===== verification/CharIo.v ===== *)
(** * Character input and output (devices/serial.c, devices/input.c, devices/kbd.c)

    The drivers of the serial port and the keyboard and the input buffer between them, as
    one machine on top of [Kernel]: threads that call [input_getc], [serial_putc] and
    [serial_flush], and the interrupts of the timer, the keyboard and the serial port,
    dispatched through the tables of [IntrTable].

    A thread that sleeps in a queue resumes there later; the rest of what its driver
    function has to do is a list of points in [conts], below the thread's own [code].
    Everything between two points runs with interrupts off.

    [accepted], [stored] and [taken] are the bytes so far handed to the serial port by
    [serial_putc], put into the input buffer, and returned by [input_getc]. *)

From stdpp Require Import base list gmap numbers strings.
From Stdlib Require Import ZArith Lia.
From S2P Require Import Prelude CString Ports IntrTable Kernel Pit Kbd Intq.

Local Open Scope Z_scope.

(** ** Registers of the 16550A *)

Definition IO_BASE : Z := 0x3f8.
Definition RBR_REG : Z := IO_BASE + 0.
Definition THR_REG : Z := IO_BASE + 0.
Definition IER_REG : Z := IO_BASE + 1.
Definition LS_REG : Z := IO_BASE + 0.
Definition MS_REG : Z := IO_BASE + 1.
Definition IIR_REG : Z := IO_BASE + 2.
Definition FCR_REG : Z := IO_BASE + 2.
Definition LCR_REG : Z := IO_BASE + 3.
Definition MCR_REG : Z := IO_BASE + 4.
Definition LSR_REG : Z := IO_BASE + 5.
Definition IER_RECV : Z := 0x01.
Definition IER_XMIT : Z := 0x02.
Definition LCR_N81 : Z := 0x03.
Definition LCR_DLAB : Z := 0x80.
Definition MCR_OUT2 : Z := 0x08.
Definition LSR_DR : Z := 0x01.
Definition LSR_THRE : Z := 0x20.

(** ** State *)

(** Transmission mode. *)
Inductive serial_mode := UNINIT | POLL | QUEUE.

(** The handlers that this kernel registers for external interrupts. *)
Inductive irq := Timer_irq | Keyboard_irq | Serial_irq.

(** Where a thread can sleep inside [input_getc] and [serial_putc]; [old] is the
    interrupt level on entry. *)
Inductive point :=
| Getc_loop (old : bool) | Getc_wait | Getc_release
| Putc_loop (byte : Z) (old : bool) | Putc_wait | Putc_release.

Record io := mk_io {
  kst : kstate;
  irqs : intr_table irq;
  buffer : intq;                 (* devices/input.c *)
  txq : intq;                    (* devices/serial.c *)
  mode : serial_mode;
  kbd : kbd_state;
  trace : list io_event;
  messages : list (Z * string);  (* unexpected interrupts reported by printf *)
  conts : gmap Z (list point);
  accepted : list Z;
  stored : list Z;
  taken : list Z
}.

Definition set_kst (s : io) (v : kstate) : io :=
  mk_io v (irqs s) (buffer s) (txq s) (mode s) (kbd s) (trace s) (messages s) (conts s) (accepted s) (stored s) (taken s).
Definition set_irqs (s : io) (v : intr_table irq) : io :=
  mk_io (kst s) v (buffer s) (txq s) (mode s) (kbd s) (trace s) (messages s) (conts s) (accepted s) (stored s) (taken s).
Definition set_buffer (s : io) (v : intq) : io :=
  mk_io (kst s) (irqs s) v (txq s) (mode s) (kbd s) (trace s) (messages s) (conts s) (accepted s) (stored s) (taken s).
Definition set_txq (s : io) (v : intq) : io :=
  mk_io (kst s) (irqs s) (buffer s) v (mode s) (kbd s) (trace s) (messages s) (conts s) (accepted s) (stored s) (taken s).
Definition set_mode (s : io) (v : serial_mode) : io :=
  mk_io (kst s) (irqs s) (buffer s) (txq s) v (kbd s) (trace s) (messages s) (conts s) (accepted s) (stored s) (taken s).
Definition set_kbd (s : io) (v : kbd_state) : io :=
  mk_io (kst s) (irqs s) (buffer s) (txq s) (mode s) v (trace s) (messages s) (conts s) (accepted s) (stored s) (taken s).
Definition set_trace (s : io) (v : list io_event) : io :=
  mk_io (kst s) (irqs s) (buffer s) (txq s) (mode s) (kbd s) v (messages s) (conts s) (accepted s) (stored s) (taken s).
Definition set_messages (s : io) (v : list (Z * string)) : io :=
  mk_io (kst s) (irqs s) (buffer s) (txq s) (mode s) (kbd s) (trace s) v (conts s) (accepted s) (stored s) (taken s).
Definition set_conts (s : io) (v : gmap Z (list point)) : io :=
  mk_io (kst s) (irqs s) (buffer s) (txq s) (mode s) (kbd s) (trace s) (messages s) v (accepted s) (stored s) (taken s).
Definition log_accepted (byte : Z) (s : io) : io :=
  mk_io (kst s) (irqs s) (buffer s) (txq s) (mode s) (kbd s) (trace s) (messages s) (conts s) (accepted s ++ [byte]) (stored s) (taken s).
Definition log_stored (byte : Z) (s : io) : io :=
  mk_io (kst s) (irqs s) (buffer s) (txq s) (mode s) (kbd s) (trace s) (messages s) (conts s) (accepted s) (stored s ++ [byte]) (taken s).
Definition log_taken (byte : Z) (s : io) : io :=
  mk_io (kst s) (irqs s) (buffer s) (txq s) (mode s) (kbd s) (trace s) (messages s) (conts s) (accepted s) (stored s) (taken s ++ [byte]).

(** The rest of the running thread's driver function. *)
Definition conts_of (s : io) : list point := default [] (conts s !! current (kst s)).
Definition put_conts (ps : list point) (s : io) : io := set_conts s (<[current (kst s) := ps]> (conts s)).

Section Drivers.
Context {D : Device} {PC : PageChoice} (intr_stubs : Z -> Z) (idt_base : Z).
Implicit Types (s : io) (byte : Z).

Definition port_in (port : Z) s : Z * io := let '(v, tr) := inb port (trace s) in (v, set_trace s tr).
Definition port_out (port v : Z) s : io := set_trace s (outb port v (trace s)).

Definition level s : bool := intr_get_level (kst s).
Definition disable s : io := set_kst s (intr_disable (kst s)).
Definition restore (old : bool) s : res io := k ← intr_set_level old (kst s); Ok (set_kst s k).

(** ** devices/serial.c, devices/input.c *)

Definition input_full s : res bool :=
  ASSERT (negb (level s));;
  intq_full (buffer s) (kst s).

Definition write_ier s : res io :=
  ASSERT (negb (level s));;
  e ← intq_empty (txq s) (kst s);
  let ier := if negb e then IER_XMIT else 0 in
  f ← input_full s;
  let ier := if negb f then Z.lor ier IER_RECV else ier in
  Ok (port_out IER_REG ier s).

Definition serial_notify s : res io :=
  ASSERT (negb (level s));;
  match mode s with QUEUE => write_ier s | _ => Ok s end.

Definition set_serial (bps : Z) s : res io :=
  let base_rate := Z.quot 1843200 16 in
  let divisor := u16 (Z.quot base_rate bps) in
  ASSERT ((300 <=? bps) && (bps <=? 115200));;
  let s := port_out LCR_REG (Z.lor LCR_N81 LCR_DLAB) s in
  let s := port_out LS_REG (Z.land divisor 0xff) s in
  let s := port_out MS_REG (Z.shiftr divisor 8) s in
  Ok (port_out LCR_REG LCR_N81 s).

Definition init_poll s : res io :=
  ASSERT (match mode s with UNINIT => true | _ => false end);;
  let s := port_out IER_REG 0 s in
  let s := port_out FCR_REG 0 s in
  s ← set_serial 9600 s;
  let s := port_out MCR_REG MCR_OUT2 s in
  let '(q, k) := intq_init (txq s) (kst s) in
  Ok (set_mode (set_txq (set_kst s k) q) POLL).

Definition putc_poll byte s : res io :=
  ASSERT (negb (level s));;
  s ← while (fun s =>
    let '(v, s) := port_in LSR_REG s in
    if Z.land v LSR_THRE =? 0 then Ok (inl s) else Ok (inr s)) s;
  Ok (port_out THR_REG byte s).

(** intq_getc (&txq), where it does not sleep. *)
Definition txq_getc s : res (Z * io) :=
  '(byte, q, k) ← intq_getc (txq s) (kst s);
  Ok (byte, set_txq (set_kst s k) q).

Definition input_putc byte s : res io :=
  ASSERT (negb (level s));;
  f ← intq_full (buffer s) (kst s);
  ASSERT (negb f);;
  '(q, k) ← intq_putc byte (buffer s) (kst s);
  serial_notify (log_stored byte (set_buffer (set_kst s k) q)).

(** [serial_putc] from its call of [intq_putc] on: one evaluation of the queue's loop
    condition.  When the queue is full the thread goes to sleep on it. *)
Definition putc_loop byte (old : bool) s : res io :=
  '(done, q, k) ← putc_try byte (txq s) (kst s);
  if (done : bool) then
    s ← write_ier (log_accepted byte (set_txq (set_kst s k) q));
    restore old s
  else
    Ok (put_conts (Putc_wait :: Putc_release :: Putc_loop byte old :: conts_of s)
          (set_kst s (push_code (acquire_code (q_lock (txq s))) (kst s)))).

Definition serial_putc byte s : res io :=
  let old := level s in
  let s := disable s in
  match mode s with
  | QUEUE =>
    f ← (if negb old then intq_full (txq s) (kst s) else Ok false);
    s ← (if (f : bool) then '(b, s) ← txq_getc s; putc_poll b s else Ok s);
    putc_loop byte old s
  | m =>
    s ← (match m with UNINIT => init_poll s | _ => Ok s end);
    s ← putc_poll byte (log_accepted byte s);
    restore old s
  end.

Definition serial_flush s : res io :=
  let old := level s in
  s ← while (fun s =>
    e ← intq_empty (txq s) (kst s);
    if negb e then '(b, s) ← txq_getc s; s ← putc_poll b s; Ok (inl s)
    else Ok (inr s)) (disable s);
  restore old s.

Definition serial_init_queue s : res io :=
  s ← (match mode s with UNINIT => init_poll s | _ => Ok s end);
  ASSERT (match mode s with POLL => true | _ => false end);;
  t ← intr_register_ext intr_stubs (0x20 + 4) Serial_irq "serial"%string (irqs s);
  let s := set_mode (set_irqs s t) QUEUE in
  let old := level s in
  s ← write_ier (disable s);
  restore old s.

Definition serial_interrupt s : res io :=
  let '(_, s) := port_in IIR_REG s in
  s ← while (fun s =>
    f ← input_full s;
    if negb f then
      let '(v, s) := port_in LSR_REG s in
      if negb (Z.land v LSR_DR =? 0) then
        let '(b, s) := port_in RBR_REG s in
        s ← input_putc b s;
        Ok (inl s)
      else Ok (inr s)
    else Ok (inr s)) s;
  s ← while (fun s =>
    e ← intq_empty (txq s) (kst s);
    if negb e then
      let '(v, s) := port_in LSR_REG s in
      if negb (Z.land v LSR_THRE =? 0) then
        '(b, s) ← txq_getc s;
        Ok (inl (port_out THR_REG b s))
      else Ok (inr s)
    else Ok (inr s)) s;
  write_ier s.

(** [input_getc] from its call of [intq_getc] on, up to where it sleeps. *)
Definition getc_loop (old : bool) s : res io :=
  '(r, q, k) ← getc_try (buffer s) (kst s);
  match r with
  | Some byte =>
    s ← serial_notify (log_taken byte (set_buffer (set_kst s k) q));
    restore old s
  | None =>
    Ok (put_conts (Getc_wait :: Getc_release :: Getc_loop old :: conts_of s)
          (set_kst s (push_code (acquire_code (q_lock (buffer s))) (kst s))))
  end.

Definition input_getc s : res io := getc_loop (level s) (disable s).

(** Where a thread continues. *)
Definition exec_point (p : point) s : res io :=
  match p with
  | Getc_loop old => getc_loop old s
  | Getc_wait => '(q, k) ← wait Not_empty (buffer s) (kst s); Ok (set_buffer (set_kst s k) q)
  | Getc_release => Ok (set_kst s (push_code (release_code (q_lock (buffer s))) (kst s)))
  | Putc_loop byte old => putc_loop byte old s
  | Putc_wait => '(q, k) ← wait Not_full (txq s) (kst s); Ok (set_txq (set_kst s k) q)
  | Putc_release => Ok (set_kst s (push_code (release_code (q_lock (txq s))) (kst s)))
  end.

(** ** devices/kbd.c *)

Definition read_scancode s : Z * io :=
  let '(code, s) := port_in DATA_REG s in
  if code =? 0xe0 then let '(c, s) := port_in DATA_REG s in (Z.lor (Z.shiftl code 8) c, s) else (code, s).

Definition keyboard_interrupt s : res io :=
  let '(code, s) := read_scancode s in
  let '(r, k) := interpret_key code (kbd s) in
  let s := set_kbd s k in
  match r with
  | No_char => Ok s
  | Reboot => Err MachineOff
  | Char c =>
    f ← input_full s;
    if negb f then input_putc c (set_kbd s (count_key (kbd s))) else Ok s
  end.

(** ** threads/interrupt.c *)

Definition call_handler (h : irq) s : res io :=
  match h with
  | Timer_irq => k ← run_handler Timer_interrupt (kst s); Ok (set_kst s k)
  | Keyboard_irq => keyboard_interrupt s
  | Serial_irq => serial_interrupt s
  end.

(** [intr_handler] for the external interrupt [vec]; see [Kernel.intr_handler] for the
    entry through the gate.  The message of an unexpected interrupt goes to [messages]. *)
Definition external_interrupt (vec : Z) s : res io :=
  let s := set_kst s (intr_disable (upd_thread (kst s) (current (kst s)) leave_halt)) in
  ASSERT (negb (level s));;
  ASSERT (negb (intr_context (kst s)));;
  let s := set_kst s (set_intr (kst s) (mk_cpu (intr_flag (intr (kst s))) true false)) in
  h ← rd (intr_handlers (irqs s)) vec;
  s ← match h with
      | Some h => call_handler h s
      | None =>
        if (vec =? 0x27) || (vec =? 0x2f) then Ok s
        else
          '(msg, t) ← unexpected_interrupt vec (irqs s);
          name ← intr_name vec t;
          let s := set_irqs s t in
          Ok (if (msg : bool) then set_messages s (messages s ++ [(vec, name)]) else s)
      end;
  ASSERT (negb (level s));;
  ASSERT (intr_context (kst s));;
  let yield := yield_on_return (intr (kst s)) in
  let s := set_kst s (set_intr (kst s) (mk_cpu (intr_flag (intr (kst s))) false yield)) in
  tr ← pic_end_of_interrupt vec (trace s);
  let s := set_trace s tr in
  let k := push_code [Iret] (kst s) in
  k ← (if yield then thread_yield k else Ok k);
  Ok (set_kst s k).

(** ** Initialisation, in the order of main *)

Definition timer_init s : res io :=
  '(k, tr) ← pit_configure_channel 0 2 TIMER_FREQ (kst s) (trace s);
  t ← intr_register_ext intr_stubs 0x20 Timer_irq "8254 Timer"%string (irqs s);
  Ok (set_irqs (set_trace (set_kst s k) tr) t).

Definition kbd_init s : res io :=
  t ← intr_register_ext intr_stubs 0x21 Keyboard_irq "8042 Keyboard"%string (irqs s);
  Ok (set_irqs s t).

Definition input_init s : io :=
  let '(q, k) := intq_init (buffer s) (kst s) in set_buffer (set_kst s k) q.

(** Static variables before [main]; the queues' locks are two of the kernel machine's. *)
Definition zero_intq (l : lock_id) : intq := mk_intq l NULL NULL (replicate 64 0) 0 0.
Definition input_lock : lock_id := UserLock (-1).
Definition serial_lock : lock_id := UserLock (-2).
Definition io_zero (k : kstate) : io :=
  mk_io k zero_table (zero_intq input_lock) (zero_intq serial_lock) UNINIT (no_keys false 0) [] [] ∅ [] [] [].

(** [main] from [thread_init] to the return of [thread_start], as in [Kernel.boot]. *)
Definition io_boot (t : Z) (pages : gset Z) : res io :=
  k ← thread_init (boot_state t pages);
  let s := io_zero (lock_init_st PoolLock k) in
  '(tab, tr) ← intr_init intr_stubs idt_base (irqs s) (trace s);
  s ← timer_init (set_trace (set_irqs s tab) tr);
  s ← kbd_init s;
  let s := input_init s in
  k ← runs 23 (thread_start 0 (kst s));
  Ok (set_kst s k).

(** ** The machine *)

Inductive io_action :=
| Step                          (* the running thread's next point *)
| Invoke (a : call)             (* its function calls into the kernel *)
| Input_getc | Serial_putc (byte : Z) | Serial_flush | Serial_init_queue
| Irq (vec : Z).

(** The running thread executes its own function. *)
Definition in_own_code s : res bool :=
  c ← get_thread (kst s) (current (kst s));
  Ok (match code c, conts_of s with [], [] => true | _, _ => false end).

Definition io_act (a : io_action) s : res io :=
  match a with
  | Step =>
    c ← get_thread (kst s) (current (kst s));
    match code c, conts_of s with
    | _ :: _, _ => k ← run (kst s); Ok (set_kst s k)
    | [], p :: ps => exec_point p (put_conts ps s)
    | [], [] => Err WouldBlock
    end
  | Irq vec => if level s && (0x20 <=? vec) && (vec <? 0x30) then external_interrupt vec s else Err WouldBlock
  | _ =>
    own ← in_own_code s;
    if (own : bool) then
      match a with
      | Invoke a => Ok (set_kst s (push_code (call_code (current (kst s)) a) (kst s)))
      | Input_getc => input_getc s
      | Serial_putc byte => serial_putc (u8 byte) s
      | Serial_flush => serial_flush s
      | _ => serial_init_queue s
      end
    else Err WouldBlock
  end.

Definition io_step s s' : Prop := exists a, io_act a s = Ok s'.
End Drivers.
