(* ===== verification/CharIoSpec.v ===== *)
(** * Character input and output: correctness

    What the machine of [CharIo] does, in every state it reaches: the bytes that leave the
    serial port are those handed to [serial_putc], in order; those that [input_getc]
    returns are those that the keyboard and the port delivered, in order; and the
    interrupts of the port are armed whenever there is something to send or room to
    receive. *)

From stdpp Require Import base list gmap numbers strings relations.
From Stdlib Require Import ZArith Lia.
From S2P Require Import Prelude CString Ports IntrTable Kernel Pit Kbd Intq CharIo KernelSpec.

Local Open Scope Z_scope.

(** ** The serial port

    What the 16550A makes of the accesses: while DLAB is set the first two ports are the
    divisor; otherwise they are the data registers and the interrupt enable register. *)
Record uart := mk_uart { u_dlab : bool; u_sent : list Z; u_received : list Z; u_ier : Z }.

Definition uart_step (u : uart) (e : io_event) : uart :=
  match e with
  | Out p v =>
    if p =? LCR_REG then mk_uart (Z.testbit v 7) (u_sent u) (u_received u) (u_ier u)
    else if u_dlab u then u
    else if p =? THR_REG then mk_uart false (u_sent u ++ [v]) (u_received u) (u_ier u)
    else if p =? IER_REG then mk_uart false (u_sent u) (u_received u) v
    else u
  | In p v =>
    if (p =? RBR_REG) && negb (u_dlab u) then mk_uart false (u_sent u) (u_received u ++ [v]) (u_ier u) else u
  | Outw _ _ | Inw _ _ | Pause => u
  end.

Definition uart_of (tr : list io_event) : uart := foldl uart_step (mk_uart false [] [] 0) tr.

(** ** The invariant *)

(** A thread sleeps in [serial_putc] only once the port is in queued mode. *)
Definition point_ok (m : serial_mode) (p : point) : Prop :=
  match p with Putc_loop byte _ => 0 <= byte < 256 /\ m = QUEUE | Putc_wait | Putc_release => m = QUEUE | _ => True end.

Lemma points_mode m m' ps : m <> QUEUE -> Forall (point_ok m) ps -> Forall (point_ok m') ps.
Proof. intros Hm Hp. eapply Forall_impl; [exact Hp|]. intros []; simpl; naive_solver. Qed.

(** What holds also in the middle of a driver function: queues are well-formed, nothing
    is lost, duplicated or reordered.  [out] has been taken from the transmit queue and
    not yet been sent, [inp] has been received and not yet been stored. *)
Record flows_upto (out inp : list Z) (s : io) : Prop := mk_flows {
  fl_buffer : intq_ok (buffer s);
  fl_txq : intq_ok (txq s);
  fl_in : stored s = taken s ++ contents (buffer s);
  fl_out : accepted s = u_sent (uart_of (trace s)) ++ out ++ contents (txq s);
  fl_bytes : Forall (fun b => 0 <= b < 256) (accepted s);
  fl_received : sublist (u_received (uart_of (trace s))) (stored s ++ inp);
  fl_dlab : u_dlab (uart_of (trace s)) = false;
  fl_poll : mode s <> QUEUE -> contents (txq s) = [];
  fl_conts : forall t ps, conts s !! t = Some ps -> Forall (point_ok (mode s)) ps
}.
Definition flows : io -> Prop := flows_upto [] [].

(** Between driver functions the port's interrupts are armed where they have to be. *)
Definition armed (s : io) : Prop := mode s = QUEUE ->
  (contents (txq s) <> [] -> Z.testbit (u_ier (uart_of (trace s))) 1 = true) /\
  ((length (contents (buffer s)) < 63)%nat -> Z.testbit (u_ier (uart_of (trace s))) 0 = true).

Definition io_ok (s : io) : Prop := flows s /\ armed s.

(** The parts of the state that these speak about. *)
Definition io_view (s : io) := (buffer s, txq s, mode s, trace s, conts s, (accepted s, stored s, taken s)).

Lemma view_flows out inp s s' : io_view s' = io_view s -> flows_upto out inp s -> flows_upto out inp s'.
Proof. intros [= E1 E2 E3 E4 E5 E6 E7 E8] []. split; rewrite ?E1, ?E2, ?E3, ?E4, ?E5, ?E6, ?E7, ?E8; done. Qed.

Lemma view_armed s s' : io_view s' = io_view s -> armed s -> armed s'.
Proof. intros [= E1 E2 E3 E4 E5 E6 E7 E8]. unfold armed. by rewrite E1, E2, E3, E4. Qed.

Lemma view_ok s s' : io_view s' = io_view s -> io_ok s -> io_ok s'.
Proof. intros E [Hf Ha]. split; [by apply (view_flows _ _ s)|by apply (view_armed s)]. Qed.

(** Takes apart the equation of a run that ended, through pairs. *)
Ltac inv_run :=
  repeat (inv_res; match goal with
    | p : (_ * _)%type |- _ => destruct p
    end); inv_res; cbv beta iota in *.

Section Spec.
Context {D : Device} {PC : PageChoice} (intr_stubs : Z -> Z) (idt_base : Z).
Implicit Types (s : io) (byte : Z) (out inp : list Z).

Lemma uart_snoc tr e : uart_of (tr ++ [e]) = uart_step (uart_of tr) e.
Proof. unfold uart_of. by rewrite foldl_app. Qed.

(** Accesses that the data flow does not depend on. *)
Lemma trace_flows out inp s tr : uart_of tr = uart_of (trace s) -> flows_upto out inp s -> flows_upto out inp (set_trace s tr).
Proof. intros E []. split; simpl; rewrite ?E; done. Qed.

Lemma trace_armed s tr : uart_of tr = uart_of (trace s) -> armed s -> armed (set_trace s tr).
Proof. intros E. unfold armed. simpl. by rewrite E. Qed.

Lemma uart_in port v tr : port <> RBR_REG -> uart_of (tr ++ [In port v]) = uart_of tr.
Proof. intros Hp. rewrite uart_snoc. simpl. by rewrite (proj2 (Z.eqb_neq _ _) Hp). Qed.

Lemma restore_view old s s' : restore old s = Ok s' -> io_view s' = io_view s.
Proof. unfold restore. intros H. inv_res. by subst. Qed.

(** Writing the interrupt enable register. *)
Lemma out_ier v s : flows s -> flows (port_out IER_REG v s) /\ u_ier (uart_of (trace (port_out IER_REG v s))) = u8 v.
Proof.
  intros []. simpl. unfold outb. assert (uart_of (trace s ++ [Out IER_REG (u8 v)]) =
    mk_uart false (u_sent (uart_of (trace s))) (u_received (uart_of (trace s))) (u8 v)) as E.
  { rewrite uart_snoc. simpl. by rewrite fl_dlab0. }
  split; [|by rewrite E]. split; simpl; unfold outb; rewrite ?E; done.
Qed.

(** [write_ier] arms the interrupts. *)
Lemma write_ier_inv s s' : flows s -> write_ier s = Ok s' -> io_ok s' /\ mode s' = mode s.
Proof.
  intros Hf H. unfold write_ier, input_full, intq_empty, intq_full in H. inv_res. subst.
  rewrite used_nil by (apply Hf). rewrite used_full by (apply Hf).
  set (v := if negb (used (buffer s) =? 63) then _ else _). destruct (out_ier v s Hf) as [Hf' E]. split; [|done].
  split; [done|]. unfold armed. rewrite E. simpl. intros _. rewrite contents_length. subst v.
  assert (contents (txq s) <> [] -> used (txq s) <> 0) as Ht.
  { intros Hne E0. apply Hne, length_zero_iff_nil. rewrite contents_length. lia. }
  destruct (Z.eqb_spec (used (buffer s)) 63), (Z.eqb_spec (used (txq s)) 0); simpl; split; intros; try done; try lia.
  all: by destruct Ht.
Qed.

Lemma serial_notify_inv s s' : flows s -> serial_notify s = Ok s' -> io_ok s' /\ mode s' = mode s.
Proof.
  intros Hf H. unfold serial_notify in H. inv_res. destruct (mode s) eqn:Em; [| |rewrite <- Em; by apply write_ier_inv].
  all: simplify_eq; split; [|done]; split; [done|]; intros E; congruence.
Qed.

(** A byte leaves the transmit queue. *)
Lemma txq_getc_inv s byte s' : flows s -> txq_getc s = Ok (byte, s') ->
  flows_upto [byte] [] s' /\ (armed s -> armed s') /\ contents (txq s) = byte :: contents (txq s') /\
  mode s' = mode s.
Proof.
  intros Hf H. unfold txq_getc, intq_getc in H. inv_res. destruct a as [[b q] k]. inv_res. destruct a0 as [[r q1] k1].
  destruct r as [b1|]; inv_res. simplify_eq. apply getc_inv in Ha0 as (Hq & _ & Hc); [|apply Hf].
  split; [|split; [|done]].
  - destruct Hf. split; simpl; try done.
    + by rewrite fl_out0, Hc.
    + intros Hm. by rewrite fl_poll0 in Hc.
  - intros Ha Hm. destruct (Ha Hm) as [H1 H2]. split; simpl; [|done]. intros _. apply H1. by rewrite Hc.
Qed.

(** ... and goes to the port. *)
Lemma out_thr byte s : flows_upto [byte] [] s -> flows (port_out THR_REG byte s) /\
  u_ier (uart_of (trace (port_out THR_REG byte s))) = u_ier (uart_of (trace s)).
Proof.
  intros []. assert (u8 byte = byte) as Eb.
  { apply Z.mod_small. rewrite fl_out0, !Forall_app, Forall_singleton in fl_bytes0. apply fl_bytes0. }
  assert (uart_of (outb THR_REG byte (trace s)) =
    mk_uart false (u_sent (uart_of (trace s)) ++ [byte]) (u_received (uart_of (trace s))) (u_ier (uart_of (trace s)))) as E.
  { unfold outb. rewrite uart_snoc. simpl. by rewrite fl_dlab0, Eb. }
  split; [|simpl; by rewrite E]. split; simpl; rewrite ?E; try done. simpl. by rewrite <- app_assoc.
Qed.

Lemma putc_poll_inv byte s s' : flows_upto [byte] [] s -> putc_poll byte s = Ok s' ->
  flows s' /\ (armed s -> armed s') /\ io_view (set_trace s' (trace s)) = io_view s /\ kst s' = kst s.
Proof.
  intros Hf H. unfold putc_poll in H. inv_res.
  set (I := fun s1 => flows_upto [byte] [] s1 /\ (armed s -> armed s1) /\ io_view (set_trace s1 (trace s)) = io_view s /\
    kst s1 = kst s /\ u_ier (uart_of (trace s1)) = u_ier (uart_of (trace s))).
  assert (I a0) as (Hf1 & Ha1 & Hv1 & Hk1 & Hi1).
  { refine (while_inv I I _ s a0 _ _ Ha0); [|done].
    clear a0 Ha0 H. intros s1 x (H1 & H2 & H3 & H4 & H5) Hb. simpl in Hb.
    assert (uart_of (trace s1 ++ [In LSR_REG (u8 (dev (trace s1) LSR_REG))]) = uart_of (trace s1)) as E by by apply uart_in.
    destruct (Z.land _ LSR_THRE =? 0); injection Hb as <-; (split; [by apply trace_flows|]; split; [intros; apply trace_armed; auto|];
      split; [exact H3|]; split; [done|]; simpl; by rewrite E). }
  subst s'. destruct (out_thr byte a0 Hf1) as [Hf2 Hi2]. split; [done|]. split; [|done].
  intros Harm Hm. specialize (Ha1 Harm Hm). rewrite Hi2. exact Ha1.
Qed.

(** A byte from the queue to the port, as [serial_flush] and [serial_putc] do it. *)
Lemma send_one s byte s1 s2 : flows s -> txq_getc s = Ok (byte, s1) -> putc_poll byte s1 = Ok s2 ->
  flows s2 /\ (armed s -> armed s2) /\ mode s2 = mode s.
Proof.
  intros Hf H1 H2. apply txq_getc_inv in H1 as (Hf1 & Ha1 & _ & Hm1); [|done].
  apply putc_poll_inv in H2 as (Hf2 & Ha2 & [= _ _ Hm2 _ _ _ _] & _); [|done]. split; [done|]. split; [auto|]. congruence.
Qed.

Lemma input_putc_inv byte s s' : flows_upto [] [byte] s -> input_putc byte s = Ok s' -> io_ok s' /\ mode s' = mode s.
Proof.
  intros Hf H. unfold input_putc, intq_putc in H. inv_run. apply putc_inv in Ha3 as (Hq & _ & Hc); [|apply Hf].
  destruct b; inv_run; try done. simplify_eq. apply serial_notify_inv in H; [done|]. destruct Hf. split; simpl; try done.
  - by rewrite Hc, fl_in0, app_assoc.
  - by rewrite app_nil_r.
Qed.

(** Reading the receive buffer. *)
Lemma in_rbr s byte s' : flows s -> port_in RBR_REG s = (byte, s') -> flows_upto [] [byte] s'.
Proof.
  intros [] [= <- <-]. set (v := u8 _). assert (uart_of (trace s ++ [In RBR_REG v]) =
    mk_uart false (u_sent (uart_of (trace s))) (u_received (uart_of (trace s)) ++ [v]) (u_ier (uart_of (trace s)))) as E.
  { rewrite uart_snoc. simpl. by rewrite fl_dlab0. }
  split; simpl; rewrite ?E; try done. simpl. rewrite app_nil_r in fl_received0. by apply sublist_app.
Qed.

Lemma flows_more inp s : flows s -> flows_upto [] inp s.
Proof.
  intros []. split; try done. rewrite app_nil_r in fl_received0. by apply sublist_inserts_r.
Qed.

(** The initialisation of the port writes the divisor while DLAB is set. *)
Lemma init_poll_inv s s' : flows s -> init_poll s = Ok s' -> flows s' /\ mode s' = POLL.
Proof.
  intros Hf H. unfold init_poll, set_serial in H. inv_res. subst. destruct (mode s) eqn:Em; try done.
  unfold intq_init in H. injection H as <-. split; [|done]. destruct Hf. specialize (fl_poll0 ltac:(congruence)).
  assert (forall tr, u_dlab (uart_of tr) = false -> uart_of (outb MCR_REG MCR_OUT2 (outb LCR_REG LCR_N81
    (outb MS_REG (Z.shiftr (u16 (Z.quot (Z.quot 1843200 16) 9600)) 8) (outb LS_REG (Z.land (u16 (Z.quot (Z.quot 1843200 16) 9600)) 0xff)
    (outb LCR_REG (Z.lor LCR_N81 LCR_DLAB) (outb FCR_REG 0 (outb IER_REG 0 tr))))))) =
    mk_uart false (u_sent (uart_of tr)) (u_received (uart_of tr)) 0) as E.
  { intros tr. unfold outb. rewrite !uart_snoc. destruct (uart_of tr) as [dl se re ie]. simpl. by intros ->. }
  specialize (E _ fl_dlab0). destruct (intq_init_ok (txq s) (kst s) (iq_buf _ fl_txq0)) as (Hq & Hc & _).
  split; simpl; rewrite ?E; try done.
  - rewrite fl_out0, fl_poll0. done.
  - intros t ps Hps. apply (points_mode (mode s)); [congruence|by eapply fl_conts0].
Qed.

Lemma conts_of_ok s : io_ok s -> Forall (point_ok (mode s)) (conts_of s).
Proof. intros [[] _]. unfold conts_of. destruct (conts s !! current (kst s)) eqn:E; simpl; [by eapply fl_conts0|done]. Qed.

(** What a thread has to do changes. *)
Lemma put_conts_ok ps s : io_ok s -> Forall (point_ok (mode s)) ps -> io_ok (put_conts ps s).
Proof.
  intros [[] Ha] Hp. split; [|exact Ha]. split; simpl; try done. intros t qs Hq.
  apply lookup_insert_Some in Hq as [[<- <-]|[_ Hq]]; [done|by eapply fl_conts0].
Qed.

(** [serial_putc] from the queue on. *)
Lemma putc_loop_inv byte old s s' : io_ok s -> 0 <= byte < 256 -> mode s = QUEUE -> putc_loop byte old s = Ok s' -> io_ok s' /\ mode s' = QUEUE.
Proof.
  intros [Hf Ha] Hb Hm H. unfold putc_loop in H. inv_run. apply putc_inv in Ha0 as (Hq & _ & Hc); [|apply Hf].
  destruct b; inv_run.
  - apply write_ier_inv in Ha0 as [Hok Hm1].
    + apply restore_view in H as Hv. split; [by apply (view_ok a)|]. injection Hv as _ _ E _ _ _ _. simpl in Hm1. congruence.
    + destruct Hf. split; simpl; try done.
      * rewrite fl_out0, Hc. simpl. by rewrite app_assoc.
      * apply Forall_app. split; [done|]. by apply Forall_singleton.
  - subst. split; [|done]. pose proof (conts_of_ok s (conj Hf Ha)) as Hps. apply put_conts_ok; [by apply (view_ok s)|].
    change (mode (set_kst _ _)) with (mode s). by repeat (apply Forall_cons_2; [simpl; auto|]).
Qed.

Lemma disable_ok s : io_ok s -> io_ok (disable s).
Proof. by apply view_ok. Qed.

Lemma serial_putc_inv byte s s' : io_ok s -> 0 <= byte < 256 -> serial_putc byte s = Ok s' -> io_ok s'.
Proof.
  intros Hok Hb H. unfold serial_putc in H. change (mode (disable s)) with (mode s) in H. apply disable_ok in Hok.
  assert (forall s1, flows s1 -> mode s1 <> QUEUE -> forall s2, putc_poll byte (log_accepted byte s1) = Ok s2 -> io_ok s2) as Hp.
  { intros s1 Hf Hm s2 Hs. apply putc_poll_inv in Hs as (Hf2 & _ & [= _ _ Hm2 _ _ _ _] & _).
    - split; [done|]. intros Hq. simpl in Hm2. congruence.
    - destruct Hf. split; simpl; try done; [|apply Forall_app; split; [done|by apply Forall_singleton]].
      rewrite fl_out0, (fl_poll0 Hm). simpl. by rewrite app_nil_r. }
  destruct (mode s) eqn:Em; inv_run.
  - apply init_poll_inv in Ha as [Hf Hm]; [|apply Hok]. apply restore_view in H. apply (view_ok _ _ H).
    apply (Hp _ Hf); [by rewrite Hm|done].
  - subst. apply restore_view in H. apply (view_ok _ _ H). apply (Hp _ (proj1 Hok)); [simpl; congruence|done].
  - destruct a; inv_run.
    + destruct (send_one _ _ _ _ (proj1 Hok) Ha1 Ha0) as (Hf1 & Har & Hm1). apply putc_loop_inv in H; [by destruct H| |done|].
      * split; [done|]. apply Har, Hok.
      * rewrite Hm1. exact Em.
    + subst. apply putc_loop_inv in H; [by destruct H|done|done|done].
Qed.

Lemma serial_flush_inv s s' : io_ok s -> serial_flush s = Ok s' -> io_ok s'.
Proof.
  intros Hok H. unfold serial_flush in H. inv_res. apply restore_view in H. apply (view_ok _ _ H).
  refine (while_inv io_ok io_ok _ _ _ _ (disable_ok s Hok) Ha). clear. intros s x Hok Hb. inv_res.
  destruct a; simpl in Hb; inv_run; subst; [done|]. destruct (send_one _ _ _ _ (proj1 Hok) Ha0 Ha1) as (Hf1 & Har & _).
  split; [done|]. apply Har, Hok.
Qed.

Lemma serial_init_queue_inv s s' : io_ok s -> serial_init_queue intr_stubs s = Ok s' -> io_ok s'.
Proof.
  intros Hok H. unfold serial_init_queue in H. inv_run. apply restore_view in H. apply (view_ok _ _ H).
  assert (flows a) as Hf.
  { destruct (mode s); inv_res; subst; try apply Hok. by destruct (init_poll_inv s a (proj1 Hok) Ha). }
  eapply write_ier_inv; [|eassumption]. destruct (mode a) eqn:Em; try done. destruct Hf. split; simpl; try done.
  intros t ps Hps. apply (points_mode (mode a)); [congruence|by eapply fl_conts0].
Qed.

Lemma in_ok port s v s' : port <> RBR_REG -> port_in port s = (v, s') -> io_ok s -> io_ok s'.
Proof.
  intros Hp [= <- <-] [Hf Ha]. pose proof (uart_in port (u8 (dev (trace s) port)) (trace s) Hp) as E.
  split; [by apply trace_flows|by apply trace_armed].
Qed.

(** The handler of the port: one round of its two loops, and the whole. *)
Lemma receive_round s x : io_ok s ->
  (f ← input_full s;
   if negb f then
     let '(v, s) := port_in LSR_REG s in
     if negb (Z.land v LSR_DR =? 0) then
       let '(b, s) := port_in RBR_REG s in s ← input_putc b s; Ok (inl s)
     else Ok (inr s)
   else Ok (inr s)) = Ok x -> match x with inl s' => io_ok s' | inr s' => io_ok s' end.
Proof.
  intros Hok H. inv_res. destruct a; simpl negb in H; cbv iota in H; [by simplify_eq|].
  destruct (port_in LSR_REG s) as [v s1] eqn:E1. apply (in_ok LSR_REG) in E1; [|done|done].
  destruct (negb (Z.land v LSR_DR =? 0)); [|by simplify_eq].
  destruct (port_in RBR_REG s1) as [b s2] eqn:E2. inv_res. subst. apply in_rbr in E2; [|apply E1]. by apply input_putc_inv in Ha0 as [? _].
Qed.

Lemma transmit_round s x : io_ok s ->
  (e ← intq_empty (txq s) (kst s);
   if negb e then
     let '(v, s) := port_in LSR_REG s in
     if negb (Z.land v LSR_THRE =? 0) then
       '(b, s) ← txq_getc s; Ok (inl (port_out THR_REG b s))
     else Ok (inr s)
   else Ok (inr s)) = Ok x -> match x with inl s' => io_ok s' | inr s' => io_ok s' end.
Proof.
  intros Hok H. inv_res. destruct a; simpl negb in H; cbv iota in H; [by simplify_eq|].
  destruct (port_in LSR_REG s) as [v s1] eqn:E1. apply (in_ok LSR_REG) in E1; [|done|done].
  destruct (negb (Z.land v LSR_THRE =? 0)); [|by simplify_eq].
  inv_run. subst. apply txq_getc_inv in Ha0 as (Hf & Ha1 & _ & _); [|apply E1]. destruct (out_thr _ _ Hf) as [Hf2 Hi].
  split; [done|]. intros Hm. rewrite Hi. apply Ha1; [apply E1|exact Hm].
Qed.

Lemma serial_interrupt_inv s s' : io_ok s -> serial_interrupt s = Ok s' -> io_ok s'.
Proof.
  intros Hok H. unfold serial_interrupt in H. destruct (port_in IIR_REG s) as [v s1] eqn:E1.
  apply (in_ok IIR_REG) in E1; [|done|done]. inv_res. apply write_ier_inv in H as [? _]; [done|].
  apply (while_inv io_ok io_ok) in Ha; [|by apply receive_round|done].
  apply (while_inv io_ok io_ok) in Ha0; [apply Ha0|by apply transmit_round|done].
Qed.

Lemma getc_loop_inv old s s' : io_ok s -> getc_loop old s = Ok s' -> io_ok s'.
Proof.
  intros Hok H. unfold getc_loop in H. inv_run. apply getc_inv in Ha as (Hq & _ & Hc); [|apply Hok].
  destruct o as [byte|]; inv_run.
  - apply restore_view in H. apply (view_ok _ _ H). apply serial_notify_inv in Ha as [? _]; [done|].
    destruct Hok as [[] _]. split; simpl; try done. by rewrite fl_in0, Hc, <- app_assoc.
  - subst. pose proof (conts_of_ok s Hok) as Hps. apply put_conts_ok; [by apply (view_ok s)|].
    by repeat (apply Forall_cons_2; [done|]).
Qed.

(** The queues change, their contents do not. *)
Lemma queue_ok s : io_ok s -> forall q k, intq_ok q ->
  (contents q = contents (buffer s) -> io_ok (set_buffer (set_kst s k) q)) /\
  (contents q = contents (txq s) -> io_ok (set_txq (set_kst s k) q)).
Proof.
  intros [[] Ha] q k Hq. split; intros E; (split; [|unfold armed; simpl; rewrite E; exact Ha]); split; simpl; rewrite ?E; done.
Qed.

Lemma exec_point_inv p ps s s' : io_ok s -> conts_of s = p :: ps -> exec_point p (put_conts ps s) = Ok s' -> io_ok s'.
Proof.
  intros Hok Hc H. pose proof (conts_of_ok s Hok) as Hp. rewrite Hc in Hp. apply Forall_cons in Hp as [Hp Hps].
  pose proof (put_conts_ok ps s Hok Hps) as Hok1. destruct p; simpl in H.
  - by eapply getc_loop_inv.
  - inv_run. apply wait_inv in Ha as (Hq & _ & E); [|apply Hok]. subst. by apply (queue_ok _ Hok1).
  - inv_res. subst. by apply (view_ok (put_conts ps s)).
  - destruct Hp as [Hb Hm]. by apply putc_loop_inv in H as [? _].
  - inv_run. apply wait_inv in Ha as (Hq & _ & E); [|apply Hok]. subst. by apply (queue_ok _ Hok1).
  - inv_res. subst. by apply (view_ok (put_conts ps s)).
Qed.

Lemma keyboard_interrupt_inv s s' : io_ok s -> keyboard_interrupt s = Ok s' -> io_ok s'.
Proof.
  intros Hok H. unfold keyboard_interrupt in H. destruct (read_scancode s) as [code s1] eqn:E1.
  assert (io_ok s1) as Hok1.
  { unfold read_scancode in E1. destruct (port_in DATA_REG s) as [c s2] eqn:E2. apply (in_ok DATA_REG) in E2; [|done|done].
    destruct (c =? 0xe0); [|by simplify_eq]. destruct (port_in DATA_REG s2) as [c2 s3] eqn:E3. apply (in_ok DATA_REG) in E3; [|done|done].
    by simplify_eq. }
  destruct (interpret_key code (kbd s1)) as [[| |c] k]; inv_res; subst; [by apply (view_ok s1)|].
  destruct a; simpl in H; inv_res; subst; [by apply (view_ok s1)|].
  apply input_putc_inv in H as [? _]; [done|]. apply flows_more. apply (view_flows _ _ s1); [done|apply Hok1].
Qed.

Lemma out_ok port v s : port <> LCR_REG -> port <> THR_REG -> port <> IER_REG -> io_ok s -> io_ok (set_trace s (outb port v (trace s))).
Proof.
  intros H1 H2 H3 [Hf Ha]. assert (uart_of (outb port v (trace s)) = uart_of (trace s)) as E.
  { unfold outb. rewrite uart_snoc. simpl. rewrite !(proj2 (Z.eqb_neq _ _)) by done. by destruct (u_dlab _). }
  split; [by apply trace_flows|by apply trace_armed].
Qed.

Lemma call_handler_inv h s s' : io_ok s -> call_handler h s = Ok s' -> io_ok s'.
Proof.
  destruct h; simpl; intros Hok H.
  - inv_res. subst. by apply (view_ok s).
  - by apply (keyboard_interrupt_inv s).
  - by apply (serial_interrupt_inv s).
Qed.

Lemma external_interrupt_inv vec s s' : io_ok s -> external_interrupt vec s = Ok s' -> io_ok s'.
Proof.
  intros Hok H. unfold external_interrupt in H. set (s0 := set_kst s _) in H.
  assert (io_ok s0) as Hok0 by by apply (view_ok s). clearbody s0. inv_res.
  set (s1 := set_kst s0 _) in Ha2. assert (io_ok s1) as Hok1 by by apply (view_ok s0). clearbody s1.
  assert (io_ok a2) as Hok2.
  { destruct a1 as [h|]; [by apply (call_handler_inv h s1)|]. destruct (_ || _); [by simplify_eq|].
    inv_run. subst. by destruct b; apply (view_ok s1). }
  unfold pic_end_of_interrupt in Ha5. inv_res. subst.
  assert (io_ok (set_trace a2 (if 0x28 <=? vec then outb 0xa0 0x20 (outb 0x20 0x20 (trace a2)) else outb 0x20 0x20 (trace a2)))) as Hok3.
  { pose proof (out_ok 0x20 0x20 a2 ltac:(done) ltac:(done) ltac:(done) Hok2) as Hok3. destruct (0x28 <=? vec); [|done].
    by apply (out_ok 0xa0 0x20) in Hok3. }
  eapply view_ok; [|exact Hok3]. done.
Qed.

Lemma io_act_inv a s s' : io_ok s -> io_act intr_stubs a s = Ok s' -> io_ok s'.
Proof.
  intros Hok H. destruct a; simpl in H; inv_res; try (destruct a; [|discriminate H]).
  - destruct (code a) as [|i k]; [|inv_res; subst; by apply (view_ok s)].
    destruct (conts_of s) as [|p ps] eqn:Ec; [done|]. by apply (exec_point_inv p ps s).
  - destruct a0; [|discriminate H]. inv_res. subst. by apply (view_ok s).
  - apply getc_loop_inv in H; [done|by apply disable_ok].
  - apply serial_putc_inv in H; [done|done|]. apply Z.mod_pos_bound. lia.
  - by apply serial_flush_inv in H.
  - by apply serial_init_queue_inv in H.
  - destruct (_ && _ && _); [|done]. by apply external_interrupt_inv in H.
Qed.

Lemma zero_intq_ok l : intq_ok (zero_intq l) /\ contents (zero_intq l) = [].
Proof. split; [by split|done]. Qed.

Lemma io_boot_inv t pages s : io_boot intr_stubs idt_base t pages = Ok s -> io_ok s.
Proof.
  intros H. unfold io_boot, intr_init, timer_init, kbd_init, pit_configure_channel in H. inv_run. subst.
  injection Ha0 as _ <-. injection Ha8 as _ <-.
  clear. split; [|done]. split; simpl; try apply zero_intq_ok; try done.
Qed.

Lemma io_reach_ok t pages s0 s : io_boot intr_stubs idt_base t pages = Ok s0 -> rtc (io_step intr_stubs) s0 s -> io_ok s.
Proof.
  intros Hb Hr. apply io_boot_inv in Hb. induction Hr as [s|s s1 s2 [a Ha] _ IH]; [done|]. apply IH. by eapply io_act_inv.
Qed.
End Spec.

(** C11: The serial port sends what it was given, in order.  In every state that boot,
    threads and interrupts reach, whatever the devices answer, the bytes written to the
    transmit register followed by those still queued are exactly the bytes that
    [serial_putc] accepted, through the change from polled to queued mode, sleeping
    writers, [serial_flush] and the polled output of callers with interrupts off.  At most
    63 bytes are queued; while any are, in queued mode, the transmit interrupt is enabled;
    and a thread sleeps for room only while there is none. *)
Theorem serial_output_in_order {D : Device} {PC : PageChoice} intr_stubs idt_base t pages s0 s :
  io_boot intr_stubs idt_base t pages = Ok s0 -> rtc (io_step intr_stubs) s0 s ->
  let u := uart_of (trace s) in
  accepted s = u_sent u ++ contents (txq s) /\ (length (contents (txq s)) <= 63)%nat /\
  (mode s = QUEUE -> contents (txq s) <> [] -> Z.testbit (u_ier u) 1 = true) /\
  (not_full (txq s) <> NULL -> length (contents (txq s)) = 63%nat).
Proof.
  intros Hb Hr u. destruct (io_reach_ok intr_stubs idt_base t pages s0 s Hb Hr) as [[] Ha]. split; [done|].
  split; [apply contents_bound|]. split; [intros Hm; apply (Ha Hm)|apply fl_txq0].
Qed.

(** C12: Input is delivered in order.  In every reachable state the bytes that the
    keyboard and the port put into the input buffer are those that [input_getc] has
    returned followed by those in the buffer; every byte read from the port is among them,
    in order; while the buffer has room, in queued mode, the receive interrupt is enabled;
    and a thread sleeps for input only while there is none. *)
Theorem input_in_order {D : Device} {PC : PageChoice} intr_stubs idt_base t pages s0 s :
  io_boot intr_stubs idt_base t pages = Ok s0 -> rtc (io_step intr_stubs) s0 s ->
  let u := uart_of (trace s) in
  stored s = taken s ++ contents (buffer s) /\ sublist (u_received u) (stored s) /\
  (mode s = QUEUE -> (length (contents (buffer s)) < 63)%nat -> Z.testbit (u_ier u) 0 = true) /\
  (not_empty (buffer s) <> NULL -> contents (buffer s) = []).
Proof.
  intros Hb Hr u. destruct (io_reach_ok intr_stubs idt_base t pages s0 s Hb Hr) as [[] Ha]. split; [done|].
  split; [by rewrite app_nil_r in fl_received0|]. split; [intros Hm; apply (Ha Hm)|apply fl_buffer0].
Qed.

(** ** Concrete runs *)

Definition reads (port : Z) (tr : list io_event) : nat :=
  length (List.filter (fun e => match e with In p _ => p =? port | _ => false end) tr).

(** A port that is always ready to send and on which two bytes arrive. *)
Definition two_bytes : Device := fun tr port =>
  if port =? LSR_REG then (if Nat.ltb (reads RBR_REG tr) 2 then 0x21 else 0x20)
  else if port =? RBR_REG then nth (reads RBR_REG tr) [97; 98] 0
  else 0.

Fixpoint io_acts `{Device, PageChoice} (xs : list io_action) (s : io) : res io :=
  match xs with [] => Ok s | x :: xs => s ← io_act example_stubs x s; io_acts xs s end.

Definition demo_io (xs : list io_action) : res io :=
  s ← io_boot (PC := first_page) example_stubs 0xc0040000 4096 demo_pages;
  io_acts (H := two_bytes) (H0 := first_page) xs s.

Definition demo_io_state (xs : list io_action) : io :=
  match demo_io xs with Ok s => s | Err _ => io_zero (boot_state 4096 ∅) end.

Lemma io_acts_steps `{Device, PageChoice} xs s s' : io_acts xs s = Ok s' -> rtc (io_step example_stubs) s s'.
Proof.
  revert s. induction xs as [|x xs IH]; intros s E; simpl in E; [by simplify_eq|]. inv_res.
  eapply rtc_l; [by exists x|]. by apply IH.
Qed.

#[local] Opaque io_boot io_acts.

Lemma demo_io_reach xs : match demo_io xs with Ok _ => true | Err _ => false end = true ->
  exists s0, io_boot (PC := first_page) example_stubs 0xc0040000 4096 demo_pages = Ok s0 /\
    rtc (io_step (D := two_bytes) (PC := first_page) example_stubs) s0 (demo_io_state xs).
Proof.
  intros H. unfold demo_io_state. destruct (demo_io xs) as [s|] eqn:E; [|discriminate H]. unfold demo_io in E.
  apply bind_ok_inv in E as (s0 & Hb & E). exists s0. split; [exact Hb|]. exact (io_acts_steps xs s0 s E).
Qed.

(** A thread writes three bytes; the handler sends them and receives two. *)
Definition talk_script : list io_action :=
  [Serial_putc 72; Serial_init_queue; Serial_putc 105; Serial_putc 10; Irq 0x24; Step; Input_getc].

Lemma serial_output_in_order_witness :
  let s := demo_io_state talk_script in let u := uart_of (trace s) in
  accepted s = u_sent u ++ contents (txq s) /\ (length (contents (txq s)) <= 63)%nat /\
  (mode s = QUEUE -> contents (txq s) <> [] -> Z.testbit (u_ier u) 1 = true) /\
  (not_full (txq s) <> NULL -> length (contents (txq s)) = 63%nat).
Proof.
  destruct (demo_io_reach talk_script) as (s0 & Hb & Hr); [vm_compute; reflexivity|].
  exact (serial_output_in_order (D := two_bytes) (PC := first_page) example_stubs 0xc0040000 4096 demo_pages s0 _ Hb Hr).
Defined.

Lemma input_in_order_witness :
  let s := demo_io_state talk_script in let u := uart_of (trace s) in
  stored s = taken s ++ contents (buffer s) /\ sublist (u_received u) (stored s) /\
  (mode s = QUEUE -> (length (contents (buffer s)) < 63)%nat -> Z.testbit (u_ier u) 0 = true) /\
  (not_empty (buffer s) <> NULL -> contents (buffer s) = []).
Proof.
  destruct (demo_io_reach talk_script) as (s0 & Hb & Hr); [vm_compute; reflexivity|].
  exact (input_in_order (D := two_bytes) (PC := first_page) example_stubs 0xc0040000 4096 demo_pages s0 _ Hb Hr).
Defined.

(** Two threads call [input_getc] on the empty buffer; two bytes arrive; the first thread
    takes one and yields. *)
Definition two_readers_script : list io_action :=
  [Serial_init_queue; CharIo.Invoke (Call_thread_create 31)] ++ replicate 16 Step ++
  [Input_getc; Step; Step; Step; Step; Step; Input_getc; Step; Step; Step; Irq 0x24] ++
  replicate 6 Step ++ [CharIo.Invoke Call_thread_yield; Step; Step; Step].

(** A run in which two readers panic the kernel.  A thread sleeps in [input_getc] and a
    second one waits for the queue's lock; two bytes arrive in one interrupt.  The first
    thread takes a byte and releases the lock; the second one then goes on to [wait],
    whose assertion that the queue is empty fails, since its loop tests the queue before
    the lock is acquired and not after. *)
Example two_readers_panic :
  match demo_io two_readers_script with
  | Ok s => taken s = [97] /\ contents (buffer s) = [98] /\ current (kst s) = 16384 /\
      io_act (D := two_bytes) (PC := first_page) example_stubs Step s = Err AssertFail
  | Err _ => False
  end.
Proof. vm_compute. done. Qed.
